(* ===== verification/_CoqProject ===== *)
-Q . S2P
Prelude.v
Strings.v
Regex.v
Sql.v
Durable.v
Json.v
JsonText.v
Sha256.v
Redaction.v
Disclosure.v
Guardrails.v
Pricing.v
MonetaryLedger.v
ChargeRepository.v
BudgetedProvider.v
Policy.v
Authorization.v
Numbers.v
Reflection.v
Engine.v
EngineProofs.v
EngineBudgets.v
EngineEnding.v
EffectLedger.v
EffectExecutor.v
EffectIdentity.v
Compliance.v
ToolRegistry.v
ToolEffects.v
JobQueue.v
CircuitBreaker.v
RateLimiter.v
Approvals.v
LiveApprovals.v
RunLedger.v
RunLedgerLaws.v
RunPayloads.v
RunRetention.v
Envelope.v
VerifierModels.v
Verifier.v
RunExports.v
RunExportLaws.v
