(* ===== verification/Prelude.v ===== *)
(** * Cogentrex, a verification development

    Cogentrex is an agent control plane: a FastAPI backend that runs model turns and
    tool calls under a policy, with human approvals, budgets and durable evidence.
    This library models the part of [src/backend/app/] that decides whether money is
    spent, an external effect happens, a request is admitted, a job runs, a secret is
    stored or a child agent is trusted, and proves what that code promises. File names below are relative to
    [src/backend/app/].

    ** Parts and how they interact

    - Money. [observability/cost_tracker.py] prices usage; [services/monetary_budget.py]
      keeps project budgets, run budgets and model charges in three tables;
      [runtime/monetary_budget.py] wraps every model call in a reservation, a dispatch
      mark and a reconciliation against that repository.
    - Effects. [services/effect_ledger.py] keeps a tombstone per external effect;
      [runtime/effect_executor.py] wraps every effectful tool call in it, under the
      identity [runtime/effect_ledger.py] computes. [tools/registry.py] validates and runs
      the tools themselves, [security/compliance.py] the text they carry.
    - The run. [runtime/engine.py] asks a model, decides about the tool calls it
      returns and executes them, within budgets, until it stops with one result; its
      answer may be criticised and revised once by the same model
      ([reflection/service.py]).
    - Policy. [security/policy.py] decides, before a tool runs, whether it may, and
      [security/approvals.py] what a human is asked; [security/approval_repository.py]
      keeps those requests and their decisions, [security/live_approvals.py] makes a
      running agent wait for one.
    - Evidence. [services/run_ledger.py] keeps runs, their events and their forks;
      [security/disclosure.py], [security/pii_detector.py],
      [security/persistence_redactor.py] and [security/guardrails.py] decide what text
      may be stored or shown; [services/run_exports.py] freezes a run's evidence in
      checksummed bundles and shares them.
    - Delegation. [delegation/service.py] runs a verifier agent under an envelope
      ([delegation/envelope.py]) that a parent run issues once.
    - Jobs. [services/task_queue.py] leases background jobs to workers.
    - Admission. [security/circuit_breaker.py] guards the model provider,
      [security/rate_limiter.py] the HTTP interface.

    ** Files

    - [Prelude]: Python results ([result], a value or an exception), field update,
      integer ranges, identifiers, automation ([inv_result], [bool_to_prop], the hint
      database [cogentrex]).
    - [Strings]: the [str] methods the source uses, on ASCII text.
    - [Sql]: tables as finite maps, [UPDATE .. WHERE] with row counts, sums.
    - [Durable]: programs over a store that other clients change between any two
      awaits, whose calls may fail before or after their commit and whose caller may
      cancel; the interface [Store], the weakest preconditions of such programs and
      [_cancellation_resistant].
    - [Json], [JsonText]: [json.dumps] in the forms the source uses, [json.loads].
    - [Sha256]: SHA-256, HMAC, their text forms, checked on published vectors.
    - [Regex], [Redaction], [Disclosure], [Guardrails]: the matcher for the patterns the
      source uses, the detector and the redactor, the disclosure scan, the guardrails.
    - [Pricing]: [price_model_usage_nusd], [quote_model_call_nusd].
    - [MonetaryLedger]: every method of [MonetaryBudgetRepository] on a [ledger], the
      tables [ProjectBudgetRow], [RunRow], [ModelChargeRow] of [services/db_store.py],
      and the deletion of runs of [services/run_ledger.py].
    - [ChargeRepository]: the interface between the two money components: a class of
      operations, a class of laws, and the ledger as an instance of both.
    - [BudgetedProvider]: [DurableBudgetedProvider] and [usd_limit_to_nusd], proved
      against that interface.
    - [Policy]: resources, rules, requests, [RulePolicyEngine.evaluate].
    - [Authorization]: the request to a human and the outcome.
    - [Numbers]: float literals as the numbers they stand for, decimals rounded to 28
      digits. [Reflection]: the policy, verdicts, prompts and limits of
      [BoundedReflectionService], whose calls are in [Engine].
    - [Engine]: [AgentRuntime.run] and everything under it, over collaborators that may
      answer, raise and change the calls they were shown at any time. [EngineProofs]
      follows each part through a preorder on its worlds and proves what may be
      executed; [EngineBudgets] the counts and the end of the loop; [EngineEnding] the
      terminal state.
    - [Approvals]: every method of [ApprovalRepository]. [LiveApprovals]: the broker in
      memory as steps on a heap of futures, the durable broker as a polling program.
    - [EffectLedger]: every method of [EffectRepository].
    - [EffectExecutor]: the interface of the effect ledger with its instance,
      [DurableEffectToolExecutor.execute] and [_output_evidence].
    - [EffectIdentity]: [EffectIdentityInput] and [bind_effect_identity], which give the
      executor the key of a tombstone.
    - [Compliance]: the content checker and the mandatory service. [ToolRegistry]:
      [SecureToolRegistry] with its schemas, arguments, policy requests and execution, and
      the lexical workspace resolver. [ToolEffects]: the executor over both.
    - [RunLedger], [RunPayloads], [RunRetention]: the methods of [RunRepository];
      [RunLedgerLaws] proves their laws over any history.
    - [RunExports]: [RunExportService] with its two tables; [RunExportLaws] what it
      guarantees of bundles and grants.
    - [Envelope], [VerifierModels], [Verifier]: delegation envelopes and their receipts,
      the contracts of the verifier, one verification as a program over the store.
    - [JobQueue]: [DurableJobQueue] and its table.
    - [CircuitBreaker]: [CircuitBreaker] and [CircuitBreakingProvider].
    - [RateLimiter]: [RateLimiter], local and in Redis.

    Definitions keep the names of the source. A method that changes state is a
    function from a table to a table and a result. Where a method reads a row in one
    statement and updates in another, a stale read is an extra argument (names in
    [_at], arguments [seen], [view], [reread]); the plain name reads what it updates.
    Histories are the reflexive and transitive closure of one step per committed call
    with arbitrary arguments and clock, so a statement about reachable states holds
    for any number of clients in any order.

    ** What the theorems show

    - A run executes nothing that was not returned by the model, described by the
      executor, and allowed by the policy or approved by a human, exactly
      ([nothing_runs_unvetted]); it keeps its budgets of tool calls and model calls, those
      of reflection counted ([budgets_respected]), ends ([loop_runs_to_its_end]) and emits one terminal event
      that agrees with its result ([one_terminal_event]). Reflection keeps its limits, and
      the draft where it does not revise it ([reflection_keeps_its_limits]).
    - Approval requests are decided once, by their owner, before their deadline, and
      read back as they were reserved; a waiting run gets that decision or its deadline
      ([broker_answer_is_owners], [waiting_reports_the_decision], [waiting_ends]).
    - Budgets balance: the reserved and spent columns are the sums over the charges
      and within the limits ([books_balance]); a charge moves along its automaton
      ([charge_lifecycle]) and is dispatched once ([dispatch_authorised_once]); what
      reservations and run openings decide on every branch; that held charges can be
      settled; recovery of stale charges, and the case in which it fails.
    - The provider never strands money whatever fails or is cancelled
      ([complete_never_strands]), calls the model at most once
      ([complete_dispatches_once]), pays exactly for what it returns, and succeeds
      when budget and usage allow ([quoted_call_succeeds]).
    - Prices are exact ceilings and quotes cover all usage they were made for.
    - Effects run at most once over any history, tombstones are final, and the
      executor leaves none reserved ([execute_never_strands]); an effect's id stands for
      the logical effect, so a retry never runs it again ([effect_id_identifies],
      [logical_effect_runs_once]), and the validation of its arguments, a loop with an
      explicit stack, accepts exactly what its recursive reading accepts
      ([validation_accepts_exactly]).
    - Tools: a handler runs only through the gates its registry has: always schema and
      visibility, permissions with a checker, compliance for tools with effects
      ([execution_is_gated]); and end to end
      an effect is reserved only for a visible tool with conforming, compliant arguments
      ([granted_effects_are_vetted]); a workspace path stays in its workspace; accepted
      arguments are exactly the conforming ones ([arguments_accepted_exactly]).
    - Text: a redacted text shows no detected entity ([redaction_covers_detections]); the
      iterative disclosure scan is its recursive reference ([scan_is_reference]).
    - Runs: the event log only grows, without gaps, rows meet their constraints, a fork
      is inherited once, payloads come from allow-listed fields, retention keeps its budget
      unless a foreign key blocks it, which depends on the database ([event_budget_is_met]).
    - Exports: the paged read collects every event ([export_reads_every_event]); a created
      bundle reads back exactly when its text passes a second scan
      ([created_export_reads_back], and [created_but_unreadable] when it does not), an
      altered one is refused; a bundle is handed out only under a live grant
      ([redemption_is_authorized]), never after its revocation ([revocation_is_final]).
    - Delegation: an accepted envelope is genuine and had no unexpired receipt of its nonce
      ([accepted_envelope_is_genuine]; a call stalled past the receipt's expiry can accept
      it again, [stalled_call_replays]); the verifier fails closed,
      asks within its budget and decides once.
    - The policy engine selects the most specific rule, DENY before others, and
      allows nothing a covering ALLOW rule or the read-only default does not; path
      rules work by path components.
    - Jobs: reports of workers count only under the current lease
      ([accepted_report_is_current]); rows meet their CHECK constraints; no job is
      lost, restarted silently or stuck; payloads survive their JSON text.
    - The breaker has one probe, opens at its threshold, recovers and ignores stale
      outcomes; the limiter never exceeds its window, and its Redis paths agree.

    ** Numbers, text, time and fuel

    Integers are [Z]; where the source checks a range ([in_bigint]) so do the
    definitions. Decimals are integers of a fixed scale, with the 28 digit context of
    Python's [decimal] where rounding can occur. Text is ASCII except in [Json] and
    [JsonText], which work on UTF-8. Times are integers in the unit each file names.
    Fuel is used where recursion is not structural, each time with a proof that it is
    enough: the loop of [Engine] ([loop_runs_to_its_end]), the waiting loop of
    [LiveApprovals] ([waiting_ends]), the verifier's loop (one unit per attempt the budget
    allows), the traversals of [EffectExecutor] ([evidence_fuel_enough]) and
    [EffectIdentity] ([walk_is_check]), the JSON parser ([loads_dumps]), the pages of [RunExports]
    ([export_reads_every_event]), the regex search
    and the blocks of SHA-256 (the length of the text).

    ** What is not modelled

    Third-party code is an argument: the [idna] package, when a database checks its foreign
    keys, the entities of a spaCy model,
    the wrapped model provider, the tools. SHA-256 and HMAC are in [Sha256]; the older
    files take a digest as an argument and hold for any. The runtime's collaborators are
    arguments too: model, tools, policy engine, authorizer, event sink, recorder, the
    compliance text and the parsing of structured output; their
    times are a clock on integers, and tool arguments and outputs are JSON objects. The
    wait of [_deadline_result] for a terminal task under way is part of that task here.
    Routes, provider adapters, MCP transport, retrieval with floating-point scores,
    prompts, telemetry, evaluation and the frontend are glue or I/O. Logging is dropped
    everywhere. *)

From Stdlib Require Import ZArith Lia String Ascii.
From stdpp Require Import base gmap strings list fin_maps sorting.

(** ** Results: Python code that returns or raises *)

Inductive result (E A : Type) : Type :=
| Ok (a : A)
| Err (e : E).
Arguments Ok {E A} a.
Arguments Err {E A} e.

#[export] Instance result_eq_dec `{EqDecision E, EqDecision A} : EqDecision (result E A).
Proof. solve_decision. Defined.

#[export] Instance result_ret {E} : MRet (result E) := fun A a => Ok a.
#[export] Instance result_bind {E} : MBind (result E) :=
  fun A B f m => match m with Ok a => f a | Err e => Err e end.
#[export] Instance result_fmap {E} : FMap (result E) :=
  fun A B f m => match m with Ok a => Ok (f a) | Err e => Err e end.

(** [if not b: raise e] *)
Definition require {E} (b : bool) (e : E) : result E unit :=
  if b then Ok tt else Err e.

(** A callee's exception seen by a caller with a wider exception type. *)
Definition lift_err {E F A} (f : E -> F) (m : result E A) : result F A :=
  match m with Ok a => Ok a | Err e => Err (f e) end.

Definition is_ok {E A} (m : result E A) : bool :=
  match m with Ok _ => true | Err _ => false end.

Lemma bind_Ok {E A B} (m : result E A) (f : A -> result E B) b : m ≫= f = Ok b -> exists a, m = Ok a /\ f a = Ok b.
Proof. destruct m as [a|e]; [|done]. intros H. by exists a. Qed.

Lemma require_Ok {E} b (e : E) u : require b e = Ok u -> b = true.
Proof. by destruct b. Qed.

Lemma lift_err_Ok {E F A} (f : E -> F) (m : result E A) a : lift_err f m = Ok a -> m = Ok a.
Proof. destruct m; [|done]. by intros [= ->]. Qed.

(** ** Field update, [r <| field := v |>] *)

Class SetField {R T : Type} (proj : R -> T) := set_field : T -> R -> R.
Arguments set_field {R T} proj {_} v r.

Declare Scope record_scope.
Delimit Scope record_scope with rec.
Notation "r <| p := v |>" := (set_field p v r)
  (at level 1, left associativity, p at level 99, v at level 99) : record_scope.
Open Scope record_scope.

(** ** Machine ranges *)

Definition MAX_BIGINT : Z := 9223372036854775807.
Definition MAX_INT32 : Z := 2147483647.

Definition in_bigint (z : Z) : bool := (0 <=? z)%Z && (z <=? MAX_BIGINT)%Z.

Lemma in_bigint_spec z : in_bigint z = true <-> (0 <= z <= MAX_BIGINT)%Z.
Proof. unfold in_bigint. rewrite andb_true_iff, !Z.leb_le. done. Qed.

(** Exact ceiling of [a / b] for a positive [b]. *)
Definition ceil_div (a b : Z) : Z := (- ((- a) / b))%Z.

Lemma ceil_div_mono a a' b : (0 < b)%Z -> (a <= a')%Z -> (ceil_div a b <= ceil_div a' b)%Z.
Proof.
  intros Hb Ha. unfold ceil_div.
  assert (- a' / b <= - a / b)%Z by (apply Z.div_le_mono; lia). lia.
Qed.

Lemma ceil_div_spec a b : (0 < b)%Z -> (a <= b * ceil_div a b < a + b)%Z.
Proof.
  intros Hb. unfold ceil_div.
  pose proof (Z.div_mod (- a) b ltac:(lia)). pose proof (Z.mod_pos_bound (- a) b Hb). lia.
Qed.

Lemma ceil_div_unique a b c : (0 < b)%Z -> (a <= b * c < a + b)%Z -> c = ceil_div a b.
Proof. intros Hb Hc. pose proof (ceil_div_spec a b Hb). nia. Qed.

Lemma ceil_div_nonneg a b : (0 < b)%Z -> (0 <= a)%Z -> (0 <= ceil_div a b)%Z.
Proof. intros Hb Ha. pose proof (ceil_div_spec a b Hb). nia. Qed.

(** ** Characters and identifiers *)

Definition between (lo hi c : Ascii.ascii) : bool :=
  (Ascii.nat_of_ascii lo <=? Ascii.nat_of_ascii c)%nat
  && (Ascii.nat_of_ascii c <=? Ascii.nat_of_ascii hi)%nat.

Definition is_digit (c : Ascii.ascii) : bool := between "0"%char "9"%char c.
Definition is_lower (c : Ascii.ascii) : bool := between "a"%char "z"%char c.
Definition is_upper (c : Ascii.ascii) : bool := between "A"%char "Z"%char c.
Definition is_alnum (c : Ascii.ascii) : bool := is_digit c || is_lower c || is_upper c.

Definition lower_char (c : Ascii.ascii) : Ascii.ascii :=
  if is_upper c then Ascii.ascii_of_nat (Ascii.nat_of_ascii c + 32) else c.

Fixpoint string_forall (p : Ascii.ascii -> bool) (s : string) : bool :=
  match s with
  | EmptyString => true
  | String c s' => p c && string_forall p s'
  end.

Fixpoint string_filter (p : Ascii.ascii -> bool) (s : string) : string :=
  match s with
  | EmptyString => EmptyString
  | String c s' => if p c then String c (string_filter p s') else string_filter p s'
  end.

Fixpoint string_map (f : Ascii.ascii -> Ascii.ascii) (s : string) : string :=
  match s with
  | EmptyString => EmptyString
  | String c s' => String (f c) (string_map f s')
  end.

(** [str.lower] and [str.casefold], which agree on ASCII text. *)
Definition lower (s : string) : string := string_map lower_char s.

Definition string_eqb (a b : string) : bool := bool_decide (a = b).

Lemma string_eqb_spec a b : string_eqb a b = true <-> a = b.
Proof. unfold string_eqb. apply bool_decide_eq_true. Qed.

Lemma string_eqb_neq a b : string_eqb a b = false <-> a <> b.
Proof. unfold string_eqb. apply bool_decide_eq_false. Qed.

Lemma string_eqb_refl a : string_eqb a a = true.
Proof. by apply string_eqb_spec. Qed.

(** The pattern [^[A-Za-z0-9][A-Za-z0-9_.:-]*$] of the repositories, with the
    length test done before it. *)
Definition safe_id_char (c : Ascii.ascii) : bool :=
  is_alnum c || bool_decide (c ∈ ["_"; "."; ":"; "-"]%char).

Definition safe_id (s : string) : bool :=
  match s with
  | EmptyString => false
  | String c s' => is_alnum c && string_forall safe_id_char s'
  end.

(** [^[0-9a-f]{64}$] *)
Definition is_hex64 (s : string) : bool :=
  (String.length s =? 64)%nat && string_forall (fun c => is_digit c || between "a" "f" c) s.

(** [^[a-z][a-z0-9_]{0,63}$] *)
Definition lower_code (s : string) : bool :=
  match s with
  | EmptyString => false
  | String c rest =>
      is_lower c && (String.length rest <=? 63)%nat
      && string_forall (fun c => is_lower c || is_digit c || Ascii.eqb c "_") rest
  end.

(** ** Automation *)

Create HintDb cogentrex.

(** Split every [match] on the way to a returned value. *)
Ltac inv_result :=
  repeat match goal with
  | H : Ok _ = Ok _ |- _ => injection H as H; subst
  | H : Err _ = Err _ |- _ => injection H as H; subst
  | H1 : ?x = Ok _, H2 : ?x = Ok _ |- _ => rewrite H1 in H2
  | H1 : ?x = Err _, H2 : ?x = Err _ |- _ => rewrite H1 in H2
  | H1 : ?x = Ok _, H2 : ?x = Err _ |- _ => rewrite H1 in H2
  | H : Ok _ = Err _ |- _ => discriminate H
  | H : Err _ = Ok _ |- _ => discriminate H
  | H : mbind _ ?m = Ok _ |- _ => destruct m eqn:?; cbn [mbind result_bind] in H
  | H : (let '(_, _) := ?p in _) = Ok _ |- _ => destruct p as [? ?]
  | H : require ?b _ = Ok _ |- _ =>
      unfold require in H; destruct b eqn:?; [clear H | discriminate H]
  | H : lift_err _ ?m = Ok _ |- _ => destruct m eqn:?; cbn [lift_err] in H
  end.

Ltac bool_to_prop :=
  repeat match goal with
  | H : _ && _ = true |- _ => apply andb_true_iff in H as [? ?]
  | H : _ && _ = false |- _ => apply andb_false_iff in H
  | H : _ || _ = false |- _ => apply orb_false_iff in H as [? ?]
  | H : negb _ = true |- _ => apply negb_true_iff in H
  | H : negb _ = false |- _ => apply negb_false_iff in H
  | H : bool_decide _ = true |- _ => apply bool_decide_eq_true in H
  | H : bool_decide _ = false |- _ => apply bool_decide_eq_false in H
  | H : string_eqb _ _ = true |- _ => apply string_eqb_spec in H
  | H : string_eqb _ _ = false |- _ => apply string_eqb_neq in H
  | H : (_ <=? _)%Z = true |- _ => apply Z.leb_le in H
  | H : (_ <=? _)%Z = false |- _ => apply Z.leb_gt in H
  | H : (_ <? _)%Z = true |- _ => apply Z.ltb_lt in H
  | H : (_ <? _)%Z = false |- _ => apply Z.ltb_ge in H
  | H : (_ =? _)%Z = true |- _ => apply Z.eqb_eq in H
  | H : (_ =? _)%Z = false |- _ => apply Z.eqb_neq in H
  | H : in_bigint _ = true |- _ => apply in_bigint_spec in H
  end.
