(* ===== verification/Strings.v ===== *)
(** * String operations of the source ([str.split], [str.join], [str.startswith], ..)

    Python's string methods on ASCII text, with the lemmas the components share. *)

From Stdlib Require Import ZArith Lia String Ascii.
From stdpp Require Import base strings list.
From S2P Require Import Prelude.
Open Scope string_scope.

Definition contains_char (d : ascii) (s : string) : bool := negb (string_forall (fun c => negb (Ascii.eqb c d)) s).

(** [s.split(d)] for a one-character separator. *)
Fixpoint split_on (d : ascii) (s : string) : list string :=
  match s with
  | EmptyString => [""]
  | String c s' =>
      if Ascii.eqb c d then "" :: split_on d s'
      else match split_on d s' with
           | [] => [String c ""]
           | x :: l => String c x :: l
           end
  end.

(** [d.join(l)] *)
Fixpoint join_with (d : string) (l : list string) : string :=
  match l with
  | [] => ""
  | [x] => x
  | x :: l' => x ++ d ++ join_with d l'
  end.

(** [s.lstrip(d)] *)
Fixpoint lstrip_char (d : ascii) (s : string) : string :=
  match s with
  | String c s' => if Ascii.eqb c d then lstrip_char d s' else s
  | EmptyString => ""
  end.

Fixpoint string_rev_app (s acc : string) : string :=
  match s with
  | EmptyString => acc
  | String c s' => string_rev_app s' (String c acc)
  end.
Definition string_rev (s : string) : string := string_rev_app s "".

(** [s.rstrip(d)] *)
Definition rstrip_char (d : ascii) (s : string) : string := string_rev (lstrip_char d (string_rev s)).

(** [s.strip()] of ASCII text: it strips spaces and the control characters 9 to 13 and
    28 to 31. *)
Definition is_white (c : ascii) : bool :=
  let n := nat_of_ascii c in
  (n =? 32)%nat || ((9 <=? n) && (n <=? 13))%nat || ((28 <=? n) && (n <=? 31))%nat.

Fixpoint lstrip_white (s : string) : string :=
  match s with
  | EmptyString => EmptyString
  | String c s' => if is_white c then lstrip_white s' else s
  end.

Definition strip (s : string) : string := string_rev (lstrip_white (string_rev (lstrip_white s))).

(** [s.strip()] of text without control characters. *)
Definition strip_spaces (s : string) : string := rstrip_char " " (lstrip_char " " s).

(** [s.startswith(p)] and [s.endswith(p)] *)
Definition starts_with (p s : string) : bool := String.prefix p s.
Definition ends_with (p s : string) : bool := String.prefix (string_rev p) (string_rev s).

Definition replace_char (a b : ascii) (s : string) : string :=
  string_map (fun c => if Ascii.eqb c a then b else c) s.

Definition string_drop (n : nat) (s : string) : string := String.substring n (String.length s - n) s.
(** [s[:-n]] *)
Definition string_drop_end (n : nat) (s : string) : string := String.substring 0 (String.length s - n) s.

(** ** Lemmas *)

Lemma string_app_nil_r (s : string) : s ++ "" = s.
Proof. induction s as [|c s IH]; [done|]. change (String c (s ++ "") = String c s). by rewrite IH. Qed.

Lemma string_app_assoc (a b c : string) : a ++ (b ++ c) = (a ++ b) ++ c.
Proof. induction a as [|x a IH]; [done|]. change (String x (a ++ (b ++ c)) = String x ((a ++ b) ++ c)). by rewrite IH. Qed.

Lemma string_app_cons x (a b : string) : String x a ++ b = String x (a ++ b).
Proof. done. Qed.

Lemma string_app_inj (a b c : string) : a ++ b = a ++ c -> b = c.
Proof. induction a as [|x a IH]; [done|]. rewrite !string_app_cons. intros [= ?]. auto. Qed.

Lemma prefix_iff (p s : string) : String.prefix p s = true <-> exists t, s = p ++ t.
Proof.
  revert s. induction p as [|c p IH]; intros s; [split; [by exists s|by destruct s]|].
  destruct s as [|d s]; cbn [String.prefix]; [split; [done|intros [t Ht]; discriminate Ht]|].
  destruct (ascii_dec c d) as [->|Hne].
  - rewrite IH. split; intros [t Ht]; exists t; [by rewrite string_app_cons, Ht|by rewrite string_app_cons in Ht; injection Ht].
  - split; [done|]. intros [t Ht]. rewrite string_app_cons in Ht. injection Ht. intros. by destruct Hne.
Qed.

Lemma starts_with_spec p s : starts_with p s = true <-> exists t, s = p ++ t.
Proof. apply prefix_iff. Qed.

Lemma rev_app_spec a acc : string_rev_app a acc = string_rev a ++ acc.
Proof.
  unfold string_rev. revert acc. induction a as [|c a IH]; intros acc; [done|].
  cbn [string_rev_app]. rewrite IH, (IH (String c "")), <- string_app_assoc. done.
Qed.

Lemma string_rev_app_distr a b : string_rev (a ++ b) = string_rev b ++ string_rev a.
Proof.
  induction a as [|c a IH].
  - change ("" ++ b) with b. change (string_rev "") with "". by rewrite string_app_nil_r.
  - rewrite string_app_cons. unfold string_rev at 1 3. cbn [string_rev_app].
    by rewrite !rev_app_spec, IH, string_app_assoc.
Qed.

Lemma string_rev_involutive a : string_rev (string_rev a) = a.
Proof.
  induction a as [|c a IH]; [done|]. unfold string_rev at 2. cbn [string_rev_app].
  rewrite rev_app_spec, string_rev_app_distr, IH. done.
Qed.

Lemma ends_with_spec p s : ends_with p s = true <-> exists t, s = t ++ p.
Proof.
  unfold ends_with. rewrite prefix_iff. split.
  - intros [t Ht]. exists (string_rev t). rewrite <- (string_rev_involutive s), Ht, string_rev_app_distr.
    by rewrite string_rev_involutive.
  - intros [t ->]. exists (string_rev t). apply string_rev_app_distr.
Qed.

Lemma string_forall_impl (P Q : ascii -> bool) s :
  (forall c, P c = true -> Q c = true) -> string_forall P s = true -> string_forall Q s = true.
Proof. intros HPQ. induction s as [|c s IH]; cbn; [done|]. rewrite !andb_true_iff. intros []; auto. Qed.

Lemma string_forall_app P a b : string_forall P (a ++ b) = string_forall P a && string_forall P b.
Proof.
  induction a as [|c a IH]; [done|]. rewrite string_app_cons. cbn [string_forall]. by rewrite IH, andb_assoc.
Qed.

Lemma string_forall_rev P s : string_forall P (string_rev s) = string_forall P s.
Proof.
  induction s as [|c s IH]; [done|]. unfold string_rev. cbn [string_rev_app string_forall].
  rewrite rev_app_spec, string_forall_app, IH. cbn [string_forall]. rewrite andb_true_r. apply andb_comm.
Qed.

Lemma contains_char_app d a b : contains_char d (a ++ b) = contains_char d a || contains_char d b.
Proof. unfold contains_char. by rewrite string_forall_app, negb_andb. Qed.

Lemma contains_char_cons d c s : contains_char d (String c s) = Ascii.eqb c d || contains_char d s.
Proof. unfold contains_char. cbn [string_forall]. by rewrite negb_andb, negb_involutive. Qed.

Lemma split_on_nonempty d s : split_on d s <> [].
Proof. induction s as [|c s IH]; cbn; [done|]. destruct (Ascii.eqb c d); [done|]. by destruct (split_on d s). Qed.

Lemma split_on_free d s : Forall (fun x => contains_char d x = false) (split_on d s).
Proof.
  induction s as [|c s IH]; cbn; [by repeat constructor|].
  destruct (Ascii.eqb c d) eqn:Hc; [by constructor|].
  destruct (split_on d s) as [|x l]; [by repeat constructor; rewrite contains_char_cons, Hc|].
  apply Forall_cons in IH as [Hx Hl]. constructor; [|done]. by rewrite contains_char_cons, Hc.
Qed.

Lemma split_on_single d x : contains_char d x = false -> split_on d x = [x].
Proof.
  induction x as [|c x IH]; [done|]. rewrite contains_char_cons. intros [Hc Hx]%orb_false_iff.
  cbn [split_on]. by rewrite Hc, (IH Hx).
Qed.

Lemma split_on_app d x s : contains_char d x = false -> split_on d (x ++ String d s) = x :: split_on d s.
Proof.
  induction x as [|c x IH].
  - intros _. change ("" ++ String d s) with (String d s). cbn [split_on]. by rewrite Ascii.eqb_refl.
  - rewrite contains_char_cons. intros [Hc Hx]%orb_false_iff. rewrite string_app_cons. cbn [split_on].
    by rewrite Hc, (IH Hx).
Qed.

(** Splitting undoes joining. *)
Lemma split_join d l : l <> [] -> Forall (fun x => contains_char d x = false) l ->
  split_on d (join_with (String d "") l) = l.
Proof.
  induction l as [|x l IH]; [done|]. intros _ [Hx Hl]%Forall_cons.
  destruct l as [|y l]; [by apply split_on_single|].
  change (join_with (String d "") (x :: y :: l)) with (x ++ String d (join_with (String d "") (y :: l))).
  rewrite split_on_app by done. f_equal. by apply IH.
Qed.

Lemma join_cons_ne d x l : l <> [] -> join_with d (x :: l) = x ++ d ++ join_with d l.
Proof. by destruct l. Qed.

Lemma join_with_app d a b : a <> [] -> b <> [] ->
  join_with d (a ++ b)%list = join_with d a ++ d ++ join_with d b.
Proof.
  intros Ha Hb. induction a as [|x a IH]; [done|].
  destruct (decide (a = [])) as [->|Hne].
  - change ([x] ++ b)%list with (x :: b). by rewrite join_cons_ne.
  - change ((x :: a) ++ b)%list with (x :: (a ++ b)%list). rewrite !join_cons_ne; [|done|by destruct a].
    rewrite IH by done. by rewrite !string_app_assoc.
Qed.

(** Joining undoes splitting. *)
Lemma join_split d s : join_with (String d "") (split_on d s) = s.
Proof.
  induction s as [|c s IH]; [done|]. cbn [split_on]. destruct (Ascii.eqb c d) eqn:Hc.
  - apply Ascii.eqb_eq in Hc as ->. rewrite join_cons_ne by apply split_on_nonempty. by rewrite IH.
  - pose proof (split_on_nonempty d s) as Hne. destruct (split_on d s) as [|x l]; [done|].
    rewrite <- IH. by destruct l.
Qed.

Lemma string_map_id f s : (forall c, f c = c) -> string_map f s = s.
Proof. intros Hf. induction s as [|c s IH]; cbn; [done|]. by rewrite Hf, IH. Qed.

Lemma replace_char_free a b s : contains_char a s = false -> replace_char a b s = s.
Proof.
  unfold replace_char. induction s as [|c s IH]; [done|]. rewrite contains_char_cons. intros [Hc Hs]%orb_false_iff.
  cbn [string_map]. by rewrite Hc, (IH Hs).
Qed.

Lemma replace_char_gone a b s : a <> b -> contains_char a (replace_char a b s) = false.
Proof.
  intros Hab. unfold replace_char. induction s as [|c s IH]; [done|]. cbn [string_map].
  rewrite contains_char_cons, IH, orb_false_r. destruct (Ascii.eqb c a) eqn:Hc; [|done].
  by apply Ascii.eqb_neq.
Qed.

Lemma lstrip_contains d e s : contains_char e s = false -> contains_char e (lstrip_char d s) = false.
Proof.
  induction s as [|c s IH]; [done|]. rewrite contains_char_cons. intros [Hc Hs]%orb_false_iff.
  cbn [lstrip_char]. destruct (Ascii.eqb c d); [by apply IH|]. by rewrite contains_char_cons, Hc.
Qed.

(** [s[:-len(t)]] of a string that ends with [t]. *)
Lemma substring_prefix (a b : string) : String.substring 0 (String.length a) (a ++ b) = a.
Proof. induction a as [|c a IH]; [by destruct b|]. rewrite string_app_cons. cbn. by rewrite IH. Qed.

Lemma substring_suffix (a b : string) n : String.substring (String.length a) n (a ++ b) = String.substring 0 n b.
Proof. induction a as [|c a IH]; [done|]. rewrite string_app_cons. cbn. by rewrite IH. Qed.

Lemma substring_all (s : string) : String.substring 0 (String.length s) s = s.
Proof. induction s as [|c s IH]; [done|]. cbn. by rewrite IH. Qed.

Lemma length_string_app (a b : string) : String.length (a ++ b) = (String.length a + String.length b)%nat.
Proof.
  induction a as [|c a IH]; [done|].
  change (S (String.length (a ++ b)) = S (String.length a + String.length b))%nat. by rewrite IH.
Qed.

Lemma drop_end_app a b : string_drop_end (String.length b) (a ++ b) = a.
Proof.
  unfold string_drop_end. rewrite length_string_app.
  replace (String.length a + String.length b - String.length b)%nat with (String.length a) by lia.
  apply substring_prefix.
Qed.

Lemma drop_app a b : string_drop (String.length a) (a ++ b) = b.
Proof.
  unfold string_drop. rewrite substring_suffix, length_string_app.
  replace (String.length a + String.length b - String.length a)%nat with (String.length b) by lia.
  apply substring_all.
Qed.

Lemma lower_idem s : lower (lower s) = lower s.
Proof.
  unfold lower. induction s as [|c s IH]; [done|]. cbn [string_map]. rewrite IH. f_equal.
  clear. destruct c as [[] [] [] [] [] [] [] []]; reflexivity.
Qed.

(** The order of [sorted] on strings. *)

Lemma string_leb_cons c d s t : String.leb (String c s) (String d t) = true <->
  (N_of_ascii c < N_of_ascii d)%N \/ c = d /\ String.leb s t = true.
Proof.
  unfold String.leb. cbn [String.compare]. unfold Ascii.compare.
  destruct (N.compare_spec (N_of_ascii c) (N_of_ascii d)) as [He|He|He].
  - assert (c = d) as -> by (rewrite <- (ascii_N_embedding c), He; apply ascii_N_embedding).
    destruct (String.compare s t); split; naive_solver lia.
  - split; [by left|done].
  - split; [done|]. intros [?|[-> _]]; lia.
Qed.

Lemma string_leb_trans s : forall t u, String.leb s t = true -> String.leb t u = true -> String.leb s u = true.
Proof.
  induction s as [|c s IH]; intros [|d t] [|e u] H1 H2; try done.
  rewrite string_leb_cons in *. destruct H1 as [H1|[-> H1]], H2 as [H2|[-> H2]]; [left; lia|by left|by left|].
  right. split; [done|]. by apply (IH t).
Qed.
