(* ===== verification/Regex.v ===== *)
(** * Regular expressions ([re])

    The part of Python's [re] the source's scanners use, on ASCII text: character
    classes, sequences, ordered choice, greedy and lazy repetition and [\b], matched
    by backtracking. [matches] lists the cursors a pattern can stop at in the order the
    backtracking matcher tries them, so the first is the match [re] reports. Repeated
    patterns must consume text, as those of the source do: then a repetition can go
    round no more often than there are characters left. *)

From Stdlib Require Import Lia String Ascii.
From stdpp Require Import base strings list.
From S2P Require Import Prelude Strings.
Open Scope string_scope.

(** ** Patterns *)

#[warnings="-register-all"]
Inductive regex : Type :=
| Eps
| Chr (p : ascii -> bool)
| Cat (a b : regex)
| Alt (a b : regex)
| Rep (greedy : bool) (lo : nat) (hi : option nat) (a : regex)
| Boundary.

(** A place in a text: offset, the character before it, the text after it. *)
Record cursor : Type := At {
  offset : nat;
  before : option ascii;
  after : string
}.

Definition is_word (c : ascii) : bool := is_alnum c || Ascii.eqb c "_".

(** [\b] *)
Definition at_boundary (c : cursor) : bool :=
  let left := match before c with Some x => is_word x | None => false end in
  let right := match after c with String x _ => is_word x | "" => false end in
  negb (Bool.eqb left right).

Section repetition.
Variable step : cursor -> list cursor.

(** Up to [n] more rounds. *)
Fixpoint rounds (greedy : bool) (n : nat) (c : cursor) : list cursor :=
  match n with
  | O => [c]
  | S n' =>
      let more := step c ≫= rounds greedy n' in
      if greedy then more ++ [c] else c :: more
  end.

(** [lo] rounds, then up to [n] more. *)
Fixpoint repeated (greedy : bool) (lo n : nat) (c : cursor) : list cursor :=
  match lo with
  | O => rounds greedy n c
  | S lo' => step c ≫= repeated greedy lo' n
  end.
End repetition.

Fixpoint matches (r : regex) (c : cursor) : list cursor :=
  match r with
  | Eps => [c]
  | Chr p =>
      match after c with
      | String x s => if p x then [At (S (offset c)) (Some x) s] else []
      | "" => []
      end
  | Cat a b => matches a c ≫= matches b
  | Alt a b => (matches a c ++ matches b c)%list
  | Rep greedy lo hi a =>
      let extra := match hi with Some h => h - lo | None => String.length (after c) end in
      repeated (matches a) greedy lo extra c
  | Boundary => if at_boundary c then [c] else []
  end.

(** [r.finditer(text)]: the spans of successive matches. *)
Fixpoint find_from (r : regex) (fuel : nat) (c : cursor) : list (nat * nat) :=
  match fuel with
  | O => []
  | S fuel' =>
      let skip :=
        match after c with
        | String x s => find_from r fuel' (At (S (offset c)) (Some x) s)
        | "" => []
        end in
      match matches r c with
      | [] => skip
      | c' :: _ =>
          if (offset c <? offset c')%nat then (offset c, offset c') :: find_from r fuel' c'
          else (offset c, offset c) :: skip
      end
  end.

Definition finditer (r : regex) (text : string) : list (nat * nat) :=
  find_from r (S (String.length text)) (At 0 None text).

(** [text[a:b]] *)
Definition slice (a b : nat) (text : string) : string := String.substring a (b - a) text.

(** Spans of a text replaced in one pass. *)
Fixpoint splice (text : string) (from : nat) (spans : list (nat * nat * string)) : string :=
  match spans with
  | [] => slice from (String.length text) text
  | (a, b, tag) :: spans' => slice from a text ++ tag ++ splice text b spans'
  end.

(** [r.subn(replacement, text)], for a replacement without escapes. *)
Definition subn (r : regex) (replacement text : string) : string * nat :=
  let spans := finditer r text in
  (splice text 0 ((fun s => (s.1, s.2, replacement)) <$> spans), length spans).

(** ** Notation for patterns *)

Fixpoint lit (s : string) : regex :=
  match s with
  | "" => Eps
  | String c "" => Chr (Ascii.eqb c)
  | String c s' => Cat (Chr (Ascii.eqb c)) (lit s')
  end.

(** The same under [(?i)]. *)
Fixpoint lit_i (s : string) : regex :=
  match s with
  | "" => Eps
  | String c "" => Chr (fun x => Ascii.eqb (lower_char c) (lower_char x))
  | String c s' => Cat (Chr (fun x => Ascii.eqb (lower_char c) (lower_char x))) (lit_i s')
  end.

Definition opt (a : regex) : regex := Rep true 0 (Some 1) a.
Definition times (n : nat) (a : regex) : regex := Rep true n (Some n) a.
Definition plus (a : regex) : regex := Rep true 1 None a.
Definition star (a : regex) : regex := Rep true 0 None a.
Definition at_least (n : nat) (a : regex) : regex := Rep true n None a.
Definition between_times (lo hi : nat) (a : regex) : regex := Rep true lo (Some hi) a.

Fixpoint cats (l : list regex) : regex :=
  match l with
  | [] => Eps
  | [a] => a
  | a :: l' => Cat a (cats l')
  end.

Fixpoint alts (l : list regex) : regex :=
  match l with
  | [] => Chr (fun _ => false)
  | [a] => a
  | a :: l' => Alt a (alts l')
  end.

Definition one_of (chars : string) (c : ascii) : bool := contains_char c chars.

(** ** Matches stay inside the text *)

(** [c'] is where a match that starts at [c] can stop. *)
Definition reaches (c c' : cursor) : Prop :=
  exists w, after c = w ++ after c' /\ offset c' = (offset c + String.length w)%nat.

Lemma reaches_refl c : reaches c c.
Proof. exists "". cbn. split; [done|lia]. Qed.

Lemma reaches_trans c1 c2 c3 : reaches c1 c2 -> reaches c2 c3 -> reaches c1 c3.
Proof.
  intros (w & Hw & Ho) (w' & Hw' & Ho'). exists (w ++ w'). rewrite Hw, Hw', string_app_assoc, length_string_app. split; [done|lia].
Qed.

Lemma reaches_bind (f : cursor -> list cursor) c (l : list cursor) :
  (forall x, x ∈ l -> reaches c x) -> (forall x y, y ∈ f x -> reaches x y) ->
  forall y, y ∈ l ≫= f -> reaches c y.
Proof. intros Hl Hf y (x & Hy & Hx)%list_elem_of_bind. eauto using reaches_trans. Qed.

Lemma reaches_repeated f g n lo : (forall x y, y ∈ f x -> reaches x y) ->
  forall c c', c' ∈ repeated f g lo n c -> reaches c c'.
Proof.
  intros Hf. induction lo as [|lo IH]; cbn [repeated].
  - induction n as [|n IH]; intros c c' Hin; cbn [rounds] in Hin.
    + apply list_elem_of_singleton in Hin as ->. apply reaches_refl.
    + assert (forall y, y ∈ f c ≫= rounds f g n -> reaches c y) as Hmore by (apply reaches_bind; [apply Hf|exact IH]).
      destruct g; [apply elem_of_app in Hin as [Hin|Hin%list_elem_of_singleton]|apply elem_of_cons in Hin as [Hin|Hin]];
        subst; eauto using reaches_refl.
  - intros c. apply reaches_bind; [apply Hf|exact IH].
Qed.

Lemma matches_reach r c c' : c' ∈ matches r c -> reaches c c'.
Proof.
  revert c c'. induction r as [|p|a IHa b IHb|a IHa b IHb|g lo hi a IHa|]; intros c c' Hin; cbn [matches] in Hin.
  - apply list_elem_of_singleton in Hin as ->. apply reaches_refl.
  - destruct (after c) as [|x s] eqn:Ha; [by apply elem_of_nil in Hin|]. destruct (p x); [|by apply elem_of_nil in Hin].
    apply list_elem_of_singleton in Hin as ->. exists (String x ""). rewrite Ha. cbn. split; [done|lia].
  - revert c' Hin. apply reaches_bind; [apply IHa|exact IHb].
  - apply elem_of_app in Hin as [Hin|Hin]; [by apply IHa|by apply IHb].
  - eapply reaches_repeated; [exact IHa|exact Hin].
  - destruct (at_boundary c); [|by apply elem_of_nil in Hin]. apply list_elem_of_singleton in Hin as ->. apply reaches_refl.
Qed.

(** Spans in order, from [from] on, inside a text of length [len]. *)
Fixpoint spans_ok (from len : nat) (spans : list (nat * nat)) : Prop :=
  match spans with
  | [] => from <= len
  | (a, b) :: spans' => from <= a <= b /\ spans_ok b len spans'
  end%nat.

Lemma spans_ok_from from from' len spans : (from' <= from)%nat -> spans_ok from len spans -> spans_ok from' len spans.
Proof. destruct spans as [|[a b] spans]; cbn; [lia|]. intros Hf [Ha Hs]. split; [lia|done]. Qed.

Lemma spans_ok_bound from len spans : spans_ok from len spans -> (from <= len)%nat.
Proof. revert from. induction spans as [|[a b] spans IH]; cbn; intros from; [done|]. intros [Ha Hs%IH]. lia. Qed.

Lemma find_from_ok r fuel c : spans_ok (offset c) (offset c + String.length (after c)) (find_from r fuel c).
Proof.
  revert c. induction fuel as [|fuel IH]; intros c; cbn [find_from]; [cbn; lia|].
  assert (spans_ok (offset c) (offset c + String.length (after c))
    match after c with String x s => find_from r fuel (At (S (offset c)) (Some x) s) | "" => [] end) as Hskip.
  { destruct (after c) as [|x s] eqn:Ha; [cbn; lia|]. apply (spans_ok_from (S (offset c))); [lia|].
    specialize (IH (At (S (offset c)) (Some x) s)). cbn [offset after String.length] in *. by rewrite Nat.add_succ_r. }
  destruct (matches r c) as [|c' l] eqn:Hm; [exact Hskip|].
  destruct (matches_reach r c c') as (w & Hw & Ho); [rewrite Hm; left|].
  destruct (offset c <? offset c')%nat; cbn [spans_ok]; [|split; [lia|exact Hskip]].
  split; [lia|]. specialize (IH c'). rewrite Hw, length_string_app. by replace (offset c + (String.length w + String.length (after c')))%nat with (offset c' + String.length (after c'))%nat by lia.
Qed.

Lemma finditer_ok r text : spans_ok 0 (String.length text) (finditer r text).
Proof. apply (find_from_ok r (S (String.length text)) (At 0 None text)). Qed.

Lemma spans_ok_elem from len spans a b : spans_ok from len spans -> (a, b) ∈ spans -> (from <= a <= b /\ b <= len)%nat.
Proof.
  revert from. induction spans as [|[a' b'] spans IH]; intros from Hs Hin; [by apply elem_of_nil in Hin|].
  destruct Hs as [Ha Hs]. apply elem_of_cons in Hin as [He|Hin].
  - simplify_eq. apply spans_ok_bound in Hs. lia.
  - destruct (IH _ Hs Hin). lia.
Qed.

(** ** What a replacement keeps *)

(** Gaps and fillings in turn. *)
Fixpoint weave (gaps : list string) (fill : list string) (last : string) : string :=
  match gaps, fill with
  | g :: gaps', f :: fill' => g ++ f ++ weave gaps' fill' last
  | _, _ => last
  end.

Lemma substring_split (a b n : nat) s : (a + b + n <= String.length s)%nat ->
  String.substring a (b + n) s = String.substring a b s ++ String.substring (a + b) n s.
Proof.
  revert a b. induction s as [|c s IH]; intros a b Hn; cbn [String.length] in Hn.
  - assert (a = 0 /\ b = 0 /\ n = 0)%nat as (-> & -> & ->) by lia. done.
  - destruct a as [|a].
    + destruct b as [|b]; [by cbn|]. cbn [Nat.add String.substring]. rewrite string_app_cons. f_equal. apply (IH 0%nat b). lia.
    + cbn [Nat.add String.substring]. destruct (b + n)%nat eqn:Hbn; [|rewrite <- Hbn]; [|apply IH; lia].
      assert (b = 0 /\ n = 0)%nat as [-> ->] by lia. rewrite <- (IH a 0%nat); [done|lia].
Qed.

Lemma slice_split a b c text : (a <= b <= c)%nat -> (c <= String.length text)%nat ->
  slice a c text = slice a b text ++ slice b c text.
Proof.
  intros Hab Hc. unfold slice. replace (c - a)%nat with ((b - a) + (c - b))%nat by lia.
  rewrite substring_split by lia. by replace (a + (b - a))%nat with b by lia.
Qed.

Lemma slice_all text : slice 0 (String.length text) text = text.
Proof. unfold slice. rewrite Nat.sub_0_r. apply substring_all. Qed.

(** Everything outside the spans is kept, in order; every span becomes its tag. *)
Lemma splice_weaves text from (spans : list (nat * nat * string)) :
  spans_ok from (String.length text) (fst <$> spans) ->
  exists gaps last, length gaps = length spans
    /\ slice from (String.length text) text = weave gaps ((fun s => slice s.1.1 s.1.2 text) <$> spans) last
    /\ splice text from spans = weave gaps (snd <$> spans) last.
Proof.
  revert from. induction spans as [|[[a b] tag] spans IH]; intros from Hok.
  - exists [], (slice from (String.length text) text). done.
  - cbn [fmap list_fmap fst spans_ok] in Hok. destruct Hok as [Ha Hok].
    destruct (IH b Hok) as (gaps & last & Hl & Ht & Hs). pose proof (spans_ok_bound _ _ _ Hok) as Hb.
    exists (slice from a text :: gaps), last. cbn [length fmap list_fmap fst snd weave splice]. split_and!.
    + by rewrite Hl.
    + rewrite (slice_split from a) by lia. f_equal. rewrite (slice_split a b) by lia. f_equal. exact Ht.
    + f_equal. f_equal. exact Hs.
Qed.

#[export] Hint Resolve finditer_ok reaches_refl : cogentrex.
