(* ===== verification/Sql.v ===== *)
(** * Tables and conditional updates

    The repositories of [services/] keep their state in SQL tables and change it
    with [UPDATE .. WHERE .. SET ..] statements whose row count they test. A table
    is a finite map from primary keys to rows; [update_where] rewrites the rows a
    condition selects and [rowcount] counts them. *)

From Stdlib Require Import ZArith Lia String Ascii.
From stdpp Require Import base gmap strings list fin_maps.
From S2P Require Import Prelude.

Section tables.
Context {K : Type} `{Countable K} {R : Type}.
Implicit Types (t : gmap K R) (P : K -> R -> bool) (f : R -> R).

(** [update(T).where(P).values(f)]: the table after the statement. *)
Definition update_where P f t : gmap K R :=
  map_imap (fun k r => Some (if P k r then f r else r)) t.

(** [result.rowcount] of the same statement. *)
Definition rowcount P t : nat := size (filter (fun kr => P kr.1 kr.2 = true) t).

(** Rows a [SELECT] returns. Their order is the database's choice unless the
    statement has an [ORDER BY]; here it is the order of the map. *)
Definition select_where P t : list (K * R) :=
  map_to_list (filter (fun kr => P kr.1 kr.2 = true) t).

(** [session.scalar(select ..)]: the first row, if any. *)
Definition scalar P t : option (K * R) := head (select_where P t).

(** [scalar_one_or_none]: [None] is [MultipleResultsFound]. *)
Definition one_or_none P t : option (option (K * R)) :=
  match select_where P t with
  | [] => Some None
  | [x] => Some (Some x)
  | _ => None
  end.

(** Sum of a column over a table. *)
Definition map_sum (f : K -> R -> Z) t : Z := map_fold (fun k r acc => (f k r + acc)%Z) 0%Z t.

Lemma lookup_update_where P f t k :
  update_where P f t !! k = (fun r => if P k r then f r else r) <$> t !! k.
Proof. unfold update_where. rewrite map_lookup_imap. by destruct (t !! k). Qed.

Lemma scalar_Some P t k r : scalar P t = Some (k, r) -> t !! k = Some r /\ P k r = true.
Proof.
  unfold scalar, select_where. intros Hh.
  assert ((k, r) ∈ map_to_list (filter (fun kr => P kr.1 kr.2 = true) t)) as Hin.
  { destruct (map_to_list _) as [|x l]; simplify_eq/=. left. }
  apply elem_of_map_to_list, map_lookup_filter_Some in Hin. done.
Qed.

Lemma scalar_None P t k r : scalar P t = None -> t !! k = Some r -> P k r = false.
Proof.
  unfold scalar, select_where. intros Hh Hk.
  destruct (P k r) eqn:HP; [|done].
  assert ((k, r) ∈ map_to_list (filter (fun kr => P kr.1 kr.2 = true) t)) as Hin.
  { by apply elem_of_map_to_list, map_lookup_filter_Some. }
  destruct (map_to_list _) as [|x l]; simplify_eq/=. by apply elem_of_nil in Hin.
Qed.

(** A statement whose condition pins the primary key. *)
Definition pins P (k0 : K) : Prop := forall k r, P k r = true -> k = k0.

(** A condition that, in this table, only the row at one key can meet. *)
Lemma update_where_at P f t k0 r0 :
  (forall k r, t !! k = Some r -> P k r = true -> k = k0) -> t !! k0 = Some r0 ->
  update_where P f t = if P k0 r0 then <[k0 := f r0]> t else t.
Proof.
  intros Hu Hk0. apply map_eq. intros k. rewrite lookup_update_where.
  destruct (decide (k = k0)) as [->|Hne].
  - rewrite Hk0. cbn. destruct (P k0 r0); [by rewrite lookup_insert_eq|done].
  - transitivity (t !! k).
    + destruct (t !! k) as [r|] eqn:Hk; [|done]. cbn. destruct (P k r) eqn:HP; [|done]. by apply (Hu k r) in HP.
    + destruct (P k0 r0); [by rewrite lookup_insert_ne|done].
Qed.

Lemma update_where_id P f t : (forall k r, t !! k = Some r -> P k r = false) -> update_where P f t = t.
Proof.
  intros Hno. apply map_eq. intros k. rewrite lookup_update_where.
  destruct (t !! k) as [r|] eqn:Hk; [|done]. cbn. by rewrite (Hno k r Hk).
Qed.

Lemma pins_none P t k0 : pins P k0 -> t !! k0 = None -> forall k r, t !! k = Some r -> P k r = false.
Proof. intros Hpin Hk0 k r Hk. destruct (P k r) eqn:HP; [|done]. apply Hpin in HP as ->. congruence. Qed.

Lemma update_where_pinned P f t k0 : pins P k0 ->
  update_where P f t =
    match t !! k0 with
    | Some r => if P k0 r then <[k0 := f r]> t else t
    | None => t
    end.
Proof.
  intros Hpin. destruct (t !! k0) as [r|] eqn:Hk0.
  - apply update_where_at; [by eauto|done].
  - by eapply update_where_id, pins_none.
Qed.

Lemma filter_none P t : (forall k r, t !! k = Some r -> P k r = false) ->
  filter (fun kr => P kr.1 kr.2 = true) t = ∅.
Proof.
  intros Hno. apply map_eq. intros k. rewrite lookup_empty, map_lookup_filter_None.
  right. intros r Hk. cbn. rewrite (Hno k r Hk). done.
Qed.

Lemma rowcount_none P t : (forall k r, t !! k = Some r -> P k r = false) -> rowcount P t = 0%nat.
Proof. intros Hno. unfold rowcount. by rewrite filter_none. Qed.

Lemma rowcount_zero P t : rowcount P t = 0%nat -> forall k r, t !! k = Some r -> P k r = false.
Proof.
  unfold rowcount. intros Hz%map_size_empty_inv k r Hk. destruct (P k r) eqn:HP; [|done].
  assert (filter (fun kr => P kr.1 kr.2 = true) t !! k = Some r) as Hf by by apply map_lookup_filter_Some.
  by rewrite Hz, lookup_empty in Hf.
Qed.

Lemma rowcount_at P t k0 r0 :
  (forall k r, t !! k = Some r -> P k r = true -> k = k0) -> t !! k0 = Some r0 ->
  rowcount P t = if P k0 r0 then 1%nat else 0%nat.
Proof.
  intros Hu Hk0. destruct (P k0 r0) eqn:HP.
  - unfold rowcount. assert (filter (fun kr => P kr.1 kr.2 = true) t = {[ k0 := r0 ]}) as ->; [|apply map_size_singleton].
    apply map_eq. intros k. destruct (decide (k = k0)) as [->|Hne].
    + rewrite lookup_singleton_eq. by apply map_lookup_filter_Some.
    + rewrite lookup_singleton_ne by done. apply map_lookup_filter_None. right. intros r Hk HP'. by apply (Hu k r) in HP'.
  - apply rowcount_none. intros k r Hk. destruct (P k r) eqn:HP'; [|done].
    pose proof (Hu k r Hk HP') as ->. congruence.
Qed.

Lemma rowcount_pinned P t k0 : pins P k0 ->
  rowcount P t =
    match t !! k0 with
    | Some r => if P k0 r then 1%nat else 0%nat
    | None => 0%nat
    end.
Proof.
  intros Hpin. destruct (t !! k0) as [r|] eqn:Hk0.
  - apply rowcount_at; [by eauto|done].
  - by eapply rowcount_none, pins_none.
Qed.

(** Together: the statement hits its row, or leaves the table alone. *)
Lemma pinned_hit P f t k0 : pins P k0 -> rowcount P t = 1%nat ->
  exists r, t !! k0 = Some r /\ P k0 r = true /\ update_where P f t = <[k0 := f r]> t.
Proof.
  intros Hpin. rewrite (rowcount_pinned _ _ _ Hpin), (update_where_pinned _ _ _ _ Hpin).
  destruct (t !! k0) as [r|]; [|done]. destruct (P k0 r) eqn:HP; [|done]. eauto.
Qed.

Lemma pinned_row P t k0 r : pins P k0 -> t !! k0 = Some r -> P k0 r = true -> rowcount P t = 1%nat.
Proof. intros Hpin Hk HP. by rewrite (rowcount_pinned _ _ _ Hpin), Hk, HP. Qed.

Lemma scalar_pinned P t k0 r : pins P k0 -> t !! k0 = Some r -> P k0 r = true -> scalar P t = Some (k0, r).
Proof.
  intros Hpin Hk HP. destruct (scalar P t) as [[k r']|] eqn:Hs.
  - apply scalar_Some in Hs as [Hk' HP']. pose proof (Hpin _ _ HP') as ->. congruence.
  - by rewrite (scalar_None _ _ _ _ Hs Hk) in HP.
Qed.

Lemma update_where_none P f t k0 r : pins P k0 -> t !! k0 = Some r -> P k0 r = false -> update_where P f t = t.
Proof. intros Hpin Hk HP. by rewrite (update_where_pinned _ _ _ _ Hpin), Hk, HP. Qed.

(** A condition that at most one row meets. *)
Lemma select_where_unique P t k0 r0 :
  (forall k r, t !! k = Some r -> P k r = true -> k = k0) -> t !! k0 = Some r0 -> P k0 r0 = true ->
  select_where P t = [(k0, r0)].
Proof.
  intros Huniq Hk HP. unfold select_where.
  assert (filter (fun kr => P kr.1 kr.2 = true) t = {[ k0 := r0 ]}) as ->; [|by rewrite map_to_list_singleton].
  apply map_eq. intros k. destruct (decide (k = k0)) as [->|Hne].
  - rewrite lookup_singleton_eq. by apply map_lookup_filter_Some.
  - rewrite lookup_singleton_ne by done. apply map_lookup_filter_None. right. eauto.
Qed.

Lemma select_where_nil P t : select_where P t = [] -> forall k r, t !! k = Some r -> P k r = false.
Proof.
  intros Hn k r Hk. apply (scalar_None P t); [|done]. unfold scalar. by rewrite Hn.
Qed.

Lemma select_where_elem P t k r : (k, r) ∈ select_where P t <-> t !! k = Some r /\ P k r = true.
Proof. unfold select_where. by rewrite elem_of_map_to_list, map_lookup_filter_Some. Qed.

Lemma one_or_none_Some P t k r : one_or_none P t = Some (Some (k, r)) -> t !! k = Some r /\ P k r = true.
Proof.
  unfold one_or_none. destruct (select_where P t) as [|x [|y l]] eqn:Hs; [done| |done].
  intros He. injection He as ->. apply select_where_elem. rewrite Hs. left.
Qed.

Lemma one_or_none_None P t : one_or_none P t = Some None -> forall k r, t !! k = Some r -> P k r = false.
Proof.
  unfold one_or_none. destruct (select_where P t) as [|x [|y l]] eqn:Hs; [|done|done].
  intros _. by apply select_where_nil.
Qed.

Lemma one_or_none_nothing P t : (forall k r, t !! k = Some r -> P k r = false) -> one_or_none P t = Some None.
Proof. intros Hno. unfold one_or_none, select_where. by rewrite filter_none, map_to_list_empty. Qed.

Lemma one_or_none_unique P t k0 r0 :
  (forall k r, t !! k = Some r -> P k r = true -> k = k0) -> t !! k0 = Some r0 -> P k0 r0 = true ->
  one_or_none P t = Some (Some (k0, r0)).
Proof. intros Hu Hk HP. unfold one_or_none. by rewrite (select_where_unique _ _ _ _ Hu Hk HP). Qed.

(** *** Sums *)

Lemma map_sum_empty g : map_sum g ∅ = 0%Z.
Proof. apply map_fold_empty. Qed.

Lemma map_sum_insert g t k r : t !! k = None ->
  map_sum g (<[k := r]> t) = (g k r + map_sum g t)%Z.
Proof.
  intros Hk. unfold map_sum. rewrite map_fold_insert_L; [done| |done]. intros; lia.
Qed.

Lemma map_sum_delete g t k r : t !! k = Some r ->
  map_sum g t = (g k r + map_sum g (delete k t))%Z.
Proof.
  intros Hk. rewrite <- (insert_id t k r Hk) at 1. rewrite <- insert_delete_eq.
  apply map_sum_insert, lookup_delete_eq.
Qed.

Lemma map_sum_update g t k r r' : t !! k = Some r ->
  map_sum g (<[k := r']> t) = (map_sum g t - g k r + g k r')%Z.
Proof.
  intros Hk. rewrite <- insert_delete_eq, map_sum_insert by apply lookup_delete_eq.
  rewrite (map_sum_delete g t k r Hk). lia.
Qed.

Lemma map_sum_nonneg g t :
  (forall k r, t !! k = Some r -> 0 <= g k r)%Z -> (0 <= map_sum g t)%Z.
Proof.
  induction t as [|k r t Hk IH] using map_ind; intros Hg.
  - rewrite map_sum_empty. lia.
  - rewrite map_sum_insert by done.
    pose proof (Hg k r (lookup_insert_eq _ _ _)).
    assert (0 <= map_sum g t)%Z; [|lia]. apply IH. intros k' r' Hk'.
    apply Hg. rewrite lookup_insert_ne; [done|congruence].
Qed.

(** One row never weighs more than the table. *)
Lemma map_sum_elem_le g t k r :
  (forall k r, t !! k = Some r -> 0 <= g k r)%Z -> t !! k = Some r -> (g k r <= map_sum g t)%Z.
Proof.
  intros Hg Hk. rewrite (map_sum_delete g t k r Hk).
  assert (0 <= map_sum g (delete k t))%Z; [|lia].
  apply map_sum_nonneg. intros k' r' [_ Hk']%lookup_delete_Some. eauto.
Qed.

Lemma map_sum_ext g g' t :
  (forall k r, t !! k = Some r -> g k r = g' k r) -> map_sum g t = map_sum g' t.
Proof.
  induction t as [|k r t Hk IH] using map_ind; intros Hg.
  - by rewrite !map_sum_empty.
  - rewrite !map_sum_insert by done. f_equal; [apply Hg, lookup_insert_eq|].
    apply IH. intros k' r' Hk'. apply Hg. rewrite lookup_insert_ne; [done|congruence].
Qed.

Lemma map_sum_zero g t : (forall k r, t !! k = Some r -> g k r = 0%Z) -> map_sum g t = 0%Z.
Proof.
  intros Hg. rewrite (map_sum_ext g (fun _ _ => 0%Z) t Hg).
  induction t as [|k r t Hk IH] using map_ind; [apply map_sum_empty|].
  rewrite map_sum_insert by done. rewrite IH; [done|].
  intros k' r' Hk'. apply Hg. rewrite lookup_insert_ne; [done|congruence].
Qed.

Lemma map_sum_le g g' t :
  (forall k r, t !! k = Some r -> g k r <= g' k r)%Z -> (map_sum g t <= map_sum g' t)%Z.
Proof.
  induction t as [|k r t Hk IH] using map_ind; intros Hg.
  - by rewrite !map_sum_empty.
  - rewrite !map_sum_insert by done.
    pose proof (Hg k r (lookup_insert_eq _ _ _)).
    assert (map_sum g t <= map_sum g' t)%Z; [|lia]. apply IH. intros k' r' Hk'.
    apply Hg. rewrite lookup_insert_ne; [done|congruence].
Qed.
End tables.

#[export] Hint Resolve map_sum_nonneg : cogentrex.
