(* ===== verification/Durable.v ===== *)
(** * Programs over a durable store, under faults and cancellation

    [runtime/monetary_budget.py] and [runtime/effect_executor.py] drive a database
    that other clients change between their calls. Such a program is a state monad
    over a world: the database, a counter of awaits, the program's own fields and a
    ghost history. What happens at each await is read from a forecast: the changes
    other clients commit, whether the database fails before or after the commit of
    the call, and whether the caller cancels. [_cancellation_resistant] is the
    source's helper of that name, which both files use. *)

From Stdlib Require Import ZArith Lia.
From stdpp Require Import base relations list.
From S2P Require Import Prelude.

(** A database with an invariant and the order in which clients can change it. *)
Class Store (DB : Type) := {
  db_ok : DB -> Prop;
  db_later : DB -> DB -> Prop;
  db_later_preorder :: PreOrder db_later;
  db_later_ok st st' : db_ok st -> db_later st st' -> db_ok st'
}.

#[export] Hint Resolve db_later_ok : cogentrex.

(** The two exceptions an await can end with besides those of its operation. *)
Class AwaitErrors (E : Type) := {
  database_error : E;
  cancelled_error : E
}.

Inductive fault : Type := Clean | FailBefore | FailAfter.

(** [_DurableOutcome] *)
Record outcome (E A : Type) : Type := mkOutcome { value : result E A; cancellation : bool }.
Arguments mkOutcome {E A}.
Arguments value {E A}.
Arguments cancellation {E A}.

Record weather (DB : Type) : Type := mkWeather {
  w_others : DB -> DB;
  w_fault : fault;
  w_cancelled : bool
}.
Arguments mkWeather {DB}.
Arguments w_others {DB}.
Arguments w_fault {DB}.
Arguments w_cancelled {DB}.

Record world (DB X Ev : Type) : Type := mkWorld {
  db : DB;
  ticks : nat;
  fields : X;
  history : list Ev
}.
Arguments mkWorld {DB X Ev}.
Arguments db {DB X Ev}.
Arguments ticks {DB X Ev}.
Arguments fields {DB X Ev}.
Arguments history {DB X Ev}.

Definition M (DB X Ev E A : Type) : Type := world DB X Ev -> world DB X Ev * result E A.

#[export] Instance M_ret {DB X Ev E} : MRet (M DB X Ev E) := fun A a w => (w, Ok a).
#[export] Instance M_bind {DB X Ev E} : MBind (M DB X Ev E) := fun A B f m w =>
  match m w with
  | (w', Ok a) => f a w'
  | (w', Err e) => (w', Err e)
  end.

#[export] Instance M_fmap {DB X Ev E} : FMap (M DB X Ev E) := fun A B f m => m ≫= fun a => mret (f a).

Section durable.
Context {DB X Ev E : Type} `{!AwaitErrors E}.
#[local] Abbreviation W := (world DB X Ev).
#[local] Abbreviation Mx := (M DB X Ev E).

Definition raise {A} (e : E) : Mx A := fun w => (w, Err e).
Definition of_result {A} (r : result E A) : Mx A := fun w => (w, r).

(** [try: m except BaseException as e: h(e)] *)
Definition try_with {A} (m : Mx A) (h : E -> Mx A) : Mx A := fun w =>
  match m w with
  | (w', Ok a) => (w', Ok a)
  | (w', Err e) => h e w'
  end.

Definition record_event (ev : Ev) : Mx unit := fun w =>
  (mkWorld (db w) (ticks w) (fields w) (history w ++ [ev]), Ok tt).

Context (forecast : nat -> weather DB).

(** One repository call inside a task the caller cannot cancel. *)
Definition call {R A} (lift : R -> E) (op : Z -> DB -> DB * result R A) : Mx A := fun w =>
  let x := forecast (ticks w) in
  let now := Z.of_nat (ticks w) in
  let db0 := w_others x (db w) in
  let after d := mkWorld d (S (ticks w)) (fields w) (history w) in
  match w_fault x with
  | FailBefore => (after db0, Err database_error)
  | Clean => let (d, r) := op now db0 in (after d, lift_err lift r)
  | FailAfter => let (d, r) := op now db0 in
      (after d, match r with Ok _ => Err database_error | Err e => Err (lift e) end)
  end.

(** The operation always runs to its end; the caller's cancellation is reported
    beside its result. *)
Definition _cancellation_resistant {A} (m : Mx A) : Mx (outcome E A) := fun w =>
  let cancelled := w_cancelled (forecast (ticks w)) in
  let (w', r) := m w in (w', Ok (mkOutcome r cancelled)).

(** An await the caller can cancel. *)
Definition cancellable {A} (m : Mx A) : Mx A := fun w =>
  let cancelled := w_cancelled (forecast (ticks w)) in
  let (w', r) := m w in (w', if cancelled then Err cancelled_error else r).

(** Time passes outside the database, while other clients commit. *)
Definition elapse (ev : Ev) : Mx unit := fun w =>
  (mkWorld (w_others (forecast (ticks w)) (db w)) (S (ticks w)) (fields w) (history w ++ [ev]), Ok tt).

(** ** Reasoning *)

Definition wp {A} (m : Mx A) (Q : result E A -> W -> Prop) (w : W) : Prop := Q (m w).2 (m w).1.

Lemma wp_mono {A} (m : Mx A) (Q Q' : result E A -> W -> Prop) w :
  wp m Q w -> (forall r w', Q r w' -> Q' r w') -> wp m Q' w.
Proof. unfold wp. eauto. Qed.

Lemma wp_ret {A} (a : A) (Q : result E A -> W -> Prop) w : Q (Ok a) w -> wp (mret a) Q w.
Proof. done. Qed.

Lemma wp_raise {A} e (Q : result E A -> W -> Prop) w : Q (Err e) w -> wp (raise e) Q w.
Proof. done. Qed.

Lemma wp_of_result {A} (r : result E A) (Q : result E A -> W -> Prop) w : Q r w -> wp (of_result r) Q w.
Proof. done. Qed.

Lemma wp_record ev (Q : result E unit -> W -> Prop) w :
  Q (Ok tt) (mkWorld (db w) (ticks w) (fields w) (history w ++ [ev])) -> wp (record_event ev) Q w.
Proof. done. Qed.

Lemma bind_ok {A B} (m : Mx A) (f : A -> Mx B) w w' a : m w = (w', Ok a) -> (m ≫= f) w = f a w'.
Proof. intros Hm. unfold mbind, M_bind. by rewrite Hm. Qed.

Lemma bind_err {A B} (m : Mx A) (f : A -> Mx B) w w' e : m w = (w', Err e) -> (m ≫= f) w = (w', Err e).
Proof. intros Hm. unfold mbind, M_bind. by rewrite Hm. Qed.

Lemma wp_bind {A B} (m : Mx A) (f : A -> Mx B) Q w :
  wp m (fun r w' => match r with Ok a => wp (f a) Q w' | Err e => Q (Err e) w' end) w ->
  wp (m ≫= f) Q w.
Proof. unfold wp, mbind, M_bind. destruct (m w) as [w' [a|e]]; cbn; auto. Qed.

Lemma wp_try {A} (m : Mx A) (h : E -> Mx A) Q w :
  wp m (fun r w' => match r with Ok a => Q (Ok a) w' | Err e => wp (h e) Q w' end) w ->
  wp (try_with m h) Q w.
Proof. unfold wp, try_with. destruct (m w) as [w' [a|e]]; cbn; auto. Qed.

Lemma wp_resistant {A} (m : Mx A) Q w :
  wp m (fun r w' => forall cancelled, Q (Ok (mkOutcome r cancelled)) w') w ->
  wp (_cancellation_resistant m) Q w.
Proof. unfold wp, _cancellation_resistant. destruct (m w); cbn. auto. Qed.

Lemma wp_cancellable {A} (m : Mx A) Q w :
  wp m (fun r w' => Q r w' /\ Q (Err cancelled_error) w') w -> wp (cancellable m) Q w.
Proof. unfold wp, cancellable. destruct (m w); cbn. intros [? ?]. by destruct (w_cancelled _). Qed.

Context `{!Store DB}.

(** Other clients only make the changes the store allows. *)
Definition fair : Prop := forall n st, db_ok st -> db_later st (w_others (forecast n) st).

Hypothesis others_later : fair.

(** The database moved forward. *)
Definition after (w w' : W) : Prop := db_ok (db w') /\ db_later (db w) (db w').

Lemma after_trans w1 w2 w3 : after w1 w2 -> after w2 w3 -> after w1 w3.
Proof. intros [? ?] [? ?]. split; [done|by etrans]. Qed.

(** A repository call: on success its operation ran on some later database. *)
Lemma wp_call {R A} (lift : R -> E) (op : Z -> DB -> DB * result R A) Q w :
  db_ok (db w) -> (forall now st, db_ok st -> db_later st (op now st).1) ->
  (forall r w', after w w' -> history w' = history w ->
     (forall a, r = Ok a -> exists now st, db_ok st /\ db_later (db w) st
        /\ (op now st).2 = Ok a /\ db w' = (op now st).1) -> Q r w') ->
  wp (call lift op) Q w.
Proof.
  intros Hok Hop HQ. unfold wp, call. set (db0 := w_others _ (db w)).
  assert (db_later (db w) db0) as Hl by by apply others_later.
  assert (db_ok db0) as Hok0 by eauto with cogentrex.
  specialize (Hop (Z.of_nat (ticks w)) db0 Hok0).
  destruct (w_fault _); [|apply HQ; [by split|done|done]|];
    destruct (op (Z.of_nat (ticks w)) db0) as [d r] eqn:E'; cbn in *;
    (apply HQ; [split; [by eauto with cogentrex|by etrans]|done|]).
  - intros a Ha. destruct r as [a'|]; cbn in Ha; [|done]. inv_result. exists (Z.of_nat (ticks w)), db0. by rewrite E'.
  - intros a Ha. by destruct r.
Qed.

Lemma wp_elapse ev (Q : result E unit -> W -> Prop) w : db_ok (db w) ->
  (forall w', after w w' -> history w' = history w ++ [ev] -> Q (Ok tt) w') -> wp (elapse ev) Q w.
Proof.
  intros Hok HQ. apply HQ; [|done].
  assert (db_later (db w) (w_others (forecast (ticks w)) (db w))) by by apply others_later.
  split; cbn; [by eauto with cogentrex|done].
Qed.
End durable.

(** ** Calm weather: nobody else acts and nothing fails *)

Definition calm {DB} (n : nat) : weather DB := mkWeather (fun st => st) Clean false.

Lemma calm_fair {DB} `{!Store DB} : fair (DB := DB) calm.
Proof. intros n st _. reflexivity. Qed.

Lemma call_calm {DB X Ev E R A} `{!AwaitErrors E} (lift : R -> E) (op : Z -> DB -> DB * result R A)
    (w : world DB X Ev) st' a :
  op (Z.of_nat (ticks w)) (db w) = (st', Ok a) ->
  call calm lift op w = (mkWorld st' (S (ticks w)) (fields w) (history w), Ok a).
Proof. intros Eq. unfold call. cbn. by rewrite Eq. Qed.

Lemma resistant_calm {DB X Ev E A} (m : M DB X Ev E A) w w' a : m w = (w', a) ->
  _cancellation_resistant calm m w = (w', Ok (mkOutcome a false)).
Proof. intros Eq. unfold _cancellation_resistant. by rewrite Eq. Qed.
