(* ===== verification/Json.v ===== *)
(** * JSON text ([json.dumps] with compact separators)

    JSON values as the source builds them, and the text [json.dumps] gives for
    them with [separators=(",", ":")], with or without [sort_keys=True].
    Strings are UTF-8 byte strings; a float is carried as its [repr]. *)

From Stdlib Require Import ZArith Lia String Ascii.
From stdpp Require Import base strings list sorting pretty.
From S2P Require Import Prelude Strings.
Open Scope string_scope.

#[warnings="-register-all"]
Inductive json : Type :=
| JNull
| JBool (b : bool)
| JInt (z : Z)
| JFloat (repr : string)
| JStr (s : string)
| JArr (l : list json)
| JObj (kvs : list (string * json)).

#[export] Instance json_eq_dec : EqDecision json.
Proof.
  unfold EqDecision. fix IH 1. intros [|b|z|t|s|l|kvs] [|b'|z'|t'|s'|l'|kvs']; try (right; discriminate); [by left| | | | | |].
  - destruct (decide (b = b')) as [->|]; [by left|right; congruence].
  - destruct (decide (z = z')) as [->|]; [by left|right; congruence].
  - destruct (decide (t = t')) as [->|]; [by left|right; congruence].
  - destruct (decide (s = s')) as [->|]; [by left|right; congruence].
  - assert (Decision (l = l')) as [->|]; [|by left|right; congruence].
    revert l'. induction l as [|x l IHl]; intros [|y l']; [by left|by right|by right|].
    destruct (IH x y) as [->|]; [|right; congruence]. destruct (IHl l') as [->|]; [by left|right; congruence].
  - assert (Decision (kvs = kvs')) as [->|]; [|by left|right; congruence].
    revert kvs'. induction kvs as [|[k x] kvs IHl]; intros [|[k' y] kvs']; [by left|by right|by right|].
    destruct (decide (k = k')) as [->|]; [|right; congruence].
    destruct (IH x y) as [->|]; [|right; congruence]. destruct (IHl kvs') as [->|]; [by left|right; congruence].
Defined.

Definition QUOTE : string := String (ascii_of_nat 34) "".

Definition hex_digit (n : nat) : ascii :=
  ascii_of_nat (if (n <? 10)%nat then 48 + n else 87 + n).

(** One character of a string literal. *)
Definition escape_char (c : ascii) : string :=
  let n := nat_of_ascii c in
  if (n =? 34)%nat then "\" ++ QUOTE
  else if (n =? 92)%nat then "\\"
  else if (n =? 10)%nat then "\n"
  else if (n =? 13)%nat then "\r"
  else if (n =? 9)%nat then "\t"
  else if (n =? 12)%nat then "\f"
  else if (n =? 8)%nat then "\b"
  else if (n <? 32)%nat
  then "\u00" ++ String (hex_digit (n / 16)) (String (hex_digit (n mod 16)) "")
  else String c "".

Fixpoint escape (s : string) : string :=
  match s with
  | EmptyString => ""
  | String c s' => escape_char c ++ escape s'
  end.

Definition quoted (s : string) : string := QUOTE ++ escape s ++ QUOTE.

Definition key_le (a b : string * string) : Prop := String.leb a.1 b.1 = true.

#[export] Instance key_le_dec : RelDecision key_le.
Proof. intros a b. unfold key_le. apply _. Defined.

Definition join (l : list string) : string := String.concat "," l.

(** The encoder, with [lit] writing string literals. *)
Fixpoint dumps_with (lit : string -> string) (v : json) : string :=
  match v with
  | JNull => "null"
  | JBool true => "true"
  | JBool false => "false"
  | JInt z => pretty z
  | JFloat repr => repr
  | JStr s => lit s
  | JArr l =>
      "[" ++ join ((fix go l := match l with [] => [] | v :: l' => dumps_with lit v :: go l' end) l) ++ "]"
  | JObj kvs =>
      let members :=
        (fix go l := match l with [] => [] | (k, v) :: l' => (k, dumps_with lit v) :: go l' end) kvs in
      "{" ++ join ((fun kv => lit kv.1 ++ ":" ++ kv.2) <$> merge_sort key_le members) ++ "}"
  end.

(** The encoder without [sort_keys]: members in the order of the dictionary. *)
Fixpoint write_with (lit : string -> string) (v : json) : string :=
  match v with
  | JNull => "null"
  | JBool true => "true"
  | JBool false => "false"
  | JInt z => pretty z
  | JFloat repr => repr
  | JStr s => lit s
  | JArr l =>
      "[" ++ join ((fix go l := match l with [] => [] | v :: l' => write_with lit v :: go l' end) l) ++ "]"
  | JObj kvs =>
      "{" ++ join ((fix go l := match l with [] => [] | (k, v) :: l' => (lit k ++ ":" ++ write_with lit v) :: go l' end) kvs) ++ "}"
  end.

(** [ensure_ascii=False], without and with [sort_keys=True]. *)
Definition dumps_unsorted : json -> string := write_with quoted.
Definition dumps : json -> string := dumps_with quoted.

(** A string literal is never shorter than the string plus its quotes. *)

Lemma escape_char_length c : (1 <= String.length (escape_char c))%nat.
Proof. unfold escape_char. cbv zeta. repeat case_match; rewrite ?length_string_app; cbn [String.length]; lia. Qed.

Lemma escape_length s : (String.length s <= String.length (escape s))%nat.
Proof.
  induction s as [|c s IH]; [done|]. change (escape (String c s)) with (escape_char c ++ escape s).
  rewrite length_string_app. pose proof (escape_char_length c). cbn [String.length]. lia.
Qed.

Lemma quoted_length s : (String.length s + 2 <= String.length (quoted s))%nat.
Proof.
  unfold quoted. rewrite !length_string_app. pose proof (escape_length s).
  change (String.length QUOTE) with 1%nat. lia.
Qed.

Lemma join_cons x l : l <> [] -> join (x :: l) = x ++ "," ++ join l.
Proof. by destruct l. Qed.

Lemma join_length l x : x ∈ l -> (String.length x <= String.length (join l))%nat.
Proof.
  induction l as [|y l IH]; intros Hin; [by apply elem_of_nil in Hin|].
  destruct (decide (l = [])) as [->|Hne].
  - apply list_elem_of_singleton in Hin as ->. done.
  - rewrite join_cons, !length_string_app by done. apply elem_of_cons in Hin as [->|Hin]; [lia|].
    specialize (IH Hin). lia.
Qed.

#[export] Hint Resolve escape_length quoted_length join_length : cogentrex.
