(* ===== verification/JsonText.v ===== *)
(** * JSON text in ASCII, read back ([json.dumps] and [json.loads])

    The encoder with its default [ensure_ascii=True], the decoder, and their round
    trip. Strings are UTF-8 byte strings; code points are binary numbers. The decoder
    is that of the standard library for text within the recursion limit; its fuel is
    the length of the text. *)

From Stdlib Require Import ZArith Lia String Ascii.
From stdpp Require Import base strings list sorting pretty.
From S2P Require Import Prelude Strings Json.
Open Scope string_scope.

(** ** Encoding *)

Definition code (c : ascii) : N := N_of_ascii c.
Definition chr (n : N) : string := String (ascii_of_N n) "".

(** [\uXXXX] *)
Definition u_escape (n : N) : string :=
  let d k := String (hex_digit (N.to_nat ((n / k) mod 16))) "" in
  "\u" ++ d 4096%N ++ d 256%N ++ d 16%N ++ d 1%N.

(** A code point; those beyond the basic plane as a surrogate pair. *)
Definition escape_point (n : N) : string :=
  if (n <? 65536)%N then u_escape n
  else u_escape (55296 + (n - 65536) / 1024) ++ u_escape (56320 + (n - 65536) mod 1024).

Definition escape_ascii_char (c : ascii) : string :=
  if (code c =? 127)%N then u_escape 127 else escape_char c.

Definition tail_bits (c : ascii) : N := (code c mod 64)%N.

Fixpoint escape_ascii (s : string) : string :=
  match s with
  | EmptyString => ""
  | String c s1 =>
      let n := code c in
      if (n <? 128)%N then escape_ascii_char c ++ escape_ascii s1
      else match s1 with
      | EmptyString => ""
      | String c1 s2 =>
          if (n <? 224)%N then escape_point ((n - 192) * 64 + tail_bits c1) ++ escape_ascii s2
          else match s2 with
          | EmptyString => ""
          | String c2 s3 =>
              if (n <? 240)%N then
                escape_point ((n - 224) * 4096 + tail_bits c1 * 64 + tail_bits c2) ++ escape_ascii s3
              else match s3 with
              | EmptyString => ""
              | String c3 s4 =>
                  escape_point ((n - 240) * 262144 + tail_bits c1 * 4096 + tail_bits c2 * 64 + tail_bits c3)
                    ++ escape_ascii s4
              end
          end
      end
  end.

Definition literal (s : string) : string := QUOTE ++ escape_ascii s ++ QUOTE.

(** [json.dumps(v, sort_keys=True, separators=(",", ":"))] *)
Definition dumps_ascii : json -> string := dumps_with literal.

(** ** Decoding *)

Definition is_space (c : ascii) : bool := bool_decide (code c ∈ [32; 9; 10; 13]%N).

Fixpoint skip_spaces (s : string) : string :=
  match s with
  | String c s' => if is_space c then skip_spaces s' else s
  | EmptyString => ""
  end.

(** UTF-8 of a code point. *)
Definition utf8 (n : N) : string :=
  if (n <? 128)%N then chr n
  else if (n <? 2048)%N then chr (192 + n / 64) ++ chr (128 + n mod 64)
  else if (n <? 65536)%N then chr (224 + n / 4096) ++ chr (128 + (n / 64) mod 64) ++ chr (128 + n mod 64)
  else chr (240 + n / 262144) ++ chr (128 + (n / 4096) mod 64) ++ chr (128 + (n / 64) mod 64) ++ chr (128 + n mod 64).

Definition hex_value (c : ascii) : option N :=
  if is_digit c then Some (code c - 48)%N
  else if between "a" "f" c then Some (code c - 87)%N
  else if between "A" "F" c then Some (code c - 55)%N
  else None.

Definition hex4 (a b c d : ascii) : option N :=
  a ← hex_value a; b ← hex_value b; c ← hex_value c; d ← hex_value d;
  Some (4096 * a + 256 * b + 16 * c + d)%N.

Definition is_high (n : N) : bool := ((55296 <=? n) && (n <? 56320))%N.
Definition is_low (n : N) : bool := ((56320 <=? n) && (n <? 57344))%N.

(** The letter after a backslash, [u] apart. *)
Definition unescape (c : ascii) : option string :=
  let n := code c in
  if bool_decide (n ∈ [34; 47; 92]%N) then Some (chr n)
  else if (n =? 98)%N then Some (chr 8)
  else if (n =? 102)%N then Some (chr 12)
  else if (n =? 110)%N then Some (chr 10)
  else if (n =? 114)%N then Some (chr 13)
  else if (n =? 116)%N then Some (chr 9)
  else None.

Definition prepend (t : string) (r : option (string * string)) : option (string * string) :=
  match r with Some (s, rest) => Some (t ++ s, rest) | None => None end.

(** The characters of a literal after its opening quote, and the text after it. *)
Fixpoint parse_chars (s : string) : option (string * string) :=
  match s with
  | EmptyString => None
  | String c s1 =>
      if (code c =? 34)%N then Some ("", s1)
      else if (code c <? 32)%N then None
      else if negb (code c =? 92)%N then prepend (String c "") (parse_chars s1)
      else match s1 with
      | EmptyString => None
      | String e s2 =>
          if negb (code e =? 117)%N
          then match unescape e with Some t => prepend t (parse_chars s2) | None => None end
          else match s2 with
          | String a (String b (String c (String d s3))) =>
              match hex4 a b c d with
              | None => None
              | Some n =>
                  if is_high n then
                    match s3 with
                    | String x (String y (String a' (String b' (String c' (String d' s4))))) =>
                        if ((code x =? 92) && (code y =? 117))%N then
                          match hex4 a' b' c' d' with
                          | None => None
                          | Some m =>
                              if is_low m
                              then prepend (utf8 (65536 + (n - 55296) * 1024 + (m - 56320))) (parse_chars s4)
                              else prepend (utf8 n) (parse_chars s3)
                          end
                        else prepend (utf8 n) (parse_chars s3)
                    | _ => prepend (utf8 n) (parse_chars s3)
                    end
                  else prepend (utf8 n) (parse_chars s3)
              end
          | _ => None
          end
      end
  end.

(** Digits, and the text after them. *)
Fixpoint take_digits (s : string) : string * string :=
  match s with
  | String c s' =>
      if is_digit c then let '(d, rest) := take_digits s' in (String c d, rest) else ("", s)
  | EmptyString => ("", "")
  end.

Fixpoint digits_value (acc : Z) (s : string) : Z :=
  match s with
  | String c s' => digits_value (acc * 10 + (Z.of_N (code c) - 48)) s'
  | EmptyString => acc
  end.

(** [(\.\d+)?] *)
Definition take_fraction (s : string) : string * string :=
  match s with
  | String "." s' => match take_digits s' with ("", _) => ("", s) | (d, rest) => ("." ++ d, rest) end
  | _ => ("", s)
  end.

(** [([eE][-+]?\d+)?] *)
Definition take_exponent (s : string) : string * string :=
  match s with
  | String e s' =>
      if Ascii.eqb e "e" || Ascii.eqb e "E" then
        let '(sign, s'') :=
          match s' with
          | String "-" t => ("-", t)
          | String "+" t => ("+", t)
          | _ => ("", s')
          end in
        match take_digits s'' with ("", _) => ("", s) | (d, rest) => (String e (sign ++ d), rest) end
      else ("", s)
  | EmptyString => ("", s)
  end.

(** [int] refuses more digits than this. *)
Definition MAX_INT_DIGITS : nat := 4300.

(** An unsigned number. A float keeps its text, which is its [repr] when [json.dumps]
    wrote it. *)
Definition parse_unsigned (negative : bool) (s : string) : option (json * string) :=
  let '(d, rest) := take_digits s in
  let '(int, rest) :=
    match d with
    | String "0" t => ("0", t ++ rest)
    | _ => (d, rest)
    end in
  if string_eqb int "" then None else
  let '(frac, rest') := take_fraction rest in
  let '(exp, rest'') := take_exponent rest' in
  if string_eqb (frac ++ exp) "" then
    if (String.length int <=? MAX_INT_DIGITS)%nat
    then Some (JInt (if negative then - digits_value 0 int else digits_value 0 int), rest'')
    else None
  else Some (JFloat ((if negative then "-" else "") ++ int ++ frac ++ exp), rest'').

Definition parse_number (s : string) : option (json * string) :=
  match s with
  | String "-" s' =>
      if starts_with "Infinity" s' then Some (JFloat "-inf", string_drop 8 s') else parse_unsigned true s'
  | _ => parse_unsigned false s
  end.

(** [dict(pairs)]: a repeated key keeps its first place and its last value. *)
Fixpoint dict_insert (k : string) (v : json) (l : list (string * json)) : list (string * json) :=
  match l with
  | [] => [(k, v)]
  | (k', v') :: l' => if string_eqb k' k then (k', v) :: l' else (k', v') :: dict_insert k v l'
  end.

Definition dict_of (pairs : list (string * json)) : list (string * json) :=
  fold_left (fun acc kv => dict_insert kv.1 kv.2 acc) pairs [].

(** A value, without leading spaces; the items of an array; the members of an object. *)
Fixpoint parse (fuel : nat) (s : string) {struct fuel} : option (json * string) :=
  match fuel with
  | O => None
  | S fuel' =>
      match s with
      | EmptyString => None
      | String c s' =>
          if (code c =? 34)%N then
            match parse_chars s' with Some (t, rest) => Some (JStr t, rest) | None => None end
          else if Ascii.eqb c "{" then
            match skip_spaces s' with
            | String "}" rest => Some (JObj [], rest)
            | s'' => match parse_members fuel' s'' with
                     | Some (l, rest) => Some (JObj (dict_of l), rest)
                     | None => None
                     end
            end
          else if Ascii.eqb c "[" then
            match skip_spaces s' with
            | String "]" rest => Some (JArr [], rest)
            | s'' => match parse_items fuel' s'' with
                     | Some (l, rest) => Some (JArr l, rest)
                     | None => None
                     end
            end
          else if starts_with "null" s then Some (JNull, string_drop 4 s)
          else if starts_with "true" s then Some (JBool true, string_drop 4 s)
          else if starts_with "false" s then Some (JBool false, string_drop 5 s)
          else if starts_with "NaN" s then Some (JFloat "nan", string_drop 3 s)
          else if starts_with "Infinity" s then Some (JFloat "inf", string_drop 8 s)
          else parse_number s
      end
  end
with parse_items (fuel : nat) (s : string) {struct fuel} : option (list json * string) :=
  match fuel with
  | O => None
  | S fuel' =>
      match parse fuel' s with
      | None => None
      | Some (v, rest) =>
          match skip_spaces rest with
          | String "]" rest' => Some ([v], rest')
          | String "," rest' =>
              match parse_items fuel' (skip_spaces rest') with
              | Some (l, rest'') => Some (v :: l, rest'')
              | None => None
              end
          | _ => None
          end
      end
  end
with parse_members (fuel : nat) (s : string) {struct fuel} : option (list (string * json) * string) :=
  match fuel with
  | O => None
  | S fuel' =>
      match s with
      | String q s' =>
          if negb (code q =? 34)%N then None else
          match parse_chars s' with
          | None => None
          | Some (k, rest) =>
              match skip_spaces rest with
              | String ":" rest1 =>
                  match parse fuel' (skip_spaces rest1) with
                  | None => None
                  | Some (v, rest2) =>
                      match skip_spaces rest2 with
                      | String "}" rest3 => Some ([(k, v)], rest3)
                      | String "," rest3 =>
                          match parse_members fuel' (skip_spaces rest3) with
                          | Some (l, rest4) => Some ((k, v) :: l, rest4)
                          | None => None
                          end
                      | _ => None
                      end
                  end
              | _ => None
              end
          end
      | EmptyString => None
      end
  end.

(** [json.loads]; [None] is [JSONDecodeError]. *)
Definition loads (s : string) : option json :=
  let s := skip_spaces s in
  match parse (S (String.length s)) s with
  | Some (v, rest) => if string_eqb (skip_spaces rest) "" then Some v else None
  | None => None
  end.

Example loads_demo : loads (dumps_ascii (JObj [("b", JArr [JInt (-12); JFloat "1.5e-07"; JStr (QUOTE ++ "\" ++ chr 195 ++ chr 169)]);
   ("a", JObj [("x", JNull); ("y", JArr [JBool true])])]))
  = Some (JObj [("a", JObj [("x", JNull); ("y", JArr [JBool true])]);
      ("b", JArr [JInt (-12); JFloat "1.5e-07"; JStr (QUOTE ++ "\" ++ chr 195 ++ chr 169)])]).
Proof. vm_compute. reflexivity. Qed.

(** ** Round trip *)

Definition member_le (a b : string * json) : Prop := String.leb a.1 b.1 = true.

#[export] Instance member_le_dec : RelDecision member_le.
Proof. intros a b. unfold member_le. apply _. Defined.

(** A value with the members of its objects in key order. *)
Fixpoint canon (v : json) : json :=
  match v with
  | JArr l => JArr ((fix go l := match l with [] => [] | v :: l' => canon v :: go l' end) l)
  | JObj kvs =>
      JObj (merge_sort member_le
        ((fix go l := match l with [] => [] | (k, v) :: l' => (k, canon v) :: go l' end) kvs))
  | _ => v
  end.

Definition is_ascii (s : string) : bool := string_forall (fun c => (code c <? 128)%N) s.

Definition int_printable (z : Z) : bool := (String.length (pretty (Z.abs_N z)) <=? MAX_INT_DIGITS)%nat.

(** The text of a finite float: the decoder reads all of it. *)
Definition float_text (t : string) : bool :=
  match parse_number t with
  | Some (JFloat t', rest) => string_eqb t' t && string_eqb rest "" && negb (starts_with "-I" t)
  | _ => false
  end.

(** Values that the encoder and the decoder agree on: ASCII strings, distinct keys,
    finite floats, integers within the digit limit. *)
Fixpoint plain (v : json) : bool :=
  match v with
  | JNull | JBool _ => true
  | JInt z => int_printable z
  | JFloat t => float_text t
  | JStr s => is_ascii s
  | JArr l => (fix go l := match l with [] => true | v :: l' => plain v && go l' end) l
  | JObj kvs =>
      bool_decide (NoDup (fst <$> kvs))
      && (fix go l := match l with [] => true | (k, v) :: l' => is_ascii k && plain v && go l' end) kvs
  end.

(** *** Induction over nested values *)

Lemma json_nested_ind (P : json -> Prop) :
  P JNull -> (forall b, P (JBool b)) -> (forall z, P (JInt z)) -> (forall t, P (JFloat t)) ->
  (forall s, P (JStr s)) -> (forall l, Forall P l -> P (JArr l)) ->
  (forall kvs, Forall (fun kv => P kv.2) kvs -> P (JObj kvs)) -> forall v, P v.
Proof.
  intros Hn Hb Hi Hf Hs Ha Ho. fix IH 1. intros [| | | | |l|kvs]; [done|done|done|done|done|apply Ha|apply Ho].
  - induction l as [|v l IHl]; constructor; [apply IH|apply IHl].
  - induction kvs as [|[k v] kvs IHl]; constructor; [apply IH|apply IHl].
Qed.

Lemma dumps_arr lit l : dumps_with lit (JArr l) = "[" ++ join (dumps_with lit <$> l) ++ "]".
Proof. reflexivity. Qed.

Lemma canon_arr l : canon (JArr l) = JArr (canon <$> l).
Proof. reflexivity. Qed.

Lemma canon_obj kvs : canon (JObj kvs) = JObj (merge_sort member_le (prod_map id canon <$> kvs)).
Proof. cbn [canon]. f_equal. f_equal. induction kvs as [|[k v] l IH]; [done|]. cbn. by rewrite IH. Qed.

Lemma plain_arr l : plain (JArr l) = true -> Forall (fun v => plain v = true) l.
Proof.
  cbn [plain]. induction l as [|v l IH]; [by constructor|]. intros H. apply andb_true_iff in H as [Hv Hl].
  constructor; [done|by apply IH].
Qed.

Lemma plain_obj kvs : plain (JObj kvs) = true ->
  NoDup (fst <$> kvs) /\ Forall (fun kv => is_ascii kv.1 = true /\ plain kv.2 = true) kvs.
Proof.
  cbn [plain]. intros H. apply andb_true_iff in H as [Hn H]. split; [by apply bool_decide_eq_true in Hn|].
  clear Hn. induction kvs as [|[k v] l IH]; [by constructor|]. apply andb_true_iff in H as [Hv Hl].
  apply andb_true_iff in Hv as [Hk Hv]. constructor; [done|by apply IH].
Qed.

(** *** Sorting a mapped list *)

Section sort_map.
Context {A B : Type} (R : relation A) (Q : relation B) `{!RelDecision R, !RelDecision Q}.
Context (f : A -> B) (f_order : forall a b, Q (f a) (f b) <-> R a b).

Lemma list_merge_map l1 l2 : list_merge Q (f <$> l1) (f <$> l2) = f <$> list_merge R l1 l2.
Proof using f_order.
  revert l2. induction l1 as [|a l1 IH1]; intros l2; [by destruct l2|].
  induction l2 as [|b l2 IH2]; [done|]. cbn.
  pose proof (f_order a b) as Ho.
  destruct (decide (R a b)) as [Hr|Hr]; destruct (decide (Q (f a) (f b))) as [Hq|Hq]; try tauto.
  - cbn. f_equal. exact (IH1 (b :: l2)).
  - cbn. f_equal. exact IH2.
Qed.

#[local] Abbreviation up := (fmap (M:=list) (fmap (M:=option) (fmap (M:=list) f))).

Lemma stack_map st l : merge_list_to_stack Q (up st) (f <$> l) = up (merge_list_to_stack R st l).
Proof using f_order.
  revert l. induction st as [|[l'|] st IH]; intros l; cbn; [done| |done].
  f_equal. rewrite <- IH. f_equal. apply list_merge_map.
Qed.

Lemma merge_stack_map st : merge_stack Q (up st) = f <$> merge_stack R st.
Proof using f_order.
  induction st as [|[l'|] st IH]; cbn; [done| |done]. rewrite <- list_merge_map. f_equal. exact IH.
Qed.

Lemma merge_sort_map l : merge_sort Q (f <$> l) = f <$> merge_sort R l.
Proof using f_order.
  assert (forall st, merge_sort_aux Q (up st) (f <$> l) = f <$> merge_sort_aux R st l) as Haux; [|exact (Haux [])].
  induction l as [|a l IH]; intros st; cbn; [apply merge_stack_map|].
  rewrite <- IH. f_equal. exact (stack_map st [a]).
Qed.
End sort_map.

Lemma dumps_obj lit kvs :
  dumps_with lit (JObj kvs)
  = "{" ++ join ((fun kv => lit kv.1 ++ ":" ++ dumps_with lit kv.2) <$> merge_sort member_le kvs) ++ "}".
Proof.
  cbn [dumps_with]. do 3 f_equal.
  assert ((fix go l := match l with [] => [] | (k, v) :: l' => (k, dumps_with lit v) :: go l' end) kvs
    = prod_map id (dumps_with lit) <$> kvs) as ->.
  { induction kvs as [|[k v] l IH]; [done|]. cbn. by rewrite IH. }
  rewrite (merge_sort_map member_le key_le (prod_map id (dumps_with lit))) by done.
  by rewrite <- list_fmap_compose.
Qed.

(** *** Literals *)

Lemma parse_escaped_ascii c t : (code c <? 128)%N = true ->
  parse_chars (escape_ascii_char c ++ t) = prepend (String c "") (parse_chars t).
Proof. by destruct c as [[] [] [] [] [] [] [] []]; intros Hc; [..|]; try discriminate Hc. Qed.

Lemma parse_escaped c t : (code c <? 128)%N = true ->
  parse_chars (escape_char c ++ t) = prepend (String c "") (parse_chars t).
Proof. by destruct c as [[] [] [] [] [] [] [] []]; intros Hc; [..|]; try discriminate Hc. Qed.

Lemma escape_ascii_cons c s : (code c <? 128)%N = true ->
  escape_ascii (String c s) = escape_ascii_char c ++ escape_ascii s.
Proof. intros Hc. cbn [escape_ascii]. by rewrite Hc. Qed.

(** A way to write the inside of a string literal that the decoder undoes. *)
Definition readable (body : string -> string) : Prop :=
  forall s rest, is_ascii s = true -> parse_chars (body s ++ QUOTE ++ rest) = Some (s, rest).

Lemma escape_ascii_readable : readable escape_ascii.
Proof.
  intros s rest. unfold is_ascii. induction s as [|c s IH]; intros Hs; [done|]. cbn [string_forall] in Hs.
  apply andb_true_iff in Hs as [Hc Hs]. rewrite escape_ascii_cons, <- string_app_assoc, parse_escaped_ascii by done.
  by rewrite (IH Hs).
Qed.

Lemma escape_readable : readable escape.
Proof.
  intros s rest. unfold is_ascii. induction s as [|c s IH]; intros Hs; [done|]. cbn [string_forall] in Hs.
  apply andb_true_iff in Hs as [Hc Hs]. cbn [escape]. rewrite <- string_app_assoc, parse_escaped by done.
  by rewrite (IH Hs).
Qed.

(** *** Numbers *)

(** Where a value may stop. *)
Definition stops (rest : string) : bool :=
  match rest with
  | EmptyString => true
  | String c _ => bool_decide (c ∈ [","; "]"; "}"]%char)
  end.

Lemma stops_head rest : stops rest = true ->
  rest = "" \/ exists c t, rest = String c t /\ (c = ","%char \/ c = "]"%char \/ c = "}"%char).
Proof.
  destruct rest as [|c t]; [by left|]. cbn. intros Hc. apply bool_decide_eq_true in Hc. right. exists c, t.
  split; [done|]. rewrite !elem_of_cons, elem_of_nil in Hc. tauto.
Qed.

Ltac case_stops H :=
  destruct (stops_head _ H) as [-> | (? & ? & -> & [-> | [-> | -> ]])].

Lemma skip_stops rest : stops rest = true -> skip_spaces rest = rest.
Proof. intros H. by case_stops H. Qed.

Lemma take_digits_app s rest : stops rest = true ->
  take_digits (s ++ rest) = ((take_digits s).1, (take_digits s).2 ++ rest).
Proof.
  intros H. induction s as [|c s IH]; [by case_stops H|].
  rewrite string_app_cons. cbn [take_digits]. destruct (is_digit c); [|done].
  rewrite IH. by destruct (take_digits s).
Qed.

Lemma take_fraction_app s rest : stops rest = true ->
  take_fraction (s ++ rest) = ((take_fraction s).1, (take_fraction s).2 ++ rest).
Proof.
  intros H. destruct s as [|c s]; [by case_stops H|]. rewrite string_app_cons. cbn [take_fraction].
  destruct c as [[] [] [] [] [] [] [] []]; try done.
  rewrite take_digits_app by done. by destruct (take_digits s) as [[|d ds] t].
Qed.

Lemma take_exponent_app s rest : stops rest = true ->
  take_exponent (s ++ rest) = ((take_exponent s).1, (take_exponent s).2 ++ rest).
Proof.
  intros H. destruct s as [|c s]; [by case_stops H|]. rewrite string_app_cons. cbn [take_exponent].
  destruct (_ || _); [|done].
  assert (match (s ++ rest)%string with String "-" t => ("-", t) | String "+" t => ("+", t) | _ => ("", s ++ rest) end
    = (let '(g, t) := match s with String "-" t => ("-", t) | String "+" t => ("+", t) | _ => ("", s) end in
       (g, t ++ rest))) as ->.
  { destruct s as [|x s]; [by case_stops H|]. by destruct x as [[] [] [] [] [] [] [] []]. }
  destruct (match s with String "-" t => _ | _ => _ end) as [g t].
  rewrite take_digits_app by done. by destruct (take_digits t) as [[|d ds] u].
Qed.

(** A number ends where the digits end. *)
Lemma parse_unsigned_app b s rest v t : stops rest = true -> parse_unsigned b s = Some (v, t) ->
  parse_unsigned b (s ++ rest) = Some (v, t ++ rest).
Proof.
  intros H. unfold parse_unsigned. rewrite take_digits_app by done. destruct (take_digits s) as [d u]. cbn [fst snd].
  assert ((match d with String "0" t0 => ("0", t0 ++ u ++ rest) | _ => (d, u ++ rest) end)
    = (let '(i, w) := match d with String "0" t0 => ("0", t0 ++ u) | _ => (d, u) end in (i, w ++ rest))) as ->.
  { destruct d as [|x d]; [done|]. destruct x as [[] [] [] [] [] [] [] []]; try done. by rewrite <- string_app_assoc. }
  destruct (match d with String "0" t0 => _ | _ => _ end) as [i w].
  destruct (string_eqb i ""); [done|]. rewrite take_fraction_app by done. destruct (take_fraction w) as [fr w1].
  cbn [fst snd]. rewrite take_exponent_app by done. destruct (take_exponent w1) as [ex w2]. cbn [fst snd].
  destruct (string_eqb (fr ++ ex) ""); [destruct (_ <=? _)%nat|]; [|done|]; intros E; by injection E as <- <-.
Qed.

(** *** Integers *)

Lemma digit_char n : (n < 10)%N ->
  is_digit (pretty_N_char n) = true /\ (Z.of_N (code (pretty_N_char n)) - 48 = Z.of_N n)%Z.
Proof.
  intros Hn. assert (n ∈ [0;1;2;3;4;5;6;7;8;9]%N) as Hin by (rewrite !elem_of_cons; lia).
  repeat (apply elem_of_cons in Hin as [-> | Hin]; [done|]). by apply elem_of_nil in Hin.
Qed.

Lemma pretty_go_digits x s : string_forall is_digit s = true ->
  string_forall is_digit (pretty_N_go x s) = true
  /\ digits_value 0 (pretty_N_go x s) = digits_value (Z.of_N x) s
  /\ ((0 < x)%N -> exists c t, pretty_N_go x s = String c t /\ Ascii.eqb c "0" = false).
Proof.
  revert s. induction (N.lt_wf_0 x) as [x _ IH]; intros s Hs.
  destruct (decide (x = 0)%N) as [->|Hx]; [rewrite pretty_N_go_0; split_and!; [done|done|lia]|].
  rewrite pretty_N_go_step by lia.
  destruct (digit_char (x mod 10)) as [Hd Hv]; [by apply N.mod_lt|].
  destruct (IH (x / 10)%N ltac:(apply N.div_lt; lia) (String (pretty_N_char (x mod 10)) s)) as (H1 & H2 & H3).
  { cbn [string_forall]. by rewrite Hd. }
  split_and!; [done| |].
  - rewrite H2. cbn [digits_value]. f_equal. rewrite Hv. change 10%Z with (Z.of_N 10).
    pose proof (N.div_mod x 10 ltac:(done)). lia.
  - intros _. destruct (decide (x / 10 = 0)%N) as [Hz|Hz]; [|by apply H3, N.neq_0_lt_0].
    rewrite Hz, pretty_N_go_0. eexists _, s. split; [done|]. pose proof (N.div_mod x 10 ltac:(done)).
    destruct (Ascii.eqb _ _) eqn:He; [|done]. apply Ascii.eqb_eq in He. rewrite He in Hv. cbn in Hv. lia.
Qed.

Lemma take_digits_all s rest : string_forall is_digit s = true -> stops rest = true ->
  take_digits (s ++ rest) = (s, rest).
Proof.
  intros Hs Hr. induction s as [|c s IH]; [by case_stops Hr|]. cbn [string_forall] in Hs.
  apply andb_true_iff in Hs as [Hc Hs]. rewrite string_app_cons. cbn [take_digits]. by rewrite Hc, (IH Hs).
Qed.

Lemma pretty_unsigned b (n : N) rest : stops rest = true -> (String.length (pretty n) <=? MAX_INT_DIGITS)%nat = true ->
  parse_unsigned b (pretty n ++ rest) = Some (JInt (if b then - Z.of_N n else Z.of_N n), rest).
Proof.
  intros Hr Hl.
  assert (string_forall is_digit (pretty n) = true /\ digits_value 0 (pretty n) = Z.of_N n
    /\ match pretty n with String "0" t => ("0", t ++ rest) | _ => (pretty n, rest) end = (pretty n, rest)
    /\ pretty n <> "") as (Hd & Hv & Hz & Hne).
  { unfold pretty, pretty_N. destruct (decide (n = 0)%N) as [->|Hn]; [by split_and!|].
    destruct (pretty_go_digits n "" eq_refl) as (Hd & Hv & Hh). destruct (Hh ltac:(lia)) as (c & t & Hc & H0).
    split_and!; [done|exact Hv| |by rewrite Hc]. rewrite Hc.
    destruct c as [[] [] [] [] [] [] [] []]; try done. }
  unfold parse_unsigned. rewrite take_digits_all by done.
  rewrite Hz.
  destruct (string_eqb (pretty n) "") eqn:He; [by apply string_eqb_spec in He|].
  assert (take_fraction rest = ("", rest)) as -> by by case_stops Hr.
  assert (take_exponent rest = ("", rest)) as -> by by case_stops Hr.
  cbn [string_eqb]. rewrite Hl, Hv. done.
Qed.

Lemma pretty_abs (z : Z) : pretty z = if (z <? 0)%Z then "-" ++ pretty (Z.abs_N z) else pretty (Z.abs_N z).
Proof. by destruct z. Qed.

Lemma digit_head (n : N) : exists c t, pretty n = String c t /\ is_digit c = true.
Proof.
  unfold pretty, pretty_N. destruct (decide (n = 0)%N) as [->|Hn]; [by eexists _, _|].
  destruct (pretty_go_digits n "" eq_refl) as (Hd & _ & Hh). destruct (Hh ltac:(lia)) as (c & t & Hc & _).
  exists c, t. split; [done|]. rewrite Hc in Hd. cbn in Hd. by apply andb_true_iff in Hd as [? _].
Qed.

(** Number text starts like a number, and the dispatch finds it. *)
Definition number_head (s : string) : bool :=
  match s with String c _ => is_digit c || Ascii.eqb c "-" | "" => false end.

Lemma parse_number_head f s : number_head s = true -> parse (S f) s = parse_number s.
Proof. destruct s as [|c s]; [done|]. by destruct c as [[] [] [] [] [] [] [] []]. Qed.

Lemma parse_int f z rest : stops rest = true -> int_printable z = true ->
  parse (S f) (pretty z ++ rest) = Some (JInt z, rest).
Proof.
  unfold int_printable. intros Hr Hl. rewrite pretty_abs. destruct (digit_head (Z.abs_N z)) as (c & t & Hc & Hd).
  assert (starts_with "Infinity" (pretty (Z.abs_N z) ++ rest) = false) as Hni.
  { rewrite Hc, string_app_cons. by destruct c as [[] [] [] [] [] [] [] []]. }
  rewrite parse_number_head.
  2:{ destruct (z <? 0)%Z; [done|]. rewrite Hc, string_app_cons. cbn. by rewrite Hd. }
  destruct (z <? 0)%Z eqn:Hz; bool_to_prop.
  - rewrite <- string_app_assoc. change ("-" ++ pretty (Z.abs_N z) ++ rest) with (String "-" (pretty (Z.abs_N z) ++ rest)).
    cbn [parse_number]. rewrite Hni, pretty_unsigned by done. do 3 f_equal. lia.
  - transitivity (parse_unsigned false (pretty (Z.abs_N z) ++ rest)).
    { rewrite Hc, string_app_cons. by destruct c as [[] [] [] [] [] [] [] []]. }
    rewrite pretty_unsigned by done. do 3 f_equal. lia.
Qed.

(** *** Floats *)

Lemma unsigned_head b s : number_head s = false -> parse_unsigned b s = None.
Proof.
  destruct s as [|c s]; [done|]. cbn [number_head]. intros H. apply orb_false_iff in H as [Hd _].
  unfold parse_unsigned. cbn [take_digits]. by rewrite Hd.
Qed.

Lemma parse_number_plus c w : Ascii.eqb c "-" = false ->
  parse_number (String c w) = parse_unsigned false (String c w).
Proof. by destruct c as [[] [] [] [] [] [] [] []]. Qed.

Lemma number_text_head s v : parse_number s = Some v -> number_head s = true.
Proof.
  destruct s as [|c s]; [done|]. destruct (number_head (String c s)) eqn:Hh; [done|].
  pose proof Hh as Hm. cbn in Hm. apply orb_false_iff in Hm as [_ Hm].
  rewrite (parse_number_plus _ _ Hm), (unsigned_head _ _ Hh). done.
Qed.

Lemma parse_float f t rest : stops rest = true -> float_text t = true ->
  parse (S f) (t ++ rest) = Some (JFloat t, rest).
Proof.
  intros Hr. unfold float_text. destruct (parse_number t) as [[[| | |t'| | |] u]|] eqn:Hp; try done.
  intros H. bool_to_prop. subst t' u. destruct t as [|c t]; [done|].
  rewrite parse_number_head by exact (number_text_head _ _ Hp). rewrite string_app_cons.
  destruct (Ascii.eqb c "-") eqn:Hm.
  - apply Ascii.eqb_eq in Hm as ->. cbn [parse_number] in *. destruct t as [|x t]; [done|].
    assert (forall w, starts_with "Infinity" (String x w) = false) as Hi.
    { match goal with H : starts_with "-I" _ = false |- _ => revert H end.
      destruct x as [[] [] [] [] [] [] [] []]; try (intros _ w; reflexivity).
      intros Hx. destruct t; vm_compute in Hx; discriminate Hx. }
    rewrite Hi in Hp. rewrite string_app_cons, Hi, <- string_app_cons.
    by rewrite (parse_unsigned_app _ _ _ _ _ Hr Hp).
  - rewrite (parse_number_plus _ _ Hm) in Hp. rewrite (parse_number_plus _ _ Hm), <- string_app_cons. by rewrite (parse_unsigned_app _ _ _ _ _ Hr Hp).
Qed.

(** *** Values *)

(** The first character of a value's text. *)
Definition value_head (s : string) : bool :=
  match s with
  | String c _ => negb (is_space c) && negb (Ascii.eqb c "]") && negb (Ascii.eqb c "}")
  | "" => false
  end.

Lemma number_value_head s : number_head s = true -> value_head s = true.
Proof. destruct s as [|c s]; [done|]. by destruct c as [[] [] [] [] [] [] [] []]. Qed.

Lemma float_head t : float_text t = true -> number_head t = true.
Proof.
  unfold float_text. destruct (parse_number t) as [v|] eqn:Hp; [|done]. intros _. by apply number_text_head in Hp.
Qed.

Lemma int_head (z : Z) : number_head (pretty z) = true.
Proof.
  rewrite pretty_abs. destruct (digit_head (Z.abs_N z)) as (c & t & Hc & Hd).
  destruct (z <? 0)%Z; [done|]. rewrite Hc. cbn. by rewrite Hd.
Qed.

Lemma head_app s rest : value_head s = true -> value_head (s ++ rest) = true.
Proof. by destruct s. Qed.

Lemma skip_head s : value_head s = true -> skip_spaces s = s.
Proof.
  destruct s as [|c s]; [done|]. cbn. intros H. bool_to_prop.
  match goal with H : is_space c = false |- _ => by rewrite H end.
Qed.

(** A dictionary with distinct keys is its list of members. *)
Lemma dict_insert_new k v (l : list (string * json)) : k ∉ (fst <$> l) -> dict_insert k v l = (l ++ [(k, v)])%list.
Proof.
  induction l as [|[k' v'] l IH]; [done|]. cbn. intros Hk. apply not_elem_of_cons in Hk as [Hne Hk].
  destruct (string_eqb k' k) eqn:He; [by bool_to_prop|]. by rewrite (IH Hk).
Qed.

Lemma dict_of_distinct (l : list (string * json)) : NoDup (fst <$> l) -> dict_of l = l.
Proof.
  assert (forall acc, NoDup (fst <$> (acc ++ l)%list) ->
    fold_left (fun acc kv => dict_insert kv.1 kv.2 acc) l acc = (acc ++ l)%list) as Haux; [|exact (Haux [])].
  induction l as [|[k v] l IH]; intros acc Hn; [by rewrite app_nil_r|]. cbn [fold_left fst snd].
  rewrite fmap_app, fmap_cons in Hn. pose proof Hn as Hn'. apply NoDup_app in Hn' as (_ & Hd & _).
  rewrite dict_insert_new.
  - rewrite IH; [by rewrite <- app_assoc|]. rewrite <- app_assoc, fmap_app. exact Hn.
  - intros Hin. apply (Hd _ Hin). left.
Qed.

Lemma parse_word f word v rest :
  parse (S f) (word ++ rest) = Some (v, string_drop (String.length word) (word ++ rest)) ->
  parse (S f) (word ++ rest) = Some (v, rest).
Proof. intros ->. by rewrite drop_app. Qed.

(** *** Encoder and decoder *)

Section round_trip.
Context (body : string -> string) (body_readable : readable body).

Definition literal_of (s : string) : string := QUOTE ++ body s ++ QUOTE.
#[local] Abbreviation write := (write_with literal_of).

Lemma write_arr l : write (JArr l) = "[" ++ join (write <$> l) ++ "]".
Proof. reflexivity. Qed.

Definition member_text (kv : string * json) : string := literal_of kv.1 ++ ":" ++ write kv.2.

Lemma write_obj kvs : write (JObj kvs) = "{" ++ join (member_text <$> kvs) ++ "}".
Proof. cbn [write_with]. do 3 f_equal. induction kvs as [|[k v] l IH]; [done|]. cbn. by rewrite IH. Qed.

Lemma write_head v : plain v = true -> value_head (write v) = true.
Proof.
  destruct v as [|[]|z|t|s|l|kvs]; intros Hp; [done|done|done| | |done| |].
  - apply number_value_head, int_head.
  - by apply number_value_head, float_head.
  - by rewrite write_arr.
  - by rewrite write_obj.
Qed.

Lemma parse_string f s rest : is_ascii s = true -> parse (S f) (literal_of s ++ rest) = Some (JStr s, rest).
Proof using body_readable.
  intros Hs. unfold literal_of. rewrite <- !string_app_assoc. change (QUOTE ++ ?x) with (String (ascii_of_nat 34) x).
  cbn [parse]. change (code (ascii_of_nat 34) =? 34)%N with true. cbn iota.
  change (String (ascii_of_nat 34) rest) with (QUOTE ++ rest). by rewrite body_readable.
Qed.

Lemma literal_length s : (2 <= String.length (literal_of s))%nat.
Proof. unfold literal_of. rewrite !length_string_app. change (String.length QUOTE) with 1%nat. lia. Qed.

(** [v] is read back whatever follows it. *)
Definition reads_back (v : json) : Prop := forall f rest,
  stops rest = true -> (String.length (write v) <= f)%nat ->
  parse f (write v ++ rest) = Some (v, rest).

Lemma items_read_back l rest f : l <> [] ->
  Forall (fun v => plain v = true /\ reads_back v) l ->
  (String.length (join (write <$> l)) < f)%nat ->
  parse_items f (join (write <$> l) ++ "]" ++ rest) = Some (l, rest).
Proof.
  revert f. induction l as [|v l IH]; intros f Hne Hl Hf; [done|]. apply Forall_cons in Hl as [[Hp Hv] Hl].
  destruct f as [|f]; [lia|]. destruct l as [|w l].
  - cbn [fmap list_fmap join String.concat] in *. cbn [parse_items]. rewrite Hv by (done || lia). done.
  - change (write <$> v :: w :: l) with (write v :: (write <$> w :: l)) in *.
    rewrite join_cons in * by done. rewrite !length_string_app in Hf. change (String.length ",") with 1%nat in Hf.
    rewrite <- !string_app_assoc. cbn [parse_items]. rewrite Hv by (done || lia).
    change (skip_spaces ("," ++ ?x)) with ("," ++ x). change ("," ++ ?x) with (String "," x). cbn match.
    rewrite skip_head.
    + rewrite IH by (done || lia). done.
    + apply Forall_cons in Hl as [[Hw _] _]. apply write_head in Hw. destruct l as [|u l].
      * by apply head_app.
      * change (write <$> w :: u :: l) with (write w :: (write <$> u :: l)).
        rewrite join_cons, <- !string_app_assoc by done. by apply head_app.
Qed.

Lemma members_read_back l rest f : l <> [] ->
  Forall (fun kv => is_ascii kv.1 = true /\ plain kv.2 = true /\ reads_back kv.2) l ->
  (String.length (join (member_text <$> l)) < f)%nat ->
  parse_members f (join (member_text <$> l) ++ "}" ++ rest) = Some (l, rest).
Proof.
  revert f. induction l as [|[k v] l IH]; intros f Hne Hl Hf; [done|].
  apply Forall_cons in Hl as [(Hk & Hp & Hv) Hl]. cbn [fst snd] in *. destruct f as [|f]; [lia|].
  assert (forall t, parse_members (S f) (member_text (k, v) ++ t)
    = match parse f (write v ++ t) with
      | None => None
      | Some (v, rest2) =>
          match skip_spaces rest2 with
          | String "}" rest3 => Some ([(k, v)], rest3)
          | String "," rest3 =>
              match parse_members f (skip_spaces rest3) with
              | Some (l, rest4) => Some ((k, v) :: l, rest4)
              | None => None
              end
          | _ => None
          end
      end) as Hone.
  { intros t. unfold member_text, literal_of. cbn [fst snd]. rewrite <- !string_app_assoc.
    change (QUOTE ++ ?x) with (String (ascii_of_nat 34) x). cbn [parse_members].
    change (negb (code (ascii_of_nat 34) =? 34)%N) with false. cbn iota.
    change (String (ascii_of_nat 34) ?x) with (QUOTE ++ x). rewrite body_readable by done.
    change (skip_spaces (":" ++ ?x)) with (":" ++ x). change (":" ++ ?x) with (String ":" x). cbn match.
    rewrite skip_head; [done|]. by apply head_app, write_head. }
  assert (String.length (member_text (k, v)) = String.length (literal_of k) + 1 + String.length (write v))%nat as Hlen.
  { unfold member_text. rewrite !length_string_app. cbn [fst snd]. change (String.length ":") with 1%nat. lia. }
  destruct l as [|w l].
  - cbn [fmap list_fmap join String.concat] in *. rewrite Hone, Hv by (done || lia). done.
  - change (member_text <$> (k, v) :: w :: l) with (member_text (k, v) :: (member_text <$> w :: l)) in *.
    rewrite join_cons in * by done. rewrite !length_string_app in Hf. change (String.length ",") with 1%nat in Hf.
    rewrite <- !string_app_assoc, Hone, Hv by (done || lia).
    change (skip_spaces ("," ++ ?x)) with ("," ++ x). change ("," ++ ?x) with (String "," x). cbn match.
    rewrite skip_head.
    + rewrite IH by (done || lia). done.
    + assert (forall x, value_head (member_text x) = true) as Hh by by intros [].
      destruct l as [|u l].
      * by apply head_app.
      * change (member_text <$> w :: u :: l) with (member_text w :: (member_text <$> u :: l)).
        rewrite join_cons, <- !string_app_assoc by done. by apply head_app.
Qed.

Lemma plain_reads_back v : plain v = true -> reads_back v.
Proof.
  induction v as [|b|z|t|s|l IH|kvs IH] using json_nested_ind; intros Hp f rest Hr Hf;
    (destruct f as [|f];
     [exfalso; pose proof (write_head _ Hp); destruct (write _); [done|cbn in Hf; lia]|]).
  - apply parse_word; by destruct rest.
  - destruct b; apply parse_word; by destruct rest.
  - by apply parse_int.
  - by apply parse_float.
  - by apply parse_string.
  - pose proof (plain_arr _ Hp) as Hl. rewrite write_arr in *. rewrite !length_string_app in Hf. change (String.length "[") with 1%nat in Hf.
    change (String.length "]") with 1%nat in Hf. destruct l as [|v l]; [done|].
    assert (Forall (fun v => plain v = true /\ reads_back v) (v :: l)) as Hrb.
    { apply Forall_forall. intros x Hx. rewrite Forall_forall in IH, Hl. eauto. }
    pose proof (items_read_back (v :: l) rest f ltac:(done) Hrb ltac:(lia)) as Hitems.
    rewrite <- !string_app_assoc. change ("[" ++ ?x) with (String "[" x). cbn [parse].
    cbn [code]. change (code "[" =? 34)%N with false. cbn iota.
    change (Ascii.eqb "[" "{") with false. change (Ascii.eqb "[" "[") with true. cbn iota.
    assert (value_head (join (write <$> v :: l) ++ "]" ++ rest) = true) as Hh.
    { apply head_app. apply Forall_cons in Hl as [Hv _]. apply write_head in Hv. destruct l as [|w l]; [done|].
      change (write <$> v :: w :: l) with (write v :: (write <$> w :: l)).
      rewrite join_cons by done. by apply head_app. }
    revert Hh Hitems. generalize (join (write <$> v :: l) ++ "]" ++ rest). intros text Hh Hitems.
    rewrite skip_head by exact Hh. destruct text as [|c t]; [done|].
    destruct c as [[] [] [] [] [] [] [] []]; try discriminate Hh; by rewrite Hitems.
  - destruct (plain_obj _ Hp) as [Hnd Hl]. rewrite write_obj in *.
    assert (Forall (fun kv => is_ascii kv.1 = true /\ plain kv.2 = true /\ reads_back kv.2) kvs) as Hrb.
    { apply Forall_forall. intros x Hx. rewrite Forall_forall in IH, Hl.
      destruct (Hl x Hx) as [? ?]. split_and!; [done|done|]. by apply IH. }
    clear IH Hp Hl. rename kvs into l.
    rewrite !length_string_app in Hf. change (String.length "{") with 1%nat in Hf.
    change (String.length "}") with 1%nat in Hf. destruct l as [|kv l]; [done|].
    pose proof (members_read_back (kv :: l) rest f ltac:(done) Hrb ltac:(lia)) as Hitems.
    rewrite <- !string_app_assoc. change ("{" ++ ?x) with (String "{" x). cbn [parse].
    change (code "{" =? 34)%N with false. cbn iota. change (Ascii.eqb "{" "{") with true. cbn iota.
    assert (value_head (join (member_text <$> kv :: l) ++ "}" ++ rest) = true) as Hh.
    { apply head_app. destruct l as [|w l]; [done|].
      change (member_text <$> kv :: w :: l) with (member_text kv :: (member_text <$> w :: l)).
      rewrite join_cons by done. by apply head_app. }
    revert Hh Hitems. generalize (join (member_text <$> kv :: l) ++ "}" ++ rest). intros text Hh Hitems.
    rewrite skip_head by exact Hh. destruct text as [|c t]; [done|].
    destruct c as [[] [] [] [] [] [] [] []]; try discriminate Hh; by rewrite Hitems, dict_of_distinct.
Qed.

Lemma loads_written v : plain v = true -> loads (write v) = Some v.
Proof using body_readable.
  intros Hp. unfold loads. rewrite skip_head by by apply write_head.
  rewrite <- (string_app_nil_r (write v)) at 2. by rewrite plain_reads_back by (done || lia).
Qed.
End round_trip.

(** Sorting keys while writing is writing the canonical value. *)
Lemma dumps_canon lit v : dumps_with lit v = write_with lit (canon v).
Proof.
  induction v as [| | | | |l IH|kvs IH] using json_nested_ind; [done..| |].
  - rewrite dumps_arr, canon_arr. cbn [write_with]. do 3 f_equal.
    induction IH as [|v l Hv _ IHl]; [done|]. cbn. by rewrite Hv, IHl.
  - rewrite dumps_obj, canon_obj, (merge_sort_map member_le member_le (prod_map id canon)) by done.
    assert (Forall (fun kv => dumps_with lit kv.2 = write_with lit (canon kv.2)) (merge_sort member_le kvs)) as IH'.
    { by rewrite merge_sort_Permutation. }
    cbn [write_with]. do 3 f_equal. induction IH' as [|[k v] l Hv _ IHl]; [done|]. cbn in *. by rewrite Hv, IHl.
Qed.

Lemma canon_plain v : plain v = true -> plain (canon v) = true.
Proof.
  induction v as [| | | | |l IH|kvs IH] using json_nested_ind; intros Hp; [done..| |].
  - pose proof (plain_arr _ Hp) as Hl. rewrite canon_arr. cbn [plain]. clear Hp.
    induction IH as [|v l Hv _ IHl]; [done|]. apply Forall_cons in Hl as [? ?]. cbn. by rewrite Hv, IHl.
  - destruct (plain_obj _ Hp) as [Hn Hl]. rewrite canon_obj, (merge_sort_map member_le member_le (prod_map id canon)) by done.
    cbn [plain]. apply andb_true_iff. split.
    + apply bool_decide_eq_true. rewrite <- list_fmap_compose. by rewrite merge_sort_Permutation.
    + rewrite Forall_forall in IH, Hl.
      assert (Forall (fun kv => is_ascii kv.1 = true /\ plain (canon kv.2) = true) (merge_sort member_le kvs)) as IH'.
      { rewrite merge_sort_Permutation. apply Forall_forall. intros x Hx. destruct (Hl x Hx). auto. }
      induction IH' as [|[k v] l [Hk Hv] _ IHl]; [done|]. cbn in *. by rewrite Hk, Hv, IHl.
Qed.

Lemma loads_dumps v : plain v = true -> loads (dumps_ascii v) = Some (canon v).
Proof.
  intros Hp. unfold dumps_ascii. rewrite dumps_canon.
  exact (loads_written escape_ascii escape_ascii_readable (canon v) (canon_plain v Hp)).
Qed.

Lemma loads_unsorted v : plain v = true -> loads (dumps_unsorted v) = Some v.
Proof. exact (loads_written escape escape_readable v). Qed.

Lemma dumps_inj v w : plain v = true -> plain w = true -> dumps v = dumps w -> canon v = canon w.
Proof.
  intros Hv Hw H. apply (inj Some). rewrite <- !loads_unsorted by by apply canon_plain.
  unfold dumps_unsorted, dumps in *. rewrite !dumps_canon in H. by rewrite H.
Qed.

Lemma hex_char_ascii c : is_digit c || between "a" "f" c = true -> (code c <? 128)%N = true.
Proof. by destruct c as [[] [] [] [] [] [] [] []]. Qed.

Lemma hex64_ascii s : is_hex64 s = true -> is_ascii s = true.
Proof. unfold is_hex64. intros H. bool_to_prop. by apply (string_forall_impl _ _ s hex_char_ascii). Qed.
