(* ===== verification/Sha256.v ===== *)
(** * SHA-256, HMAC and base64 ([hashlib], [hmac], [base64])

    The digests the program binds its identities, checksums and tokens with, executable
    and checked on the published vectors, and the text forms it gives them. Byte strings
    are strings. *)

From Stdlib Require Import ZArith NArith Lia String Ascii.
From stdpp Require Import base numbers strings list.
From S2P Require Import Prelude Strings.
Open Scope N_scope.

(** ** 32-bit words *)

Definition WORD : N := 4294967296.

Definition wadd (x y : N) : N := (x + y) mod WORD.
Definition wnot (x : N) : N := WORD - 1 - x.
Definition rotr (n x : N) : N := N.lor (N.shiftr x n) (N.shiftl x (32 - n) mod WORD).

Definition big_sigma0 (x : N) : N := N.lxor (rotr 2 x) (N.lxor (rotr 13 x) (rotr 22 x)).
Definition big_sigma1 (x : N) : N := N.lxor (rotr 6 x) (N.lxor (rotr 11 x) (rotr 25 x)).
Definition small_sigma0 (x : N) : N := N.lxor (rotr 7 x) (N.lxor (rotr 18 x) (N.shiftr x 3)).
Definition small_sigma1 (x : N) : N := N.lxor (rotr 17 x) (N.lxor (rotr 19 x) (N.shiftr x 10)).
Definition choose (x y z : N) : N := N.lxor (N.land x y) (N.land (wnot x) z).
Definition majority (x y z : N) : N := N.lxor (N.land x y) (N.lxor (N.land x z) (N.land y z)).

(** The constants as the standard derives them: the first 32 bits of the fractional parts of the
    cube roots (of 64 primes) and of the square roots (of 8). *)
Definition prime (n : N) : bool := forallb (fun d => negb (n mod N.of_nat d =? 0)) (seq 2 (N.to_nat n - 2)).
Definition primes_up_to (n : nat) : list N := List.filter prime (N.of_nat <$> seq 2 (n - 1)).

(** The greatest number of at most [bits] bits over [acc] whose [k]-th power is at most [n]. *)
Fixpoint root_of (k n : N) (bits : nat) (acc : N) : N :=
  match bits with
  | O => acc
  | S b => let next := acc + 2 ^ N.of_nat b in root_of k n b (if next ^ k <=? n then next else acc)
  end.

Definition fraction_bits (k p : N) : N := root_of k (p * 2 ^ (32 * k)) 40 0 mod WORD.

Definition ROUND_CONSTANTS : list N := Eval vm_compute in fraction_bits 3 <$> primes_up_to 311.

Record sha_state : Type := mkSha { s0 : N; s1 : N; s2 : N; s3 : N; s4 : N; s5 : N; s6 : N; s7 : N }.

Definition INITIAL_STATE : sha_state := Eval vm_compute in
  match fraction_bits 2 <$> primes_up_to 19 with
  | [a; b; c; d; e; f; g; h] => mkSha a b c d e f g h
  | _ => mkSha 0 0 0 0 0 0 0 0
  end.

(** The schedule, newest word first: 16 words of the block, then [n] derived ones. *)
Fixpoint extend_schedule (n : nat) (w : list N) : list N :=
  match n with
  | O => w
  | S n' =>
      let word i := nth i w 0 in
      extend_schedule n' (wadd (small_sigma1 (word 1%nat)) (wadd (word 6%nat) (wadd (small_sigma0 (word 14%nat)) (word 15%nat))) :: w)
  end.

Definition sha_round (st : sha_state) (kw : N * N) : sha_state :=
  let t1 := wadd (s7 st) (wadd (big_sigma1 (s4 st)) (wadd (choose (s4 st) (s5 st) (s6 st)) (wadd kw.1 kw.2))) in
  let t2 := wadd (big_sigma0 (s0 st)) (majority (s0 st) (s1 st) (s2 st)) in
  mkSha (wadd t1 t2) (s0 st) (s1 st) (s2 st) (wadd (s3 st) t1) (s4 st) (s5 st) (s6 st).

Definition compress (st : sha_state) (block : list N) : sha_state :=
  let r := fold_left sha_round (combine ROUND_CONSTANTS (rev (extend_schedule 48 (rev block)))) st in
  mkSha (wadd (s0 st) (s0 r)) (wadd (s1 st) (s1 r)) (wadd (s2 st) (s2 r)) (wadd (s3 st) (s3 r))
    (wadd (s4 st) (s4 r)) (wadd (s5 st) (s5 r)) (wadd (s6 st) (s6 r)) (wadd (s7 st) (s7 r)).

(** ** Bytes *)

Definition byte_string (l : list N) : string := fold_right (fun n s => String (ascii_of_N n) s) EmptyString l.

Fixpoint byte_list (s : string) : list N :=
  match s with EmptyString => [] | String c s' => N_of_ascii c :: byte_list s' end.

(** [n] bytes of [x], most significant first. *)
Fixpoint be_bytes (n : nat) (x : N) : list N :=
  match n with O => [] | S n' => (N.shiftr x (8 * N.of_nat n')) mod 256 :: be_bytes n' x end.

(** The padding: one bit, zeros, and the length in bits. *)
Definition pad (l : list N) : list N :=
  let zeros := ((119 - length l mod 64) mod 64)%nat in
  l ++ [0x80] ++ replicate zeros 0 ++ be_bytes 8 (8 * N.of_nat (length l)).

Fixpoint words (l : list N) : list N :=
  match l with
  | a :: b :: c :: d :: rest => N.lor (N.shiftl a 24) (N.lor (N.shiftl b 16) (N.lor (N.shiftl c 8) d)) :: words rest
  | _ => []
  end.

(** One block of 16 words after the other; [fuel] is at least their number. *)
Fixpoint absorb (fuel : nat) (st : sha_state) (l : list N) : sha_state :=
  match fuel, l with
  | S fuel', _ :: _ => absorb fuel' (compress st (take 16 l)) (drop 16 l)
  | _, _ => st
  end.

Definition state_bytes (st : sha_state) : list N :=
  mjoin (be_bytes 4 <$> [s0 st; s1 st; s2 st; s3 st; s4 st; s5 st; s6 st; s7 st]).

(** [hashlib.sha256(s).digest()] *)
Definition sha256 (s : string) : string :=
  let w := words (pad (byte_list s)) in
  byte_string (state_bytes (absorb (length w) INITIAL_STATE w)).

Definition hex_char (n : N) : ascii := ascii_of_N (if n <? 10 then 48 + n else 87 + n).

(** [bytes.hex()] *)
Fixpoint hex (s : string) : string :=
  match s with
  | EmptyString => EmptyString
  | String c s' => String (hex_char (N_of_ascii c / 16)) (String (hex_char (N_of_ascii c mod 16)) (hex s'))
  end.

(** [hashlib.sha256(s).hexdigest()] *)
Definition sha256_hex (s : string) : string := hex (sha256 s).

(** ** HMAC *)

Definition BLOCK_SIZE : nat := 64.

Definition block_key (key : string) : list N :=
  let k := byte_list (if (BLOCK_SIZE <? String.length key)%nat then sha256 key else key) in
  k ++ replicate (BLOCK_SIZE - length k) 0.

Definition xor_all (n : N) (l : list N) : string := byte_string (N.lxor n <$> l).

(** [hmac.new(key, message, hashlib.sha256).digest()] *)
Definition hmac_sha256 (key message : string) : string :=
  let k := block_key key in
  sha256 (xor_all 0x5c k ++ sha256 (xor_all 0x36 k ++ message)).

Definition hmac_hex (key message : string) : string := hex (hmac_sha256 key message).

(** ** Base64 with the URL alphabet, without padding *)

Definition b64_char (n : N) : ascii :=
  ascii_of_N (if n <? 26 then 65 + n else if n <? 52 then 71 + n else if n <? 62 then n - 4 else if n =? 62 then 45 else 95).

Definition b64_three (a b c : ascii) : N := N_of_ascii a * 65536 + N_of_ascii b * 256 + N_of_ascii c.

(** [base64.urlsafe_b64encode(s).rstrip(b"=").decode("ascii")] *)
Fixpoint urlsafe_b64 (s : string) : string :=
  match s with
  | EmptyString => EmptyString
  | String a EmptyString =>
      let n := b64_three a zero zero in
      String (b64_char (n / 262144)) (String (b64_char (n / 4096 mod 64)) EmptyString)
  | String a (String b EmptyString) =>
      let n := b64_three a b zero in
      String (b64_char (n / 262144)) (String (b64_char (n / 4096 mod 64)) (String (b64_char (n / 64 mod 64)) EmptyString))
  | String a (String b (String c rest)) =>
      let n := b64_three a b c in
      String (b64_char (n / 262144)) (String (b64_char (n / 4096 mod 64))
        (String (b64_char (n / 64 mod 64)) (String (b64_char (n mod 64)) (urlsafe_b64 rest))))
  end.

(** ** Shapes *)

Lemma length_byte_string l : String.length (byte_string l) = length l.
Proof. induction l; cbn; auto. Qed.

Lemma length_sha256 s : String.length (sha256 s) = 32%nat.
Proof. unfold sha256. by rewrite length_byte_string. Qed.

Lemma length_hmac key message : String.length (hmac_sha256 key message) = 32%nat.
Proof. apply length_sha256. Qed.

Lemma length_hex s : String.length (hex s) = (2 * String.length s)%nat.
Proof. induction s as [|c s IH]; [done|]. cbn [hex String.length]. lia. Qed.

Lemma hex_char_lower c : let lower_hex c := is_digit c || between "a" "f" c in
  lower_hex (hex_char (N_of_ascii c / 16)) && lower_hex (hex_char (N_of_ascii c mod 16)) = true.
Proof. destruct c as [[] [] [] [] [] [] [] []]; vm_compute; reflexivity. Qed.

Lemma hex_lower s : string_forall (fun c => is_digit c || between "a" "f" c) (hex s) = true.
Proof.
  induction s as [|c s IH]; [done|]. cbn [hex string_forall]. rewrite IH, andb_true_r. apply hex_char_lower.
Qed.

Lemma hex_digest_shape s : String.length s = 32%nat -> is_hex64 (hex s) = true.
Proof. intros Hl. unfold is_hex64. rewrite length_hex, Hl, hex_lower. done. Qed.

(** A digest in hexadecimal. *)
Lemma sha256_hex_shape s : is_hex64 (sha256_hex s) = true.
Proof. apply hex_digest_shape, length_sha256. Qed.

Lemma hmac_hex_shape key message : is_hex64 (hmac_hex key message) = true.
Proof. apply hex_digest_shape, length_hmac. Qed.

(** ** The text forms lose nothing *)

Definition hex_value_of (c : ascii) : N := let n := N_of_ascii c in if n <? 58 then n - 48 else n - 87.

Definition unhex (a b : ascii) : ascii := ascii_of_N (hex_value_of a * 16 + hex_value_of b).

Lemma unhex_char c : unhex (hex_char (N_of_ascii c / 16)) (hex_char (N_of_ascii c mod 16)) = c.
Proof. destruct c as [[] [] [] [] [] [] [] []]; vm_compute; reflexivity. Qed.

#[export] Instance hex_inj : Inj (=) (=) hex.
Proof.
  intros s. induction s as [|c s IH]; intros [|c' s']; [done..|]. cbn [hex]. intros H.
  pose proof (f_equal (fun t => match t with String x (String y _) => unhex x y | _ => zero end) H) as Hc.
  cbn beta iota in Hc. rewrite !unhex_char in Hc. f_equal; [exact Hc|]. apply IH. by injection H.
Qed.

Definition b64_value (c : ascii) : N :=
  let n := N_of_ascii c in
  if n =? 45 then 62 else if n =? 95 then 63 else if n <? 58 then n + 4 else if n <? 91 then n - 65 else n - 71.

Definition b64_alphabet (c : ascii) : bool := is_alnum c || Ascii.eqb c "_" || Ascii.eqb c "-".

Lemma sextet n : n < 64 -> b64_value (b64_char n) = n /\ b64_alphabet (b64_char n) = true.
Proof.
  intros Hn. assert (Forall (fun n => b64_value (b64_char (N.of_nat n)) = N.of_nat n
                                      /\ b64_alphabet (b64_char (N.of_nat n)) = true) (seq 0 64)) as Hall.
  { apply (bool_decide_eq_true_1 _). vm_compute. reflexivity. }
  rewrite Forall_forall in Hall. specialize (Hall (N.to_nat n)). rewrite N2Nat.id in Hall. apply Hall, elem_of_seq. lia.
Qed.

Lemma sextet_inj m n : m < 64 -> n < 64 -> b64_char m = b64_char n -> m = n.
Proof. intros Hm Hn He. apply (f_equal b64_value) in He. by rewrite (proj1 (sextet m Hm)), (proj1 (sextet n Hn)) in He. Qed.

Lemma three_bound a b c : b64_three a b c < 16777216.
Proof. unfold b64_three. pose proof (N_ascii_bounded a). pose proof (N_ascii_bounded b). pose proof (N_ascii_bounded c). lia. Qed.

Lemma three_inj a b c a' b' c' : b64_three a b c = b64_three a' b' c' -> a = a' /\ b = b' /\ c = c'.
Proof.
  unfold b64_three. pose proof (N_ascii_bounded a). pose proof (N_ascii_bounded b). pose proof (N_ascii_bounded c).
  pose proof (N_ascii_bounded a'). pose proof (N_ascii_bounded b'). pose proof (N_ascii_bounded c'). intros He.
  assert (N_of_ascii a = N_of_ascii a' /\ N_of_ascii b = N_of_ascii b' /\ N_of_ascii c = N_of_ascii c') as (Ha & Hb & Hc) by lia.
  apply (f_equal ascii_of_N) in Ha, Hb, Hc. by rewrite !ascii_N_embedding in Ha, Hb, Hc.
Qed.

(** The four sextets of a group, and the number they spell. *)
Definition q1 (n : N) : N := n / 262144.
Definition q2 (n : N) : N := n / 4096 mod 64.
Definition q3 (n : N) : N := n / 64 mod 64.
Definition q4 (n : N) : N := n mod 64.

Lemma quads_bound n : n < 16777216 -> q1 n < 64 /\ q2 n < 64 /\ q3 n < 64 /\ q4 n < 64.
Proof. unfold q1, q2, q3, q4. intros Hn. split; [apply N.Div0.div_lt_upper_bound; lia|]. split_and!; apply N.mod_lt; lia. Qed.

Lemma quads_inj m n : q1 m = q1 n -> q2 m = q2 n -> q3 m = q3 n -> q4 m = q4 n -> m = n.
Proof.
  assert (forall n, n = 64 * (64 * (64 * q1 n + q2 n) + q3 n) + q4 n) as Hsplit.
  { intros k. unfold q1, q2, q3, q4. change 262144 with (64 * 64 * 64). change 4096 with (64 * 64).
    rewrite <- !N.Div0.div_div, <- !N.Div0.div_mod. reflexivity. }
  intros H1 H2 H3 H4. rewrite (Hsplit m), (Hsplit n). congruence.
Qed.

Lemma quad_chars a b c a' b' c' :
  let m := b64_three a b c in let n := b64_three a' b' c' in
  b64_char (q1 m) = b64_char (q1 n) -> b64_char (q2 m) = b64_char (q2 n) -> b64_char (q3 m) = b64_char (q3 n) ->
  b64_char (q4 m) = b64_char (q4 n) -> a = a' /\ b = b' /\ c = c'.
Proof.
  intros m n H1 H2 H3 H4. destruct (quads_bound m (three_bound a b c)) as (? & ? & ? & ?).
  destruct (quads_bound n (three_bound a' b' c')) as (? & ? & ? & ?).
  apply three_inj, quads_inj; by apply sextet_inj.
Qed.

Lemma short_group_1 a : q3 (b64_three a zero zero) = 0 /\ q4 (b64_three a zero zero) = 0.
Proof. destruct a as [[] [] [] [] [] [] [] []]; vm_compute; done. Qed.

Lemma short_group_2 a b : q4 (b64_three a b zero) = 0.
Proof.
  unfold b64_three, q4. change (N_of_ascii zero) with 0. rewrite N.add_0_r.
  replace (N_of_ascii a * 65536 + N_of_ascii b * 256) with ((N_of_ascii a * 1024 + N_of_ascii b * 4) * 64) by lia.
  apply N.Div0.mod_mul.
Qed.

(** Induction in groups of three characters. *)
Lemma string_three_ind (P : string -> Prop) : P "" -> (forall a, P (String a "")) -> (forall a b, P (String a (String b ""))) ->
  (forall a b c s, P s -> P (String a (String b (String c s)))) -> forall s, P s.
Proof. intros H0 H1 H2 H3. fix IH 1. intros [|a [|b [|c s]]]; [exact H0|exact (H1 a)|exact (H2 a b)|exact (H3 a b c s (IH s))]. Qed.

#[export] Instance urlsafe_b64_inj : Inj (=) (=) urlsafe_b64.
Proof.
  intros s. induction s as [|a|a b|a b c s IH] using string_three_ind; intros [|a' [|b' [|c' s']]] H; cbn in H; try done;
    injection H; intros.
  - f_equal. eapply (proj1 (quad_chars a zero zero a' zero zero _ _ _ _)).
    Unshelve. all: try assumption; f_equal; destruct (short_group_1 a), (short_group_1 a'); congruence.
  - assert (a = a' /\ b = b' /\ zero = zero) as (-> & -> & _); [|done]. apply quad_chars; try assumption.
    by rewrite !short_group_2.
  - assert (a = a' /\ b = b' /\ c = c') as (-> & -> & ->) by by apply quad_chars. by rewrite (IH s').
Qed.

Lemma b64_chars n : n < 16777216 -> b64_alphabet (b64_char (q1 n)) = true /\ b64_alphabet (b64_char (q2 n)) = true
  /\ b64_alphabet (b64_char (q3 n)) = true /\ b64_alphabet (b64_char (q4 n)) = true.
Proof. intros Hn. destruct (quads_bound n Hn) as (H1 & H2 & H3 & H4). split_and!; by apply sextet. Qed.

Lemma b64_shape s : string_forall b64_alphabet (urlsafe_b64 s) = true.
Proof.
  induction s as [|a|a b|a b c s IH] using string_three_ind; [done| | |].
  - destruct (b64_chars _ (three_bound a zero zero)) as (H1 & H2 & _). cbn. unfold q1, q2 in *. by rewrite H1, H2.
  - destruct (b64_chars _ (three_bound a b zero)) as (H1 & H2 & H3 & _). cbn. unfold q1, q2, q3 in *. by rewrite H1, H2, H3.
  - destruct (b64_chars _ (three_bound a b c)) as (H1 & H2 & H3 & H4). cbn. unfold q1, q2, q3, q4 in *.
    by rewrite IH, H1, H2, H3, H4.
Qed.

Lemma length_b64 s n : String.length s = (3 * n + 2)%nat -> String.length (urlsafe_b64 s) = (4 * n + 3)%nat.
Proof.
  revert n. induction s as [|a|a b|a b c s IH] using string_three_ind; intros n Hn; cbn in *; try lia.
  destruct n as [|n]; [lia|]. rewrite (IH n); lia.
Qed.

(** A 32-byte digest takes 43 characters. *)
Lemma length_b64_digest s : String.length s = 32%nat -> String.length (urlsafe_b64 s) = 43%nat.
Proof. intros Hl. by rewrite (length_b64 s 10). Qed.

(** ** Published vectors *)

Example sha256_empty : sha256_hex "" = "e3b0c44298fc1c149afbf4c8996fb92427ae41e4649b934ca495991b7852b855"%string.
Proof. vm_compute. reflexivity. Qed.

Example sha256_abc : sha256_hex "abc" = "ba7816bf8f01cfea414140de5dae2223b00361a396177a9cb410ff61f20015ad"%string.
Proof. vm_compute. reflexivity. Qed.

Example sha256_two_blocks : sha256_hex "abcdbcdecdefdefgefghfghighijhijkijkljklmklmnlmnomnopnopq"
  = "248d6a61d20638b8e5c026930c3e6039a33ce45964ff2167f6ecedd419db06c1"%string.
Proof. vm_compute. reflexivity. Qed.

Example hmac_rfc4231_2 : hmac_hex "Jefe" "what do ya want for nothing?"
  = "5bdcc146bf60754e6a042426089575c75a003f089d2739839dec58b964ec3843"%string.
Proof. vm_compute. reflexivity. Qed.

Example b64_rfc4648 : urlsafe_b64 <$> ["f"; "fo"; "foo"; "foob"; "fooba"; "foobar"]%string
  = ["Zg"; "Zm8"; "Zm9v"; "Zm9vYg"; "Zm9vYmE"; "Zm9vYmFy"]%string.
Proof. vm_compute. reflexivity. Qed.
