(* ===== verification/Redaction.v ===== *)
(** * Redaction of personal data ([security/pii_detector.py], [security/persistence_redactor.py])

    Everything the backend persists or discloses goes through a detector of personal
    data whose findings are replaced by the name of their type. Text is ASCII. The
    entities the optional spaCy model finds are an argument: labels with spans. *)

From Stdlib Require Import ZArith Lia String Ascii.
From stdpp Require Import base strings list sorting pretty.
From S2P Require Import Prelude Strings Json JsonText Regex.
Open Scope string_scope.

(** ** Detection *)

Inductive RiskLevel : Type := low | medium | high.
Inductive Source : Type := from_regex | spacy_ner.

#[export] Instance RiskLevel_eq_dec : EqDecision RiskLevel.
Proof. solve_decision. Defined.
#[export] Instance Source_eq_dec : EqDecision Source.
Proof. solve_decision. Defined.

Record PIIEntity : Type := mkEntity {
  entity_type : string;
  value : string;
  start : nat;
  stop : nat;
  risk_level : RiskLevel;
  source : Source
}.

#[export] Instance PIIEntity_eq_dec : EqDecision PIIEntity.
Proof. solve_decision. Defined.

Definition digit : regex := Chr is_digit.
Definition char_of (chars : string) : regex := Chr (one_of chars).
Definition word_or (chars : string) : regex := Chr (fun c => is_alnum c || one_of chars c).
Definition letter (c : ascii) : bool := is_lower c || is_upper c.

Definition email_pattern : regex :=
  cats [plus (word_or "._%+-"); lit "@"; plus (word_or ".-"); lit "."; at_least 2 (Chr letter)].

Definition phone_pattern : regex :=
  cats [Boundary; opt (cats [opt (lit "+"); lit "1"; opt (char_of "-.")]); opt (lit "("); times 3 digit; opt (lit ")");
        opt (char_of "-."); times 3 digit; opt (char_of "-."); times 4 digit; Boundary].

Definition ssn_pattern : regex :=
  cats [Boundary; times 3 digit; lit "-"; times 2 digit; lit "-"; times 4 digit; Boundary].

Definition credit_card_pattern : regex :=
  cats [Boundary; times 3 (Cat (times 4 digit) (opt (Chr (fun c => Ascii.eqb c "-" || is_white c))));
        times 4 digit; Boundary].

Definition ip_address_pattern : regex :=
  cats [Boundary; between_times 1 3 digit; lit "."; between_times 1 3 digit; lit "."; between_times 1 3 digit;
        lit "."; between_times 1 3 digit; Boundary].

Definition date_of_birth_pattern : regex :=
  cats [Boundary; Alt (Cat (lit "0") (Chr (between "1" "9"))) (Cat (lit "1") (Chr (between "0" "2"))); lit "/";
        alts [Cat (lit "0") (Chr (between "1" "9")); Cat (char_of "12") digit; Cat (lit "3") (char_of "01")];
        lit "/"; Alt (lit "19") (lit "20"); times 2 digit; Boundary].

Definition PII_PATTERNS : list (string * (regex * RiskLevel)) :=
  [("email", (email_pattern, medium)); ("phone", (phone_pattern, medium)); ("ssn", (ssn_pattern, high));
   ("credit_card", (credit_card_pattern, high)); ("ip_address", (ip_address_pattern, low));
   ("date_of_birth", (date_of_birth_pattern, medium))].

(** Lexicographic order of the sort keys, on triples of two integers and a string. *)
Definition key_leb (a b : Z * Z * string) : bool :=
  let '(x, y, s) := a in
  let '(x', y', s') := b in
  (x <? x')%Z || ((x =? x')%Z && ((y <? y')%Z || ((y =? y')%Z && String.leb s s'))).

Definition by_key (key : PIIEntity -> Z * Z * string) (a b : PIIEntity) : Prop := key_leb (key a) (key b) = true.

#[export] Instance by_key_dec key : RelDecision (by_key key).
Proof. intros a b. unfold by_key. apply _. Defined.

Definition span_length (e : PIIEntity) : Z := (Z.of_nat (stop e) - Z.of_nat (start e))%Z.

Definition reading_order (e : PIIEntity) : Z * Z * string := (Z.of_nat (start e), (- span_length e)%Z, entity_type e).
Definition longest_first (e : PIIEntity) : Z * Z * string := ((- span_length e)%Z, Z.of_nat (start e), entity_type e).
Definition text_order (e : PIIEntity) : Z * Z * string := (Z.of_nat (start e), Z.of_nat (stop e), entity_type e).

(** What the source keeps of spaCy's labels. *)
Definition ner_type (label : string) : option (string * RiskLevel) :=
  if string_eqb label "PERSON" then Some ("person_name", medium)
  else if string_eqb label "GPE" then Some ("location", low)
  else if string_eqb label "ORG" then Some ("organization", low)
  else None.

Definition overlaps (a b : PIIEntity) : bool := (start a <? stop b)%nat && (start b <? stop a)%nat.

(** The loop of [non_overlapping]. *)
Fixpoint select (selected : list PIIEntity) (entities : list PIIEntity) : list PIIEntity :=
  match entities with
  | [] => selected
  | e :: rest =>
      if (stop e <=? start e)%nat then select selected rest
      else if existsb (overlaps e) selected then select selected rest
      else select (selected ++ [e])%list rest
  end.

Definition non_overlapping (entities : list PIIEntity) : list PIIEntity :=
  merge_sort (by_key text_order) (select [] (merge_sort (by_key longest_first) entities)).

Definition to_upper (c : ascii) : ascii :=
  if is_lower c then ascii_of_nat (nat_of_ascii c - 32) else c.

Definition upper (s : string) : string := string_map to_upper s.

Definition tag (e : PIIEntity) : string := "[" ++ upper (entity_type e) ++ "]".

Definition redact_entities (text : string) (entities : list PIIEntity) : string :=
  match non_overlapping entities with
  | [] => text
  | ranges => splice text 0 ((fun e => (start e, stop e, tag e)) <$> ranges)
  end.

Section detector.
(** [_nlp(text).ents] when spaCy is in use: label, text, start and end of each. *)
Variable nlp : option (string -> list (string * string * nat * nat)).

Definition regex_entities (text : string) : list PIIEntity :=
  PII_PATTERNS ≫= fun p =>
    (fun s => mkEntity p.1 (slice s.1 s.2 text) s.1 s.2 p.2.2 from_regex) <$> finditer p.2.1 text.

Definition ner_entities (text : string) : list PIIEntity :=
  match nlp with
  | None => []
  | Some ents =>
      ents text ≫= fun '(label, t, a, b) =>
        match ner_type label with
        | Some (kind, risk) => [mkEntity kind t a b risk spacy_ner]
        | None => []
        end
  end.

Definition detect (text : string) : list PIIEntity :=
  merge_sort (by_key reading_order) (regex_entities text ++ ner_entities text)%list.

(** [PIIDetector.redact] *)
Definition redact (text : string) : string := redact_entities text (detect text).

Definition assess_risk (text : string) : string :=
  match detect text with
  | [] => "none"
  | entities =>
      if existsb (fun e => bool_decide (risk_level e = high)) entities then "high"
      else if existsb (fun e => bool_decide (risk_level e = medium)) entities then "medium"
      else "low"
  end.

(** ** Persistence *)

Record RedactionResult : Type := mkRedaction {
  red_text : string;
  count : Z;
  types : list string
}.

Definition string_le (a b : string) : Prop := String.leb a b = true.
#[local] Instance string_le_dec : RelDecision string_le.
Proof. intros a b. unfold string_le. apply _. Defined.

(** [sorted(Counter(..))]: the distinct types in order. *)
Definition redact_text (text : string) : RedactionResult :=
  let entities := detect text in
  let kept := entity_type <$> non_overlapping entities in
  mkRedaction (redact_entities text entities) (Z.of_nat (length kept)) (merge_sort string_le (remove_dups kept)).

(** [key_counts[key]] *)
Fixpoint counted (k : string) (counts : list (string * nat)) : nat :=
  match counts with
  | [] => 0
  | (k', n) :: counts' => if string_eqb k' k then n else counted k counts'
  end.

Definition ordinal_key (base : string) (ordinal : nat) : string := base ++ "__" ++ pretty ordinal.

(** The loop that looks for a key not in use yet. *)
Fixpoint free_key (fuel : nat) (base : string) (ordinal : nat) (used : list string) : string * nat :=
  let candidate := if (ordinal =? 1)%nat then base else ordinal_key base ordinal in
  match fuel with
  | O => (candidate, ordinal)
  | S fuel' =>
      if bool_decide (candidate ∈ used) then free_key fuel' base (S ordinal) used else (candidate, ordinal)
  end.

(** The new dictionary, from the entries left; their values are redacted already. *)
Fixpoint redact_members (counts : list (string * nat)) (redacted : list (string * json))
    (members : list (string * json)) : list (string * json) :=
  match members with
  | [] => redacted
  | (key, item) :: rest =>
      let base := red_text (redact_text key) in
      let '(safe_key, ordinal) := free_key (S (length redacted)) base (S (counted base counts)) (redacted.*1) in
      redact_members ((base, ordinal) :: counts) (redacted ++ [(safe_key, item)])%list rest
  end.

Fixpoint redact_value (v : json) : json :=
  match v with
  | JStr s => JStr (red_text (redact_text s))
  | JObj kvs =>
      JObj (redact_members [] []
        ((fix go l := match l with [] => [] | (k, x) :: l' => (k, redact_value x) :: go l' end) kvs))
  | JArr l => JArr ((fix go l := match l with [] => [] | x :: l' => redact_value x :: go l' end) l)
  | _ => v
  end.
End detector.

(** ** The ranges that are replaced *)

Lemma key_leb_total a b : key_leb a b = true \/ key_leb b a = true.
Proof.
  destruct a as [[x y] s], b as [[x' y'] s']. unfold key_leb.
  rewrite !orb_true_iff, !andb_true_iff, !orb_true_iff, !andb_true_iff, !Z.ltb_lt, !Z.eqb_eq.
  destruct (String.leb_total s s'); destruct (Z.lt_trichotomy x x') as [?|[?|?]];
    destruct (Z.lt_trichotomy y y') as [?|[?|?]]; subst; tauto.
Qed.

#[export] Instance by_key_total key : Total (by_key key).
Proof. intros a b. apply key_leb_total. Qed.

(** Sorting by a key sorts by its first component. *)
Lemma sorted_by_first (key : PIIEntity -> Z * Z * string) l :
  StronglySorted (fun a b => ((key a).1.1 <= (key b).1.1)%Z) (merge_sort (by_key key) l).
Proof.
  assert (forall a b, by_key key a b -> ((key a).1.1 <= (key b).1.1)%Z) as Hfirst.
  { intros a b. unfold by_key, key_leb. destruct (key a) as [[x y] s], (key b) as [[x' y'] s']. cbn. intros Hk.
    apply orb_true_iff in Hk as [Hk|Hk]; bool_to_prop; lia. }
  apply Sorted_StronglySorted; [intros x y z; lia|].
  pose proof (Sorted_merge_sort (by_key key) l) as Hs. induction Hs as [|x l' Hs IH Hd]; constructor; [exact IH|].
  destruct Hd; constructor; auto.
Qed.

Lemma sorted_weaken {A} (R R' : A -> A -> Prop) l :
  (forall a b, R a b -> R' a b) -> StronglySorted R l -> StronglySorted R' l.
Proof. intros HR. induction 1 as [|a l Hs IH Hf]; constructor; [done|]. eapply Forall_impl; [exact Hf|auto]. Qed.

(** What the selection keeps so far, of the entities seen so far. *)
Record kept_ok (seen kept : list PIIEntity) : Prop := {
  kept_nodup : NoDup kept;
  kept_real e : e ∈ kept -> e ∈ seen /\ (start e < stop e)%nat;
  kept_apart a b : a ∈ kept -> b ∈ kept -> a <> b -> overlaps a b = false;
  kept_hits e : e ∈ seen -> (start e < stop e)%nat ->
    exists k, k ∈ kept /\ overlaps e k = true /\ (span_length e <= span_length k)%Z
}.

Lemma overlaps_sym a b : overlaps a b = overlaps b a.
Proof. unfold overlaps. apply andb_comm. Qed.

Lemma overlaps_self e : (start e < stop e)%nat -> overlaps e e = true.
Proof. intros H%Nat.ltb_lt. unfold overlaps. by rewrite H. Qed.

Lemma kept_ok_skip seen kept e : kept_ok seen kept ->
  ((start e < stop e)%nat -> exists k, k ∈ kept /\ overlaps e k = true /\ (span_length e <= span_length k)%Z) ->
  kept_ok (seen ++ [e]) kept.
Proof.
  intros [Hn Hr Ha Hh] He. split; [done| |done|].
  - intros x Hx. destruct (Hr x Hx). split; [by apply elem_of_app; left|done].
  - intros x [Hx| ->%list_elem_of_singleton]%elem_of_app; auto.
Qed.

Lemma kept_ok_add seen kept e : kept_ok seen kept -> (start e < stop e)%nat -> existsb (overlaps e) kept = false ->
  kept_ok (seen ++ [e]) (kept ++ [e]).
Proof.
  intros [Hn Hr Ha Hh] He Hno.
  assert (forall k, k ∈ kept -> overlaps e k = false) as Hfree.
  { intros k Hk. destruct (overlaps e k) eqn:Ho; [|done].
    assert (existsb (overlaps e) kept = true) as Hyes; [|by rewrite Hno in Hyes].
    apply existsb_exists. exists k. by rewrite <- list_elem_of_In. }
  split.
  - apply NoDup_app. split_and!; [done| |apply NoDup_singleton]. intros x Hx ->%list_elem_of_singleton.
    pose proof (Hfree e Hx). by rewrite overlaps_self in *.
  - intros x [Hx| ->%list_elem_of_singleton]%elem_of_app.
    + destruct (Hr x Hx). split; [by apply elem_of_app; left|done].
    + split; [apply elem_of_app; right; left|done].
  - intros a b [Hx| ->%list_elem_of_singleton]%elem_of_app [Hy| ->%list_elem_of_singleton]%elem_of_app Hab; eauto; [|done].
    rewrite overlaps_sym. eauto.
  - intros x [Hx| ->%list_elem_of_singleton]%elem_of_app Hne.
    + destruct (Hh x Hx Hne) as (k & Hk & Ho & Hl). exists k. split; [by apply elem_of_app; left|done].
    + exists e. split_and!; [apply elem_of_app; right; left|by apply overlaps_self|lia].
Qed.

Lemma select_ok entities seen kept : kept_ok seen kept ->
  StronglySorted (fun a b => (span_length b <= span_length a)%Z) entities ->
  (forall k e, k ∈ kept -> e ∈ entities -> (span_length e <= span_length k)%Z) ->
  kept_ok (seen ++ entities) (select kept entities).
Proof.
  revert seen kept. induction entities as [|e rest IH]; intros seen kept Hok Hs Hlong; cbn [select].
  - by rewrite app_nil_r.
  - apply StronglySorted_cons in Hs as [He Hs]. rewrite (app_assoc seen [e] rest : (seen ++ e :: rest = _)%list).
    assert (forall k x, k ∈ kept -> x ∈ rest -> (span_length x <= span_length k)%Z) as Hrest.
    { intros k x Hk Hx. apply Hlong; [done|by right]. }
    destruct (stop e <=? start e)%nat eqn:Hempty.
    + apply Nat.leb_le in Hempty. apply IH; [|done|done]. apply kept_ok_skip; [done|lia].
    + apply Nat.leb_gt in Hempty. destruct (existsb (overlaps e) kept) eqn:Hex.
      * apply IH; [|done|done]. apply kept_ok_skip; [done|]. intros _. apply existsb_exists in Hex as (k & Hk & Ho).
        rewrite <- list_elem_of_In in Hk. exists k. split_and!; [done|done|]. apply Hlong; [done|left].
      * apply IH; [by apply kept_ok_add|done|]. intros k x [Hk| ->%list_elem_of_singleton]%elem_of_app Hx; [by auto|].
        rewrite Forall_forall in He. by apply He.
Qed.

Lemma kept_ok_permutation seen seen' kept kept' : seen ≡ₚ seen' -> kept ≡ₚ kept' -> kept_ok seen kept -> kept_ok seen' kept'.
Proof.
  intros Hs Hk [Hn Hr Ha Hh]. split.
  - by rewrite <- Hk.
  - intros e. rewrite <- Hs, <- Hk. apply Hr.
  - intros a b. rewrite <- Hk. apply Ha.
  - intros e. setoid_rewrite <- Hk. rewrite <- Hs. apply Hh.
Qed.

Lemma non_overlapping_ok entities : kept_ok entities (non_overlapping entities).
Proof.
  apply (kept_ok_permutation (merge_sort (by_key longest_first) entities) _ (select [] (merge_sort (by_key longest_first) entities))).
  - apply merge_sort_Permutation.
  - symmetry. apply merge_sort_Permutation.
  - apply (select_ok _ [] []).
    + split; [apply NoDup_nil_2|..]; intros; by match goal with H : _ ∈ [] |- _ => apply elem_of_nil in H end.
    + eapply sorted_weaken; [|apply sorted_by_first]. intros a b. cbn. lia.
    + intros ? ? ?%elem_of_nil. done.
Qed.

(** The kept ranges come in order and do not meet. *)
Lemma ordered_spans from len l :
  StronglySorted (fun a b => start a <= start b)%nat l -> NoDup l ->
  (forall a b, a ∈ l -> b ∈ l -> a <> b -> overlaps a b = false) ->
  (forall e, e ∈ l -> (from <= start e < stop e /\ stop e <= len)%nat) -> (from <= len)%nat ->
  spans_ok from len ((fun e => (start e, stop e)) <$> l).
Proof.
  revert from. induction l as [|e l IH]; intros from Hs Hn Ha Hr Hf; [done|].
  apply StronglySorted_cons in Hs as [He Hs]. apply NoDup_cons in Hn as [Hne Hn]. rewrite Forall_forall in He.
  destruct (Hr e) as [? ?]; [left|]. cbn [fmap list_fmap spans_ok]. split; [lia|]. apply IH; [done|done| | |lia].
  - intros a b Hx Hy. apply Ha; by right.
  - intros x Hx. destruct (Hr x) as [? ?]; [by right|]. specialize (He x Hx).
    assert (overlaps e x = false) as Ho by (apply Ha; [left|by right|congruence]).
    unfold overlaps in Ho. apply andb_false_iff in Ho as [Ho|Ho]; apply Nat.ltb_ge in Ho; lia.
Qed.

Definition within_text (text : string) (e : PIIEntity) : Prop := (stop e <= String.length text)%nat.

Lemma redact_entities_weaves text entities : Forall (within_text text) entities ->
  exists gaps last, length gaps = length (non_overlapping entities)
    /\ text = weave gaps ((fun e => slice (start e) (stop e) text) <$> non_overlapping entities) last
    /\ redact_entities text entities = weave gaps (tag <$> non_overlapping entities) last.
Proof.
  intros Hin. rewrite Forall_forall in Hin. pose proof (non_overlapping_ok entities) as [Hn Hr Ha _].
  assert (spans_ok 0 (String.length text) ((fun e => (start e, stop e)) <$> non_overlapping entities)) as Hspans.
  { apply ordered_spans; [|done|done| |lia].
    - unfold non_overlapping. eapply sorted_weaken; [|apply sorted_by_first]. intros a b. cbn. lia.
    - intros e He. destruct (Hr e He) as [Hs Hlt]. specialize (Hin e Hs). unfold within_text in Hin. lia. }
  destruct (splice_weaves text 0 ((fun e => (start e, stop e, tag e)) <$> non_overlapping entities))
    as (gaps & last & Hl & Ht & Hs).
  { by rewrite <- list_fmap_compose. }
  exists gaps, last. rewrite length_fmap in Hl. split; [done|]. rewrite <- !list_fmap_compose, slice_all in *.
  split; [exact Ht|]. etransitivity; [|exact Hs]. unfold redact_entities. destruct (non_overlapping entities); [|done].
  symmetry. apply slice_all.
Qed.

(** ** Keys of redacted mappings *)

Definition candidate_key (base : string) (ordinal : nat) : string :=
  if (ordinal =? 1)%nat then base else ordinal_key base ordinal.

Lemma candidate_key_inj base a b : candidate_key base a = candidate_key base b -> a = b.
Proof.
  unfold candidate_key, ordinal_key.
  assert (forall t, base <> base ++ "__" ++ t) as Hlong.
  { intros t He. apply (f_equal String.length) in He. rewrite !length_string_app in He. cbn [String.length] in He. lia. }
  destruct (Nat.eqb_spec a 1), (Nat.eqb_spec b 1); intros He.
  - congruence.
  - by apply Hlong in He.
  - symmetry in He. by apply Hlong in He.
  - by apply string_app_inj, string_app_inj, (inj pretty) in He.
Qed.

Lemma free_key_tries fuel base o used :
  (free_key fuel base o used).1 ∉ used \/ (forall i, (i < fuel)%nat -> candidate_key base (o + i) ∈ used).
Proof.
  revert o. induction fuel as [|fuel IH]; intros o; [right; lia|]. cbn [free_key].
  fold (candidate_key base o). destruct (bool_decide (candidate_key base o ∈ used)) eqn:Hin; bool_to_prop; [|by left].
  destruct (IH (S o)) as [Hfree|Hall]; [by left|right]. intros [|i] Hi; [by rewrite Nat.add_0_r|].
  replace (o + S i)%nat with (S o + i)%nat by lia. apply Hall. lia.
Qed.

(** Keys in use cannot exhaust the candidates. *)
Lemma free_key_fresh base o used : (free_key (S (length used)) base o used).1 ∉ used.
Proof.
  destruct (free_key_tries (S (length used)) base o used) as [Hfree|Hall]; [done|exfalso].
  set (tried := (fun i => candidate_key base (o + i)) <$> seq 0 (S (length used))).
  assert (length tried <= length used)%nat as Hle.
  { apply submseteq_length, NoDup_submseteq.
    - apply NoDup_fmap_2; [|apply NoDup_seq]. intros i j He%candidate_key_inj. lia.
    - intros k (i & -> & [_ Hi]%elem_of_seq)%list_elem_of_fmap. apply Hall. lia. }
  unfold tried in Hle. rewrite length_fmap, length_seq in Hle. lia.
Qed.

Lemma free_key_shape fuel base o used : (1 <= o)%nat ->
  (free_key fuel base o used).1 = base \/ exists n, (free_key fuel base o used).1 = ordinal_key base n.
Proof.
  revert o. induction fuel as [|fuel IH]; intros o Ho; cbn [free_key].
  - destruct (o =? 1)%nat; cbn; eauto.
  - destruct (bool_decide _); [apply IH; lia|]. destruct (o =? 1)%nat; cbn; eauto.
Qed.

(** ** Theorems *)

Section theorems.
Variable nlp : option (string -> list (string * string * nat * nat)).

(** A key written for [key]: the redacted key, perhaps with a number. *)
Definition key_for (key safe_key : string) : Prop :=
  let base := red_text (redact_text nlp key) in safe_key = base \/ exists n, safe_key = ordinal_key base n.

Lemma redact_members_keeps counts redacted members : NoDup (redacted.*1) ->
  exists keys, redact_members nlp counts redacted members = (redacted ++ zip keys (members.*2))%list
    /\ NoDup (redacted.*1 ++ keys)%list /\ Forall2 key_for (members.*1) keys.
Proof.
  revert counts redacted. induction members as [|[key item] rest IH]; intros counts redacted Hn.
  - exists []. cbn. by rewrite !app_nil_r.
  - cbn [redact_members]. set (base := red_text (redact_text nlp key)).
    assert (length redacted = length (redacted.*1)) as -> by by rewrite length_fmap.
    pose proof (free_key_fresh base (S (counted base counts)) (redacted.*1)) as Hfresh.
    pose proof (free_key_shape (S (length (redacted.*1))) base (S (counted base counts)) (redacted.*1) ltac:(lia)) as Hshape.
    destruct (free_key _ base _ _) as [safe_key o]. cbn [fst] in *.
    destruct (IH ((base, o) :: counts) (redacted ++ [(safe_key, item)])%list) as (keys & -> & Hnd & Hkeys).
    { rewrite fmap_app. apply NoDup_app. split_and!; [done| |apply NoDup_singleton].
      by intros x Hx ->%list_elem_of_singleton. }
    exists (safe_key :: keys). cbn [fmap list_fmap fst snd zip zip_with]. split_and!.
    + by rewrite <- app_assoc.
    + rewrite fmap_app in Hnd. cbn [fmap list_fmap fst] in Hnd. by rewrite <- app_assoc in Hnd.
    + by constructor.
Qed.

Lemma redact_obj kvs : redact_value nlp (JObj kvs) = JObj (redact_members nlp [] [] (prod_map id (redact_value nlp) <$> kvs)).
Proof. cbn. f_equal. f_equal. induction kvs as [|[k x] kvs IH]; [done|]. cbn. by rewrite IH. Qed.

(** Redacting a mapping loses no entry: the values are the redacted values in their
    order, the keys are distinct, and each is the redaction of its key, followed at most by
    a number; so no detected text comes back through a key. *)
Theorem redacted_mapping_keeps_entries (kvs : list (string * json)) :
  exists keys, redact_value nlp (JObj kvs) = JObj (zip keys (redact_value nlp <$> kvs.*2))
    /\ NoDup keys /\ Forall2 key_for (kvs.*1) keys.
Proof.
  rewrite redact_obj. destruct (redact_members_keeps [] [] (prod_map id (redact_value nlp) <$> kvs)) as (keys & -> & Hn & Hk).
  { apply NoDup_nil_2. }
  exists keys. rewrite <- !list_fmap_compose in *. split_and!; [|exact Hn|exact Hk].
  done.
Qed.

(** What spaCy documents of its spans. *)
Definition nlp_in_text (text : string) : Prop :=
  forall ents label t a b, nlp = Some ents -> (label, t, a, b) ∈ ents text -> (a <= b <= String.length text)%nat.

Lemma detected_in_text text : nlp_in_text text -> Forall (within_text text) (detect nlp text).
Proof.
  intros Hnlp. apply Forall_forall. intros e He. unfold detect in He. rewrite merge_sort_Permutation in He.
  apply elem_of_app in He as [He|He].
  - apply list_elem_of_bind in He as (p & He & _). apply list_elem_of_fmap in He as ([a b] & -> & Hs).
    destruct (spans_ok_elem _ _ _ _ _ (finditer_ok p.2.1 text) Hs). done.
  - unfold ner_entities in He. destruct nlp as [ents|] eqn:Hn; [|by apply elem_of_nil in He].
    apply list_elem_of_bind in He as ([[[label t] a] b] & He & Hin). destruct (ner_type label) as [[kind risk]|]; [|by apply elem_of_nil in He].
    apply list_elem_of_singleton in He as ->. unfold within_text. cbn. by destruct (Hnlp ents label t a b Hn Hin).
Qed.

(** Neither range lies partly inside the other. *)
Definition nested_or_apart (a b : PIIEntity) : Prop :=
  overlaps a b = false \/ (start a <= start b /\ stop b <= stop a)%nat \/ (start b <= start a /\ stop a <= stop b)%nat.

(** [redact] replaces a set of detected, disjoint ranges by the names of their types and
    keeps the rest of the text in order. Every detected entity meets a replaced range at
    least as long, and one that crosses no other entity is replaced entirely. *)
Theorem redaction_covers_detections (text : string) : nlp_in_text text ->
  exists kept gaps last,
    length gaps = length kept
    /\ text = weave gaps ((fun e => slice (start e) (stop e) text) <$> kept) last
    /\ redact nlp text = weave gaps (tag <$> kept) last
    /\ (forall k, k ∈ kept -> k ∈ detect nlp text)
    /\ (forall e, e ∈ detect nlp text -> (start e < stop e)%nat ->
          (exists k, k ∈ kept /\ overlaps e k = true /\ (span_length e <= span_length k)%Z)
          /\ ((forall x, x ∈ detect nlp text -> nested_or_apart e x) ->
               exists k, k ∈ kept /\ (start k <= start e /\ stop e <= stop k)%nat)).
Proof.
  intros Hnlp. pose proof (detected_in_text text Hnlp) as Hin.
  destruct (redact_entities_weaves text _ Hin) as (gaps & last & Hl & Ht & Hr).
  destruct (non_overlapping_ok (detect nlp text)) as [_ Hkept _ Hhits].
  exists (non_overlapping (detect nlp text)), gaps, last. split_and!; [done|done|done| |].
  - intros k Hk. by apply Hkept.
  - intros e He Hne. destruct (Hhits e He Hne) as (k & Hk & Ho & Hle). split; [eauto|]. intros Hcross.
    exists k. split; [done|]. unfold span_length in Hle. destruct (Hkept k Hk) as [Hd _].
    destruct (Hcross k Hd) as [Hf|[?|?]]; [congruence|lia|lia].
Qed.
End theorems.

(** A text in which a detected number crosses a longer one: part of it stays. *)
Example crossing_entity_partly_kept :
  redact None "123-45-6789-1234-5678-9012" = "123-45-[CREDIT_CARD]"
  /\ (entity_type <$> detect None "123-45-6789-1234-5678-9012") = ["ssn"; "credit_card"].
Proof. vm_compute. done. Qed.

Definition demo_ents (text : string) : list (string * string * nat * nat) :=
  if string_eqb text "Ann at a@b.org" then [("PERSON", "Ann", 0%nat, 3%nat)] else [].

Example demo_redact : redact (Some demo_ents) "Ann at a@b.org" = "[PERSON_NAME] at [EMAIL]".
Proof. vm_compute. done. Qed.

Lemma redaction_covers_detections_witness :
  nlp_in_text (Some demo_ents) "Ann at a@b.org"
  /\ exists kept gaps last,
    length gaps = length kept
    /\ "Ann at a@b.org" = weave gaps ((fun e => slice (start e) (stop e) "Ann at a@b.org") <$> kept) last
    /\ redact (Some demo_ents) "Ann at a@b.org" = weave gaps (tag <$> kept) last
    /\ (forall k, k ∈ kept -> k ∈ detect (Some demo_ents) "Ann at a@b.org")
    /\ (forall e, e ∈ detect (Some demo_ents) "Ann at a@b.org" -> (start e < stop e)%nat ->
          (exists k, k ∈ kept /\ overlaps e k = true /\ (span_length e <= span_length k)%Z)
          /\ ((forall x, x ∈ detect (Some demo_ents) "Ann at a@b.org" -> nested_or_apart e x) ->
               exists k, k ∈ kept /\ (start k <= start e /\ stop e <= stop k)%nat)).
Proof.
  assert (nlp_in_text (Some demo_ents) "Ann at a@b.org") as Hnlp.
  { intros ents label t a b [= <-]. change (demo_ents "Ann at a@b.org") with [("PERSON", "Ann", 0%nat, 3%nat)].
    rewrite list_elem_of_singleton. intros [= -> -> -> ->]. cbn. lia. }
  split; [exact Hnlp|]. exact (redaction_covers_detections (Some demo_ents) "Ann at a@b.org" Hnlp).
Defined.
