(* ===== verification/Disclosure.v ===== *)
(** * The disclosure scan ([security/disclosure.py])

    What leaves the backend in job payloads and run exports is scanned: personal data
    and secrets in any string are replaced, values under sensitive keys are replaced
    whole, and a payload outside the structural limits is refused. A JSON value is a
    tree, so the source's check for cycles has nothing to find here; [nan] and the
    infinities are the texts Python gives them. *)

From Stdlib Require Import ZArith Lia String Ascii.
From stdpp Require Import base gmap strings list sorting.
From S2P Require Import Prelude Strings Sql Json JsonText Regex Redaction.
Open Scope string_scope.

(** ** Secrets in text *)

Definition key_owner : regex := opt (alts [lit "RSA "; lit "EC "; lit "OPENSSH "]).

Definition private_key_pattern : regex :=
  cats [lit "-----BEGIN "; key_owner; lit "PRIVATE KEY-----"; Rep false 0 None (Chr (fun _ => true));
        lit "-----END "; key_owner; lit "PRIVATE KEY-----"].

Definition bearer_token_pattern : regex :=
  cats [Boundary; lit_i "bearer"; plus (Chr is_white); at_least 12 (word_or "._~+/=-")].

Definition api_key_pattern : regex :=
  cats [Boundary; alts [cats [lit_i "api"; opt (char_of "_-"); lit_i "key"]; lit_i "secret"; lit_i "token"; lit_i "password"];
        star (Chr is_white); char_of ":="; star (Chr is_white);
        at_least 8 (Chr (fun c => negb (is_white c || one_of ",;" c)))].

Definition provider_key_pattern : regex :=
  cats [Boundary; Alt (cats [lit "sk-"; at_least 16 (word_or "_-")])
                      (cats [lit "AKIA"; times 16 (Chr (fun c => is_digit c || is_upper c))]); Boundary].

Definition _SECRETS : list (string * regex) :=
  [("private_key", private_key_pattern); ("bearer_token", bearer_token_pattern);
   ("api_key", api_key_pattern); ("provider_key", provider_key_pattern)].

Definition _SENSITIVE_OBJECT_KEYS : list string :=
  ["api_key"; "apikey"; "authorization"; "bearer_token"; "client_secret"; "password"; "private_key";
   "refresh_token"; "secret"; "token"].

Definition _normalized_key (value : string) : string :=
  rstrip_char "_" (lstrip_char "_" (subn (plus (Chr (fun c => negb (is_lower c || is_digit c)))) "_" (lower value)).1).

Definition sensitive (key : string) : bool := bool_decide (_normalized_key key ∈ _SENSITIVE_OBJECT_KEYS).

Definition STRUCTURED_SECRET : string := "[REDACTED_STRUCTURED_SECRET]".

(** [child == "[REDACTED_STRUCTURED_SECRET]"] *)
Definition is_marker (v : json) : bool :=
  match v with JStr m => string_eqb m STRUCTURED_SECRET | _ => false end.

(** ** The scanner *)

(** A [Counter]: an entry appears with the first addition, of zero too. *)
Definition bump (counts : gmap string nat) (kn : string * nat) : gmap string nat :=
  <[kn.1 := (default 0 (counts !! kn.1) + kn.2)%nat]> counts.

Record scan_state : Type := mkScan {
  counts : gmap string nat;
  nodes : Z
}.

Definition finite_repr (t : string) : bool :=
  bool_decide (t ∉ ["nan"; "inf"; "-inf"; "NaN"; "Infinity"; "-Infinity"]).

Record DisclosureResult : Type := mkDisclosure {
  disclosed : json;
  redaction_count : Z;
  redaction_types : list string
}.

(** Keys of the counter. *)
Definition pii_count (e : PIIEntity) : string := "pii:" ++ entity_type e.
Definition structured_count (key : string) : string := "secret:structured:" ++ _normalized_key key.

Section scanner.
(** The detector's spaCy model, [None] for the default scanner. *)
Variable nlp : option (string -> list (string * string * nat * nat)).

(** The loop over [_SECRETS]. *)
Fixpoint hide_secrets (secrets : list (string * regex)) (text : string) (st : scan_state) : string * scan_state :=
  match secrets with
  | [] => (text, st)
  | (kind, pattern) :: rest =>
      let '(text', found) := subn pattern ("[REDACTED_" ++ upper kind ++ "]") text in
      hide_secrets rest text' (mkScan (bump (counts st) ("secret:" ++ kind, found)) (nodes st))
  end.

Definition visit_text (item : string) (st : scan_state) : string * scan_state :=
  let entities := non_overlapping (detect nlp item) in
  let counts' := foldl (fun m e => bump m (pii_count e, 1%nat)) (counts st) entities in
  hide_secrets _SECRETS (redact_entities item entities) (mkScan counts' (nodes st)).

(** [DisclosureScanError] is [None]. *)
Definition enter (depth : Z) (st : scan_state) : option scan_state :=
  let st' := mkScan (counts st) (nodes st + 1) in
  if (32 <? depth)%Z || (100000 <? nodes st')%Z then None else Some st'.

Section children.
Variable visit_child : json -> scan_state -> option (json * scan_state).

(** The loop over the entries of a mapping at [depth]. *)
Fixpoint visit_members (depth : Z) (kvs result : list (string * json)) (st : scan_state)
    : option (list (string * json) * scan_state) :=
  match kvs with
  | [] => Some (result, st)
  | (key, child) :: rest =>
      st ← enter (depth + 1) st;
      let '(safe_key, st) := visit_text key st in
      if bool_decide (safe_key ∈ result.*1) then None
      else if sensitive key then
        if is_marker child then visit_members depth rest (result ++ [(safe_key, child)])%list st
        else
          visit_members depth rest (result ++ [(safe_key, JStr STRUCTURED_SECRET)])%list
            (mkScan (bump (counts st) (structured_count key, 1%nat)) (nodes st))
      else
        '(v, st) ← visit_child child st;
        visit_members depth rest (result ++ [(safe_key, v)])%list st
  end.

Fixpoint visit_items (l : list json) (st : scan_state) : option (list json * scan_state) :=
  match l with
  | [] => Some ([], st)
  | child :: rest => '(v, st) ← visit_child child st; '(vs, st) ← visit_items rest st; Some (v :: vs, st)
  end.
End children.

Fixpoint visit (item : json) (depth : Z) (st : scan_state) {struct item} : option (json * scan_state) :=
  st ← enter depth st;
  match item with
  | JStr s => let '(text, st') := visit_text s st in Some (JStr text, st')
  | JObj kvs => '(kvs', st) ← visit_members (fun child => visit child (depth + 1)) depth kvs [] st; Some (JObj kvs', st)
  | JArr l => '(vs, st) ← visit_items (fun child => visit child (depth + 1)) l st; Some (JArr vs, st)
  | JFloat t => if finite_repr t then Some (item, st) else None
  | _ => Some (item, st)
  end.

Definition string_order (a b : string) : Prop := String.leb a b = true.
#[export] Instance string_order_dec : RelDecision string_order.
Proof. intros a b. unfold string_order. apply _. Defined.

Definition scan (value : json) : option DisclosureResult :=
  '(v, st) ← visit value 0 (mkScan ∅ 0);
  Some (mkDisclosure v (map_sum (fun _ n => Z.of_nat n) (counts st))
          (merge_sort string_order ((map_to_list (counts st)).*1))).
End scanner.

(** ** What a scan amounts to *)

Section reference.
Variable nlp : option (string -> list (string * string * nat * nat)).

(** The secrets of a text hidden one pattern after the other, and how many of each. *)
Fixpoint without_secrets (secrets : list (string * regex)) (text : string) : string * list (string * nat) :=
  match secrets with
  | [] => (text, [])
  | (kind, pattern) :: rest =>
      let '(text', found) := subn pattern ("[REDACTED_" ++ upper kind ++ "]") text in
      let '(last, tally) := without_secrets rest text' in
      (last, ("secret:" ++ kind, found) :: tally)
  end.

Definition without_pii (s : string) : string := redact_entities s (non_overlapping (detect nlp s)).

Definition clean_text (s : string) : string := (without_secrets _SECRETS (without_pii s)).1.

Definition text_tally (s : string) : list (string * nat) :=
  (((fun e => (pii_count e, 1%nat)) <$> non_overlapping (detect nlp s))
   ++ (without_secrets _SECRETS (without_pii s)).2)%list.

(** The value disclosed. *)
Fixpoint disclose (v : json) : json :=
  match v with
  | JStr s => JStr (clean_text s)
  | JArr l => JArr ((fix go l := match l with [] => [] | x :: l' => disclose x :: go l' end) l)
  | JObj kvs =>
      JObj ((fix go kvs := match kvs with
        | [] => []
        | (k, x) :: kvs' => (clean_text k, if sensitive k then JStr STRUCTURED_SECRET else disclose x) :: go kvs'
        end) kvs)
  | _ => v
  end.

(** What is counted, in the order of the traversal. *)
Fixpoint tally (v : json) : list (string * nat) :=
  match v with
  | JStr s => text_tally s
  | JArr l => (fix go l := match l with [] => [] | x :: l' => (tally x ++ go l')%list end) l
  | JObj kvs =>
      (fix go kvs := match kvs with
        | [] => []
        | (k, x) :: kvs' =>
            (text_tally k
             ++ (if sensitive k then if is_marker x then [] else [(structured_count k, 1%nat)]
                 else tally x)
             ++ go kvs')%list
        end) kvs
  | _ => []
  end.

(** Nodes visited, depth reached. *)
Fixpoint weight (v : json) : Z :=
  match v with
  | JArr l => 1 + (fix go l := match l with [] => 0 | x :: l' => weight x + go l' end) l
  | JObj kvs =>
      1 + (fix go kvs := match kvs with
        | [] => 0
        | (k, x) :: kvs' => 1 + (if sensitive k then 0 else weight x) + go kvs'
        end) kvs
  | _ => 1
  end%Z.

Fixpoint height (v : json) : Z :=
  match v with
  | JArr l => (fix go l := match l with [] => 0 | x :: l' => Z.max (1 + height x) (go l') end) l
  | JObj kvs =>
      (fix go kvs := match kvs with
        | [] => 0
        | (k, x) :: kvs' => Z.max (1 + if sensitive k then 0 else height x) (go kvs')
        end) kvs
  | _ => 0
  end%Z.

(** No two keys of an object become one, and no number is infinite or [nan]. *)
Fixpoint admissible (v : json) : bool :=
  match v with
  | JFloat t => finite_repr t
  | JArr l => (fix go l := match l with [] => true | x :: l' => admissible x && go l' end) l
  | JObj kvs =>
      bool_decide (NoDup (clean_text <$> kvs.*1))
      && (fix go kvs := match kvs with
        | [] => true
        | (k, x) :: kvs' => (sensitive k || admissible x) && go kvs'
        end) kvs
  | _ => true
  end.

Lemma weight_pos v : (1 <= weight v)%Z.
Proof.
  induction v as [| | | | |l IH|kvs IH] using json_nested_ind; cbn [weight]; try lia.
  - assert (0 <= (fix go l := match l with [] => 0 | x :: l' => weight x + go l' end) l)%Z; [|lia].
    induction IH as [|x l Hx _ IHl]; lia.
  - match goal with |- (1 <= 1 + ?g kvs)%Z => assert (0 <= g kvs)%Z; [|lia] end.
    induction IH as [|[k x] kvs Hx _ IHl]; [lia|]. cbn [snd] in Hx. destruct (sensitive k); lia.
Qed.

Lemma height_nonneg v : (0 <= height v)%Z.
Proof.
  induction v as [| | | | |l IH|kvs IH] using json_nested_ind; cbn [height]; try lia.
  - induction IH as [|x l Hx _ IHl]; lia.
  - induction IH as [|[k x] kvs Hx _ IHl]; [lia|]. lia.
Qed.

Lemma hide_secrets_spec secrets text st :
  hide_secrets secrets text st =
    ((without_secrets secrets text).1, mkScan (foldl bump (counts st) (without_secrets secrets text).2) (nodes st)).
Proof.
  revert text st. induction secrets as [|[kind p] rest IH]; intros text st; cbn [hide_secrets without_secrets].
  - by destruct st.
  - destruct (subn p _ text) as [text' found]. rewrite IH. by destruct (without_secrets rest text').
Qed.

Lemma visit_text_spec s st :
  visit_text nlp s st = (clean_text s, mkScan (foldl bump (counts st) (text_tally s)) (nodes st)).
Proof.
  unfold visit_text. rewrite hide_secrets_spec. unfold clean_text, text_tally, without_pii. f_equal. cbn [counts nodes]. f_equal.
  rewrite foldl_app. f_equal. generalize (counts st). clear st.
  induction (non_overlapping (detect nlp s)) as [|e l IH]; intros m; [done|]. cbn. apply IH.
Qed.

(** A value when a condition holds. *)
Definition allow {A} (b : bool) (a : A) : option A := if b then Some a else None.

Definition limits (depth reached : Z) (st : scan_state) (seen : Z) : bool :=
  (depth + reached <=? 32)%Z && (nodes st + seen <=? 100000)%Z.

Definition tallied (st : scan_state) (t : list (string * nat)) (seen : Z) : scan_state :=
  mkScan (foldl bump (counts st) t) (nodes st + seen).

Lemma tallied_nil st : tallied st [] 0 = st.
Proof. destruct st. unfold tallied. cbn. by rewrite Z.add_0_r. Qed.

Lemma tallied_app st t t' n n' : tallied (tallied st t n) t' n' = tallied st (t ++ t')%list (n + n').
Proof. unfold tallied. cbn. rewrite foldl_app. f_equal. lia. Qed.

Lemma visit_text_tallied s st t n : visit_text nlp s (tallied st t n) = (clean_text s, tallied st (t ++ text_tally s)%list n).
Proof. rewrite visit_text_spec. unfold tallied. cbn [counts nodes]. by rewrite foldl_app. Qed.

Lemma enter_spec depth st : enter depth st = allow (limits depth 0 st 1) (tallied st [] 1).
Proof.
  unfold enter, allow, limits, tallied. cbn [nodes foldl]. rewrite Z.add_0_r, !Z.ltb_antisym.
  by destruct (depth <=? 32)%Z, (nodes st + 1 <=? 100000)%Z.
Qed.

(** A text without findings is left alone. *)

Definition redactions (t : list (string * nat)) : nat := sum_list t.*2.

Lemma total_app t t' : redactions (t ++ t') = (redactions t + redactions t')%nat.
Proof. unfold redactions. by rewrite fmap_app, sum_list_with_app || rewrite fmap_app, sum_list_app. Qed.

Lemma subn_none r replacement text : (subn r replacement text).2 = 0%nat -> (subn r replacement text).1 = text.
Proof. unfold subn. cbn [fst snd]. destruct (finditer r text); [intros _; apply slice_all|done]. Qed.

Lemma without_secrets_none secrets text : redactions (without_secrets secrets text).2 = 0%nat -> (without_secrets secrets text).1 = text.
Proof.
  revert text. induction secrets as [|[kind p] rest IH]; intros text; [done|]. cbn [without_secrets].
  pose proof (subn_none p ("[REDACTED_" ++ upper kind ++ "]") text) as Hs.
  destruct (subn p _ text) as [text' found]. specialize (IH text').
  destruct (without_secrets rest text') as [last t]. cbn [fst snd] in *.
  change (redactions (("secret:" ++ kind, found) :: t)) with (found + redactions t)%nat. intros Hz.
  rewrite IH by lia. apply Hs. lia.
Qed.

Lemma redact_nothing s : redact_entities s [] = s.
Proof. done. Qed.

Lemma total_kinds (f : PIIEntity -> string) l : redactions ((fun e => (f e, 1%nat)) <$> l) = length l.
Proof. induction l as [|e l IH]; [done|]. cbn. f_equal. exact IH. Qed.

Lemma text_tally_none s : redactions (text_tally s) = 0%nat -> clean_text s = s.
Proof.
  unfold text_tally, clean_text, without_pii. rewrite total_app, total_kinds.
  generalize (non_overlapping (detect nlp s)). intros l Hz. assert (l = []) as -> by (apply nil_length_inv; lia).
  rewrite redact_nothing in *. apply without_secrets_none. lia.
Qed.

(** Proofs treat the work on one text as a whole. *)
#[local] Opaque text_tally clean_text.

(** Sums and bounds over children. *)
Definition items_weight (l : list json) : Z := foldr (fun x n => weight x + n)%Z 0%Z l.
Definition items_height (l : list json) : Z := foldr (fun x n => Z.max (1 + height x) n)%Z 0%Z l.
Definition member_weight (k : string) (x : json) : Z := (1 + if sensitive k then 0 else weight x)%Z.
Definition member_height (k : string) (x : json) : Z := (1 + if sensitive k then 0 else height x)%Z.
Definition members_weight (kvs : list (string * json)) : Z := foldr (fun kx n => member_weight kx.1 kx.2 + n)%Z 0%Z kvs.
Definition members_height (kvs : list (string * json)) : Z := foldr (fun kx n => Z.max (member_height kx.1 kx.2) n)%Z 0%Z kvs.

Definition member_value (k : string) (x : json) : json := if sensitive k then JStr STRUCTURED_SECRET else disclose x.
Definition member_tally (k : string) (x : json) : list (string * nat) :=
  (text_tally k ++ if sensitive k then if is_marker x then [] else [(structured_count k, 1%nat)] else tally x)%list.
Definition member_admissible (k : string) (x : json) : bool := sensitive k || admissible x.

Definition members_value (kvs : list (string * json)) : list (string * json) :=
  (fun kx => (clean_text kx.1, member_value kx.1 kx.2)) <$> kvs.
Definition members_tally (kvs : list (string * json)) : list (string * nat) := kvs ≫= fun kx => member_tally kx.1 kx.2.

Lemma disclose_obj kvs : disclose (JObj kvs) = JObj (members_value kvs).
Proof. cbn [disclose]. f_equal. induction kvs as [|[k x] kvs IH]; [done|]. rewrite IH. done. Qed.

Lemma tally_obj kvs : tally (JObj kvs) = members_tally kvs.
Proof.
  cbn [tally]. induction kvs as [|[k x] kvs IH]; [done|]. rewrite IH. apply app_assoc.
Qed.

Lemma weight_obj kvs : weight (JObj kvs) = (1 + members_weight kvs)%Z.
Proof.
  cbn [weight]. f_equal. induction kvs as [|[k x] kvs IH]; [done|]. rewrite IH. unfold members_weight, member_weight. cbn [foldr fst snd]. lia.
Qed.

Lemma height_obj kvs : height (JObj kvs) = members_height kvs.
Proof. cbn [height]. induction kvs as [|[k x] kvs IH]; [done|]. by rewrite IH. Qed.

Lemma admissible_obj kvs : admissible (JObj kvs) =
  bool_decide (NoDup (clean_text <$> kvs.*1)) && forallb (fun kx => member_admissible kx.1 kx.2) kvs.
Proof. cbn [admissible]. f_equal. induction kvs as [|[k x] kvs IH]; [done|]. by rewrite IH. Qed.

Lemma weight_arr l : weight (JArr l) = (1 + items_weight l)%Z.
Proof. reflexivity. Qed.

Lemma height_arr l : height (JArr l) = items_height l.
Proof. reflexivity. Qed.

Lemma disclose_arr l : disclose (JArr l) = JArr (disclose <$> l).
Proof. reflexivity. Qed.

Lemma tally_arr l : tally (JArr l) = l ≫= tally.
Proof. reflexivity. Qed.

Lemma admissible_arr l : admissible (JArr l) = forallb admissible l.
Proof. reflexivity. Qed.

Lemma allow_bind {A B} (b : bool) (a : A) (f : A -> option B) : allow b a ≫= f = if b then f a else None.
Proof. by destruct b. Qed.

(** The claim about one value, for all depths and states. *)
Definition scans (v : json) : Prop := forall depth st,
  visit nlp v depth st =
    allow (limits depth (height v) st (weight v) && admissible v) (disclose v, tallied st (tally v) (weight v)).

(** A step and the rest of a loop. *)
Lemma allow_step {A} (b c : bool) (a : A) (f : option A) :
  (b = true -> f = allow c a) -> (if b then f else None) = allow (b && c) a.
Proof. destruct b; [auto|done]. Qed.

Lemma limits_more depth h hs st t w ws : (0 <= ws)%Z ->
  limits (depth + 1) h st w && limits depth hs (tallied st t w) ws = limits depth (Z.max (1 + h) hs) st (w + ws).
Proof.
  intros Hw. apply eq_true_iff_eq. unfold limits, tallied. cbn [nodes].
  rewrite !andb_true_iff, !Z.leb_le. lia.
Qed.

Lemma limits_inv depth h st w : limits depth h st w = true -> (nodes st + w <= 100000)%Z.
Proof. unfold limits. intros H. bool_to_prop. done. Qed.

Lemma limits_none depth st : (depth <= 32)%Z -> (nodes st <= 100000)%Z -> limits depth 0 st 0 = true.
Proof. intros Hd Hn. unfold limits. rewrite andb_true_iff, !Z.leb_le. lia. Qed.

Lemma items_weight_nonneg l : (0 <= items_weight l)%Z.
Proof. induction l as [|y l IH]; [done|]. cbn. pose proof (weight_pos y). fold (items_weight l). lia. Qed.

Lemma members_weight_nonneg kvs : (0 <= members_weight kvs)%Z.
Proof.
  induction kvs as [|[k y] kvs IH]; [done|]. change (members_weight ((k, y) :: kvs)) with (member_weight k y + members_weight kvs)%Z.
  unfold member_weight. pose proof (weight_pos y). destruct (sensitive k); lia.
Qed.

Lemma visit_items_spec depth l st : Forall scans l -> (depth <= 32)%Z -> (nodes st <= 100000)%Z ->
  visit_items (fun child => visit nlp child (depth + 1)) l st =
    allow (limits depth (items_height l) st (items_weight l) && forallb admissible l)
      (disclose <$> l, tallied st (l ≫= tally) (items_weight l)).
Proof.
  intros Hl Hd. revert st. induction Hl as [|x l Hx Hl IH]; intros st Hn.
  - cbn. rewrite tallied_nil. by rewrite limits_none.
  - cbn [visit_items]. rewrite Hx, allow_bind.
    transitivity (allow (limits (depth + 1) (height x) st (weight x) && admissible x
        && (limits depth (items_height l) (tallied st (tally x) (weight x)) (items_weight l) && forallb admissible l))
      (disclose <$> x :: l, tallied st ((x :: l) ≫= tally) (items_weight (x :: l)))).
    + apply allow_step. intros Hc. bool_to_prop. match goal with H : limits _ _ _ _ = true |- _ => apply limits_inv in H end.
      rewrite IH, allow_bind by (cbn; lia). rewrite tallied_app. by destruct (_ && _).
    + f_equal. cbn [forallb]. rewrite <- andb_assoc, (andb_assoc (admissible x)), (andb_comm (admissible x)), <- andb_assoc,
        andb_assoc. by rewrite limits_more by apply items_weight_nonneg.
Qed.

(** A key, then the value under it. *)
Definition member_fits (depth : Z) (result : list (string * json)) (k : string) (x : json) (st : scan_state) : bool :=
  limits (depth + 1) (if sensitive k then 0 else height x) st (member_weight k x)
  && (bool_decide (clean_text k ∉ result.*1) && member_admissible k x).

Lemma member_fits_key depth result k x st : member_fits depth result k x st = true -> limits (depth + 1) 0 st 1 = true.
Proof.
  unfold member_fits, limits, member_weight. intros H. bool_to_prop. rewrite andb_true_iff, !Z.leb_le.
  pose proof (weight_pos x). pose proof (height_nonneg x). destruct (sensitive k); lia.
Qed.

Lemma is_marker_spec x : is_marker x = true -> x = JStr STRUCTURED_SECRET.
Proof. destruct x as [| | | |m| |]; try done. cbn [is_marker]. by intros ->%string_eqb_spec. Qed.

Lemma visit_member depth k x rest result st : scans x ->
  visit_members nlp (fun child => visit nlp child (depth + 1)) depth ((k, x) :: rest) result st =
    if member_fits depth result k x st
    then visit_members nlp (fun child => visit nlp child (depth + 1)) depth rest
           (result ++ [(clean_text k, member_value k x)])%list (tallied st (member_tally k x) (member_weight k x))
    else None.
Proof.
  intros Hx. cbn [visit_members]. rewrite enter_spec, allow_bind.
  destruct (limits (depth + 1) 0 st 1) eqn:Hk.
  2:{ destruct (member_fits depth result k x st) eqn:Hf; [|done]. apply member_fits_key in Hf. congruence. }
  rewrite visit_text_tallied. cbn [app].
  unfold member_fits, member_value, member_tally, member_weight, member_admissible.
  destruct (bool_decide_reflect (clean_text k ∈ result.*1)) as [Hin|Hout].
  { rewrite (bool_decide_eq_false_2 (clean_text k ∉ result.*1)) by tauto. by rewrite andb_false_r. }
  rewrite (bool_decide_eq_true_2 (clean_text k ∉ result.*1)) by done. cbn [andb].
  destruct (sensitive k); cbn [orb].
  - rewrite Z.add_0_r, Hk. destruct (is_marker x) eqn:Hm; cbn [andb].
    + apply is_marker_spec in Hm as ->. by rewrite app_nil_r.
    + f_equal. unfold tallied. cbn [counts nodes]. by rewrite foldl_app.
  - rewrite Hx, allow_bind, tallied_app. unfold limits, tallied. cbn [nodes]. by rewrite Z.add_assoc.
Qed.

Lemma visit_members_spec depth kvs result st : Forall (fun kx => scans kx.2) kvs -> (depth <= 32)%Z -> (nodes st <= 100000)%Z ->
  NoDup (result.*1) ->
  visit_members nlp (fun child => visit nlp child (depth + 1)) depth kvs result st =
    allow (limits depth (members_height kvs) st (members_weight kvs)
           && (bool_decide (NoDup (result.*1 ++ (clean_text <$> kvs.*1))) && forallb (fun kx => member_admissible kx.1 kx.2) kvs))
      ((result ++ members_value kvs)%list, tallied st (members_tally kvs) (members_weight kvs)).
Proof.
  intros Hl Hd. revert result st. induction Hl as [|[k x] kvs Hx Hl IH]; intros result st Hn Hnd.
  - cbn. rewrite tallied_nil, !app_nil_r. rewrite limits_none by done. by rewrite bool_decide_eq_true_2.
  - rewrite visit_member by exact Hx.
    transitivity (allow (member_fits depth result k x st
        && (limits depth (members_height kvs) (tallied st (member_tally k x) (member_weight k x)) (members_weight kvs)
            && (bool_decide (NoDup ((result ++ [(clean_text k, member_value k x)])%list.*1 ++ (clean_text <$> kvs.*1)))
                && forallb (fun kx => member_admissible kx.1 kx.2) kvs)))
      ((result ++ members_value ((k, x) :: kvs))%list,
       tallied st (members_tally ((k, x) :: kvs)) (members_weight ((k, x) :: kvs)))).
    + apply allow_step. unfold member_fits. intros Hc. bool_to_prop.
      match goal with H : limits _ _ _ _ = true |- _ => apply limits_inv in H end.
      rewrite IH; [|cbn; lia|].
      * rewrite <- app_assoc, tallied_app. done.
      * rewrite fmap_app. apply NoDup_app. split_and!; [done| |apply NoDup_singleton]. by intros y Hy ->%list_elem_of_singleton.
    + f_equal. unfold member_fits. apply eq_true_iff_eq.
      change (members_weight ((k, x) :: kvs)) with (member_weight k x + members_weight kvs)%Z.
      change (members_height ((k, x) :: kvs)) with (Z.max (1 + if sensitive k then 0 else height x) (members_height kvs)).
      rewrite <- (limits_more depth _ _ st (member_tally k x) _ _ (members_weight_nonneg kvs)).
      rewrite fmap_app, <- app_assoc. cbn [forallb fmap list_fmap fst snd app]. rewrite !andb_true_iff, !bool_decide_eq_true.
      assert (NoDup (result.*1 ++ clean_text k :: (clean_text <$> kvs.*1)) -> clean_text k ∉ result.*1) as Hout.
      { intros (_ & Hdis & _)%NoDup_app Hin. apply (Hdis _ Hin). left. }
      tauto.
Qed.

Lemma limits_inside depth h st w : (0 <= h)%Z -> (0 <= w)%Z ->
  limits depth 0 st 1 && limits depth h (tallied st [] 1) w = limits depth h st (1 + w).
Proof.
  intros Hh Hw. apply eq_true_iff_eq. unfold limits, tallied. cbn [nodes]. rewrite !andb_true_iff, !Z.leb_le. lia.
Qed.

Lemma items_height_nonneg l : (0 <= items_height l)%Z.
Proof. destruct l as [|y l]; [done|]. change (items_height (y :: l)) with (Z.max (1 + height y) (items_height l)). pose proof (height_nonneg y). lia. Qed.

Lemma leaf_spec (w : json) t b depth st : (if limits depth 0 st 1 then allow b (w, tallied st t 1) else None) =
  allow (limits depth 0 st 1 && b) (w, tallied st t 1).
Proof. by apply allow_step. Qed.

(** The traversal and the reference agree. *)
Lemma visit_spec v : scans v.
Proof.
  induction v as [|b|z|t|s|l IH|kvs IH] using json_nested_ind; intros depth st;
    cbn [visit]; rewrite enter_spec, allow_bind.
  - exact (leaf_spec JNull [] true depth st).
  - exact (leaf_spec (JBool b) [] true depth st).
  - exact (leaf_spec (JInt z) [] true depth st).
  - exact (leaf_spec (JFloat t) [] (finite_repr t) depth st).
  - rewrite visit_text_tallied. exact (leaf_spec (JStr (clean_text s)) (text_tally s) true depth st).
  - rewrite height_arr, weight_arr, disclose_arr, tally_arr, admissible_arr.
    rewrite <- limits_inside, <- andb_assoc by apply items_weight_nonneg || apply items_height_nonneg.
    apply allow_step. intros Hin. pose proof Hin as Hd. apply limits_inv in Hin. unfold limits in Hd. bool_to_prop.
    rewrite visit_items_spec, allow_bind, tallied_app by (done || lia || (cbn; lia)). by destruct (_ && _).
  - rewrite height_obj, weight_obj, disclose_obj, tally_obj, admissible_obj.
    rewrite <- limits_inside, <- andb_assoc by (apply members_weight_nonneg || (rewrite <- height_obj; apply height_nonneg)).
    apply allow_step. intros Hin. pose proof Hin as Hd. apply limits_inv in Hin. unfold limits in Hd. bool_to_prop.
    rewrite visit_members_spec, allow_bind, tallied_app by (done || lia || (cbn; lia) || apply NoDup_nil_2). by destruct (_ && _).
Qed.

(** ** Nothing counted, nothing changed *)

Lemma tally_none v : redactions (tally v) = 0%nat -> disclose v = v.
Proof.
  induction v as [|b|z|t|s|l IH|kvs IH] using json_nested_ind; intros Hz; [done|done|done|done| | |].
  - cbn [disclose]. f_equal. by apply text_tally_none.
  - rewrite disclose_arr. f_equal. rewrite tally_arr in Hz. induction IH as [|x l Hx _ IHl]; [done|].
    change ((x :: l) ≫= tally) with (tally x ++ (l ≫= tally))%list in Hz. rewrite total_app in Hz.
    cbn. rewrite Hx by lia. f_equal. apply IHl. lia.
  - rewrite disclose_obj. f_equal. rewrite tally_obj in Hz. induction IH as [|[k x] kvs Hx _ IHl]; [done|]. cbn [snd] in Hx.
    change (members_tally ((k, x) :: kvs)) with (member_tally k x ++ members_tally kvs)%list in Hz.
    unfold member_tally in Hz. rewrite !total_app in Hz.
    change (members_value ((k, x) :: kvs)) with ((clean_text k, member_value k x) :: members_value kvs).
    rewrite text_tally_none, IHl by lia. do 2 f_equal.
    unfold member_value. destruct (sensitive k); [|apply Hx; lia].
    destruct (is_marker x) eqn:Hm; [by apply is_marker_spec in Hm as ->|].
    change (redactions [(structured_count k, 1%nat)]) with 1%nat in Hz. lia.
Qed.

(** ** The counter *)

Definition counted_total (m : gmap string nat) : Z := map_sum (fun _ n => Z.of_nat n) m.

Lemma bump_total m kn : counted_total (bump m kn) = (counted_total m + Z.of_nat kn.2)%Z.
Proof.
  unfold counted_total, bump. destruct (m !! kn.1) as [n|] eqn:Hk; cbn.
  - rewrite (map_sum_update _ _ _ n) by done. lia.
  - rewrite map_sum_insert by done. lia.
Qed.

Lemma tally_total t m : counted_total (foldl bump m t) = (counted_total m + Z.of_nat (redactions t))%Z.
Proof.
  revert m. induction t as [|kn t IH]; intros m; cbn [foldl]; [cbn; lia|]. rewrite IH, bump_total.
  change (redactions (kn :: t)) with (kn.2 + redactions t)%nat. lia.
Qed.



End reference.

Section theorems.
Variable nlp : option (string -> list (string * string * nat * nat)).


(** A scan that redacts nothing returns the value it was given. *)
Lemma clean_scan v r : scan nlp v = Some r -> redaction_count r = 0%Z -> disclosed r = v.
Proof.
  unfold scan. rewrite visit_spec, allow_bind. destruct (_ && admissible nlp v); [|done]. intros [= <-].
  cbn [disclosed redaction_count counts tallied]. fold (counted_total (foldl bump ∅ (tally nlp v))).
  rewrite tally_total. intros Hz. apply tally_none. change (counted_total ∅) with 0%Z in Hz. lia.
Qed.
End theorems.

(** ** Examples *)

(** The types of a scan list every kind of secret, found or not: the counter of the
    source gets an entry with each addition of zero. *)
Example types_without_redactions : exists r, scan None (JStr "hello") = Some r
  /\ redaction_count r = 0%Z
  /\ redaction_types r = ["secret:api_key"; "secret:bearer_token"; "secret:private_key"; "secret:provider_key"].
Proof. eexists. split; [vm_compute; reflexivity|]. split; reflexivity. Qed.

(** What a scan returns need not pass the next one: the marker that hides one secret can
    complete another pattern with the text before it. *)
Example rescan_finds_more :
  (exists r, scan None (JStr "token: token: abcdefgh") = Some r /\ disclosed r = JStr "token: [REDACTED_API_KEY]")
  /\ exists r, scan None (JStr "token: [REDACTED_API_KEY]") = Some r
     /\ redaction_count r = 1%Z /\ disclosed r = JStr "[REDACTED_API_KEY]".
Proof. split; eexists; split; try (vm_compute; reflexivity). split; reflexivity. Qed.
