(* ===== verification/Pricing.v ===== *)
(** * Exact model pricing ([observability/cost_tracker.py])

    The published rate table, the provider/model pair validation, the exact
    nano-USD price of one usage report and the conservative quote of a call.
    Rates are decimals of at most seven places; a rate is kept as an integer
    number of [10^-7] USD per 1000 tokens, which is what [Decimal(str(rate))]
    denotes. The sums and products of the source stay below the 28 digits of
    Python's decimal context, so its arithmetic is exact and is integer
    arithmetic here. Text is ASCII, where [casefold] is [lower]. *)

From Stdlib Require Import ZArith Lia String Ascii.
From stdpp Require Import base gmap strings list fin_maps.
From S2P Require Import Prelude.
Open Scope Z_scope.

(** ** Definitions *)

Inductive pricing_error : Type :=
| UnknownModelPricing (model : string)
| PricingValueError
| PricingOverflow.

#[export] Instance pricing_error_eq_dec : EqDecision pricing_error.
Proof. solve_decision. Defined.

Definition USD_TO_NUSD : Z := 1000000000.

(** Units of a stored rate in one USD. *)
Definition RATE_SCALE : Z := 10000000.

Record ModelPricing : Type := mkPricing {
  input : Z;
  output : Z;
  cache_read : option Z;
  cache_write : option Z;
  providers : list string
}.

Open Scope string_scope.

Definition MODEL_PRICING : gmap string ModelPricing := list_to_map [
  ("claude-opus-4-6",
    mkPricing 50000 250000 (Some 5000) (Some 62500) ["anthropic"; "foundry"]);
  ("claude-sonnet-4-20250514",
    mkPricing 30000 150000 (Some 3000) (Some 37500) ["anthropic"; "foundry"]);
  ("claude-haiku-3",
    mkPricing 2500 12500 (Some 250) (Some 3125) ["anthropic"; "foundry"]);
  ("gpt-4o", mkPricing 25000 100000 None None ["openai"; "foundry"]);
  ("gpt-4o-mini", mkPricing 1500 6000 None None ["openai"; "foundry"]);
  ("gpt-4-turbo", mkPricing 100000 300000 None None ["openai"; "foundry"]);
  ("o1", mkPricing 150000 600000 None None ["openai"; "foundry"]);
  ("llama3.1:8b", mkPricing 0 0 None None ["ollama"]);
  ("llava:7b", mkPricing 0 0 None None ["ollama"]);
  ("mock-model", mkPricing 0 0 None None ["mock"]);
  ("default", mkPricing 10000 20000 None None [])
].

Definition _supports_cache_pricing (provider : string) : bool :=
  let normalized := string_filter is_alnum (lower provider) in
  bool_decide (normalized ∈ ["anthropic"; "anthropicadapter"; "foundry"; "foundryadapter"]).

Definition aliases : gmap string string := list_to_map [
  ("openai", "openai");
  ("openaiadapter", "openai");
  ("anthropic", "anthropic");
  ("anthropicadapter", "anthropic");
  ("foundry", "foundry");
  ("foundryadapter", "foundry");
  ("ollama", "ollama");
  ("ollamaadapter", "ollama");
  ("mock", "mock")
].

(** Returns [(provider family, model)]. *)
Definition validated_pricing_pair (model provider : string)
  : result pricing_error (string * string) :=
  if string_eqb model "" || string_eqb model "default" then Err (UnknownModelPricing model)
  else match MODEL_PRICING !! model with
  | None => Err (UnknownModelPricing model)
  | Some pricing =>
      if string_eqb provider "" then Err PricingValueError
      else match aliases !! lower provider with
      | None => Err (UnknownModelPricing model)
      | Some family =>
          if bool_decide (family ∈ providers pricing) then Ok (family, model)
          else Err (UnknownModelPricing model)
      end
  end.

Close Scope string_scope.

Definition _token_count (value : Z) : result pricing_error Z :=
  if in_bigint value then Ok value else Err PricingValueError.

Definition _optional_token_count (value : option Z) : result pricing_error (option Z) :=
  match value with
  | None => Ok None
  | Some v => v' ← _token_count v; Ok (Some v')
  end.

Definition read_rate_of (provider : string) (pricing : ModelPricing) : Z :=
  match cache_read pricing with
  | Some rate => if _supports_cache_pricing provider then rate else input pricing
  | None => input pricing
  end.

Definition write_rate_of (provider : string) (pricing : ModelPricing) : Z :=
  match cache_write pricing with
  | Some rate => if _supports_cache_pricing provider then rate else input pricing
  | None => input pricing
  end.

(** The exact amount, in units of [1 / (1000 * RATE_SCALE)] nUSD. *)
Definition usage_units (pricing : ModelPricing) (provider : string)
    (input_count output_count read write : Z) : Z :=
  ((input_count - read - write) * input pricing
   + read * read_rate_of provider pricing
   + write * write_rate_of provider pricing
   + output_count * output pricing) * USD_TO_NUSD.

Definition price_model_usage_nusd (model provider : string) (input_tokens output_tokens : Z)
    (cache_read_tokens cache_write_tokens : option Z) : result pricing_error Z :=
  '(family, model) ← validated_pricing_pair model provider;
  input_count ← _token_count input_tokens;
  output_count ← _token_count output_tokens;
  read_count ← _optional_token_count cache_read_tokens;
  write_count ← _optional_token_count cache_write_tokens;
  let read := default 0 read_count in
  let write := default 0 write_count in
  if input_count <? read + write then Err PricingValueError
  else match MODEL_PRICING !! model with
  | None => Err (UnknownModelPricing model)
  | Some pricing =>
      let integral := ceil_div (usage_units pricing family input_count output_count read write)
                               (1000 * RATE_SCALE) in
      if in_bigint integral then Ok integral else Err PricingOverflow
  end.

(** One candidate's quotes: plain input and, where the provider has cache rates,
    all input read from or written to the cache. *)
Definition candidate_quotes (model family : string) (max_input max_output : Z)
  : result pricing_error (list Z) :=
  plain ← price_model_usage_nusd model family max_input max_output None None;
  match MODEL_PRICING !! model with
  | None => Err (UnknownModelPricing model)
  | Some pricing =>
      if _supports_cache_pricing family then
        reads ← (match cache_read pricing with
                 | None => Ok []
                 | Some _ =>
                     q ← price_model_usage_nusd model family max_input max_output
                           (Some max_input) None; Ok [q]
                 end);
        writes ← (match cache_write pricing with
                  | None => Ok []
                  | Some _ =>
                      q ← price_model_usage_nusd model family max_input max_output
                            None (Some max_input); Ok [q]
                  end);
        Ok (plain :: reads ++ writes)
      else Ok [plain]
  end.

(** [max] of a non-empty list. *)
Definition max_list (l : list Z) : Z :=
  match l with
  | [] => 0
  | x :: l' => fold_left Z.max l' x
  end.

Fixpoint quote_candidates (candidates : list (string * string)) (max_input max_output : Z)
  : result pricing_error (list Z) :=
  match candidates with
  | [] => Ok []
  | (provider, model) :: rest =>
      _ ← require (negb (string_eqb provider "") && negb (string_eqb model "")) PricingValueError;
      '(family, model) ← validated_pricing_pair model provider;
      quotes ← candidate_quotes model family max_input max_output;
      others ← quote_candidates rest max_input max_output;
      Ok (max_list quotes :: others)
  end.

Definition quote_model_call_nusd (candidates : list (string * string))
    (max_input_tokens max_output_tokens : Z) : result pricing_error Z :=
  _ ← _token_count max_input_tokens;
  _ ← _token_count max_output_tokens;
  _ ← require (negb (bool_decide (candidates = []))) PricingValueError;
  quotes ← quote_candidates candidates max_input_tokens max_output_tokens;
  Ok (max_list quotes).

#[global] Arguments MODEL_PRICING : simpl never.
#[global] Arguments aliases : simpl never.
#[global] Arguments USD_TO_NUSD : simpl never.
#[global] Arguments RATE_SCALE : simpl never.

(** ** Lemmas *)

Definition rates_nonneg (p : ModelPricing) : bool :=
  (0 <=? input p) && (0 <=? output p)
  && (0 <=? default 0 (cache_read p)) && (0 <=? default 0 (cache_write p)).

Lemma pricing_rates_nonneg m p : MODEL_PRICING !! m = Some p ->
  0 <= input p /\ 0 <= output p /\ (forall f, 0 <= read_rate_of f p) /\ (forall f, 0 <= write_rate_of f p).
Proof.
  intros Hm.
  assert (map_Forall (fun _ p => rates_nonneg p = true) MODEL_PRICING) as Hall.
  { refine (bool_decide_eq_true_1 _ _). vm_compute. done. }
  specialize (Hall m p Hm). unfold rates_nonneg in Hall. bool_to_prop.
  unfold read_rate_of, write_rate_of. repeat split; try lia; intros f.
  - destruct (cache_read p); [|lia]. destruct (_supports_cache_pricing f); cbn in *; lia.
  - destruct (cache_write p); [|lia]. destruct (_supports_cache_pricing f); cbn in *; lia.
Qed.

Lemma max_list_ge x l : x ∈ l -> x <= max_list l.
Proof.
  assert (forall l a, a <= fold_left Z.max l a) as Hacc.
  { intros l'. induction l' as [|y l' IH]; intros a; cbn; [lia|]. specialize (IH (Z.max a y)). lia. }
  assert (forall l a x, x ∈ l -> x <= fold_left Z.max l a) as Hin.
  { intros l'. induction l' as [|y l' IH]; intros a z Hz; [by apply elem_of_nil in Hz|].
    cbn. apply elem_of_cons in Hz as [->|Hz]; [|by apply IH].
    specialize (Hacc l' (Z.max a y)). lia. }
  destruct l as [|y l']; [by intros ?%elem_of_nil|]. cbn.
  intros [->|Hz]%elem_of_cons; [apply Hacc | by apply Hin].
Qed.

(** The families are canonical names. *)
Lemma alias_canonical p f : aliases !! lower p = Some f -> f <> ""%string /\ aliases !! lower f = Some f.
Proof.
  intros Hp.
  assert (map_Forall (fun _ f => f <> ""%string /\ aliases !! lower f = Some f) aliases) as Hall.
  { refine (bool_decide_eq_true_1 _ _). vm_compute. done. }
  apply (Hall _ _ Hp).
Qed.

Lemma validated_inv model provider f m :
  validated_pricing_pair model provider = Ok (f, m) ->
  m = model /\ exists pricing, MODEL_PRICING !! m = Some pricing /\ f ∈ providers pricing
    /\ aliases !! lower provider = Some f /\ model <> ""%string /\ model <> "default"%string.
Proof.
  unfold validated_pricing_pair. intros Hv.
  destruct (string_eqb model "" || string_eqb model "default") eqn:H1; [done|].
  destruct (MODEL_PRICING !! model) as [pricing|] eqn:H3; [|done].
  destruct (string_eqb provider ""); [done|].
  destruct (aliases !! lower provider) as [g|] eqn:H4; [|done].
  case_bool_decide; inv_result. bool_to_prop.
  split; [done|]. exists pricing. auto.
Qed.

Lemma token_count_ok v v' : _token_count v = Ok v' -> v' = v /\ 0 <= v <= MAX_BIGINT.
Proof.
  unfold _token_count. destruct (in_bigint v) eqn:?; intros; inv_result. bool_to_prop. lia.
Qed.

Lemma optional_token_count_ok v v' : _optional_token_count v = Ok v' ->
  v' = v /\ 0 <= default 0 v <= MAX_BIGINT.
Proof.
  destruct v as [v|]; cbn; intros; inv_result; [|by unfold MAX_BIGINT].
  by apply token_count_ok in Heqr as [-> ?].
Qed.

(** What a successful price is. *)
Lemma price_inv model provider i o r w a :
  price_model_usage_nusd model provider i o r w = Ok a ->
  exists f pricing, validated_pricing_pair model provider = Ok (f, model)
    /\ MODEL_PRICING !! model = Some pricing
    /\ a = ceil_div (usage_units pricing f i o (default 0 r) (default 0 w)) (1000 * RATE_SCALE)
    /\ 0 <= a <= MAX_BIGINT /\ 0 <= i <= MAX_BIGINT /\ 0 <= o <= MAX_BIGINT
    /\ 0 <= default 0 r /\ 0 <= default 0 w
    /\ default 0 r + default 0 w <= i.
Proof.
  unfold price_model_usage_nusd. intros Hp. inv_result.
  repeat match goal with
  | H : _token_count _ = Ok _ |- _ => apply token_count_ok in H as [-> ?]
  | H : _optional_token_count _ = Ok _ |- _ => apply optional_token_count_ok in H as [-> ?]
  | H : validated_pricing_pair _ _ = Ok _ |- _ =>
      pose proof (validated_inv _ _ _ _ H) as [-> (pricing & Hm & _)]
  end.
  rewrite Hm in Hp. destruct (i <? _) eqn:?; [done|].
  destruct (in_bigint _) eqn:?; inv_result. bool_to_prop.
  eexists _, pricing. repeat split; try done; lia.
Qed.

(** A canonical pair is its own canonical form. *)
Lemma validated_canonical model provider f :
  validated_pricing_pair model provider = Ok (f, model) ->
  validated_pricing_pair model f = Ok (f, model).
Proof.
  intros Hv. pose proof (validated_inv _ _ _ _ Hv) as [_ (pricing & Hm & Hf & Ha & H1 & H2)].
  destruct (alias_canonical _ _ Ha) as [Hne Hf']. unfold validated_pricing_pair.
  rewrite (proj2 (string_eqb_neq _ _) H1), (proj2 (string_eqb_neq _ _) H2), Hm, Hf'.
  rewrite (proj2 (string_eqb_neq _ _) Hne). cbn. by rewrite bool_decide_eq_true_2.
Qed.

Lemma price_canonical model provider f i o r w :
  validated_pricing_pair model provider = Ok (f, model) ->
  price_model_usage_nusd model f i o r w = price_model_usage_nusd model provider i o r w.
Proof.
  intros Hv. unfold price_model_usage_nusd. by rewrite Hv, (validated_canonical _ _ _ Hv).
Qed.

Lemma price_intro model provider f pricing i o r w :
  validated_pricing_pair model provider = Ok (f, model) ->
  MODEL_PRICING !! model = Some pricing ->
  in_bigint i = true -> in_bigint o = true ->
  in_bigint (default 0 r) = true -> in_bigint (default 0 w) = true ->
  default 0 r + default 0 w <= i ->
  ceil_div (usage_units pricing f i o (default 0 r) (default 0 w)) (1000 * RATE_SCALE) <= MAX_BIGINT ->
  price_model_usage_nusd model provider i o r w
  = Ok (ceil_div (usage_units pricing f i o (default 0 r) (default 0 w)) (1000 * RATE_SCALE)).
Proof.
  intros Hv Hm Hi Ho Hr Hw Hs Hmax. unfold price_model_usage_nusd. rewrite Hv. cbn.
  assert (forall x : option Z, in_bigint (default 0 x) = true -> _optional_token_count x = Ok x) as Hopt.
  { intros [x|] Hx; [|done]. cbn in *. unfold _token_count. by rewrite Hx. }
  unfold _token_count. rewrite Hi, Ho. cbn. rewrite (Hopt r Hr), (Hopt w Hw). cbn.
  rewrite (proj2 (Z.ltb_ge _ _)) by lia. rewrite Hm.
  destruct (in_bigint (ceil_div _ _)) eqn:Hb; [done|]. exfalso.
  apply not_true_iff_false in Hb. apply Hb, in_bigint_spec. split; [|done].
  destruct (pricing_rates_nonneg _ _ Hm) as (?&?&Hrr&Hwr). bool_to_prop.
  apply ceil_div_nonneg; [done|]. unfold usage_units.
  specialize (Hrr f). specialize (Hwr f). unfold USD_TO_NUSD. nia.
Qed.

(** Find an element of an explicit list, up to [tac] on the arguments. *)
Ltac pick_elem tac :=
  apply elem_of_cons; first [left; f_equal; tac | right; pick_elem tac].

(** The rate of every input class appears among a candidate's quotes at full
    input: each such quote is a vertex of the usages it has to cover. *)
Lemma candidate_quotes_vertex model f pricing mi mo l rate :
  candidate_quotes model f mi mo = Ok l ->
  validated_pricing_pair model f = Ok (f, model) ->
  MODEL_PRICING !! model = Some pricing ->
  rate ∈ [input pricing; read_rate_of f pricing; write_rate_of f pricing] ->
  ceil_div ((mi * rate + mo * output pricing) * USD_TO_NUSD) (1000 * RATE_SCALE) ∈ l.
Proof.
  intros Hq Hv Hm Hrate. unfold candidate_quotes in Hq. rewrite Hm in Hq. inv_result.
  assert (forall i o r w a, price_model_usage_nusd model f i o r w = Ok a ->
    a = ceil_div (usage_units pricing f i o (default 0 r) (default 0 w)) (1000 * RATE_SCALE)) as Hprice.
  { intros * (f' & p' & Hv' & Hm' & -> & _)%price_inv. by inv_result; simplify_eq. }
  apply Hprice in Heqr as ->. unfold usage_units in *. cbn [default from_option id] in *.
  assert (forall x, (mi - 0 - 0) * input pricing + 0 * read_rate_of f pricing
    + 0 * write_rate_of f pricing + x = mi * input pricing + x) as Hplain by (intros; lia).
  rewrite Hplain in Hq.
  unfold read_rate_of, write_rate_of in *.
  destruct (_supports_cache_pricing f), (cache_read pricing), (cache_write pricing); inv_result;
    repeat match goal with
    | H : price_model_usage_nusd _ _ _ _ _ _ = Ok _ |- _ => apply Hprice in H as ->
    end; cbn [default from_option id app];
    repeat (apply elem_of_cons in Hrate as [->|Hrate]; [solve [pick_elem ltac:(ring)]|]);
    by apply elem_of_nil in Hrate.
Qed.

(** A linear price over a simplex is at most its value at a vertex. *)
Lemma usage_below_vertex a b c o i r w mi mo ro :
  0 <= a -> 0 <= b -> 0 <= c -> 0 <= ro -> 0 <= r -> 0 <= w -> r + w <= i -> i <= mi -> o <= mo ->
  exists rate, rate ∈ [a; b; c] /\
    (i - r - w) * a + r * b + w * c + o * ro <= mi * rate + mo * ro.
Proof.
  intros. set (m := Z.max a (Z.max b c)). exists m. split.
  - repeat setoid_rewrite elem_of_cons. subst m. lia.
  - assert ((i - r - w) * a <= (i - r - w) * m) by (apply Z.mul_le_mono_nonneg_l; lia).
    assert (r * b <= r * m) by (apply Z.mul_le_mono_nonneg_l; lia).
    assert (w * c <= w * m) by (apply Z.mul_le_mono_nonneg_l; lia).
    assert (i * m <= mi * m) by (apply Z.mul_le_mono_nonneg_r; lia).
    assert (o * ro <= mo * ro) by (apply Z.mul_le_mono_nonneg_r; lia). lia.
Qed.

Lemma quote_candidates_elem cands mi mo quotes provider model :
  quote_candidates cands mi mo = Ok quotes -> (provider, model) ∈ cands ->
  exists f l, validated_pricing_pair model provider = Ok (f, model)
    /\ candidate_quotes model f mi mo = Ok l /\ max_list l ∈ quotes.
Proof.
  revert quotes. induction cands as [|[p m] cands IH]; intros quotes Hq Hin;
    [by apply elem_of_nil in Hin|].
  cbn in Hq. inv_result.
  match goal with H : validated_pricing_pair _ _ = Ok _ |- _ =>
    pose proof (validated_inv _ _ _ _ H) as [-> _] end.
  apply elem_of_cons in Hin as [Hin|Hin].
  - simplify_eq. eexists _, _. split_and!; [done..|left].
  - destruct (IH _ eq_refl Hin) as (f & l & ? & ? & ?). exists f, l. split_and!; [done..|by right].
Qed.

Lemma max_list_bounded l : l <> [] -> Forall (fun q => 0 <= q <= MAX_BIGINT) l ->
  0 <= max_list l <= MAX_BIGINT.
Proof.
  destruct l as [|x l]; [done|]. intros _ [Hx Hl]%Forall_cons. cbn. revert x Hx.
  induction Hl as [|y l Hy Hl IH]; intros x Hx; cbn; [done|]. apply IH. lia.
Qed.

Lemma candidate_quotes_bounded m f mi mo l : candidate_quotes m f mi mo = Ok l ->
  l <> [] /\ Forall (fun q => 0 <= q <= MAX_BIGINT) l.
Proof.
  assert (forall i o r w a, price_model_usage_nusd m f i o r w = Ok a -> 0 <= a <= MAX_BIGINT) as Hp.
  { intros * (? & ? & _ & _ & _ & ? & _)%price_inv. done. }
  unfold candidate_quotes. intros Hq. inv_result.
  destruct (MODEL_PRICING !! m) as [pricing|]; [|done].
  destruct (_supports_cache_pricing f), (cache_read pricing), (cache_write pricing);
    inv_result; cbn [app]; split; try done; repeat constructor; eapply Hp; eauto.
Qed.

Lemma quote_candidates_bounded cands mi mo quotes : quote_candidates cands mi mo = Ok quotes ->
  length quotes = length cands /\ Forall (fun q => 0 <= q <= MAX_BIGINT) quotes.
Proof.
  revert quotes. induction cands as [|[p m] cands IH]; intros quotes Hq; cbn in Hq; inv_result; [done|].
  destruct (IH _ eq_refl) as [Hlen Hall].
  match goal with H : candidate_quotes _ _ _ _ = Ok _ |- _ =>
    apply candidate_quotes_bounded in H as [Hne Hl] end.
  split; [cbn; lia|]. constructor; [by apply max_list_bounded | done].
Qed.

Lemma quote_bounded cands mi mo q : quote_model_call_nusd cands mi mo = Ok q -> 0 <= q <= MAX_BIGINT.
Proof.
  unfold quote_model_call_nusd. intros Hq. inv_result.
  match goal with H : quote_candidates _ _ _ = Ok _ |- _ =>
    apply quote_candidates_bounded in H as [Hlen Hall] end.
  apply max_list_bounded; [|done].
  intros ->. bool_to_prop. by destruct cands.
Qed.

Lemma quote_covers_units cands mi mo q provider model i o r w :
  quote_model_call_nusd cands mi mo = Ok q -> (provider, model) ∈ cands ->
  0 <= r -> 0 <= w -> r + w <= i -> i <= mi -> o <= mo ->
  exists f pricing, validated_pricing_pair model provider = Ok (f, model)
    /\ MODEL_PRICING !! model = Some pricing
    /\ ceil_div (usage_units pricing f i o r w) (1000 * RATE_SCALE) <= q.
Proof.
  intros Hq Hin ? ? ? Hi Ho. unfold quote_model_call_nusd in Hq. inv_result.
  match goal with H : quote_candidates _ _ _ = Ok _ |- _ => rename H into Hqs end.
  destruct (quote_candidates_elem _ _ _ _ _ _ Hqs Hin) as (f & l & Hv & Hl & Hmax).
  pose proof (validated_inv _ _ _ _ Hv) as [_ (pricing & Hm & _)].
  exists f, pricing. split_and!; [done..|].
  destruct (pricing_rates_nonneg _ _ Hm) as (? & ? & Hrr & Hwr).
  destruct (usage_below_vertex (input pricing) (read_rate_of f pricing) (write_rate_of f pricing)
    o i r w mi mo (output pricing)) as (rate & Hrate & Hle); auto.
  etrans; [|by apply max_list_ge]. etrans; [|apply max_list_ge].
  2: { eapply (candidate_quotes_vertex model f pricing mi mo); eauto using validated_canonical. }
  apply ceil_div_mono; [done|]. unfold usage_units. unfold USD_TO_NUSD. lia.
Qed.

Lemma quote_covers cands mi mo q provider model i o r w a :
  quote_model_call_nusd cands mi mo = Ok q -> (provider, model) ∈ cands ->
  price_model_usage_nusd model provider i o r w = Ok a -> i <= mi -> o <= mo -> a <= q.
Proof.
  intros Hq Hin (f' & pricing' & Hv' & Hm' & -> & _ & ? & ? & ? & ? & ?)%price_inv Hi Ho.
  destruct (quote_covers_units _ _ _ _ _ _ i o (default 0 r) (default 0 w) Hq Hin)
    as (f & pricing & Hv & Hm & Hle); [done..|]. inv_result. by simplify_eq.
Qed.

(** Usage within the quoted tokens always has a price, and it is covered. *)
Lemma quoted_usage_prices cands mi mo q provider model i o r w :
  quote_model_call_nusd cands mi mo = Ok q -> (provider, model) ∈ cands ->
  in_bigint (default 0 r) = true -> in_bigint (default 0 w) = true ->
  default 0 r + default 0 w <= i -> 0 <= i <= mi -> 0 <= o <= mo ->
  exists a, price_model_usage_nusd model provider i o r w = Ok a /\ a <= q.
Proof.
  intros Hq Hin Hr Hw Hrw Hi Ho. pose proof (quote_bounded _ _ _ _ Hq) as Hb.
  assert (mi <= MAX_BIGINT /\ mo <= MAX_BIGINT) as [? ?].
  { unfold quote_model_call_nusd in Hq. inv_result.
    repeat match goal with H : _token_count _ = Ok _ |- _ => apply token_count_ok in H as [-> ?] end. lia. }
  pose proof (proj1 (in_bigint_spec _) Hr). pose proof (proj1 (in_bigint_spec _) Hw).
  destruct (quote_covers_units _ _ _ _ _ _ i o (default 0 r) (default 0 w) Hq Hin)
    as (f & pricing & Hv & Hm & Hle); [lia..|].
  eexists. split; [eapply price_intro; eauto; [apply in_bigint_spec; lia..|lia]|done].
Qed.

#[export] Hint Resolve quote_covers validated_canonical : cogentrex.

(** ** Properties *)

(** The quote that a call reserves covers every usage the provider can report
    for it: for any candidate pair, any input and output counts within the quoted
    maxima and any split of the input into uncached, cache-read and cache-write
    tokens, the exact price is at most the quote, and the quote fits a BIGINT. *)
Theorem quote_covers_usage (cands : list (string * string)) (mi mo q : Z)
    (provider model : string) (i o : Z) (r w : option Z) (a : Z) :
  quote_model_call_nusd cands mi mo = Ok q -> (provider, model) ∈ cands ->
  price_model_usage_nusd model provider i o r w = Ok a ->
  i <= mi -> o <= mo -> 0 <= a <= q /\ q <= MAX_BIGINT.
Proof.
  intros Hq Hin Hp Hi Ho. pose proof (quote_bounded _ _ _ _ Hq). split; [|lia].
  split; [apply price_inv in Hp as (? & ? & _ & _ & _ & ? & _); lia | eauto using quote_covers].
Qed.

Lemma quote_covers_usage_witness :
  0 <= 2250 <= 93750 /\ 93750 <= MAX_BIGINT.
Proof.
  apply (quote_covers_usage [("anthropic", "claude-haiku-3"); ("openai", "gpt-4o-mini")]%string
    100 50 93750 "anthropic" "claude-haiku-3" 9 0 None None 2250);
    [vm_compute; reflexivity | apply elem_of_cons; by left | vm_compute; reflexivity | lia | lia].
Defined.

(** Exact pricing: a price is returned precisely for a priceable pair, counts
    within BIGINT and cache subsets within the input, and then it is the exact
    amount rounded up to the next nano-USD, never below the exact amount and less
    than one nano-USD above it. *)
Theorem price_is_exact_ceiling (model provider : string) (i o : Z) (r w : option Z) (a : Z) :
  price_model_usage_nusd model provider i o r w = Ok a <->
  exists f pricing,
    validated_pricing_pair model provider = Ok (f, model) /\
    MODEL_PRICING !! model = Some pricing /\
    0 <= i <= MAX_BIGINT /\ 0 <= o <= MAX_BIGINT /\
    0 <= default 0 r /\ 0 <= default 0 w /\ default 0 r + default 0 w <= i /\
    usage_units pricing f i o (default 0 r) (default 0 w) <= 1000 * RATE_SCALE * a
      < usage_units pricing f i o (default 0 r) (default 0 w) + 1000 * RATE_SCALE /\
    a <= MAX_BIGINT.
Proof.
  split.
  - intros (f & pricing & Hv & Hm & -> & Hb & Hi & Ho & Hr & Hw & Hs)%price_inv.
    exists f, pricing. split_and!; try done; try lia; apply ceil_div_spec; done.
  - intros (f & pricing & Hv & Hm & Hi & Ho & Hr & Hw & Hs & Ha & Hmax).
    rewrite (ceil_div_unique _ (1000 * RATE_SCALE) a ltac:(done) Ha) in Hmax |- *.
    apply price_intro; rewrite ?in_bigint_spec; done || lia.
Qed.
