(* ===== verification/MonetaryLedger.v ===== *)
(** * The durable money ledger ([services/monetary_budget.py])

    Three tables: project budgets keyed by owner and project, the budget columns
    of runs keyed by run id, and model charges keyed by charge id. A repository
    method validates its arguments and then runs one or more transactions of
    conditional updates. A transaction is atomic here; what may be stale is a row
    read before the updates, so a method that reads first takes the database it
    read ([seen]) apart from the one it updates ([st]). Timestamps are integers. *)

From Stdlib Require Import ZArith Lia String Ascii.
From stdpp Require Import base gmap strings list fin_maps sorting.
From S2P Require Import Prelude Sql Pricing.
Open Scope Z_scope.

(** ** Data *)

Inductive ChargeState : Type := RESERVED | DISPATCHED | RECONCILED | RELEASED | INDETERMINATE.

#[export] Instance ChargeState_eq_dec : EqDecision ChargeState.
Proof. solve_decision. Defined.

Inductive budget_error : Type :=
| RunBudgetExceeded
| ProjectBudgetExceeded
| BudgetLimitConflict
| ChargeStateConflict
| ChargeConflict
| QuoteExceeded
| BudgetValueError
| BudgetAssertion
| BudgetPricing (e : pricing_error).

#[export] Instance budget_error_eq_dec : EqDecision budget_error.
Proof. solve_decision. Defined.

(** [ProjectBudgetRow]; the key columns are the table's key. *)
Record ProjectBudgetRow : Type := mkProject {
  limit_nusd : Z;
  spent_nusd : Z;
  project_reserved_nusd : Z;
  project_updated_at : Z
}.

(** The columns of [RunRow] the budget code reads or writes. *)
Record RunRow : Type := mkRun {
  user_id : string;
  run_project_id : string;
  budget_limit_nusd : Z;
  budget_spent_nusd : Z;
  budget_reserved_nusd : Z;
  budget_opened_at : option Z
}.

Record ModelChargeRow : Type := mkCharge {
  owner_id : string;
  project_id : string;
  run_id : string;
  ordinal : Z;
  state : ChargeState;
  reserved_nusd : Z;
  actual_nusd : option Z;
  provider : option string;
  model : option string;
  input_tokens : option Z;
  output_tokens : option Z;
  cache_read_tokens : option Z;
  cache_write_tokens : option Z;
  reason_code : option string;
  created_at : Z;
  updated_at : Z;
  dispatched_at : option Z;
  reconciled_at : option Z
}.

Record ledger : Type := mkLedger {
  projects : gmap (string * string) ProjectBudgetRow;
  runs : gmap string RunRow;
  charges : gmap string ModelChargeRow
}.

Definition empty_ledger : ledger := mkLedger ∅ ∅ ∅.

#[export] Instance set_limit : SetField limit_nusd := fun v r =>
  mkProject v (spent_nusd r) (project_reserved_nusd r) (project_updated_at r).
#[export] Instance set_spent : SetField spent_nusd := fun v r =>
  mkProject (limit_nusd r) v (project_reserved_nusd r) (project_updated_at r).
#[export] Instance set_project_reserved : SetField project_reserved_nusd := fun v r =>
  mkProject (limit_nusd r) (spent_nusd r) v (project_updated_at r).
#[export] Instance set_project_updated : SetField project_updated_at := fun v r =>
  mkProject (limit_nusd r) (spent_nusd r) (project_reserved_nusd r) v.

#[export] Instance set_budget_limit : SetField budget_limit_nusd := fun v r =>
  mkRun (user_id r) (run_project_id r) v (budget_spent_nusd r) (budget_reserved_nusd r) (budget_opened_at r).
#[export] Instance set_budget_spent : SetField budget_spent_nusd := fun v r =>
  mkRun (user_id r) (run_project_id r) (budget_limit_nusd r) v (budget_reserved_nusd r) (budget_opened_at r).
#[export] Instance set_budget_reserved : SetField budget_reserved_nusd := fun v r =>
  mkRun (user_id r) (run_project_id r) (budget_limit_nusd r) (budget_spent_nusd r) v (budget_opened_at r).
#[export] Instance set_budget_opened : SetField budget_opened_at := fun v r =>
  mkRun (user_id r) (run_project_id r) (budget_limit_nusd r) (budget_spent_nusd r) (budget_reserved_nusd r) v.

#[export] Instance set_state : SetField state := fun v c =>
  mkCharge (owner_id c) (project_id c) (run_id c) (ordinal c) v (reserved_nusd c) (actual_nusd c)
    (provider c) (model c) (input_tokens c) (output_tokens c) (cache_read_tokens c)
    (cache_write_tokens c) (reason_code c) (created_at c) (updated_at c) (dispatched_at c) (reconciled_at c).
#[export] Instance set_actual : SetField actual_nusd := fun v c =>
  mkCharge (owner_id c) (project_id c) (run_id c) (ordinal c) (state c) (reserved_nusd c) v
    (provider c) (model c) (input_tokens c) (output_tokens c) (cache_read_tokens c)
    (cache_write_tokens c) (reason_code c) (created_at c) (updated_at c) (dispatched_at c) (reconciled_at c).
#[export] Instance set_provider : SetField provider := fun v c =>
  mkCharge (owner_id c) (project_id c) (run_id c) (ordinal c) (state c) (reserved_nusd c) (actual_nusd c)
    v (model c) (input_tokens c) (output_tokens c) (cache_read_tokens c)
    (cache_write_tokens c) (reason_code c) (created_at c) (updated_at c) (dispatched_at c) (reconciled_at c).
#[export] Instance set_model : SetField model := fun v c =>
  mkCharge (owner_id c) (project_id c) (run_id c) (ordinal c) (state c) (reserved_nusd c) (actual_nusd c)
    (provider c) v (input_tokens c) (output_tokens c) (cache_read_tokens c)
    (cache_write_tokens c) (reason_code c) (created_at c) (updated_at c) (dispatched_at c) (reconciled_at c).
#[export] Instance set_input : SetField input_tokens := fun v c =>
  mkCharge (owner_id c) (project_id c) (run_id c) (ordinal c) (state c) (reserved_nusd c) (actual_nusd c)
    (provider c) (model c) v (output_tokens c) (cache_read_tokens c)
    (cache_write_tokens c) (reason_code c) (created_at c) (updated_at c) (dispatched_at c) (reconciled_at c).
#[export] Instance set_output : SetField output_tokens := fun v c =>
  mkCharge (owner_id c) (project_id c) (run_id c) (ordinal c) (state c) (reserved_nusd c) (actual_nusd c)
    (provider c) (model c) (input_tokens c) v (cache_read_tokens c)
    (cache_write_tokens c) (reason_code c) (created_at c) (updated_at c) (dispatched_at c) (reconciled_at c).
#[export] Instance set_cache_read : SetField cache_read_tokens := fun v c =>
  mkCharge (owner_id c) (project_id c) (run_id c) (ordinal c) (state c) (reserved_nusd c) (actual_nusd c)
    (provider c) (model c) (input_tokens c) (output_tokens c) v
    (cache_write_tokens c) (reason_code c) (created_at c) (updated_at c) (dispatched_at c) (reconciled_at c).
#[export] Instance set_cache_write : SetField cache_write_tokens := fun v c =>
  mkCharge (owner_id c) (project_id c) (run_id c) (ordinal c) (state c) (reserved_nusd c) (actual_nusd c)
    (provider c) (model c) (input_tokens c) (output_tokens c) (cache_read_tokens c)
    v (reason_code c) (created_at c) (updated_at c) (dispatched_at c) (reconciled_at c).
#[export] Instance set_reason : SetField reason_code := fun v c =>
  mkCharge (owner_id c) (project_id c) (run_id c) (ordinal c) (state c) (reserved_nusd c) (actual_nusd c)
    (provider c) (model c) (input_tokens c) (output_tokens c) (cache_read_tokens c)
    (cache_write_tokens c) v (created_at c) (updated_at c) (dispatched_at c) (reconciled_at c).
#[export] Instance set_updated : SetField updated_at := fun v c =>
  mkCharge (owner_id c) (project_id c) (run_id c) (ordinal c) (state c) (reserved_nusd c) (actual_nusd c)
    (provider c) (model c) (input_tokens c) (output_tokens c) (cache_read_tokens c)
    (cache_write_tokens c) (reason_code c) (created_at c) v (dispatched_at c) (reconciled_at c).
#[export] Instance set_dispatched : SetField dispatched_at := fun v c =>
  mkCharge (owner_id c) (project_id c) (run_id c) (ordinal c) (state c) (reserved_nusd c) (actual_nusd c)
    (provider c) (model c) (input_tokens c) (output_tokens c) (cache_read_tokens c)
    (cache_write_tokens c) (reason_code c) (created_at c) (updated_at c) v (reconciled_at c).
#[export] Instance set_reconciled : SetField reconciled_at := fun v c =>
  mkCharge (owner_id c) (project_id c) (run_id c) (ordinal c) (state c) (reserved_nusd c) (actual_nusd c)
    (provider c) (model c) (input_tokens c) (output_tokens c) (cache_read_tokens c)
    (cache_write_tokens c) (reason_code c) (created_at c) (updated_at c) (dispatched_at c) v.

Record ChargeReservation : Type := mkReservation {
  res_charge_id : string;
  res_state : ChargeState;
  should_dispatch : bool;
  res_reserved_nusd : Z
}.

Record BudgetSummary : Type := mkSummary {
  project_limit_nusd : Z;
  project_spent_nusd : Z;
  summary_project_reserved_nusd : Z;
  run_limit_nusd : Z;
  run_spent_nusd : Z;
  run_reserved_nusd : Z
}.

(** ** Argument validation *)

Definition _id (value : string) (maximum : nat) : result budget_error string :=
  if (maximum <? String.length value)%nat || negb (safe_id value) then Err BudgetValueError
  else Ok value.

Definition _amount (value : Z) : result budget_error Z :=
  if in_bigint value then Ok value else Err BudgetValueError.

Definition _optional_amount (value : option Z) : result budget_error (option Z) :=
  match value with
  | None => Ok None
  | Some v => v' ← _amount v; Ok (Some v')
  end.

Definition _optional_id (value : option string) (maximum : nat) : result budget_error (option string) :=
  match value with
  | None => Ok None
  | Some v => v' ← _id v maximum; Ok (Some v')
  end.

(** The owner, project and run of a caller, and a charge within them. *)
Record scope : Type := mkScope { sc_owner : string; sc_project : string; sc_run : string }.

#[export] Instance scope_eq_dec : EqDecision scope.
Proof. solve_decision. Defined.

Definition _run_scope (s : scope) : result budget_error unit :=
  _ ← _id (sc_owner s) 255; _ ← _id (sc_project s) 255; _ ← _id (sc_run s) 36; Ok tt.

Definition _scope (charge_id : string) (s : scope) : result budget_error unit :=
  _ ← _id charge_id 128; _run_scope s.

(** ** Row conditions *)

Definition charge_in (s : scope) (c : ModelChargeRow) : bool :=
  bool_decide (owner_id c = sc_owner s /\ project_id c = sc_project s /\ run_id c = sc_run s).

Definition _charge_filters (charge_id : string) (s : scope) (k : string) (c : ModelChargeRow) : bool :=
  bool_decide (k = charge_id) && charge_in s c.

Definition project_is (s : scope) (k : string * string) (_ : ProjectBudgetRow) : bool :=
  bool_decide (k = (sc_owner s, sc_project s)).

Definition run_is (s : scope) (k : string) (r : RunRow) : bool :=
  bool_decide (k = sc_run s /\ user_id r = sc_owner s /\ run_project_id r = sc_project s).

Definition one (n : nat) : bool := Nat.eqb n 1.

(** ** Operations *)

Definition _reservation (charge_id : string) (c : ModelChargeRow) (dispatch : bool) : ChargeReservation :=
  mkReservation charge_id (state c) dispatch (reserved_nusd c).

Definition summary (st : ledger) (s : scope) : result budget_error (option BudgetSummary) :=
  _ ← _run_scope s;
  Ok (match projects st !! (sc_owner s, sc_project s), runs st !! sc_run s with
      | Some p, Some r =>
          if run_is s (sc_run s) r then
            Some (mkSummary (limit_nusd p) (spent_nusd p) (project_reserved_nusd p)
                    (budget_limit_nusd r) (budget_spent_nusd r) (budget_reserved_nusd r))
          else None
      | _, _ => None
      end).

(** The transaction of [open_run]: it returns the committed database, or [None]
    for a rollback, and the outcome. *)
Definition open_run_tx (now : Z) (s : scope) (run_limit project_limit : Z) (st : ledger)
  : ledger * result budget_error unit :=
  let key := (sc_owner s, sc_project s) in
  (* insert .. on conflict do nothing *)
  let projects1 := match projects st !! key with
                   | Some _ => projects st
                   | None => <[key := mkProject project_limit 0 0 now]> (projects st)
                   end in
  match projects1 !! key with
  | None => (st, Err BudgetLimitConflict)
  | Some project =>
      if negb (limit_nusd project =? project_limit) then (st, Err BudgetLimitConflict)
      else
        let unopened k r := run_is s k r && bool_decide (budget_opened_at r = None) in
        let runs1 := update_where unopened
          (fun r => r <| budget_limit_nusd := run_limit |> <| budget_opened_at := Some now |>) (runs st) in
        let st' := mkLedger projects1 runs1 (charges st) in
        if one (rowcount unopened (runs st)) then (st', Ok tt)
        else match scalar (run_is s) (runs st) with
        | None => (st, Err BudgetValueError)
        | Some (_, run) =>
            match budget_opened_at run with
            | None => (st, Err BudgetLimitConflict)
            | Some _ => if budget_limit_nusd run =? run_limit then (st', Ok tt)
                        else (st, Err BudgetLimitConflict)
            end
        end
  end.

Definition open_run (now : Z) (s : scope) (run_limit_nusd project_limit_nusd : Z) (st : ledger)
  : ledger * result budget_error BudgetSummary :=
  match (_ ← _run_scope s; _ ← _amount run_limit_nusd; _amount project_limit_nusd) with
  | Err e => (st, Err e)
  | Ok _ =>
      let (st', outcome) := open_run_tx now s run_limit_nusd project_limit_nusd st in
      match outcome with
      | Err e => (st', Err e)
      | Ok _ => (st', match summary st' s with
                      | Err e => Err e
                      | Ok None => Err BudgetAssertion
                      | Ok (Some sm) => Ok sm
                      end)
      end
  end.

(** A charge of the caller's owner and project with the same id, or the same run
    and ordinal. *)
Definition duplicate_filter (charge_id : string) (s : scope) (ord : Z)
    (k : string) (c : ModelChargeRow) : bool :=
  bool_decide (owner_id c = sc_owner s /\ project_id c = sc_project s)
  && (bool_decide (k = charge_id) || bool_decide (run_id c = sc_run s /\ ordinal c = ord)).

Definition _duplicate (charge_id : string) (s : scope) (ord : Z) (st : ledger)
  : result budget_error (option (string * ModelChargeRow)) :=
  match scalar (duplicate_filter charge_id s ord) (charges st) with
  | Some (k, c) => if bool_decide (run_id c = sc_run s) then Ok (Some (k, c)) else Err ChargeConflict
  | None => Ok None
  end.

(** After a rollback the duplicate is looked for again; [missing] is raised when
    there is none. *)
Definition duplicate_or (charge_id : string) (s : scope) (ord : Z) (missing : budget_error) (reread : ledger)
  : result budget_error ChargeReservation :=
  match _duplicate charge_id s ord reread with
  | Err e => Err e
  | Ok (Some (k, c)) => Ok (_reservation k c false)
  | Ok None => Err missing
  end.

(** The database refuses a second row with the primary key, or with the run and
    ordinal, of an existing one. *)
Definition violates_unique (charge_id : string) (s : scope) (ord : Z) (st : ledger) : bool :=
  bool_decide (is_Some (charges st !! charge_id))
  || negb (Nat.eqb (rowcount (fun _ c => bool_decide (run_id c = sc_run s /\ ordinal c = ord)) (charges st)) 0).

Definition validate_reserve (charge_id : string) (s : scope) (ord quote : Z) (prov mdl : string)
  : result budget_error (string * string) :=
  _ ← _scope charge_id s;
  _ ← require ((0 <=? ord) && (ord <=? MAX_INT32)) BudgetValueError;
  _ ← _amount quote;
  prov' ← _id prov 100;
  mdl' ← _id mdl 255;
  lift_err BudgetPricing (validated_pricing_pair mdl' prov').

Definition fits_project (s : scope) (quote : Z) (k : string * string) (p : ProjectBudgetRow) : bool :=
  project_is s k p && (quote <=? limit_nusd p - spent_nusd p - project_reserved_nusd p).

Definition fits_run (s : scope) (quote : Z) (k : string) (r : RunRow) : bool :=
  run_is s k r && bool_decide (budget_opened_at r <> None)
  && (quote <=? budget_limit_nusd r - budget_spent_nusd r - budget_reserved_nusd r).

Definition new_charge (now : Z) (s : scope) (ord quote : Z) (prov mdl : string) : ModelChargeRow :=
  mkCharge (sc_owner s) (sc_project s) (sc_run s) ord RESERVED quote None (Some prov) (Some mdl)
    None None None None None now now None None.

(** [seen]: what the first duplicate query reads; [st]: what the updates and the
    commit run against; [reread]: what the query after a rollback reads. *)
Definition reserve_call_at (now : Z) (charge_id : string) (s : scope) (ord quote : Z) (prov mdl : string)
    (seen reread st : ledger) : ledger * result budget_error ChargeReservation :=
  match validate_reserve charge_id s ord quote prov mdl with
  | Err e => (st, Err e)
  | Ok (family, mdl') =>
    match _duplicate charge_id s ord seen with
    | Err e => (st, Err e)
    | Ok (Some (k, c)) => (st, Ok (_reservation k c false))
    | Ok None =>
      let projects1 := update_where (fits_project s quote)
        (fun p => p <| project_reserved_nusd := project_reserved_nusd p + quote |> <| project_updated_at := now |>)
        (projects st) in
      if negb (one (rowcount (fits_project s quote) (projects st)))
      then (st, duplicate_or charge_id s ord ProjectBudgetExceeded reread)
      else
        let runs1 := update_where (fits_run s quote)
          (fun r => r <| budget_reserved_nusd := budget_reserved_nusd r + quote |>) (runs st) in
        if negb (one (rowcount (fits_run s quote) (runs st)))
        then (st, duplicate_or charge_id s ord RunBudgetExceeded reread)
        else if violates_unique charge_id s ord st
        then (st, duplicate_or charge_id s ord ChargeConflict reread)
        else (mkLedger projects1 runs1 (<[charge_id := new_charge now s ord quote family mdl']> (charges st)),
              Ok (mkReservation charge_id RESERVED true quote))
    end
  end.

Definition reserve_call (now : Z) (charge_id : string) (s : scope) (ord quote : Z) (prov mdl : string)
    (st : ledger) : ledger * result budget_error ChargeReservation :=
  reserve_call_at now charge_id s ord quote prov mdl st st st.

(** Three updates that must each hit one row, or the transaction rolls back. *)
Definition commit_three (s : scope) (st : ledger)
    (where_project : string * string -> ProjectBudgetRow -> bool)
    (set_project : ProjectBudgetRow -> ProjectBudgetRow)
    (where_run : string -> RunRow -> bool) (set_run : RunRow -> RunRow)
    (where_charge : string -> ModelChargeRow -> bool) (set_charge : ModelChargeRow -> ModelChargeRow)
  : option ledger :=
  if one (rowcount where_project (projects st)) && one (rowcount where_run (runs st))
     && one (rowcount where_charge (charges st))
  then Some (mkLedger (update_where where_project set_project (projects st))
                      (update_where where_run set_run (runs st))
                      (update_where where_charge set_charge (charges st)))
  else None.

(** The row read back after the commit. *)
Definition persisted (charge_id : string) (st : ledger) : result budget_error ModelChargeRow :=
  match charges st !! charge_id with Some c => Ok c | None => Err BudgetAssertion end.

Definition committed (charge_id : string) (outcome : option ledger) (st : ledger)
  : ledger * result budget_error ModelChargeRow :=
  match outcome with
  | None => (st, Err ChargeStateConflict)
  | Some st' => (st', persisted charge_id st')
  end.

Definition _simple_transition (charge_id : string) (s : scope) (source : list ChargeState)
    (values : ModelChargeRow -> ModelChargeRow) (st : ledger)
  : ledger * result budget_error ModelChargeRow :=
  match _scope charge_id s with
  | Err e => (st, Err e)
  | Ok _ =>
      committed charge_id
        (commit_three s st (project_is s) (fun p => p) (run_is s) (fun r => r)
          (fun k c => _charge_filters charge_id s k c && bool_decide (state c ∈ source)) values)
        st
  end.

Definition mark_dispatched (now : Z) (charge_id : string) (s : scope) (st : ledger) :=
  _simple_transition charge_id s [RESERVED]
    (fun c => c <| dispatched_at := Some now |> <| state := DISPATCHED |> <| updated_at := now |>) st.

Definition mark_indeterminate (now : Z) (charge_id : string) (s : scope) (reason : string) (st : ledger) :=
  match _id reason 64 with
  | Err e => (st, Err e)
  | Ok reason' =>
      _simple_transition charge_id s [RESERVED; DISPATCHED]
        (fun c => c <| reason_code := Some reason' |> <| state := INDETERMINATE |> <| updated_at := now |>) st
  end.

Definition holds_project (s : scope) (quote : Z) (k : string * string) (p : ProjectBudgetRow) : bool :=
  project_is s k p && (quote <=? project_reserved_nusd p).

Definition holds_run (s : scope) (quote : Z) (k : string) (r : RunRow) : bool :=
  run_is s k r && (quote <=? budget_reserved_nusd r).

Definition charge_holds (charge_id : string) (s : scope) (source : ChargeState) (quote : Z)
    (k : string) (c : ModelChargeRow) : bool :=
  _charge_filters charge_id s k c && bool_decide (state c = source) && (reserved_nusd c =? quote).

Definition _release_at (now : Z) (charge_id : string) (s : scope) (reason : string) (seen st : ledger)
  : ledger * result budget_error ModelChargeRow :=
  match _scope charge_id s with
  | Err e => (st, Err e)
  | Ok _ =>
    match scalar (fun k c => _charge_filters charge_id s k c && bool_decide (state c = RESERVED)) (charges seen) with
    | None => (st, Err ChargeStateConflict)
    | Some (_, charge) =>
        let quote := reserved_nusd charge in
        committed charge_id
          (commit_three s st
            (holds_project s quote)
            (fun p => p <| project_reserved_nusd := project_reserved_nusd p - quote |> <| project_updated_at := now |>)
            (holds_run s quote)
            (fun r => r <| budget_reserved_nusd := budget_reserved_nusd r - quote |>)
            (charge_holds charge_id s RESERVED quote)
            (fun c => c <| state := RELEASED |> <| reason_code := Some reason |> <| updated_at := now |>))
          st
    end
  end.

Definition release (now : Z) (charge_id : string) (s : scope) (st : ledger) :=
  _release_at now charge_id s "released" st st.

(** What [reconcile] is told about the call. *)
Record usage_report : Type := mkUsage {
  u_actual : option Z;
  u_input : Z;
  u_output : Z;
  u_read : option Z;
  u_write : option Z;
  u_provider : option string;
  u_model : option string
}.

Definition validate_usage (charge_id : string) (s : scope) (u : usage_report) : result budget_error unit :=
  _ ← _scope charge_id s;
  _ ← _optional_amount (u_actual u);
  _ ← _amount (u_input u);
  _ ← _amount (u_output u);
  _ ← _optional_amount (u_read u);
  _ ← _optional_amount (u_write u);
  _ ← require (default 0 (u_read u) + default 0 (u_write u) <=? u_input u) BudgetValueError;
  _ ← _optional_id (u_provider u) 100;
  _ ← _optional_id (u_model u) 255;
  Ok tt.

(** The pair the usage is priced at and its price. *)
Definition price_charge (charge : ModelChargeRow) (u : usage_report)
  : result budget_error (string * string * Z) :=
  let prov := match u_provider u with Some p => Some p | None => provider charge end in
  let mdl := match u_model u with Some m => Some m | None => model charge end in
  match prov, mdl with
  | Some p, Some m =>
      '(p', m') ← lift_err BudgetPricing (validated_pricing_pair m p);
      actual ← lift_err BudgetPricing
        (price_model_usage_nusd m' p' (u_input u) (u_output u) (u_read u) (u_write u));
      _ ← require (match u_actual u with Some supplied => supplied =? actual | None => true end)
            BudgetValueError;
      Ok (p', m', actual)
  | _, _ => Err BudgetValueError
  end.

Definition reconcile_at (now : Z) (charge_id : string) (s : scope) (u : usage_report) (seen st : ledger)
  : ledger * result budget_error ModelChargeRow :=
  match validate_usage charge_id s u with
  | Err e => (st, Err e)
  | Ok _ =>
    match scalar (_charge_filters charge_id s) (charges seen) with
    | None => (st, Err ChargeStateConflict)
    | Some (_, charge) =>
      if negb (bool_decide (state charge = DISPATCHED)) then (st, Err ChargeStateConflict)
      else match price_charge charge u with
      | Err e => (st, Err e)
      | Ok (p', m', actual) =>
        let quote := reserved_nusd charge in
        if quote <? actual then
          match commit_three s st (project_is s) (fun p => p) (run_is s) (fun r => r)
              (fun k c => _charge_filters charge_id s k c && bool_decide (state c = DISPATCHED))
              (fun c => c <| state := INDETERMINATE |> <| reason_code := Some "quote_exceeded"%string |>
                          <| updated_at := now |>) with
          | None => (st, Err ChargeStateConflict)
          | Some st' => (st', Err QuoteExceeded)
          end
        else
          committed charge_id
            (commit_three s st
              (holds_project s quote)
              (fun p => p <| project_reserved_nusd := project_reserved_nusd p - quote |>
                          <| spent_nusd := spent_nusd p + actual |> <| project_updated_at := now |>)
              (holds_run s quote)
              (fun r => r <| budget_reserved_nusd := budget_reserved_nusd r - quote |>
                          <| budget_spent_nusd := budget_spent_nusd r + actual |>)
              (charge_holds charge_id s DISPATCHED quote)
              (fun c => c <| state := RECONCILED |> <| actual_nusd := Some actual |>
                          <| provider := Some p' |> <| model := Some m' |>
                          <| input_tokens := Some (u_input u) |> <| output_tokens := Some (u_output u) |>
                          <| cache_read_tokens := u_read u |> <| cache_write_tokens := u_write u |>
                          <| updated_at := now |> <| reconciled_at := Some now |>))
            st
      end
    end
  end.

Definition reconcile (now : Z) (charge_id : string) (s : scope) (u : usage_report) (st : ledger) :=
  reconcile_at now charge_id s u st st.

Definition get (charge_id : string) (s : scope) (st : ledger)
  : result budget_error (option (string * ModelChargeRow)) :=
  _ ← _scope charge_id s; Ok (scalar (_charge_filters charge_id s) (charges st)).

(** Row order of [list]: by ordinal, then charge id. *)
Definition ordinal_le (a b : string * ModelChargeRow) : Prop :=
  ordinal a.2 < ordinal b.2 \/ (ordinal a.2 = ordinal b.2 /\ String.leb a.1 b.1 = true).

#[export] Instance ordinal_le_dec : RelDecision ordinal_le.
Proof. intros a b. unfold ordinal_le. apply _. Defined.

Definition MAX_PAGE : Z := 200.

Definition list_charges (s : scope) (limit offset : Z) (st : ledger)
  : result budget_error (list (string * ModelChargeRow)) :=
  _ ← _run_scope s;
  _ ← require ((1 <=? limit) && (limit <=? MAX_PAGE) && (0 <=? offset)) BudgetValueError;
  Ok (take (Z.to_nat limit) (drop (Z.to_nat offset)
        (merge_sort ordinal_le (select_where (fun _ c => charge_in s c) (charges st))))).

(** *** Recovery of stale charges *)

Definition is_active (c : ModelChargeRow) : bool := bool_decide (state c ∈ [RESERVED; DISPATCHED]).

Definition stale (cutoff : Z) (c : ModelChargeRow) : bool := is_active c && (updated_at c <? cutoff).

(** Candidates in the order of owner, project, run and charge id. *)
Definition candidate_key (x : string * ModelChargeRow) : list string :=
  [owner_id x.2; project_id x.2; run_id x.2; x.1].

Fixpoint key_leb (a b : list string) : bool :=
  match a, b with
  | [], _ => true
  | _ :: _, [] => false
  | x :: a', y :: b' =>
      match String.compare x y with Lt => true | Gt => false | Eq => key_leb a' b' end
  end.

Definition candidate_le (a b : string * ModelChargeRow) : Prop :=
  key_leb (candidate_key a) (candidate_key b) = true.

#[export] Instance candidate_le_dec : RelDecision candidate_le.
Proof. intros a b. unfold candidate_le. apply _. Defined.

Definition recover_candidates (cutoff : Z) (st : ledger) : list (string * ModelChargeRow) :=
  merge_sort candidate_le (select_where (fun _ c => stale cutoff c) (charges st)).

Definition scope_of (c : ModelChargeRow) : scope := mkScope (owner_id c) (project_id c) (run_id c).

(** The outcome of one candidate's transaction. *)
Inductive recovered : Type := Recovered | LostRace | RecoverConflict.

(** One candidate [(charge_id, seen)], as selected earlier, against the current
    database. *)
Definition recover_one (now cutoff : Z) (charge_id : string) (seen : ModelChargeRow) (st : ledger)
  : ledger * recovered :=
  let s := scope_of seen in
  let quote := reserved_nusd seen in
  let where_charge :=
    if bool_decide (state seen = RESERVED)
    then fun k c => charge_holds charge_id s RESERVED quote k c && (updated_at c <? cutoff)
    else fun k c => _charge_filters charge_id s k c && bool_decide (state c = DISPATCHED)
                    && (updated_at c <? cutoff) in
  let outcome :=
    if bool_decide (state seen = RESERVED)
    then commit_three s st
      (holds_project s quote)
      (fun p => p <| project_reserved_nusd := project_reserved_nusd p - quote |> <| project_updated_at := now |>)
      (holds_run s quote)
      (fun r => r <| budget_reserved_nusd := budget_reserved_nusd r - quote |>)
      where_charge
      (fun c => c <| state := RELEASED |> <| reason_code := Some "stale_reserved"%string |> <| updated_at := now |>)
    else commit_three s st (project_is s) (fun p => p) (run_is s) (fun r => r)
      where_charge
      (fun c => c <| state := INDETERMINATE |> <| reason_code := Some "stale_dispatched"%string |>
                  <| updated_at := now |>) in
  match outcome with
  | Some st' => (st', Recovered)
  | None => if Nat.eqb (rowcount where_charge (charges st)) 0 then (st, LostRace) else (st, RecoverConflict)
  end.

(** The loop over the candidates; each one is stamped with the clock's reading. *)
Fixpoint recover_loop (cutoff : Z) (clock : nat -> Z) (candidates : list (string * ModelChargeRow))
    (count : Z) (st : ledger) : ledger * result budget_error Z :=
  match candidates with
  | [] => (st, Ok count)
  | (charge_id, seen) :: rest =>
      match recover_one (clock (length rest)) cutoff charge_id seen st with
      | (st', Recovered) => recover_loop cutoff clock rest (count + 1) st'
      | (st', LostRace) => recover_loop cutoff clock rest count st'
      | (st', RecoverConflict) => (st', Err ChargeStateConflict)
      end
  end.

Definition recover_stale (cutoff : Z) (clock : nat -> Z) (st : ledger) : ledger * result budget_error Z :=
  recover_loop cutoff clock (recover_candidates cutoff st) 0 st.

(** *** Run rows come and go ([services/run_ledger.py]) *)

(** [ensure_run]: insert with the column defaults unless the id is taken. *)
Definition ensure_run (s : scope) (st : ledger) : ledger :=
  match runs st !! sc_run s with
  | Some _ => st
  | None => mkLedger (projects st)
              (<[sc_run s := mkRun (sc_owner s) (sc_project s) 0 0 0 None]> (runs st)) (charges st)
  end.

(** [_delete_terminal_runs], for the ids it finds eligible. *)
Definition delete_runs (eligible : string -> bool) (st : ledger) : ledger :=
  mkLedger (projects st) (filter (fun kr => eligible kr.1 = false) (runs st)) (charges st).

(** ** The accounting invariant *)

(** nUSD a charge keeps reserved: an indeterminate charge still holds its quote. *)
Definition held (c : ModelChargeRow) : Z :=
  match state c with
  | RESERVED | DISPATCHED | INDETERMINATE => reserved_nusd c
  | RECONCILED | RELEASED => 0
  end.

(** nUSD a charge has spent. *)
Definition paid (c : ModelChargeRow) : Z :=
  match state c with RECONCILED => default 0 (actual_nusd c) | _ => 0 end.

Definition of_project (key : string * string) (g : ModelChargeRow -> Z) (_ : string) (c : ModelChargeRow) : Z :=
  if bool_decide ((owner_id c, project_id c) = key) then g c else 0.

Definition of_run (id : string) (g : ModelChargeRow -> Z) (_ : string) (c : ModelChargeRow) : Z :=
  if bool_decide (run_id c = id) then g c else 0.

Definition project_total (key : string * string) (g : ModelChargeRow -> Z) (st : ledger) : Z :=
  map_sum (of_project key g) (charges st).

Definition run_total (id : string) (g : ModelChargeRow -> Z) (st : ledger) : Z :=
  map_sum (of_run id g) (charges st).

Definition project_ok (st : ledger) (key : string * string) (p : ProjectBudgetRow) : Prop :=
  project_reserved_nusd p = project_total key held st /\ spent_nusd p = project_total key paid st
  /\ spent_nusd p + project_reserved_nusd p <= limit_nusd p <= MAX_BIGINT.

Definition run_ok (st : ledger) (id : string) (r : RunRow) : Prop :=
  budget_reserved_nusd r = run_total id held st /\ budget_spent_nusd r = run_total id paid st
  /\ budget_spent_nusd r + budget_reserved_nusd r <= budget_limit_nusd r <= MAX_BIGINT
  /\ (budget_opened_at r = None -> forall k c, charges st !! k = Some c -> run_id c <> id).

(** What a charge row says about itself. *)
Definition charge_row_ok (c : ModelChargeRow) : Prop :=
  0 <= reserved_nusd c <= MAX_BIGINT
  /\ match state c with
     | RECONCILED => exists a, actual_nusd c = Some a /\ 0 <= a <= reserved_nusd c
     | _ => actual_nusd c = None
     end.

Record ledger_ok (st : ledger) : Prop := {
  ok_projects : forall key p, projects st !! key = Some p -> project_ok st key p;
  ok_runs : forall id r, runs st !! id = Some r -> run_ok st id r;
  ok_charges : forall k c, charges st !! k = Some c -> charge_row_ok c;
  ok_scoped : forall k c, charges st !! k = Some c ->
    is_Some (projects st !! (owner_id c, project_id c))
    /\ forall r, runs st !! run_id c = Some r -> user_id r = owner_id c /\ run_project_id r = project_id c;
  ok_unique : forall k1 c1 k2 c2, charges st !! k1 = Some c1 -> charges st !! k2 = Some c2 ->
    run_id c1 = run_id c2 -> ordinal c1 = ordinal c2 -> k1 = k2
}.

(** ** Steps

    One step is one committed method call, with any arguments, any clock and any
    stale reads; [ensure_run] takes a run id no charge mentions, as fresh ids do. *)
Inductive step : ledger -> ledger -> Prop :=
| step_open_run now s rl pl st : step st (open_run now s rl pl st).1
| step_reserve now id s ord quote prov mdl seen reread st :
    step st (reserve_call_at now id s ord quote prov mdl seen reread st).1
| step_dispatch now id s st : step st (mark_dispatched now id s st).1
| step_indeterminate now id s reason st : step st (mark_indeterminate now id s reason st).1
| step_release now id s reason seen st : step st (_release_at now id s reason seen st).1
| step_reconcile now id s u seen st : step st (reconcile_at now id s u seen st).1
| step_recover now cutoff id seen st : step st (recover_one now cutoff id seen st).1
| step_ensure_run s st :
    (forall k c, charges st !! k = Some c -> run_id c <> sc_run s) -> step st (ensure_run s st)
| step_delete_runs eligible st : step st (delete_runs eligible st).

Definition reachable (st : ledger) : Prop := rtc step empty_ledger st.

(** ** Lemmas *)

Ltac solve_pins :=
  intros ? ?; unfold project_is, holds_project, fits_project, run_is, holds_run, fits_run,
    charge_holds, _charge_filters, project_is, run_is in *; intros; bool_to_prop; intuition.

Lemma pins_project s : pins (project_is s) (sc_owner s, sc_project s).
Proof. solve_pins. Qed.
Lemma pins_holds_project s q : pins (holds_project s q) (sc_owner s, sc_project s).
Proof. solve_pins. Qed.
Lemma pins_fits_project s q : pins (fits_project s q) (sc_owner s, sc_project s).
Proof. solve_pins. Qed.
Lemma pins_run s : pins (run_is s) (sc_run s).
Proof. solve_pins. Qed.
Lemma pins_holds_run s q : pins (holds_run s q) (sc_run s).
Proof. solve_pins. Qed.
Lemma pins_fits_run s q : pins (fits_run s q) (sc_run s).
Proof. solve_pins. Qed.
Lemma pins_filters_and id s P : pins (fun k c => _charge_filters id s k c && P c) id.
Proof. solve_pins. Qed.
Lemma pins_filters id s : pins (_charge_filters id s) id.
Proof. solve_pins. Qed.
Lemma pins_holds id s src q : pins (charge_holds id s src q) id.
Proof. solve_pins. Qed.
Lemma pins_holds_and id s src q P : pins (fun k c => charge_holds id s src q k c && P c) id.
Proof. solve_pins. Qed.
Lemma pins_filters_and2 id s P Q : pins (fun k c => _charge_filters id s k c && P c && Q c) id.
Proof. solve_pins. Qed.
Lemma pins_run_and s P : pins (fun k r => run_is s k r && P r) (sc_run s).
Proof. solve_pins. Qed.

#[export] Hint Resolve pins_project pins_holds_project pins_fits_project pins_run pins_holds_run
  pins_fits_run pins_filters_and pins_filters pins_holds pins_holds_and pins_filters_and2 pins_run_and : cogentrex.

(** A successful triple update hit one row of each table. *)
Lemma commit_three_inv s st wp fp wr fr wc fc st' id :
  commit_three s st wp fp wr fr wc fc = Some st' ->
  pins wp (sc_owner s, sc_project s) -> pins wr (sc_run s) -> pins wc id ->
  exists p r c,
    projects st !! (sc_owner s, sc_project s) = Some p /\ wp (sc_owner s, sc_project s) p = true /\
    runs st !! sc_run s = Some r /\ wr (sc_run s) r = true /\
    charges st !! id = Some c /\ wc id c = true /\
    st' = mkLedger (<[(sc_owner s, sc_project s) := fp p]> (projects st))
                   (<[sc_run s := fr r]> (runs st)) (<[id := fc c]> (charges st)).
Proof.
  unfold commit_three, one. intros Hc Hp Hr Hk.
  destruct (_ && _) eqn:Hone in Hc; [|done]. bool_to_prop.
  repeat match goal with H : (_ =? _)%nat = true |- _ => apply Nat.eqb_eq in H end.
  destruct (pinned_hit _ fp _ _ Hp ltac:(eassumption)) as (p & ? & ? & Ep).
  destruct (pinned_hit _ fr _ _ Hr ltac:(eassumption)) as (r & ? & ? & Er).
  destruct (pinned_hit _ fc _ _ Hk ltac:(eassumption)) as (c & ? & ? & Ec).
  exists p, r, c. rewrite Ep, Er, Ec in Hc. by simplify_eq.
Qed.

Lemma commit_three_intro s st wp fp wr fr wc fc id p r c :
  pins wp (sc_owner s, sc_project s) -> pins wr (sc_run s) -> pins wc id ->
  projects st !! (sc_owner s, sc_project s) = Some p -> wp (sc_owner s, sc_project s) p = true ->
  runs st !! sc_run s = Some r -> wr (sc_run s) r = true ->
  charges st !! id = Some c -> wc id c = true ->
  commit_three s st wp fp wr fr wc fc =
    Some (mkLedger (<[(sc_owner s, sc_project s) := fp p]> (projects st))
                   (<[sc_run s := fr r]> (runs st)) (<[id := fc c]> (charges st))).
Proof.
  intros Hp Hr Hk HP HPt HR HRt HC HCt. unfold commit_three, one.
  rewrite (pinned_row _ _ _ _ Hp HP HPt), (pinned_row _ _ _ _ Hr HR HRt), (pinned_row _ _ _ _ Hk HC HCt).
  cbn. rewrite (update_where_pinned _ _ _ _ Hp), HP, HPt.
  rewrite (update_where_pinned _ _ _ _ Hr), HR, HRt. by rewrite (update_where_pinned _ _ _ _ Hk), HC, HCt.
Qed.

(** *** Totals after one charge changes *)

Lemma total_project_update key g m id c c' :
  m !! id = Some c -> owner_id c' = owner_id c -> project_id c' = project_id c ->
  map_sum (of_project key g) (<[id := c']> m)
  = map_sum (of_project key g) m + (if bool_decide ((owner_id c, project_id c) = key) then g c' - g c else 0).
Proof.
  intros Hm Ho Hp. rewrite (map_sum_update _ _ _ _ _ Hm). unfold of_project. rewrite Ho, Hp.
  case_bool_decide; lia.
Qed.

Lemma total_run_update rid g m id c c' :
  m !! id = Some c -> run_id c' = run_id c ->
  map_sum (of_run rid g) (<[id := c']> m)
  = map_sum (of_run rid g) m + (if bool_decide (run_id c = rid) then g c' - g c else 0).
Proof.
  intros Hm Ho. rewrite (map_sum_update _ _ _ _ _ Hm). unfold of_run. rewrite Ho. case_bool_decide; lia.
Qed.

Lemma charge_in_spec s c : charge_in s c = true <->
  owner_id c = sc_owner s /\ project_id c = sc_project s /\ run_id c = sc_run s.
Proof. apply bool_decide_eq_true. Qed.

Lemma filters_spec id s k c : _charge_filters id s k c = true <-> k = id /\ charge_in s c = true.
Proof. unfold _charge_filters. rewrite andb_true_iff, bool_decide_eq_true. done. Qed.

(** The fields no transition touches. *)
Definition same_identity (c c' : ModelChargeRow) : Prop :=
  owner_id c' = owner_id c /\ project_id c' = project_id c /\ run_id c' = run_id c
  /\ ordinal c' = ordinal c /\ reserved_nusd c' = reserved_nusd c.

#[export] Instance same_identity_refl : Reflexive same_identity.
Proof. intros c. by repeat split. Qed.
#[export] Instance same_identity_trans : Transitive same_identity.
Proof. intros a b c (?&?&?&?&?) (?&?&?&?&?). repeat split; congruence. Qed.

(** The accounts follow the charge. *)
Definition project_follows (c c' : ModelChargeRow) (p p' : ProjectBudgetRow) : Prop :=
  limit_nusd p' = limit_nusd p
  /\ project_reserved_nusd p' = project_reserved_nusd p + (held c' - held c)
  /\ spent_nusd p' = spent_nusd p + (paid c' - paid c).

Definition run_follows (c c' : ModelChargeRow) (r r' : RunRow) : Prop :=
  budget_limit_nusd r' = budget_limit_nusd r /\ user_id r' = user_id r
  /\ run_project_id r' = run_project_id r /\ budget_opened_at r' = budget_opened_at r
  /\ budget_reserved_nusd r' = budget_reserved_nusd r + (held c' - held c)
  /\ budget_spent_nusd r' = budget_spent_nusd r + (paid c' - paid c).

(** Moving one charge while both its accounts follow keeps the invariant, as long
    as held plus paid does not grow. *)
Lemma ledger_ok_move st s id c c' p p' r r' :
  ledger_ok st -> charges st !! id = Some c -> charge_in s c = true ->
  projects st !! (sc_owner s, sc_project s) = Some p -> runs st !! sc_run s = Some r ->
  same_identity c c' -> charge_row_ok c' ->
  project_follows c c' p p' -> run_follows c c' r r' ->
  held c' + paid c' <= held c + paid c ->
  ledger_ok (mkLedger (<[(sc_owner s, sc_project s) := p']> (projects st))
                      (<[sc_run s := r']> (runs st)) (<[id := c']> (charges st))).
Proof.
  intros [Hproj Hrun Hch Hsc Huni] Hc Hin HP HR (Ho & Hpr & Hru & Hor & Hre) Hrow'
    (Hpl & Hpres & Hpsp) (Hrl & Hrus & Hrp & Hrop & Hrres & Hrsp) Hle.
  apply charge_in_spec in Hin as (Ein & Einp & Einr).
  constructor; cbn.
  - intros key q Hq. unfold project_ok, project_total. cbn.
    rewrite !(total_project_update key _ _ _ _ _ Hc Ho Hpr), Ein, Einp.
    destruct (decide ((sc_owner s, sc_project s) = key)) as [<-|Hne].
    + rewrite lookup_insert_eq in Hq. simplify_eq. destruct (Hproj _ _ HP) as (E1 & E2 & E3).
      unfold project_total in *. rewrite bool_decide_eq_true_2 by done. lia.
    + rewrite lookup_insert_ne in Hq by done. destruct (Hproj _ _ Hq) as (E1 & E2 & E3).
      unfold project_total in *. rewrite bool_decide_eq_false_2 by done. lia.
  - intros id' q Hq. unfold run_ok, run_total. cbn.
    rewrite !(total_run_update id' _ _ _ _ _ Hc Hru), Einr.
    assert (forall k c0, <[id := c']> (charges st) !! k = Some c0 ->
      exists c1, charges st !! k = Some c1 /\ run_id c1 = run_id c0) as Hback.
    { intros k c0 [[-> ->]|[? ?]]%lookup_insert_Some; [by exists c|by exists c0]. }
    destruct (decide (sc_run s = id')) as [<-|Hne].
    + rewrite lookup_insert_eq in Hq. simplify_eq. destruct (Hrun _ _ HR) as (E1 & E2 & E3 & E4).
      unfold run_total in *. rewrite bool_decide_eq_true_2 by done. split_and!; [lia..|].
      intros Hn k c0 (c1 & Hk & <-)%Hback. rewrite Hrop in Hn. eauto.
    + rewrite lookup_insert_ne in Hq by done. destruct (Hrun _ _ Hq) as (E1 & E2 & E3 & E4).
      unfold run_total in *. rewrite bool_decide_eq_false_2 by done. split_and!; [lia..|].
      intros Hn k c0 (c1 & Hk & <-)%Hback. eauto.
  - intros k c0 [[-> ->]|[? ?]]%lookup_insert_Some; eauto.
  - assert (forall k c0, charges st !! k = Some c0 ->
      is_Some (<[(sc_owner s, sc_project s) := p']> (projects st) !! (owner_id c0, project_id c0))
      /\ forall q, <[sc_run s := r']> (runs st) !! run_id c0 = Some q ->
          user_id q = owner_id c0 /\ run_project_id q = project_id c0) as Hold.
    { intros k c0 Hk. destruct (Hsc _ _ Hk) as [Hs Hu]. split.
      - apply lookup_insert_is_Some'. by right.
      - intros q [[Hrid <-]|[? Hq]]%lookup_insert_Some; [|eauto].
        rewrite Hrus, Hrp. apply Hu. by rewrite <- Hrid. }
    intros k c0 [[-> ->]|[? Hk]]%lookup_insert_Some; [|eauto].
    rewrite Ho, Hpr, Hru. eauto.
  - assert (forall k c0, <[id := c']> (charges st) !! k = Some c0 ->
      exists c1, charges st !! k = Some c1 /\ run_id c1 = run_id c0 /\ ordinal c1 = ordinal c0) as Hback.
    { intros k c0 [[-> ->]|[? ?]]%lookup_insert_Some; [by exists c|by exists c0]. }
    intros k1 c1 k2 c2 (d1 & ? & <- & <-)%Hback (d2 & ? & <- & <-)%Hback. eauto.
Qed.

(** *** The charge automaton *)

Definition allowed (a b : ChargeState) : bool :=
  match a, b with
  | RESERVED, (DISPATCHED | RELEASED | INDETERMINATE) => true
  | DISPATCHED, (RECONCILED | INDETERMINATE) => true
  | _, _ => false
  end.

Definition terminal (a : ChargeState) : bool :=
  match a with RECONCILED | RELEASED | INDETERMINATE => true | _ => false end.

(** One charge took one step of the automaton and both its accounts followed. *)
Record moved (st : ledger) (s : scope) (id : string) (c c' : ModelChargeRow) (st' : ledger) : Prop := {
  mv_charge : charges st !! id = Some c;
  mv_scope : charge_in s c = true;
  mv_allowed : allowed (state c) (state c') = true;
  mv_identity : same_identity c c';
  mv_actual : match state c' with
              | RECONCILED => exists a, actual_nusd c' = Some a /\ 0 <= a <= reserved_nusd c
              | _ => actual_nusd c' = actual_nusd c
              end;
  mv_accounts : exists p p' r r',
    projects st !! (sc_owner s, sc_project s) = Some p /\ runs st !! sc_run s = Some r /\
    run_is s (sc_run s) r = true /\ project_follows c c' p p' /\ run_follows c c' r r' /\
    st' = mkLedger (<[(sc_owner s, sc_project s) := p']> (projects st))
                   (<[sc_run s := r']> (runs st)) (<[id := c']> (charges st))
}.

Lemma moved_ok st s id c c' st' : ledger_ok st -> moved st s id c c' st' -> ledger_ok st'.
Proof.
  intros Hok [Hc Hin Hal Hid Hact (p & p' & r & r' & HP & HR & _ & Hpf & Hrf & ->)].
  destruct (ok_charges _ Hok _ _ Hc) as [Hres Hrow].
  assert (charge_row_ok c') as Hrow'.
  { split; [destruct Hid as (_ & _ & _ & _ & ->); done|].
    destruct Hid as (_ & _ & _ & _ & ->).
    destruct (state c), (state c'); done || (rewrite Hact; done). }
  eapply ledger_ok_move; eauto. unfold held, paid.
  destruct Hid as (_ & _ & _ & _ & Hre). rewrite Hre.
  destruct (state c), (state c'); cbn in Hal; try done; try lia.
  destruct Hact as (a & -> & ?). cbn. lia.
Qed.

(** A row condition of the three updates, as facts. *)
Lemma run_is_spec s k r : run_is s k r = true <->
  k = sc_run s /\ user_id r = sc_owner s /\ run_project_id r = sc_project s.
Proof. apply bool_decide_eq_true. Qed.

Lemma holds_run_spec s q k r : holds_run s q k r = true <-> run_is s k r = true /\ q <= budget_reserved_nusd r.
Proof. unfold holds_run. by rewrite andb_true_iff, Z.leb_le. Qed.

Lemma charge_holds_spec id s src q k c : charge_holds id s src q k c = true <->
  k = id /\ charge_in s c = true /\ state c = src /\ reserved_nusd c = q.
Proof.
  unfold charge_holds. rewrite !andb_true_iff, filters_spec, bool_decide_eq_true, Z.eqb_eq. intuition.
Qed.

(** A transaction that moves a charge without money. *)
Lemma plain_moved st s id wc fc (src : list ChargeState) st' :
  commit_three s st (project_is s) (fun p => p) (run_is s) (fun r => r) wc fc = Some st' ->
  pins wc id ->
  (forall c, wc id c = true -> charge_in s c = true /\ state c ∈ src) ->
  (forall c, state c ∈ src -> allowed (state c) (state (fc c)) = true /\ terminal (state c) = false
     /\ state (fc c) <> RECONCILED /\ held (fc c) = held c /\ same_identity c (fc c)
     /\ actual_nusd (fc c) = actual_nusd c) ->
  exists c, wc id c = true /\ moved st s id c (fc c) st'.
Proof.
  intros Hc Hpin Hwc Hfc.
  apply (commit_three_inv _ _ _ _ _ _ _ _ _ id) in Hc as (p & r & c & HP & _ & HR & HRt & HC & HCt & ->);
    [|eauto with cogentrex..].
  destruct (Hwc _ HCt) as [Hin Hsrc]. destruct (Hfc _ Hsrc) as (Hal & Hterm & Hnr & Hheld & Hid & Hact).
  exists c. split; [done|]. constructor; auto.
  - by destruct (state (fc c)).
  - exists p, p, r, r.
    assert (paid (fc c) = paid c) as Hpaid.
    { unfold paid. destruct (state c), (state (fc c)); done. }
    split_and!; auto; repeat split; rewrite ?Hheld, ?Hpaid; try lia.
Qed.

Lemma simple_transition_moved id s (src : list ChargeState) fc st :
  (forall c, state c ∈ src -> allowed (state c) (state (fc c)) = true /\ terminal (state c) = false
     /\ state (fc c) <> RECONCILED /\ held (fc c) = held c /\ same_identity c (fc c)
     /\ actual_nusd (fc c) = actual_nusd c) ->
  let out := _simple_transition id s src fc st in
  (exists e, out = (st, Err e)) \/
  (exists c, state c ∈ src /\ moved st s id c (fc c) out.1 /\ out.2 = Ok (fc c)).
Proof.
  intros Hfc. unfold _simple_transition.
  destruct (_scope id s); [|by left; eauto]. cbn. unfold committed.
  destruct (commit_three _ _ _ _ _ _ _ _) as [st'|] eqn:Hc; [|by left; eauto]. right.
  destruct (plain_moved _ _ id _ _ src _ Hc) as (c & Hwc & Hmv); eauto with cogentrex.
  { intros c Hwc. apply andb_true_iff in Hwc as [[_ ?]%filters_spec Hs]. bool_to_prop. done. }
  exists c. apply andb_true_iff in Hwc as [_ Hs]. bool_to_prop. split_and!; [done..|].
  destruct Hmv as [_ _ _ _ _ (? & ? & ? & ? & _ & _ & _ & _ & _ & ->)]. cbn.
  unfold persisted. cbn. by rewrite lookup_insert_eq.
Qed.

Ltac solve_transition :=
  let c := fresh "c" in let Hs := fresh "Hs" in
  intros c Hs; repeat (apply elem_of_cons in Hs as [Hs|Hs]; [|]); try (by apply elem_of_nil in Hs);
  rewrite Hs; unfold held, same_identity; cbn; rewrite ?Hs; auto 10.

Lemma dispatch_moved now id s st :
  let out := mark_dispatched now id s st in
  (exists e, out = (st, Err e)) \/
  (exists c c', state c = RESERVED /\ state c' = DISPATCHED /\ moved st s id c c' out.1 /\ out.2 = Ok c').
Proof.
  destruct (simple_transition_moved id s [RESERVED]
    (fun c => c <| dispatched_at := Some now |> <| state := DISPATCHED |> <| updated_at := now |>) st)
    as [?|(c & Hs & Hm & Ho)]; [solve_transition|by left|right].
  apply list_elem_of_singleton in Hs. exists c. eexists. split_and!; [done| |exact Hm|exact Ho]. done.
Qed.

Lemma indeterminate_moved now id s reason st :
  let out := mark_indeterminate now id s reason st in
  (exists e, out = (st, Err e)) \/
  (exists c c', terminal (state c) = false /\ state c' = INDETERMINATE /\ moved st s id c c' out.1 /\ out.2 = Ok c').
Proof.
  unfold mark_indeterminate. destruct (_id reason 64) as [reason'|]; [|by left; eauto].
  destruct (simple_transition_moved id s [RESERVED; DISPATCHED]
    (fun c => c <| reason_code := Some reason' |> <| state := INDETERMINATE |> <| updated_at := now |>) st)
    as [?|(c & Hs & Hm & Ho)]; [solve_transition|by left|right].
  exists c. eexists. split_and!; [| |exact Hm|exact Ho]; [|done].
  repeat (apply elem_of_cons in Hs as [->|Hs]; [done|]). by apply elem_of_nil in Hs.
Qed.

(** The quote of a settling update is the quote of the row it hits, whatever was
    read before. *)
Lemma commit_three_quote s st q fp fr id src P fc st' wp wr :
  commit_three s st wp fp wr fr (fun k c => charge_holds id s src q k c && P c) fc = Some st' ->
  pins wp (sc_owner s, sc_project s) -> pins wr (sc_run s) -> ledger_ok st -> 0 <= q.
Proof.
  intros Hc Hp Hr Hok.
  apply (commit_three_inv _ _ _ _ _ _ _ _ _ id) in Hc as (_ & _ & c & _ & _ & _ & _ & HC & HCt & _);
    [|eauto with cogentrex..].
  apply andb_true_iff in HCt as [(_ & _ & _ & <-)%charge_holds_spec _].
  by apply (ok_charges _ Hok) in HC as [[? ?] _].
Qed.

(** A transaction that settles a charge: the hold of [q] leaves both reserved
    columns and [spent] of it joins the spent ones. *)
Lemma settle_moved st s id q spent src tgt fp fr fc P st' :
  commit_three s st (holds_project s q) fp (holds_run s q) fr
    (fun k c => charge_holds id s src q k c && P c) fc = Some st' ->
  allowed src tgt = true -> (tgt = RECONCILED \/ tgt = RELEASED) ->
  (tgt = RELEASED -> spent = 0) -> 0 <= spent <= q ->
  (forall p, limit_nusd (fp p) = limit_nusd p /\ project_reserved_nusd (fp p) = project_reserved_nusd p - q
     /\ spent_nusd (fp p) = spent_nusd p + spent) ->
  (forall r, budget_limit_nusd (fr r) = budget_limit_nusd r /\ user_id (fr r) = user_id r
     /\ run_project_id (fr r) = run_project_id r /\ budget_opened_at (fr r) = budget_opened_at r
     /\ budget_reserved_nusd (fr r) = budget_reserved_nusd r - q
     /\ budget_spent_nusd (fr r) = budget_spent_nusd r + spent) ->
  (forall c, state (fc c) = tgt /\ same_identity c (fc c)
     /\ actual_nusd (fc c) = if bool_decide (tgt = RECONCILED) then Some spent else actual_nusd c) ->
  exists c, state c = src /\ reserved_nusd c = q /\ P c = true /\ moved st s id c (fc c) st'.
Proof.
  intros Hc Hal Htgt Hrel Hsp Hfp Hfr Hfc.
  apply (commit_three_inv _ _ _ _ _ _ _ _ _ id) in Hc as (p & r & c & HP & _ & HR & HRt & HC & HCt & ->);
    [|eauto with cogentrex..].
  apply andb_true_iff in HCt as [(_ & Hin & Hst & Hq)%charge_holds_spec HPc].
  apply holds_run_spec in HRt as [HRt _].
  destruct (Hfc c) as (Hst' & Hid & Hact). destruct (Hfp p) as (? & ? & ?).
  destruct (Hfr r) as (? & ? & ? & ? & ? & ?).
  assert (held (fc c) - held c = - q /\ paid (fc c) - paid c = spent) as [Hh Hp].
  { unfold held, paid. rewrite Hst, Hst', Hact, Hq.
    destruct Htgt as [-> | ->]; destruct src; try done; rewrite ?bool_decide_eq_true_2 by done;
      try change (default 0 (Some spent)) with spent; [lia|]. rewrite Hrel by done. lia. }
  exists c. split_and!; [done..|]. constructor; auto.
  - by rewrite Hst, Hst'.
  - rewrite Hst', Hact. destruct Htgt as [-> | ->]; cbn; [|done]. exists spent. split; [done|lia].
  - exists p, (fp p), r, (fr r). split_and!; auto; repeat split; lia || auto.
Qed.

Lemma holds_true id s src q k c : charge_holds id s src q k c && true = charge_holds id s src q k c.
Proof. apply andb_true_r. Qed.

Lemma commit_three_ext s st wp fp wr fr wc wc' fc :
  (forall k c, wc k c = wc' k c) -> commit_three s st wp fp wr fr wc fc = commit_three s st wp fp wr fr wc' fc.
Proof.
  intros Hext. unfold commit_three.
  assert (rowcount wc (charges st) = rowcount wc' (charges st)) as ->.
  { unfold rowcount. f_equal. apply map_filter_ext. intros k c _. cbn. by rewrite Hext. }
  assert (update_where wc fc (charges st) = update_where wc' fc (charges st)) as ->; [|done].
  apply map_eq. intros k. rewrite !lookup_update_where. destruct (charges st !! k); cbn; by rewrite ?Hext.
Qed.

Ltac solve_settle := intros; unfold same_identity; cbn; repeat split; auto; lia.

Lemma release_moved now id s reason seen st :
  ledger_ok st ->
  let out := _release_at now id s reason seen st in
  (exists e, out = (st, Err e)) \/
  (exists c c', state c = RESERVED /\ state c' = RELEASED /\ moved st s id c c' out.1 /\ out.2 = Ok c').
Proof.
  intros Hok. unfold _release_at. destruct (_scope id s); [|by left; eauto].
  destruct (scalar _ (charges seen)) as [[k charge]|] eqn:Hsc; [|by left; eauto].
  unfold committed.
  rewrite (commit_three_ext _ _ _ _ _ _ _
    (fun k c => charge_holds id s RESERVED (reserved_nusd charge) k c && true))
    by (intros; by rewrite andb_true_r).
  destruct (commit_three _ _ _ _ _ _ _ _) as [st'|] eqn:Hc; [|by left; eauto]. right.
  pose proof (commit_three_quote _ _ _ _ _ _ _ _ _ _ _ _ Hc ltac:(eauto with cogentrex) ltac:(eauto with cogentrex) Hok).
  eapply (settle_moved _ _ id (reserved_nusd charge) 0 RESERVED RELEASED _ _ _ (fun _ => true)) in Hc
    as (c & Hst & Hq & _ & Hmv); [|done|by right|done|lia|solve_settle..].
  exists c. eexists. split_and!; [done| |exact Hmv|]; [done|].
  destruct Hmv as [_ _ _ _ _ (? & ? & ? & ? & _ & _ & _ & _ & _ & ->)].
  unfold persisted. cbn. by rewrite lookup_insert_eq.
Qed.

Lemma price_charge_inv charge u p m a : price_charge charge u = Ok (p, m, a) ->
  price_model_usage_nusd m p (u_input u) (u_output u) (u_read u) (u_write u) = Ok a
  /\ validated_pricing_pair m p = Ok (p, m).
Proof.
  unfold price_charge. intros Hp.
  destruct (match u_provider u with Some p => Some p | None => provider charge end) as [p0|]; [|done].
  destruct (match u_model u with Some m => Some m | None => model charge end) as [m0|]; [|done].
  inv_result. simplify_eq. split; [done|].
  match goal with H : validated_pricing_pair _ _ = Ok _ |- _ =>
    pose proof (validated_inv _ _ _ _ H) as [-> _]; by apply validated_canonical in H end.
Qed.

Lemma reconcile_moved now id s u seen st :
  let out := reconcile_at now id s u seen st in
  (exists e, out = (st, Err e)) \/
  (exists c c', state c = DISPATCHED /\ state c' = INDETERMINATE /\ moved st s id c c' out.1
     /\ out.2 = Err QuoteExceeded) \/
  (exists c c', state c = DISPATCHED /\ state c' = RECONCILED /\ moved st s id c c' out.1 /\ out.2 = Ok c').
Proof.
  unfold reconcile_at. destruct (validate_usage id s u); [|by left; eauto].
  destruct (scalar _ (charges seen)) as [[k charge]|]; [|by left; eauto].
  destruct (negb _); [by left; eauto|].
  destruct (price_charge charge u) as [[[p' m'] actual]|] eqn:Hpr; [|by left; eauto].
  apply price_charge_inv in Hpr as [(_ & _ & _ & _ & _ & Hact & _)%price_inv Hcanon].
  destruct (reserved_nusd charge <? actual) eqn:Hq; bool_to_prop.
  - destruct (commit_three _ _ _ _ _ _ _ _) as [st'|] eqn:Hc; [|by left; eauto]. right. left.
    destruct (plain_moved _ _ id _ _ [DISPATCHED] _ Hc) as (c & Hwc & Hmv); [eauto with cogentrex|..].
    + intros c Hwc. apply andb_true_iff in Hwc as [[_ ?]%filters_spec Hs]. bool_to_prop.
      split; [done|]. by apply list_elem_of_singleton.
    + solve_transition.
    + apply andb_true_iff in Hwc as [_ Hs]. bool_to_prop.
      exists c. eexists. split_and!; [done| |exact Hmv|done]. done.
  - unfold committed.
    rewrite (commit_three_ext _ _ _ _ _ _ _
      (fun k c => charge_holds id s DISPATCHED (reserved_nusd charge) k c && true))
      by (intros; by rewrite andb_true_r).
    destruct (commit_three _ _ _ _ _ _ _ _) as [st'|] eqn:Hc; [|by left; eauto]. do 2 right.
    eapply (settle_moved _ _ id (reserved_nusd charge) actual DISPATCHED RECONCILED _ _ _ (fun _ => true)) in Hc
      as (c & Hst & Hrq & _ & Hmv); [|done|by left|done|lia|solve_settle..].
    exists c. eexists. split_and!; [done| |exact Hmv|]; [done|].
    destruct Hmv as [_ _ _ _ _ (? & ? & ? & ? & _ & _ & _ & _ & _ & ->)].
    unfold persisted. cbn. by rewrite lookup_insert_eq.
Qed.

Lemma recover_moved now cutoff id seen st :
  ledger_ok st ->
  let out := recover_one now cutoff id seen st in
  (out.1 = st /\ out.2 <> Recovered) \/
  (exists c c', stale cutoff c = true /\ state c = (if bool_decide (state seen = RESERVED) then RESERVED else DISPATCHED)
     /\ state c' = (if bool_decide (state seen = RESERVED) then RELEASED else INDETERMINATE)
     /\ moved st (scope_of seen) id c c' out.1 /\ out.2 = Recovered).
Proof.
  intros Hok. unfold recover_one. case_bool_decide as Hseen.
  - destruct (commit_three _ _ _ _ _ _ _ _) as [st'|] eqn:Hc; [right|left; by destruct (Nat.eqb _ 0)].
    pose proof (commit_three_quote _ _ _ _ _ _ _ _ _ _ _ _ Hc ltac:(eauto with cogentrex) ltac:(eauto with cogentrex) Hok).
    eapply (settle_moved _ _ id (reserved_nusd seen) 0 RESERVED RELEASED _ _ _
      (fun c => updated_at c <? cutoff)) in Hc
      as (c & Hst & Hq & Hup & Hmv); [|done|by right|done|lia|solve_settle..].
    exists c. eexists. split_and!; [|done| |exact Hmv|done]; [|done].
    unfold stale, is_active. rewrite Hst, Hup. done.
  - destruct (commit_three _ _ _ _ _ _ _ _) as [st'|] eqn:Hc; [right|left; by destruct (Nat.eqb _ 0)].
    destruct (plain_moved _ _ id _ _ [DISPATCHED] _ Hc) as (c & Hwc & Hmv); [eauto with cogentrex|..].
    + intros c Hwc. bool_to_prop. apply filters_spec in H as [_ ?].
      split; [done|]. by apply list_elem_of_singleton.
    + solve_transition.
    + bool_to_prop. exists c. eexists. split_and!; [|done| |exact Hmv|done]; [|done].
      unfold stale, is_active. rewrite H1, (proj2 (Z.ltb_lt _ _) H0). done.
Qed.

(** *** Reservation *)

Lemma violates_unique_false id s ord st : violates_unique id s ord st = false ->
  charges st !! id = None
  /\ forall k c, charges st !! k = Some c -> run_id c = sc_run s -> ordinal c <> ord.
Proof.
  unfold violates_unique. intros Hv. bool_to_prop. split; [by apply eq_None_not_Some|].
  apply Nat.eqb_eq in H0. intros k c Hk Hr Ho.
  unfold rowcount in H0. apply map_size_empty_inv in H0.
  apply (f_equal (.!! k)) in H0. rewrite lookup_empty, map_lookup_filter_None in H0.
  destruct H0 as [H0|H0]; [congruence|]. apply (H0 _ Hk). cbn. by apply bool_decide_eq_true.
Qed.

Lemma validate_reserve_ok id s ord quote prov mdl p m :
  validate_reserve id s ord quote prov mdl = Ok (p, m) ->
  0 <= ord <= MAX_INT32 /\ 0 <= quote <= MAX_BIGINT /\ validated_pricing_pair m p = Ok (p, m) /\ m = mdl.
Proof.
  unfold validate_reserve, _amount. intros Hv. inv_result.
  destruct (in_bigint quote) eqn:?; [|done]. inv_result. bool_to_prop.
  match goal with H : _id mdl _ = Ok _ |- _ => unfold _id in H; destruct (_ || _) in H; [done|] end.
  inv_result.
  match goal with H : validated_pricing_pair _ _ = Ok _ |- _ =>
    pose proof (validated_inv _ _ _ _ H) as [-> _]; apply validated_canonical in H end.
  done.
Qed.

Lemma reserve_effect now id s ord quote prov mdl seen reread st :
  let out := reserve_call_at now id s ord quote prov mdl seen reread st in
  (out.1 = st /\ (forall res, out.2 = Ok res -> should_dispatch res = false)) \/
  (exists p r family,
    validate_reserve id s ord quote prov mdl = Ok (family, mdl) /\
    projects st !! (sc_owner s, sc_project s) = Some p /\ fits_project s quote (sc_owner s, sc_project s) p = true /\
    runs st !! sc_run s = Some r /\ fits_run s quote (sc_run s) r = true /\
    charges st !! id = None /\
    (forall k c, charges st !! k = Some c -> run_id c = sc_run s -> ordinal c <> ord) /\
    out.1 = mkLedger
      (<[(sc_owner s, sc_project s) :=
           p <| project_reserved_nusd := project_reserved_nusd p + quote |> <| project_updated_at := now |>]> (projects st))
      (<[sc_run s := r <| budget_reserved_nusd := budget_reserved_nusd r + quote |>]> (runs st))
      (<[id := new_charge now s ord quote family mdl]> (charges st)) /\
    out.2 = Ok (mkReservation id RESERVED true quote)).
Proof.
  assert (forall m, (forall res, duplicate_or id s ord m reread = Ok res -> should_dispatch res = false)) as Hdup.
  { unfold duplicate_or. intros m res. destruct (_duplicate _ _ _ _) as [[[k c]|]|]; intros; by inv_result. }
  unfold reserve_call_at.
  destruct (validate_reserve id s ord quote prov mdl) as [[family mdl']|] eqn:Hv; [|left; split; [done|by intros]].
  destruct (_duplicate id s ord seen) as [[[k c]|]|]; cbn [fst snd];
    [left; split; [done|by intros ? [= <-]] | |left; split; [done|by intros]].
  unfold one. destruct (Nat.eqb (rowcount (fits_project s quote) _) 1) eqn:Hp; cbn [negb]; [|left; split; [done|apply Hdup]].
  destruct (Nat.eqb (rowcount (fits_run s quote) _) 1) eqn:Hr; cbn [negb]; [|left; split; [done|apply Hdup]].
  destruct (violates_unique id s ord st) eqn:Hu; [left; split; [done|apply Hdup]|]. right.
  apply Nat.eqb_eq in Hp, Hr.
  destruct (pinned_hit _ (fun p => p <| project_reserved_nusd := project_reserved_nusd p + quote |> <| project_updated_at := now |>)
    _ _ (pins_fits_project s quote) Hp) as (p & HP & HPt & ->).
  destruct (pinned_hit _ (fun r => r <| budget_reserved_nusd := budget_reserved_nusd r + quote |>)
    _ _ (pins_fits_run s quote) Hr) as (r & HR & HRt & ->).
  apply violates_unique_false in Hu as [Hnone Huni].
  pose proof (validate_reserve_ok _ _ _ _ _ _ _ _ Hv) as (_ & _ & _ & ->).
  exists p, r, family. by split_and!.
Qed.

Lemma total_project_insert key g m id c : m !! id = None ->
  map_sum (of_project key g) (<[id := c]> m)
  = map_sum (of_project key g) m + (if bool_decide ((owner_id c, project_id c) = key) then g c else 0).
Proof. intros Hm. rewrite map_sum_insert by done. unfold of_project. case_bool_decide; lia. Qed.

Lemma total_run_insert rid g m id c : m !! id = None ->
  map_sum (of_run rid g) (<[id := c]> m)
  = map_sum (of_run rid g) m + (if bool_decide (run_id c = rid) then g c else 0).
Proof. intros Hm. rewrite map_sum_insert by done. unfold of_run. case_bool_decide; lia. Qed.

Lemma reserve_ok now id s ord quote prov mdl seen reread st :
  ledger_ok st -> ledger_ok (reserve_call_at now id s ord quote prov mdl seen reread st).1.
Proof.
  intros Hok. pose proof (reserve_effect now id s ord quote prov mdl seen reread st) as He.
  cbv zeta in He. destruct He as [[-> _]|(p & r & family & Hv & HP & HPt & HR & HRt & Hnone & Huni & -> & _)]; [done|].
  apply validate_reserve_ok in Hv as (_ & Hq & _).
  unfold fits_project, fits_run in *. bool_to_prop.
  match goal with H : run_is _ _ _ = true |- _ => apply run_is_spec in H as (_ & Hu & Hpj) end.
  destruct Hok as [Hproj Hrun Hch Hsc Hun].
  constructor; cbn.
  - intros key q Hkey. unfold project_ok, project_total. cbn. rewrite !total_project_insert by done. cbn.
    destruct (decide ((sc_owner s, sc_project s) = key)) as [<-|Hne].
    + rewrite lookup_insert_eq in Hkey. simplify_eq. destruct (Hproj _ _ HP) as (E1 & E2 & E3).
      unfold project_total in *. rewrite bool_decide_eq_true_2 by done. cbn. lia.
    + rewrite lookup_insert_ne in Hkey by done. destruct (Hproj _ _ Hkey) as (E1 & E2 & E3).
      unfold project_total in *. rewrite bool_decide_eq_false_2 by done. lia.
  - intros id' q Hid. unfold run_ok, run_total. cbn. rewrite !total_run_insert by done. cbn.
    destruct (decide (sc_run s = id')) as [<-|Hne].
    + rewrite lookup_insert_eq in Hid. simplify_eq. destruct (Hrun _ _ HR) as (E1 & E2 & E3 & E4).
      unfold run_total in *. rewrite bool_decide_eq_true_2 by done. cbn. split_and!; try lia. done.
    + rewrite lookup_insert_ne in Hid by done. destruct (Hrun _ _ Hid) as (E1 & E2 & E3 & E4).
      unfold run_total in *. rewrite bool_decide_eq_false_2 by done. split_and!; try lia.
      intros Hn k c [[<- <-]|[? ?]]%lookup_insert_Some; [done|eauto].
  - intros k c [[<- <-]|[? ?]]%lookup_insert_Some; [|eauto]. split; done.
  - assert (forall o j q, <[sc_run s := r <| budget_reserved_nusd := budget_reserved_nusd r + quote |>]> (runs st) !! j = Some q ->
      (forall q', runs st !! j = Some q' -> user_id q' = o.1 /\ run_project_id q' = o.2) ->
      user_id q = o.1 /\ run_project_id q = o.2) as Hset.
    { intros o j q [[<- <-]|[? ?]]%lookup_insert_Some Hold; [apply (Hold _ HR)|eauto]. }
    intros k c [[<- <-]|[? Hk]]%lookup_insert_Some.
    + split; [by rewrite lookup_insert_eq|]. intros q Hq'.
      apply (Hset (sc_owner s, sc_project s) _ _ Hq'). intros q' Hq''. cbn in *. by simplify_eq.
    + destruct (Hsc _ _ Hk) as [Hs Hs']. split; [apply lookup_insert_is_Some'; by right|].
      intros q Hq'. apply (Hset (owner_id c, project_id c) _ _ Hq'). done.
  - intros k1 c1 k2 c2 [[<- <-]|[? H1']]%lookup_insert_Some [[<- <-]|[? H2']]%lookup_insert_Some Hr' Ho'; cbn in *;
      [done|exfalso; by apply (Huni _ _ H2')|exfalso; by apply (Huni _ _ H1')|eauto].
Qed.

(** *** Opening runs, run rows *)

(** The transaction adds an empty project account at most, and sets the limit of a
    run that was not open. *)
Lemma open_run_effect now s rl pl st :
  let out := open_run_tx now s rl pl st in
  out.1 = st \/
  (exists p, (projects st !! (sc_owner s, sc_project s) = Some p \/
              (projects st !! (sc_owner s, sc_project s) = None /\ p = mkProject pl 0 0 now)) /\
    limit_nusd p = pl /\
    ((out.1 = mkLedger (<[(sc_owner s, sc_project s) := p]> (projects st)) (runs st) (charges st)) \/
     (exists r, runs st !! sc_run s = Some r /\ run_is s (sc_run s) r = true /\ budget_opened_at r = None /\
       out.1 = mkLedger (<[(sc_owner s, sc_project s) := p]> (projects st))
         (<[sc_run s := r <| budget_limit_nusd := rl |> <| budget_opened_at := Some now |>]> (runs st)) (charges st)))).
Proof.
  unfold open_run_tx. set (key := (sc_owner s, sc_project s)).
  set (projects1 := match projects st !! key with Some _ => projects st | None => _ end).
  destruct (projects1 !! key) as [p|] eqn:Hp; [|by left].
  destruct (negb (limit_nusd p =? pl)) eqn:Hpl; [by left|]. bool_to_prop.
  assert (projects1 = <[key := p]> (projects st) /\
    (projects st !! key = Some p \/ (projects st !! key = None /\ p = mkProject pl 0 0 now))) as [-> Hor].
  { subst projects1. destruct (projects st !! key) eqn:E.
    - rewrite E in Hp. injection Hp as ->. split; [by rewrite insert_id|by left].
    - rewrite lookup_insert_eq in Hp. injection Hp as <-. split; [done|by right]. }
  set (un := fun k r => run_is s k r && bool_decide (budget_opened_at r = None)).
  assert (pins un (sc_run s)) as Hpin by apply pins_run_and.
  unfold one. destruct (Nat.eqb (rowcount un (runs st)) 1) eqn:Hone; cbn [fst snd].
  - right. exists p. split_and!; [done..|]. right. apply Nat.eqb_eq in Hone.
    destruct (pinned_hit _ (fun r => r <| budget_limit_nusd := rl |> <| budget_opened_at := Some now |>) _ _ Hpin Hone)
      as (r & HR & HRt & ->). subst un. cbn in HRt. bool_to_prop. exists r. by split_and!.
  - destruct (scalar (run_is s) (runs st)) as [[k r]|] eqn:Hsc; [|by left].
    destruct (budget_opened_at r) eqn:Hop; [|by left].
    destruct (budget_limit_nusd r =? rl); [|by left].
    right. exists p. split_and!; [done..|]. left. cbn. f_equal.
    apply scalar_Some in Hsc as [HR HRt]. assert (k = sc_run s) as -> by (by apply run_is_spec in HRt as [-> _]).
    rewrite (update_where_pinned _ _ _ _ Hpin), HR. subst un. cbn. by rewrite HRt, Hop.
Qed.

Lemma open_run_state now s rl pl st :
  (open_run now s rl pl st).1 = st \/
  (in_bigint rl = true /\ in_bigint pl = true /\ (open_run now s rl pl st).1 = (open_run_tx now s rl pl st).1).
Proof.
  unfold open_run. destruct (_ ← _run_scope s; _) eqn:Hv; [|by left].
  right. unfold _amount in Hv. inv_result.
  destruct (in_bigint rl); [|done]. destruct (in_bigint pl); [|done].
  split_and!; [done..|]. by destruct (open_run_tx now s rl pl st) as [st' [[]|]].
Qed.

(** Charges see the same accounts after an empty project account appears. *)
Lemma ok_add_project st key p :
  ledger_ok st -> 0 <= limit_nusd p <= MAX_BIGINT ->
  (projects st !! key = Some p \/ (projects st !! key = None /\ spent_nusd p = 0 /\ project_reserved_nusd p = 0)) ->
  ledger_ok (mkLedger (<[key := p]> (projects st)) (runs st) (charges st)).
Proof.
  intros Hok Hlim [Hp|(Hnone & Hs & Hr)].
  { rewrite insert_id by done. by destruct st. }
  destruct Hok as [Hproj Hrun Hch Hsc Hun]. constructor; auto; cbn.
  - intros key' q [[<- <-]|[? Hq]]%lookup_insert_Some; [|by apply Hproj in Hq].
    assert (forall g, project_total key g st = 0) as Hz.
    { intros g. apply map_sum_zero. intros k c Hk. unfold of_project. case_bool_decide as E; [|done].
      destruct (Hsc _ _ Hk) as [[? Hx] _]. congruence. }
    unfold project_ok, project_total in *. cbn in *. rewrite !Hz. lia.
  - intros k c Hk. destruct (Hsc _ _ Hk) as [? ?]. split; [apply lookup_insert_is_Some'; by right|done].
Qed.

Lemma open_run_ok now s rl pl st : ledger_ok st -> ledger_ok (open_run now s rl pl st).1.
Proof.
  intros Hok. destruct (open_run_state now s rl pl st) as [->|(Hrl & Hpl & ->)]; [done|]. bool_to_prop.
  destruct (open_run_effect now s rl pl st) as [->|(p & Hor & Hlim & Hst)]; [done|].
  assert (ledger_ok (mkLedger (<[(sc_owner s, sc_project s) := p]> (projects st)) (runs st) (charges st))) as Hok'.
  { apply ok_add_project; [done|lia|]. destruct Hor as [?|[? ->]]; auto. }
  destruct Hst as [->|(r & HR & Hris & Hop & ->)]; [done|]. clear Hok.
  destruct Hok' as [Hproj Hrun Hch Hsc Hun]. cbn in *. constructor; auto; cbn.
  - intros id q [[<- <-]|[? Hq]]%lookup_insert_Some; [|by apply Hrun in Hq].
    destruct (Hrun _ _ HR) as (E1 & E2 & _ & E4). specialize (E4 Hop).
    assert (forall g, run_total (sc_run s) g st = 0) as Hz.
    { intros g. apply map_sum_zero. intros k c Hk. unfold of_run. case_bool_decide as E; [|done].
      by apply E4 in Hk. }
    unfold run_ok, run_total in *. cbn in *. rewrite E1, E2, !Hz. split_and!; [lia..|done].
  - intros k c Hk. destruct (Hsc _ _ Hk) as [? Hu]. split; [done|].
    intros q [[E <-]|[? Hq]]%lookup_insert_Some; [|eauto]. cbn. apply Hu. by rewrite <- E.
Qed.

Lemma ensure_run_ok s st : (forall k c, charges st !! k = Some c -> run_id c <> sc_run s) ->
  ledger_ok st -> ledger_ok (ensure_run s st).
Proof.
  intros Hfresh Hok. unfold ensure_run. destruct (runs st !! sc_run s) eqn:HR; [done|].
  destruct Hok as [Hproj Hrun Hch Hsc Hun]. constructor; auto; cbn.
  - intros id q [[<- <-]|[? Hq]]%lookup_insert_Some; [|by apply Hrun in Hq].
    assert (forall g, run_total (sc_run s) g st = 0) as Hz.
    { intros g. apply map_sum_zero. intros k c Hk. unfold of_run. case_bool_decide as E; [|done].
      by apply Hfresh in Hk. }
    unfold run_ok, run_total in *. cbn in *. rewrite !Hz. split_and!; done || lia.
  - intros k c Hk. destruct (Hsc _ _ Hk) as [? Hu]. split; [done|].
    intros q [[E <-]|[? Hq]]%lookup_insert_Some; [|eauto]. by apply Hfresh in Hk.
Qed.

Lemma delete_runs_ok eligible st : ledger_ok st -> ledger_ok (delete_runs eligible st).
Proof.
  intros [Hproj Hrun Hch Hsc Hun]. constructor; auto; cbn.
  - intros id q [Hq _]%map_lookup_filter_Some. by apply Hrun in Hq.
  - intros k c Hk. destruct (Hsc _ _ Hk) as [? Hu]. split; [done|].
    intros q [Hq _]%map_lookup_filter_Some. eauto.
Qed.


Lemma step_ok st st' : ledger_ok st -> step st st' -> ledger_ok st'.
Proof.
  intros Hok Hstep. destruct Hstep.
  - by apply open_run_ok.
  - by apply reserve_ok.
  - destruct (dispatch_moved now id s st) as [[e ->]|(c & c' & _ & _ & Hm & _)]; eauto using moved_ok.
  - destruct (indeterminate_moved now id s reason st) as [[e ->]|(c & c' & _ & _ & Hm & _)]; eauto using moved_ok.
  - destruct (release_moved now id s reason seen st Hok) as [[e ->]|(c & c' & _ & _ & Hm & _)]; eauto using moved_ok.
  - destruct (reconcile_moved now id s u seen st) as [[e ->]|[(c & c' & _ & _ & Hm & _)|(c & c' & _ & _ & Hm & _)]];
      eauto using moved_ok.
  - destruct (recover_moved now cutoff id seen st Hok) as [[-> _]|(c & c' & _ & _ & _ & Hm & _)]; eauto using moved_ok.
  - by apply ensure_run_ok.
  - by apply delete_runs_ok.
Qed.

Lemma empty_ok : ledger_ok empty_ledger.
Proof. constructor; cbn; intros *; by rewrite lookup_empty. Qed.

Lemma steps_ok st st' : ledger_ok st -> rtc step st st' -> ledger_ok st'.
Proof. intros Hok Hs. induction Hs; eauto using step_ok. Qed.

Lemma reachable_ok st : reachable st -> ledger_ok st.
Proof. apply steps_ok, empty_ok. Qed.

#[export] Hint Resolve step_ok steps_ok reachable_ok moved_ok : cogentrex.

(** What a step does to one existing charge. *)
Lemma moved_charge st s id c c' st' k d : moved st s id c c' st' -> charges st !! k = Some d ->
  charges st' !! k = Some (if bool_decide (k = id) then c' else d) /\ (k = id -> d = c).
Proof.
  intros [Hc _ _ _ _ (? & ? & ? & ? & _ & _ & _ & _ & _ & ->)] Hk. cbn.
  case_bool_decide as E; [subst|]; [rewrite lookup_insert_eq; split; [done|congruence]|].
  by rewrite lookup_insert_ne.
Qed.

Definition charge_evolves (c c' : ModelChargeRow) : Prop :=
  c' = c \/ (same_identity c c' /\ allowed (state c) (state c') = true).

Lemma moved_evolves st s id c c' st' k d : moved st s id c c' st' -> charges st !! k = Some d ->
  exists d', charges st' !! k = Some d' /\ charge_evolves d d'.
Proof.
  intros Hm Hk. destruct (moved_charge _ _ _ _ _ _ _ _ Hm Hk) as [Hk' Hd].
  eexists. split; [exact Hk'|]. case_bool_decide; [|by left]. right. rewrite Hd by done.
  by destruct Hm.
Qed.

Lemma step_evolves st st' k c : ledger_ok st -> step st st' -> charges st !! k = Some c ->
  exists c', charges st' !! k = Some c' /\ charge_evolves c c'.
Proof.
  assert (forall st', charges st' = charges st -> charges st !! k = Some c ->
    exists c', charges st' !! k = Some c' /\ charge_evolves c c') as Hsame.
  { intros st0 -> Hk. exists c. split; [done|by left]. }
  intros Hok Hstep Hk. destruct Hstep.
  - apply Hsame; [|done]. destruct (open_run_state now s rl pl st) as [->|(_ & _ & ->)]; [done|].
    destruct (open_run_effect now s rl pl st) as [->|(p & _ & _ & [->|(r & _ & _ & _ & ->)])]; done.
  - destruct (reserve_effect now id s ord quote prov mdl seen reread st)
      as [[-> _]|(p & r & f & _ & _ & _ & _ & _ & Hn & _ & -> & _)]; [by apply Hsame|].
    cbn. exists c. rewrite lookup_insert_ne by congruence. split; [done|by left].
  - destruct (dispatch_moved now id s st) as [[e ->]|(d & d' & _ & _ & Hm & _)]; eauto using moved_evolves.
  - destruct (indeterminate_moved now id s reason st) as [[e ->]|(d & d' & _ & _ & Hm & _)]; eauto using moved_evolves.
  - destruct (release_moved now id s reason seen st Hok) as [[e ->]|(d & d' & _ & _ & Hm & _)]; eauto using moved_evolves.
  - destruct (reconcile_moved now id s u seen st) as [[e ->]|[(d & d' & _ & _ & Hm & _)|(d & d' & _ & _ & Hm & _)]];
      eauto using moved_evolves.
  - destruct (recover_moved now cutoff id seen st Hok) as [[-> _]|(d & d' & _ & _ & _ & Hm & _)]; eauto using moved_evolves.
  - apply Hsame; [|done]. unfold ensure_run. by destruct (runs st !! sc_run s).
  - by apply Hsame.
Qed.

(** Reflexive transitive closure of the charge automaton. *)
Definition reaches (a b : ChargeState) : bool :=
  bool_decide (a = b) || allowed a b || (bool_decide (a = RESERVED) && bool_decide (b = RECONCILED)).

Lemma reaches_step a b d : reaches a b = true -> allowed b d = true -> reaches a d = true.
Proof. by destruct a, b, d. Qed.

Lemma steps_evolve st st' k c : ledger_ok st -> rtc step st st' -> charges st !! k = Some c ->
  exists c', charges st' !! k = Some c' /\ same_identity c c' /\ reaches (state c) (state c') = true
    /\ (terminal (state c) = true -> c' = c).
Proof.
  intros Hok Hs Hk. induction Hs as [st1|st1 st2 st3 H12 _ IH] in c, Hok, Hk |- *.
  { exists c. split_and!; [done..| |done]. unfold reaches. by rewrite bool_decide_eq_true_2. }
  destruct (step_evolves _ _ _ _ Hok H12 Hk) as (c1 & Hk1 & He).
  destruct (IH _ (step_ok _ _ Hok H12) Hk1) as (c2 & Hk2 & Hid & Hr & Ht).
  exists c2. destruct He as [->|[Hid1 Hal]]; [done|]. split_and!; [done|by etrans| |].
  - destruct (state c), (state c1), (state c2); done.
  - by destruct (state c), (state c1).
Qed.

Lemma dup_filter_spec id s ord k c : duplicate_filter id s ord k c = true <->
  (owner_id c = sc_owner s /\ project_id c = sc_project s)
  /\ (k = id \/ (run_id c = sc_run s /\ ordinal c = ord)).
Proof. unfold duplicate_filter. by rewrite andb_true_iff, orb_true_iff, !bool_decide_eq_true. Qed.

(** A charge with the caller's id blocks the reservation, whoever owns it. *)
Lemma reserve_needs_fresh now id s ord quote prov mdl seen reread st res :
  (reserve_call_at now id s ord quote prov mdl seen reread st).2 = Ok res -> should_dispatch res = true ->
  charges st !! id = None
  /\ (forall k c, charges st !! k = Some c -> run_id c = sc_run s -> ordinal c <> ord)
  /\ charges (reserve_call_at now id s ord quote prov mdl seen reread st).1 !! id
     = Some (new_charge now s ord quote (match validate_reserve id s ord quote prov mdl with
                                         | Ok (f, _) => f | Err _ => prov end) mdl).
Proof.
  intros Hr Hd.
  destruct (reserve_effect now id s ord quote prov mdl seen reread st)
    as [[_ Hno]|(p & r & f & Hv & _ & _ & _ & _ & Hn & Hu & -> & _)].
  - by rewrite (Hno _ Hr) in Hd.
  - rewrite Hv. split_and!; [done..|]. cbn. apply lookup_insert_eq.
Qed.

Lemma held_nonneg c : charge_row_ok c -> 0 <= held c.
Proof. intros [? _]. unfold held. destruct (state c); lia. Qed.

Lemma paid_nonneg c : charge_row_ok c -> 0 <= paid c.
Proof. intros [? Ha]. unfold paid. destruct (state c); try lia. by destruct Ha as (a & -> & ? & _). Qed.

Lemma total_nonneg (g : ModelChargeRow -> Z) (P : string -> ModelChargeRow -> bool) st :
  ledger_ok st -> (forall c, charge_row_ok c -> 0 <= g c) ->
  0 <= map_sum (fun k c => if P k c then g c else 0) (charges st).
Proof.
  intros Hok Hg. apply map_sum_nonneg. intros k c Hk. destruct (P k c); [|lia].
  apply Hg. by apply (ok_charges _ Hok) in Hk.
Qed.

(** *** Operations on a charge that is there succeed *)

Lemma hold_in_project st k c p : ledger_ok st -> charges st !! k = Some c ->
  projects st !! (owner_id c, project_id c) = Some p -> held c <= project_reserved_nusd p.
Proof.
  intros Hok Hc Hp. destruct (ok_projects _ Hok _ _ Hp) as (-> & _).
  assert (held c = of_project (owner_id c, project_id c) held k c) as ->.
  { unfold of_project. by rewrite bool_decide_eq_true_2. }
  apply map_sum_elem_le; [|done]. intros k' c' Hc'. unfold of_project.
  case_bool_decide; [|lia]. apply held_nonneg. by apply (ok_charges _ Hok) in Hc'.
Qed.

Lemma hold_in_run st k c r : ledger_ok st -> charges st !! k = Some c ->
  runs st !! run_id c = Some r -> held c <= budget_reserved_nusd r.
Proof.
  intros Hok Hc Hr. destruct (ok_runs _ Hok _ _ Hr) as (-> & _).
  assert (held c = of_run (run_id c) held k c) as ->.
  { unfold of_run. by rewrite bool_decide_eq_true_2. }
  apply map_sum_elem_le; [|done]. intros k' c' Hc'. unfold of_run.
  case_bool_decide; [|lia]. apply held_nonneg. by apply (ok_charges _ Hok) in Hc'.
Qed.

(** The rows a caller's transaction needs. *)
Record in_place (st : ledger) (s : scope) (id : string) (c : ModelChargeRow)
    (p : ProjectBudgetRow) (r : RunRow) : Prop := {
  ip_charge : charges st !! id = Some c;
  ip_scope : charge_in s c = true;
  ip_project : projects st !! (sc_owner s, sc_project s) = Some p;
  ip_run : runs st !! sc_run s = Some r;
  ip_run_is : run_is s (sc_run s) r = true;
  ip_project_hold : held c <= project_reserved_nusd p;
  ip_run_hold : held c <= budget_reserved_nusd r
}.

Lemma in_place_intro st s id c : ledger_ok st -> charges st !! id = Some c -> charge_in s c = true ->
  is_Some (runs st !! sc_run s) -> exists p r, in_place st s id c p r.
Proof.
  intros Hok Hc Hin [r Hr]. pose proof Hin as (Eo & Ep & Er)%charge_in_spec.
  destruct (ok_scoped _ Hok _ _ Hc) as [[p Hp] Hu]. exists p, r. split; auto.
  - by rewrite <- Eo, <- Ep.
  - apply run_is_spec. rewrite <- Eo, <- Ep. split; [done|]. apply Hu. by rewrite Er.
  - by eapply hold_in_project.
  - eapply hold_in_run; eauto. by rewrite Er.
Qed.

Lemma simple_transition_succeeds st s id c p r (src : list ChargeState) fc :
  in_place st s id c p r -> _scope id s = Ok tt -> state c ∈ src ->
  (_simple_transition id s src fc st).2 = Ok (fc c).
Proof.
  intros [Hc Hin Hp Hr Hris _ _] Hs Hsrc. unfold _simple_transition. rewrite Hs.
  erewrite (commit_three_intro _ _ _ _ _ _ _ _ id); eauto with cogentrex.
  - cbn. unfold persisted. cbn. by rewrite lookup_insert_eq.
  - by apply bool_decide_eq_true.
  - apply andb_true_iff. split; [by apply filters_spec|by apply bool_decide_eq_true].
Qed.

Lemma settle_succeeds st s id c p r q src P fp fr fc :
  in_place st s id c p r -> state c = src -> reserved_nusd c = q -> P c = true -> terminal src = false ->
  commit_three s st (holds_project s q) fp (holds_run s q) fr
    (fun k c => charge_holds id s src q k c && P c) fc =
  Some (mkLedger (<[(sc_owner s, sc_project s) := fp p]> (projects st))
                 (<[sc_run s := fr r]> (runs st)) (<[id := fc c]> (charges st))).
Proof.
  intros [Hc Hin Hp Hr Hris Hph Hrh] Hst Hq HP Hterm.
  assert (held c = q) as Hh by (unfold held; rewrite Hst; by destruct src).
  apply (commit_three_intro _ _ _ _ _ _ _ _ id); auto with cogentrex.
  - unfold holds_project, project_is. rewrite bool_decide_eq_true_2 by done. cbn. apply Z.leb_le. lia.
  - apply holds_run_spec. split; [done|lia].
  - rewrite HP, andb_true_r. by apply charge_holds_spec.
Qed.

Lemma release_succeeds now reason st s id c p r :
  in_place st s id c p r -> _scope id s = Ok tt -> state c = RESERVED ->
  exists c', (_release_at now id s reason st st).2 = Ok c' /\ state c' = RELEASED.
Proof.
  intros Hip Hs Hst. pose proof Hip as [Hc Hin _ _ _ _ _]. unfold _release_at. rewrite Hs.
  rewrite (scalar_pinned _ _ id c);
    [|auto with cogentrex|done|apply andb_true_iff; split; [by apply filters_spec|by apply bool_decide_eq_true]].
  rewrite (commit_three_ext _ _ _ _ _ _ _
    (fun k c0 => charge_holds id s RESERVED (reserved_nusd c) k c0 && true)) by (intros; by rewrite andb_true_r).
  rewrite (settle_succeeds _ _ _ c p r _ RESERVED (fun _ => true)) by done.
  cbn. unfold persisted. cbn. rewrite lookup_insert_eq. by eexists.
Qed.

Lemma reconcile_succeeds now st s id c p r u p' m' a :
  in_place st s id c p r -> validate_usage id s u = Ok tt -> state c = DISPATCHED ->
  price_charge c u = Ok (p', m', a) -> a <= reserved_nusd c ->
  exists c', (reconcile now id s u st).2 = Ok c' /\ state c' = RECONCILED /\ actual_nusd c' = Some a.
Proof.
  intros Hip Hs Hst Hpr Ha. pose proof Hip as [Hc Hin _ _ _ _ _]. unfold reconcile, reconcile_at. rewrite Hs.
  rewrite (scalar_pinned _ _ id c); [|auto with cogentrex|done|by apply filters_spec].
  rewrite bool_decide_eq_true_2 by done. cbn [negb]. rewrite Hpr.
  rewrite (proj2 (Z.ltb_ge _ _)) by done.
  rewrite (commit_three_ext _ _ _ _ _ _ _
    (fun k c0 => charge_holds id s DISPATCHED (reserved_nusd c) k c0 && true)) by (intros; by rewrite andb_true_r).
  rewrite (settle_succeeds _ _ _ c p r _ DISPATCHED (fun _ => true)) by done.
  cbn. unfold persisted. cbn. rewrite lookup_insert_eq. by eexists.
Qed.

(** *** Recovery *)

Lemma active_dispatched (x : ChargeState) : x ∈ [RESERVED; DISPATCHED] -> x <> RESERVED -> x = DISPATCHED.
Proof. rewrite !elem_of_cons, elem_of_nil. intros [?|[?|[]]]; congruence. Qed.

Lemma recover_one_succeeds now cutoff st k c :
  ledger_ok st -> charges st !! k = Some c -> stale cutoff c = true -> is_Some (runs st !! run_id c) ->
  (recover_one now cutoff k c st).2 = Recovered.
Proof.
  intros Hok Hc Hst Hrun. unfold stale, is_active in Hst. bool_to_prop.
  destruct (in_place_intro st (scope_of c) k c) as (p & r & Hip); [done|done|by apply charge_in_spec|done|].
  unfold recover_one. case_bool_decide as Hres.
  - rewrite (settle_succeeds _ _ _ c p r _ RESERVED (fun c => updated_at c <? cutoff)); try done.
    by apply Z.ltb_lt.
  - pose proof Hip as [_ Hin Hp Hr Hris _ _].
    erewrite (commit_three_intro _ _ _ _ _ _ _ _ k); eauto with cogentrex; [by apply bool_decide_eq_true|].
    rewrite !andb_true_iff. split_and!; [by apply filters_spec| |by apply Z.ltb_lt].
    by apply bool_decide_eq_true, active_dispatched.
Qed.

(** Without its run row a stale charge stops the whole recovery. *)
Lemma recover_one_orphan now cutoff st k c :
  charges st !! k = Some c -> stale cutoff c = true -> runs st !! run_id c = None ->
  recover_one now cutoff k c st = (st, RecoverConflict).
Proof.
  intros Hc Hst Hrun. unfold stale, is_active in Hst. bool_to_prop.
  unfold recover_one, commit_three, one. case_bool_decide as Hres.
  - rewrite (rowcount_pinned (holds_run (scope_of c) _) _ _ (pins_holds_run _ _)). cbn [scope_of sc_run].
    rewrite Hrun, andb_false_r. cbn. rewrite (pinned_row _ _ k c); [done|auto with cogentrex|done|].
    rewrite andb_true_iff, charge_holds_spec, charge_in_spec. split; [done|by apply Z.ltb_lt].
  - rewrite (rowcount_pinned (run_is (scope_of c)) _ _ (pins_run _)). cbn [scope_of sc_run].
    rewrite Hrun, andb_false_r. cbn. rewrite (pinned_row _ _ k c); [done|auto with cogentrex|done|].
    rewrite !andb_true_iff. split_and!; [apply filters_spec; split; [done|by apply charge_in_spec]| |by apply Z.ltb_lt].
    by apply bool_decide_eq_true, active_dispatched.
Qed.

(** What a recovery step leaves alone. *)
Lemma moved_frame st s id c c' st' : moved st s id c c' st' ->
  (forall k, k <> id -> charges st' !! k = charges st !! k) /\ charges st' !! id = Some c'
  /\ (forall rid, is_Some (runs st' !! rid) <-> is_Some (runs st !! rid)).
Proof.
  intros [Hc _ _ _ _ (p & p' & r & r' & _ & HR & _ & _ & _ & ->)]. cbn. split_and!.
  - intros k Hk. by rewrite lookup_insert_ne.
  - apply lookup_insert_eq.
  - intros rid. rewrite lookup_insert_is_Some'. split; [intros [<-|?]; eauto|auto].
Qed.

Definition pending (cutoff : Z) (st : ledger) (cands : list (string * ModelChargeRow)) : Prop :=
  NoDup cands.*1 /\ forall k c, (k, c) ∈ cands -> charges st !! k = Some c /\ stale cutoff c = true.

Lemma recover_head now cutoff st k c cands :
  ledger_ok st -> pending cutoff st ((k, c) :: cands) -> is_Some (runs st !! run_id c) ->
  exists c' st', recover_one now cutoff k c st = (st', Recovered) /\ moved st (scope_of c) k c c' st'
    /\ terminal (state c') = true /\ pending cutoff st' cands.
Proof.
  intros Hok [Hnd Hp] Hrun. destruct (Hp k c) as [Hc Hst]; [left|].
  pose proof (recover_one_succeeds now cutoff st k c Hok Hc Hst Hrun) as Hrec.
  destruct (recover_moved now cutoff k c st Hok) as [[_ ?]|(d & c' & _ & _ & Hc' & Hmv & _)]; [done|].
  assert (d = c) as -> by (destruct Hmv; congruence).
  destruct (recover_one now cutoff k c st) as [st' out]. cbn in *. subst out.
  exists c', st'. split_and!; [done|done|rewrite Hc'; by case_bool_decide|].
  destruct (moved_frame _ _ _ _ _ _ Hmv) as (Hfr & _ & _). apply NoDup_cons in Hnd as [Hnin Hnd].
  split; [done|]. intros k1 c1 Hin. destruct (Hp k1 c1) as [Hc1 ?]; [by right|]. split; [|done].
  rewrite Hfr; [done|]. intros ->. apply Hnin. apply list_elem_of_fmap. by exists (k, c1).
Qed.

Lemma recover_loop_complete cutoff clock cands : forall count st,
  ledger_ok st -> pending cutoff st cands ->
  (forall k c, (k, c) ∈ cands -> is_Some (runs st !! run_id c)) ->
  exists st', recover_loop cutoff clock cands count st = (st', Ok (count + Z.of_nat (length cands))%Z)
    /\ ledger_ok st' /\ forall k, if bool_decide (k ∈ cands.*1)
         then exists c', charges st' !! k = Some c' /\ terminal (state c') = true
         else charges st' !! k = charges st !! k.
Proof.
  induction cands as [|[k c] cands IH]; intros count st Hok Hp Hruns; cbn.
  { exists st. rewrite Z.add_0_r. split_and!; [done|done|]. intros k. done. }
  destruct (recover_head (clock (length cands)) cutoff st k c cands Hok Hp) as (c' & st1 & -> & Hmv & Hterm & Hp1).
  { apply (Hruns k). left. }
  destruct (moved_frame _ _ _ _ _ _ Hmv) as (Hfr & Hk & Hrun).
  destruct (IH (count + 1) st1) as (st' & -> & Hok' & Hrest); [eauto with cogentrex|done| |].
  { intros k1 c1 Hin. apply Hrun, (Hruns k1). by right. }
  exists st'. split_and!; [do 2 f_equal; lia|done|]. intros k1. specialize (Hrest k1).
  destruct (decide (k1 = k)) as [->|Hne].
  - rewrite bool_decide_eq_true_2 by left. case_bool_decide; [done|]. exists c'. by rewrite Hrest.
  - rewrite (Hfr k1 Hne) in Hrest.
    rewrite (bool_decide_ext _ (k1 ∈ cands.*1)); [done|]. cbn [fmap list_fmap fst]. rewrite elem_of_cons. tauto.
Qed.

Lemma recover_loop_orphan cutoff clock cands : forall count st k c,
  ledger_ok st -> pending cutoff st cands -> (k, c) ∈ cands -> runs st !! run_id c = None ->
  (recover_loop cutoff clock cands count st).2 = Err ChargeStateConflict.
Proof.
  induction cands as [|[k1 c1] cands IH]; intros count st k c Hok Hp Hin Hno; [by apply elem_of_nil in Hin|].
  cbn. destruct (runs st !! run_id c1) eqn:Hr1.
  - destruct (recover_head (clock (length cands)) cutoff st k1 c1 cands Hok Hp) as (c' & st1 & -> & Hmv & _ & Hp1); [done|].
    destruct (moved_frame _ _ _ _ _ _ Hmv) as (_ & _ & Hrun).
    apply elem_of_cons in Hin as [Hin|Hin]; [simplify_eq|].
    eapply IH; [eauto with cogentrex|done|exact Hin|].
    apply eq_None_not_Some. rewrite Hrun, Hno. by intros [? ?].
  - destruct (proj2 Hp k1 c1) as [Hc1 Hs1]; [left|]. by rewrite recover_one_orphan.
Qed.

Lemma candidates_pending cutoff st : pending cutoff st (recover_candidates cutoff st)
  /\ forall k c, (k, c) ∈ recover_candidates cutoff st <-> charges st !! k = Some c /\ stale cutoff c = true.
Proof.
  assert (recover_candidates cutoff st ≡ₚ select_where (fun _ c => stale cutoff c) (charges st)) as Hperm
    by apply merge_sort_Permutation.
  assert (forall k c, (k, c) ∈ recover_candidates cutoff st <-> charges st !! k = Some c /\ stale cutoff c = true) as Hin.
  { intros k c. rewrite Hperm. unfold select_where. by rewrite elem_of_map_to_list, map_lookup_filter_Some. }
  split; [split|done].
  - rewrite Hperm. apply NoDup_fst_map_to_list.
  - intros k c. apply Hin.
Qed.

(** The branches of a reservation under a fresh id and ordinal. *)
Lemma reserve_branches (st : ledger) (now : Z) (id : string) (s : scope) (ord quote : Z)
    (prov mdl family : string) (p : ProjectBudgetRow) (r : RunRow) :
  validate_reserve id s ord quote prov mdl = Ok (family, mdl) ->
  projects st !! (sc_owner s, sc_project s) = Some p ->
  runs st !! sc_run s = Some r -> run_is s (sc_run s) r = true -> budget_opened_at r <> None ->
  charges st !! id = None ->
  (forall k c, charges st !! k = Some c -> ~ (run_id c = sc_run s /\ ordinal c = ord)) ->
  reserve_call now id s ord quote prov mdl st =
    if limit_nusd p - spent_nusd p - project_reserved_nusd p <? quote then (st, Err ProjectBudgetExceeded)
    else if budget_limit_nusd r - budget_spent_nusd r - budget_reserved_nusd r <? quote
    then (st, Err RunBudgetExceeded)
    else (mkLedger
            (<[(sc_owner s, sc_project s) :=
               p <| project_reserved_nusd := project_reserved_nusd p + quote |> <| project_updated_at := now |>]> (projects st))
            (<[sc_run s := r <| budget_reserved_nusd := budget_reserved_nusd r + quote |>]> (runs st))
            (<[id := new_charge now s ord quote family mdl]> (charges st)),
          Ok (mkReservation id RESERVED true quote)).
Proof.
  intros Hv Hp Hr Hris Hop Hnone Huni.
  assert (_duplicate id s ord st = Ok None) as Hdup.
  { unfold _duplicate. destruct (scalar _ _) as [[k c]|] eqn:Hs; [|done]. exfalso.
    apply scalar_Some in Hs as [Hk [_ [->|?]]%dup_filter_spec]; [congruence|by eapply Huni]. }
  assert (violates_unique id s ord st = false) as Hu.
  { unfold violates_unique. apply orb_false_iff. split.
    - apply bool_decide_eq_false. rewrite Hnone. by intros [? [=]].
    - rewrite rowcount_none; [done|]. intros k c Hk. apply bool_decide_eq_false. eauto. }
  unfold reserve_call, reserve_call_at, duplicate_or. rewrite Hv, Hdup, Hu. unfold one.
  rewrite (rowcount_pinned _ _ _ (pins_fits_project s quote)), Hp.
  rewrite (rowcount_pinned _ _ _ (pins_fits_run s quote)), Hr.
  rewrite (update_where_pinned _ _ _ _ (pins_fits_project s quote)), Hp.
  rewrite (update_where_pinned _ _ _ _ (pins_fits_run s quote)), Hr.
  unfold fits_project, fits_run, project_is. rewrite Hris.
  rewrite (bool_decide_eq_true_2 _ Hop), bool_decide_eq_true_2 by done. cbn [andb].
  rewrite !Z.leb_antisym. by repeat (case_match; cbn in *; try done).
Qed.

(** *** A run of one call, for the examples *)

Definition demo_scope : scope := mkScope "alice" "proj" "run-1".
Definition demo_usage : usage_report := mkUsage None 9 0 None None (Some "anthropic"%string) (Some "claude-haiku-3"%string).
Definition demo_open : ledger := (open_run 1 demo_scope 1000000 2000000 (ensure_run demo_scope empty_ledger)).1.
Definition demo_reserved : ledger :=
  (reserve_call 2 "c0" demo_scope 0 93750 "anthropic" "claude-haiku-3" demo_open).1.
Definition demo_dispatched : ledger := (mark_dispatched 3 "c0" demo_scope demo_reserved).1.
Definition demo_reconciled : ledger := (reconcile 4 "c0" demo_scope demo_usage demo_dispatched).1.

Lemma reach_step st st' : reachable st -> step st st' -> reachable st'.
Proof. apply rtc_r. Qed.

Lemma demo_open_reachable : reachable demo_open.
Proof.
  eapply reach_step; [|apply step_open_run]. eapply reach_step; [apply rtc_refl|].
  apply step_ensure_run. intros k c Hk. cbn in Hk. by rewrite lookup_empty in Hk.
Qed.

Lemma demo_reserved_reachable : reachable demo_reserved.
Proof. eapply reach_step; [apply demo_open_reachable|apply step_reserve]. Qed.

Lemma demo_dispatched_reachable : reachable demo_dispatched.
Proof. eapply reach_step; [apply demo_reserved_reachable|apply step_dispatch]. Qed.

Lemma demo_reconciled_reachable : reachable demo_reconciled.
Proof. eapply reach_step; [apply demo_dispatched_reachable|apply step_reconcile]. Qed.

#[export] Hint Resolve demo_open_reachable demo_reserved_reachable demo_dispatched_reachable
  demo_reconciled_reachable : cogentrex.

(** ** Properties *)

(** C8. Books balance and budgets are never exceeded: in every reachable ledger,
    whatever stale rows the transactions read, a project's and a run's reserved
    column is the sum of the quotes still held by its charges (indeterminate ones
    included), its spent column is the sum of the reconciled amounts, both are
    nonnegative, and together they stay within the limit and within BIGINT. *)
Theorem books_balance (st : ledger) : reachable st ->
  (forall key p, projects st !! key = Some p ->
     project_reserved_nusd p = project_total key held st /\ spent_nusd p = project_total key paid st
     /\ 0 <= project_reserved_nusd p /\ 0 <= spent_nusd p
     /\ spent_nusd p + project_reserved_nusd p <= limit_nusd p <= MAX_BIGINT) /\
  (forall id r, runs st !! id = Some r ->
     budget_reserved_nusd r = run_total id held st /\ budget_spent_nusd r = run_total id paid st
     /\ 0 <= budget_reserved_nusd r /\ 0 <= budget_spent_nusd r
     /\ budget_spent_nusd r + budget_reserved_nusd r <= budget_limit_nusd r <= MAX_BIGINT).
Proof.
  intros Hr%reachable_ok. split.
  - intros key p Hp. destruct (ok_projects _ Hr _ _ Hp) as (-> & -> & Hle).
    split_and!; [done|done| | |lia..]; unfold project_total, of_project;
      eapply total_nonneg; eauto using held_nonneg, paid_nonneg.
  - intros id r Hid. destruct (ok_runs _ Hr _ _ Hid) as (-> & -> & Hle & _).
    split_and!; [done|done| | |lia..]; unfold run_total, of_run;
      eapply total_nonneg; eauto using held_nonneg, paid_nonneg.
Qed.

Lemma books_balance_witness :
  exists p, projects demo_dispatched !! ("alice", "proj")%string = Some p /\
    project_reserved_nusd p = 93750 /\ 93750 = project_total ("alice", "proj")%string held demo_dispatched.
Proof.
  exists (mkProject 2000000 0 93750 2). split_and!; [vm_compute; reflexivity|reflexivity|].
  apply (proj1 (books_balance demo_dispatched demo_dispatched_reachable) _ (mkProject 2000000 0 93750 2)).
  vm_compute; reflexivity.
Defined.

(** The charge life cycle: from a reachable ledger, any further steps keep every
    charge row, never change its scope, ordinal or quote, move its state only along
    reserved, dispatched, reconciled, released and indeterminate, and leave a row in
    a terminal state exactly as it is. *)
Theorem charge_lifecycle (st st' : ledger) (k : string) (c : ModelChargeRow) :
  reachable st -> rtc step st st' -> charges st !! k = Some c ->
  exists c', charges st' !! k = Some c' /\ same_identity c c'
    /\ reaches (state c) (state c') = true /\ (terminal (state c) = true -> c' = c).
Proof. intros Hr Hs Hk. eapply steps_evolve; eauto with cogentrex. Qed.

Lemma charge_lifecycle_witness :
  exists c', charges demo_reconciled !! "c0"%string = Some c' /\ state c' = RECONCILED.
Proof.
  destruct (charge_lifecycle demo_reconciled demo_reconciled "c0"%string
    (mkCharge "alice" "proj" "run-1" 0 RECONCILED 93750 (Some 2250) (Some "anthropic"%string)
       (Some "claude-haiku-3"%string) (Some 9) (Some 0) None None None 2 4 (Some 3) (Some 4)))
    as (c' & Hc' & _ & _ & Ht).
  - apply demo_reconciled_reachable.
  - apply rtc_refl.
  - vm_compute; reflexivity.
  - exists c'. split; [exact Hc'|]. rewrite Ht by reflexivity. reflexivity.
Defined.

(** C9. A dispatch is authorised at most once: after a reservation that tells its
    caller to dispatch, no later reservation, with whatever stale reads, is told to
    dispatch under the same charge id or under the same run and ordinal. *)
Theorem dispatch_authorised_once (st : ledger) now id s ord quote prov mdl seen reread res st2
    now' id' s' ord' quote' prov' mdl' seen' reread' res' :
  reachable st ->
  (reserve_call_at now id s ord quote prov mdl seen reread st).2 = Ok res -> should_dispatch res = true ->
  rtc step (reserve_call_at now id s ord quote prov mdl seen reread st).1 st2 ->
  id' = id \/ (sc_run s' = sc_run s /\ ord' = ord) ->
  (reserve_call_at now' id' s' ord' quote' prov' mdl' seen' reread' st2).2 = Ok res' ->
  should_dispatch res' = false.
Proof.
  intros Hr H1 Hd1 Hs Hsame H2. destruct (should_dispatch res') eqn:Hd2; [|done]. exfalso.
  destruct (reserve_needs_fresh _ _ _ _ _ _ _ _ _ _ _ H1 Hd1) as (_ & _ & Hnew).
  destruct (reserve_needs_fresh _ _ _ _ _ _ _ _ _ _ _ H2 Hd2) as (Hn & Hu & _).
  destruct (steps_evolve _ _ _ _ (reserve_ok now id s ord quote prov mdl seen reread st (reachable_ok _ Hr)) Hs Hnew)
    as (c & Hc & (_ & _ & Hrun & Hord & _) & _).
  destruct Hsame as [->|[Es ->]]; [congruence|].
  apply (Hu _ _ Hc); cbn in *; congruence.
Qed.

Lemma dispatch_authorised_once_witness :
  should_dispatch (mkReservation "c0" RECONCILED false 93750) = false.
Proof.
  apply (dispatch_authorised_once demo_open 2 "c0" demo_scope 0 93750 "anthropic" "claude-haiku-3"
    demo_open demo_open (mkReservation "c0" RESERVED true 93750) demo_reconciled
    9 "c0" demo_scope 0 93750 "anthropic" "claude-haiku-3" demo_reconciled demo_reconciled).
  - apply demo_open_reachable.
  - vm_compute; reflexivity.
  - reflexivity.
  - eapply rtc_l; [apply (step_dispatch 3 "c0" demo_scope)|].
    eapply rtc_l; [apply (step_reconcile 4 "c0" demo_scope demo_usage demo_dispatched)|]. apply rtc_refl.
  - by left.
  - vm_compute; reflexivity.
Defined.

(** What a fresh reservation decides, on every branch: with valid arguments, an
    opened run in the caller's scope and no charge under the id or the ordinal, the
    call fails on the project when the project has too little left, else fails on the
    run when the run has too little left, and both failures leave the ledger as it
    was; otherwise the quote is added to both reserved columns, the charge row is
    inserted, and the caller is told to dispatch. *)
Theorem reserve_decides (st : ledger) (now : Z) (id : string) (s : scope) (ord quote : Z)
    (prov mdl family : string) (p : ProjectBudgetRow) (r : RunRow) :
  validate_reserve id s ord quote prov mdl = Ok (family, mdl) ->
  projects st !! (sc_owner s, sc_project s) = Some p ->
  runs st !! sc_run s = Some r -> run_is s (sc_run s) r = true -> budget_opened_at r <> None ->
  charges st !! id = None ->
  (forall k c, charges st !! k = Some c -> ~ (run_id c = sc_run s /\ ordinal c = ord)) ->
  reserve_call now id s ord quote prov mdl st =
    if limit_nusd p - spent_nusd p - project_reserved_nusd p <? quote then (st, Err ProjectBudgetExceeded)
    else if budget_limit_nusd r - budget_spent_nusd r - budget_reserved_nusd r <? quote
    then (st, Err RunBudgetExceeded)
    else (mkLedger
            (<[(sc_owner s, sc_project s) :=
               p <| project_reserved_nusd := project_reserved_nusd p + quote |> <| project_updated_at := now |>]> (projects st))
            (<[sc_run s := r <| budget_reserved_nusd := budget_reserved_nusd r + quote |>]> (runs st))
            (<[id := new_charge now s ord quote family mdl]> (charges st)),
          Ok (mkReservation id RESERVED true quote)).
Proof. intros. by apply reserve_branches. Qed.

Lemma reserve_decides_witness :
  reserve_call 2 "c0" demo_scope 0 1000001 "anthropic" "claude-haiku-3" demo_open
  = (demo_open, Err RunBudgetExceeded).
Proof.
  rewrite (reserve_decides demo_open 2 "c0" demo_scope 0 1000001 "anthropic" "claude-haiku-3" "anthropic"
    (mkProject 2000000 0 0 1) (mkRun "alice" "proj" 1000000 0 0 (Some 1)));
    [reflexivity|vm_compute; reflexivity..|done|vm_compute; reflexivity|].
  intros k c Hk. assert (charges demo_open = ∅) as E by (vm_compute; reflexivity).
  rewrite E, lookup_empty in Hk. discriminate Hk.
Defined.

(** A retried reservation is idempotent: reserving again under the id and ordinal
    of a charge of the same scope changes nothing, reports that charge's state and
    quote, and does not authorise a second dispatch. *)
Theorem reserve_retry_idempotent (st : ledger) (now : Z) (id : string) (s : scope) (ord quote : Z)
    (prov mdl family : string) (c : ModelChargeRow) :
  reachable st -> validate_reserve id s ord quote prov mdl = Ok (family, mdl) ->
  charges st !! id = Some c -> charge_in s c = true -> ordinal c = ord ->
  reserve_call now id s ord quote prov mdl st = (st, Ok (mkReservation id (state c) false (reserved_nusd c))).
Proof.
  intros Hok%reachable_ok Hv Hc (Eo & Ep & Er)%charge_in_spec Hord.
  unfold reserve_call, reserve_call_at. rewrite Hv. unfold _duplicate.
  destruct (scalar _ _) as [[k d]|] eqn:Hs.
  - apply scalar_Some in Hs as [Hk [_ Hor]%dup_filter_spec].
    assert (k = id) as ->.
    { destruct Hor as [->|[Hr Ho]]; [done|]. eapply ok_unique; eauto; congruence. }
    simplify_eq. rewrite bool_decide_eq_true_2 by done. done.
  - pose proof (scalar_None _ _ _ _ Hs Hc) as Hf.
    assert (duplicate_filter id s ord id c = true) as Ht; [|by rewrite Hf in Ht].
    apply dup_filter_spec. auto.
Qed.

Lemma reserve_retry_idempotent_witness :
  reserve_call 9 "c0" demo_scope 0 93750 "anthropic" "claude-haiku-3" demo_dispatched
  = (demo_dispatched, Ok (mkReservation "c0" DISPATCHED false 93750)).
Proof.
  apply (reserve_retry_idempotent demo_dispatched 9 "c0" demo_scope 0 93750 "anthropic" "claude-haiku-3" "anthropic"
    (mkCharge "alice" "proj" "run-1" 0 DISPATCHED 93750 None (Some "anthropic"%string)
       (Some "claude-haiku-3"%string) None None None None None 2 3 (Some 3) None)).
  - apply demo_dispatched_reachable.
  - vm_compute; reflexivity.
  - vm_compute; reflexivity.
  - vm_compute; reflexivity.
  - reflexivity.
Defined.

(** Held money can always be settled: in a reachable ledger, for a charge of the
    caller's scope whose run row exists, a reserved charge can be dispatched and can
    be released, and a dispatched charge whose priced usage is within its quote can be
    reconciled at exactly that price; none of these calls fails. *)
Theorem active_charge_can_settle (st : ledger) (now : Z) (id : string) (s : scope) (c : ModelChargeRow) :
  reachable st -> charges st !! id = Some c -> charge_in s c = true -> _scope id s = Ok tt ->
  is_Some (runs st !! sc_run s) ->
  (state c = RESERVED ->
     (exists c', (mark_dispatched now id s st).2 = Ok c' /\ state c' = DISPATCHED) /\
     (exists c', (release now id s st).2 = Ok c' /\ state c' = RELEASED)) /\
  (state c = DISPATCHED -> forall u p' m' a, validate_usage id s u = Ok tt ->
     price_charge c u = Ok (p', m', a) -> a <= reserved_nusd c ->
     exists c', (reconcile now id s u st).2 = Ok c' /\ state c' = RECONCILED /\ actual_nusd c' = Some a).
Proof.
  intros Hok%reachable_ok Hc Hin Hs Hr.
  destruct (in_place_intro st s id c Hok Hc Hin Hr) as (p & r & Hip). split.
  - intros Hst. split; [|by eapply release_succeeds].
    eexists. split; [unfold mark_dispatched; eapply simple_transition_succeeds; eauto|done].
    by apply list_elem_of_singleton.
  - intros Hst u p' m' a Hv Hpr Ha. by eapply reconcile_succeeds.
Qed.

Lemma active_charge_can_settle_witness :
  exists c', (reconcile 4 "c0" demo_scope demo_usage demo_dispatched).2 = Ok c'
    /\ state c' = RECONCILED /\ actual_nusd c' = Some 2250.
Proof.
  eapply (proj2 (active_charge_can_settle demo_dispatched 4 "c0" demo_scope
    (mkCharge "alice" "proj" "run-1" 0 DISPATCHED 93750 None (Some "anthropic"%string)
       (Some "claude-haiku-3"%string) None None None None None 2 3 (Some 3) None)
    demo_dispatched_reachable ltac:(vm_compute; reflexivity) ltac:(vm_compute; reflexivity)
    ltac:(vm_compute; reflexivity) ltac:(vm_compute; eexists; reflexivity))).
  - reflexivity.
  - vm_compute; reflexivity.
  - vm_compute; reflexivity.
  - vm_compute; discriminate.
Defined.

(** Recovery is complete: in a reachable ledger where every stale active charge
    still has its run row, [recover_stale] returns the number of stale charges, every
    one of them ends in a terminal state, every other charge row is untouched, and no
    reserved or dispatched charge older than the cutoff is left. *)
Theorem recover_stale_complete (st : ledger) (cutoff : Z) (clock : nat -> Z) :
  reachable st ->
  (forall k c, charges st !! k = Some c -> stale cutoff c = true -> is_Some (runs st !! run_id c)) ->
  exists st', recover_stale cutoff clock st
      = (st', Ok (Z.of_nat (rowcount (fun _ c => stale cutoff c) (charges st))))
    /\ ledger_ok st'
    /\ (forall k c, charges st !! k = Some c ->
          if stale cutoff c then exists c', charges st' !! k = Some c' /\ terminal (state c') = true
          else charges st' !! k = Some c)
    /\ (forall k c, charges st' !! k = Some c -> stale cutoff c = false).
Proof.
  intros Hok%reachable_ok Hruns. destruct (candidates_pending cutoff st) as [Hpend Hin].
  destruct (recover_loop_complete cutoff clock (recover_candidates cutoff st) 0 st Hok Hpend)
    as (st' & Heq & Hok' & Hrest).
  { intros k c [Hc Hs]%Hin. eauto. }
  assert (forall k c, charges st !! k = Some c -> (k ∈ (recover_candidates cutoff st).*1 <-> stale cutoff c = true)) as Hkeys.
  { intros k c Hc. rewrite list_elem_of_fmap. split.
    - intros ([k' c'] & -> & [Hc' Hs]%Hin). cbn in *. congruence.
    - intros Hs. exists (k, c). split; [done|]. by apply Hin. }
  exists st'. split_and!; [|done| |].
  - unfold recover_stale. rewrite Heq, Z.add_0_l. do 3 f_equal. unfold recover_candidates, rowcount.
    rewrite merge_sort_Permutation. unfold select_where. by rewrite length_map_to_list.
  - intros k c Hc. specialize (Hrest k). rewrite (bool_decide_ext _ _ (Hkeys k c Hc)) in Hrest.
    destruct (stale cutoff c); [done|]. by rewrite <- Hc.
  - intros k c Hc. specialize (Hrest k). case_bool_decide as Hk.
    + destruct Hrest as (c' & Hc' & Ht). simplify_eq. unfold stale, is_active.
      by destruct (state c').
    + rewrite Hrest in Hc. destruct (stale cutoff c) eqn:Hs; [|done]. by apply (Hkeys k c) in Hs.
Qed.

Lemma recover_stale_complete_witness :
  exists st', recover_stale 10 (fun _ => 11) demo_dispatched = (st', Ok 1) /\
    forall k c, charges st' !! k = Some c -> stale 10 c = false.
Proof.
  destruct (recover_stale_complete demo_dispatched 10 (fun _ => 11) demo_dispatched_reachable) as (st' & He & _ & _ & Hn).
  - intros k c Hk _. assert (charges demo_dispatched = {[ "c0"%string :=
      mkCharge "alice" "proj" "run-1" 0 DISPATCHED 93750 None (Some "anthropic"%string)
       (Some "claude-haiku-3"%string) None None None None None 2 3 (Some 3) None ]}) as E by (vm_compute; reflexivity).
    rewrite E in Hk. apply lookup_singleton_Some in Hk as [_ <-]. vm_compute. eexists; reflexivity.
  - exists st'. split; [rewrite He; vm_compute; reflexivity|exact Hn].
Defined.

(** C10. A stale charge whose run row was pruned blocks recovery: the call raises,
    so no candidate ordered after it is recovered. *)
Theorem recover_stale_orphan (st : ledger) (cutoff : Z) (clock : nat -> Z) (k : string) (c : ModelChargeRow) :
  reachable st -> charges st !! k = Some c -> stale cutoff c = true -> runs st !! run_id c = None ->
  (recover_stale cutoff clock st).2 = Err ChargeStateConflict.
Proof.
  intros Hok%reachable_ok Hc Hs Hr. destruct (candidates_pending cutoff st) as [Hpend Hin].
  eapply (recover_loop_orphan _ _ _ _ _ k c); eauto. by apply Hin.
Qed.

Lemma recover_stale_orphan_witness :
  (recover_stale 10 (fun _ => 11) (delete_runs (fun _ => true) demo_dispatched)).2 = Err ChargeStateConflict.
Proof.
  apply (recover_stale_orphan _ 10 (fun _ => 11) "c0"
    (mkCharge "alice" "proj" "run-1" 0 DISPATCHED 93750 None (Some "anthropic"%string)
       (Some "claude-haiku-3"%string) None None None None None 2 3 (Some 3) None)).
  - eapply reach_step; [apply demo_dispatched_reachable|apply step_delete_runs].
  - vm_compute; reflexivity.
  - vm_compute; reflexivity.
  - vm_compute; reflexivity.
Defined.

Lemma open_run_tx_eq now s rl pl st r :
  runs st !! sc_run s = Some r -> run_is s (sc_run s) r = true ->
  open_run_tx now s rl pl st =
    let key := (sc_owner s, sc_project s) in
    let p := default (mkProject pl 0 0 now) (projects st !! key) in
    let r' := if bool_decide (budget_opened_at r <> None) then r
              else r <| budget_limit_nusd := rl |> <| budget_opened_at := Some now |> in
    if negb (limit_nusd p =? pl) || negb (budget_limit_nusd r' =? rl) then (st, Err BudgetLimitConflict)
    else (mkLedger (<[key := p]> (projects st)) (<[sc_run s := r']> (runs st)) (charges st), Ok tt).
Proof.
  intros HR HRt. cbv zeta. unfold open_run_tx. set (key := (sc_owner s, sc_project s)).
  set (p := default _ _). set (projects1 := match projects st !! key with Some _ => _ | None => _ end).
  assert (projects1 = <[key := p]> (projects st)) as ->.
  { subst projects1 p. destruct (projects st !! key) eqn:E; [|done]. by rewrite insert_id. }
  rewrite lookup_insert_eq. cbv beta iota. destruct (limit_nusd p =? pl); cbn [negb orb]; [|done].
  set (un := fun k r => run_is s k r && bool_decide (budget_opened_at r = None)).
  assert (pins un (sc_run s)) as Hpin by apply pins_run_and.
  rewrite (rowcount_pinned _ _ _ Hpin), (update_where_pinned _ _ _ _ Hpin), HR.
  rewrite (scalar_pinned _ _ _ r (pins_run s) HR HRt). subst un. cbv beta. rewrite HRt. cbn [andb].
  destruct (budget_opened_at r) as [z|] eqn:Hop.
  - rewrite (bool_decide_eq_false_2 (Some z = None)), (bool_decide_eq_true_2 (Some z <> None)) by done.
    cbn. rewrite (insert_id (runs st) _ r HR).
    by destruct (budget_limit_nusd r =? rl).
  - rewrite (bool_decide_eq_true_2 (None = None)), (bool_decide_eq_false_2 (None <> None)) by tauto.
    cbn. by rewrite Z.eqb_refl.
Qed.

(** What opening a run decides, on every branch: with valid arguments and a run
    row in the caller's scope, the call is refused, and changes nothing, exactly when
    the project exists with another limit or the run was opened with another limit;
    otherwise the missing rows are opened, an opened run keeps its columns, and the
    summary is the one of the two rows. *)
Theorem open_run_decides (st : ledger) (now : Z) (s : scope) (rl pl : Z) (r : RunRow) :
  _run_scope s = Ok tt -> in_bigint rl = true -> in_bigint pl = true ->
  runs st !! sc_run s = Some r -> run_is s (sc_run s) r = true ->
  open_run now s rl pl st =
    let key := (sc_owner s, sc_project s) in
    let p := default (mkProject pl 0 0 now) (projects st !! key) in
    let opened := bool_decide (budget_opened_at r <> None) in
    let r' := if opened then r else r <| budget_limit_nusd := rl |> <| budget_opened_at := Some now |> in
    if negb (limit_nusd p =? pl) || negb (budget_limit_nusd r' =? rl) then (st, Err BudgetLimitConflict)
    else (mkLedger (<[key := p]> (projects st)) (<[sc_run s := r']> (runs st)) (charges st),
          Ok (mkSummary (limit_nusd p) (spent_nusd p) (project_reserved_nusd p)
                (budget_limit_nusd r') (budget_spent_nusd r') (budget_reserved_nusd r'))).
Proof.
  intros Hs Hrl Hpl HR HRt. cbv zeta. unfold open_run, _amount. rewrite Hs, Hrl, Hpl. cbn [mbind result_bind].
  rewrite (open_run_tx_eq _ _ _ _ _ _ HR HRt). cbv zeta.
  destruct (_ || _) eqn:Hb; [done|]. cbn [fst snd]. f_equal. unfold summary. rewrite Hs. cbn [mbind result_bind projects runs].
  rewrite !lookup_insert_eq. apply run_is_spec in HRt as (_ & Hu & Hp).
  rewrite (proj2 (run_is_spec _ _ _)); [done|]. case_bool_decide; done.
Qed.

Lemma open_run_decides_witness :
  open_run 7 demo_scope 999 2000000 demo_open = (demo_open, Err BudgetLimitConflict).
Proof.
  rewrite (open_run_decides demo_open 7 demo_scope 999 2000000 (mkRun "alice" "proj" 1000000 0 0 (Some 1)));
    vm_compute; reflexivity.
Defined.
