(* ===== verification/ChargeRepository.v ===== *)
(** * What the money ledger promises its clients

    [runtime/monetary_budget.py] sees the ledger only through the methods of
    [MonetaryBudgetRepository]. The methods are a class over the database type, and
    the laws the client's theorems rest on are a second class; the ledger of
    [MonetaryLedger] is an instance of both. *)

From Stdlib Require Import ZArith Lia String Ascii.
From stdpp Require Import base gmap strings list fin_maps relations.
From S2P Require Import Prelude Sql Durable Pricing MonetaryLedger.
Open Scope Z_scope.

(** The methods; the first argument of each is the time of the call. *)
Class ChargeRepository (DB : Type) := {
  repo_open_run : Z -> scope -> Z -> Z -> DB -> DB * result budget_error BudgetSummary;
  repo_reserve_call : Z -> string -> scope -> Z -> Z -> string -> string -> DB ->
    DB * result budget_error ChargeReservation;
  repo_mark_dispatched : Z -> string -> scope -> DB -> DB * result budget_error ModelChargeRow;
  repo_mark_indeterminate : Z -> string -> scope -> string -> DB -> DB * result budget_error ModelChargeRow;
  repo_release : Z -> string -> scope -> DB -> DB * result budget_error ModelChargeRow;
  repo_reconcile : Z -> string -> scope -> usage_report -> DB -> DB * result budget_error ModelChargeRow;
  repo_get : Z -> string -> scope -> DB -> DB * result budget_error (option ModelChargeRow);
  repo_row : DB -> string -> option ModelChargeRow
}.

(** What every method and every other client keeps. *)
Class ChargeRepositoryLaws (DB : Type) `{ChargeRepository DB} `{!Store DB} := {
  repo_later_row st st' k c : db_ok st -> db_later st st' -> repo_row st k = Some c ->
    exists c', repo_row st' k = Some c' /\ same_identity c c' /\ reaches (state c) (state c') = true
      /\ (terminal (state c) = true -> c' = c);
  repo_open_run_later now s rl pl st : db_later st (repo_open_run now s rl pl st).1;
  repo_reserve_later now id s ord q p m st : db_later st (repo_reserve_call now id s ord q p m st).1;
  repo_dispatch_later now id s st : db_later st (repo_mark_dispatched now id s st).1;
  repo_indeterminate_later now id s reason st : db_later st (repo_mark_indeterminate now id s reason st).1;
  repo_release_later now id s st : db_later st (repo_release now id s st).1;
  repo_reconcile_later now id s u st : db_later st (repo_reconcile now id s u st).1;
  repo_get_later now id s st : (repo_get now id s st).1 = st;
  (** a granted reservation is a new row *)
  repo_reserve_grants now id s ord q p m st res : db_ok st ->
    (repo_reserve_call now id s ord q p m st).2 = Ok res -> should_dispatch res = true ->
    repo_row st id = None /\
    exists c, repo_row (repo_reserve_call now id s ord q p m st).1 id = Some c
      /\ state c = RESERVED /\ reserved_nusd c = q;
  repo_dispatch_ok now id s st c : db_ok st -> (repo_mark_dispatched now id s st).2 = Ok c ->
    repo_row (repo_mark_dispatched now id s st).1 id = Some c /\ state c = DISPATCHED;
  repo_indeterminate_ok now id s reason st c : db_ok st ->
    (repo_mark_indeterminate now id s reason st).2 = Ok c ->
    repo_row (repo_mark_indeterminate now id s reason st).1 id = Some c /\ state c = INDETERMINATE;
  repo_release_ok now id s st c : db_ok st -> (repo_release now id s st).2 = Ok c ->
    repo_row (repo_release now id s st).1 id = Some c /\ state c = RELEASED;
  repo_reconcile_ok now id s u st c p m : db_ok st -> u_provider u = Some p -> u_model u = Some m ->
    (repo_reconcile now id s u st).2 = Ok c ->
    repo_row (repo_reconcile now id s u st).1 id = Some c /\ state c = RECONCILED
    /\ exists a, actual_nusd c = Some a /\ a <= reserved_nusd c
         /\ price_model_usage_nusd m p (u_input u) (u_output u) (u_read u) (u_write u) = Ok a;
  repo_get_ok now id s st c : db_ok st -> (repo_get now id s st).2 = Ok (Some c) -> repo_row st id = Some c
}.

#[export] Hint Resolve repo_open_run_later repo_reserve_later repo_dispatch_later
  repo_indeterminate_later repo_release_later repo_reconcile_later : cogentrex.

(** ** The ledger is such a repository *)

#[export] Instance ledger_repository : ChargeRepository ledger := {|
  repo_open_run := open_run;
  repo_reserve_call := reserve_call;
  repo_mark_dispatched := mark_dispatched;
  repo_mark_indeterminate := mark_indeterminate;
  repo_release := release;
  repo_reconcile := reconcile;
  repo_get := fun _ id s st => (st, option_map snd <$> get id s st);
  repo_row := fun st id => charges st !! id
|}.

Lemma moved_row st s id c c' st' : moved st s id c c' st' -> charges st' !! id = Some c'.
Proof. intros Hm. by destruct (moved_frame _ _ _ _ _ _ Hm) as (_ & ? & _). Qed.

(** A reconciled amount is the price of the reported usage. *)
Lemma reconcile_priced now id s u st c p m :
  u_provider u = Some p -> u_model u = Some m -> (reconcile now id s u st).2 = Ok c ->
  exists a, actual_nusd c = Some a /\ price_model_usage_nusd m p (u_input u) (u_output u) (u_read u) (u_write u) = Ok a.
Proof.
  intros Hp Hm Hr. unfold reconcile, reconcile_at in Hr.
  destruct (validate_usage id s u) as [[]|]; [|done].
  destruct (scalar _ (charges st)) as [[k charge]|]; [|done]. destruct (negb _); [done|].
  destruct (price_charge charge u) as [[[p' m'] a]|] eqn:Hpr; [|done].
  assert (price_model_usage_nusd m p (u_input u) (u_output u) (u_read u) (u_write u) = Ok a) as Ha.
  { unfold price_charge in Hpr. rewrite Hp, Hm in Hpr. inv_result.
    match goal with H : validated_pricing_pair _ _ = Ok _ |- _ =>
      pose proof (validated_inv _ _ _ _ H) as [-> _]; by rewrite <- (price_canonical _ _ _ _ _ _ _ H) end. }
  destruct (reserved_nusd charge <? a).
  { by destruct (commit_three _ _ _ _ _ _ _ _). }
  unfold committed in Hr. destruct (commit_three _ _ _ _ _ _ _ _) as [st'|] eqn:Hc; [|done].
  eapply (commit_three_inv _ _ _ _ _ _ _ _ _ id) in Hc as (pr & rr & c0 & _ & _ & _ & _ & _ & _ & ->);
    [|auto with cogentrex..].
  cbn in Hr. unfold persisted in Hr. cbn in Hr. rewrite lookup_insert_eq in Hr. inv_result.
  exists a. split; [done|exact Ha].
Qed.

#[export] Program Instance ledger_store : Store ledger := {|
  db_ok := reachable;
  db_later := rtc step
|}.
Next Obligation. intros st st' Hr Hs. cbn in *. exact (rtc_trans _ _ _ Hr Hs). Qed.

#[export] Instance ledger_repository_laws : ChargeRepositoryLaws ledger.
Proof.
  split.
  - intros st st' k c Hr Hs Hk. eapply steps_evolve; eauto. by apply reachable_ok.
  - intros. apply rtc_once, step_open_run.
  - intros. apply rtc_once, step_reserve.
  - intros. apply rtc_once, step_dispatch.
  - intros. apply rtc_once, step_indeterminate.
  - intros. apply rtc_once, step_release.
  - intros. apply rtc_once, step_reconcile.
  - done.
  - intros now id s ord q p m st res Hr Hres Hd. cbn in *. unfold reserve_call in *.
    destruct (reserve_needs_fresh _ _ _ _ _ _ _ _ _ _ _ Hres Hd) as (Hn & _ & Hc).
    split; [done|]. by eexists.
  - intros now id s st c Hr Hok. cbn in *.
    destruct (dispatch_moved now id s st) as [[e E]|(c0 & c' & _ & Hs & Hm & E)]; rewrite E in Hok; [done|].
    inv_result. eauto using moved_row.
  - intros now id s reason st c Hr Hok. cbn in *.
    destruct (indeterminate_moved now id s reason st) as [[e E]|(c0 & c' & _ & Hs & Hm & E)]; rewrite E in Hok; [done|].
    inv_result. eauto using moved_row.
  - intros now id s st c Hr%reachable_ok Hok. cbn in *. unfold release in *.
    destruct (release_moved now id s "released" st st Hr) as [[e E]|(c0 & c' & _ & Hs & Hm & E)]; rewrite E in Hok; [done|].
    inv_result. eauto using moved_row.
  - intros now id s u st c p m Hr Hp Hm Hok. cbn in *.
    destruct (reconcile_priced _ _ _ _ _ _ _ _ Hp Hm Hok) as (a & Ha & Hpr). unfold reconcile in *.
    destruct (reconcile_moved now id s u st st) as [[e E]|[(c0 & c' & _ & _ & _ & E)|(c0 & c' & _ & Hs & Hmv & E)]];
      rewrite E in Hok; [done..|]. inv_result. split_and!; [by eapply moved_row|done|].
    exists a. split_and!; [done| |done]. destruct Hmv as [_ _ _ (_ & _ & _ & _ & Hres) Hact _].
    rewrite Hs in Hact. destruct Hact as (a' & Ha' & ?). rewrite Hres. assert (a' = a) as -> by congruence. lia.
  - intros now id s st c Hr Hg. cbn in *. unfold get in Hg.
    destruct (_scope id s); [|done]. cbn in Hg. destruct (scalar _ _) as [[k c0]|] eqn:Hs; [|done].
    cbn in Hg. inv_result. simplify_eq. apply scalar_Some in Hs as [Hk [-> _]%filters_spec]. done.
Qed.
