(* ===== verification/BudgetedProvider.v ===== *)
(** * Budget enforcement around every model call ([runtime/monetary_budget.py])

    [DurableBudgetedProvider.complete] reserves a conservative quote, marks the
    charge dispatched, calls the wrapped provider once, and reconciles the price of
    the reported usage. Here it is a program over a database that other clients
    change between its calls, in which any database call may fail before or after
    its commit, the caller may cancel at any await, and the wrapped provider may
    return anything; what happens at each await is read from a forecast. The
    provider is proved against the interface of [ChargeRepository]. *)

From Stdlib Require Import ZArith Lia String Ascii.
From stdpp Require Import base gmap strings list fin_maps relations.
From S2P Require Import Prelude Strings Sql Durable Json Pricing MonetaryLedger ChargeRepository.
Open Scope Z_scope.

(** ** Values *)

(** Exceptions a call can end with. *)
Inductive exn : Type :=
| Repo (e : budget_error)
| Database
| Cancelled
| ModelBudgetExhausted
| DuplicateModelCharge
| IndeterminateModelCharge
| DurableModelChargeStateError
| RequestValueError
| Quote (e : pricing_error)
| OrdinalExhausted
| DelegateFailure.

#[export] Instance exn_eq_dec : EqDecision exn.
Proof. solve_decision. Defined.

Inductive Role : Type := SYSTEM | USER | ASSISTANT | TOOL.

Definition role_value (r : Role) : string :=
  match r with
  | SYSTEM => "system" | USER => "user" | ASSISTANT => "assistant" | TOOL => "tool"
  end%string.

Record ToolCall : Type := mkToolCall { call_id : string; call_name : string; arguments : list (string * json) }.

Record Message : Type := mkMessage {
  role : Role;
  content : string;
  tool_call_id : option string;
  tool_calls : list ToolCall;
  images : list string
}.

Record ToolDefinition : Type := mkTool {
  tool_name : string;
  description : string;
  input_schema : list (string * json)
}.

Record ResponseContract : Type := mkContract {
  schema_id : string;
  schema_version : string;
  json_schema : list (string * json);
  max_output_bytes : Z;
  max_depth : Z;
  max_nodes : Z
}.

Record request : Type := mkRequest {
  messages : list Message;
  tools : list ToolDefinition;
  max_tokens : Z;
  response_contract : option ResponseContract;
  response_format : option string
}.

Record TokenUsage : Type := mkTokens {
  usage_input : Z;
  usage_output : Z;
  usage_read : option Z;
  usage_write : option Z
}.

(** [TokenUsage()], [TokenUsage.__add__] and [total_tokens] *)
Definition no_usage : TokenUsage := mkTokens 0 0 None None.

Definition add_optional (l r : option Z) : option Z :=
  match l, r with None, None => None | _, _ => Some (default 0 l + default 0 r) end.

Definition add_usage (a b : TokenUsage) : TokenUsage :=
  mkTokens (usage_input a + usage_input b) (usage_output a + usage_output b)
    (add_optional (usage_read a) (usage_read b)) (add_optional (usage_write a) (usage_write b)).

Definition total_tokens (u : TokenUsage) : Z := usage_input u + usage_output u.

Record ModelResponse : Type := mkResponse {
  response_content : option string;
  response_calls : list ToolCall;
  usage : TokenUsage;
  provider_stop_reason : option string;
  structured_output : option json;
  actual_provider : option string;
  actual_model : option string
}.

(** ** Input estimate *)

Definition _MESSAGE_FRAME_TOKENS : Z := 128.
Definition _TOOL_CALL_FRAME_TOKENS : Z := 128.
Definition _TOOL_DEFINITION_FRAME_TOKENS : Z := 256.
Definition _RESPONSE_CONTRACT_FRAME_TOKENS : Z := 1024.
Definition _MAX_IMAGE_INPUT_TOKENS : Z := 22000.

Definition len (s : string) : Z := Z.of_nat (String.length s).

Definition sum_z {A} (f : A -> Z) (l : list A) : Z := foldr (fun x acc => f x + acc) 0 l.

Definition call_json (c : ToolCall) : string :=
  dumps (JArr [JStr (call_id c); JStr (call_name c); JObj (arguments c)]).

Definition message_tokens (m : Message) : Z :=
  _MESSAGE_FRAME_TOKENS + len (role_value (role m)) + len (content m)
  + match tool_call_id m with Some i => len i | None => 0 end
  + sum_z (fun image => _MAX_IMAGE_INPUT_TOKENS + len image) (images m)
  + sum_z (fun c => _TOOL_CALL_FRAME_TOKENS + len (call_json c)) (tool_calls m).

Definition tool_tokens (t : ToolDefinition) : Z :=
  _TOOL_DEFINITION_FRAME_TOKENS
  + len (dumps (JArr [JStr (tool_name t); JStr (description t); JObj (input_schema t)])).

Definition contract_tokens (c : ResponseContract) : Z :=
  _RESPONSE_CONTRACT_FRAME_TOKENS
  + len (dumps (JArr [JStr (schema_id c); JStr (schema_version c); JObj (json_schema c);
                      JInt (max_output_bytes c); JInt (max_depth c); JInt (max_nodes c)])).

(** [image_ok] is the validation of an image data URI. *)
Definition estimate_request_input_tokens (image_ok : string -> bool) (rq : request) : result exn Z :=
  if forallb (fun m => forallb image_ok (images m)) (messages rq) then
    Ok (sum_z message_tokens (messages rq) + sum_z tool_tokens (tools rq)
        + match response_contract rq with Some c => contract_tokens c | None => 0 end
        + match response_format rq with Some f => _RESPONSE_CONTRACT_FRAME_TOKENS + len f | None => 0 end)
  else Err RequestValueError.

(** ** Exact USD limits

    A [Decimal] is a sign, a coefficient and an exponent of ten, or not finite. Its
    product is rounded half-even to the 28 digits of Python's default context;
    exponents near the context's limits of a million are left out. *)

Inductive decimal : Type :=
| Finite (negative : bool) (coefficient exponent : Z)
| NonFinite.

Definition PREC : Z := 28.

Definition round_half_even (n d : Z) : Z :=
  let q := n / d in
  let r := n mod d in
  if 2 * r <? d then q else if d <? 2 * r then q + 1 else if Z.even q then q else q + 1.

(** Decimal digits of a positive number; [Z.log2 c + 1] divisions are enough. *)
Fixpoint count_digits (fuel : nat) (c : Z) : Z :=
  match fuel with
  | O => 1
  | S fuel' => if c <? 10 then 1 else 1 + count_digits fuel' (c / 10)
  end.

Definition num_digits (c : Z) : Z := count_digits (Z.to_nat (Z.log2 c + 1)) c.

(** Round a coefficient to the context's precision. *)
Definition fix_precision (c e : Z) : Z * Z :=
  let k := num_digits c - PREC in
  if k <=? 0 then (c, e)
  else let q := round_half_even c (10 ^ k) in
       if q =? 10 ^ PREC then (10 ^ (PREC - 1), e + k + 1) else (q, e + k).

Definition to_integral_value (c e : Z) : Z :=
  if 0 <=? e then c * 10 ^ e else round_half_even c (10 ^ (- e)).

(** [value == integral], for a finite value and an integer. *)
Definition decimal_is (c e n : Z) : bool :=
  if 0 <=? e then c * 10 ^ e =? n else c =? n * 10 ^ (- e).

Definition usd_limit_to_nusd (value : decimal) : result exn Z :=
  match value with
  | NonFinite => Err RequestValueError
  | Finite negative c e =>
      if negative && negb (c =? 0) then Err RequestValueError
      else
        let (c', e') := fix_precision (c * 1000000000) e in
        let integral := to_integral_value c' e' in
        if negb (decimal_is c' e' integral) then Err RequestValueError
        else if in_bigint integral then Ok integral else Err RequestValueError
  end.

(** ** The provider *)

Record DurableBudgetedProvider : Type := mkProvider {
  context : scope;
  run_limit : Z;
  project_limit : Z;
  max_input_tokens : Z;
  quote_input_headroom_tokens : Z;
  pricing_candidates : list (string * string)
}.

(** [PricingCandidate(provider, model)]: canonical, or refused. *)
Definition PricingCandidate (provider model : string) : result exn (string * string) :=
  lift_err Quote (validated_pricing_pair model provider).

Definition amount_arg (v : Z) : result exn Z :=
  if in_bigint v then Ok v else Err RequestValueError.

(** [BudgetRunContext] and [__init__]; the candidates are [PricingCandidate]s. *)
Definition new_provider (ctx : scope) (run_limit project_limit max_input headroom : Z)
    (candidates : list (string * string)) : result exn DurableBudgetedProvider :=
  _ ← lift_err (fun _ => RequestValueError) (_run_scope ctx);
  _ ← require (negb (bool_decide (candidates = []))) RequestValueError;
  _ ← require (bool_decide (NoDup candidates)) RequestValueError;
  _ ← amount_arg run_limit;
  _ ← amount_arg project_limit;
  _ ← amount_arg max_input;
  _ ← amount_arg headroom;
  Ok (mkProvider ctx run_limit project_limit max_input headroom candidates).

(** The first candidate whose own quote is greatest, as [max] with a key. *)
Fixpoint greatest (best : string * string) (best_quote : Z) (l : list (string * string)) (i o : Z)
  : result exn (string * string) :=
  match l with
  | [] => Ok best
  | c :: l' =>
      q ← lift_err Quote (quote_model_call_nusd [c] i o);
      if best_quote <? q then greatest c q l' i o else greatest best best_quote l' i o
  end.

Definition _quoted_candidate (p : DurableBudgetedProvider) (i o : Z) : result exn (Z * (string * string)) :=
  quote ← lift_err Quote (quote_model_call_nusd (pricing_candidates p) i o);
  match pricing_candidates p with
  | [] => Err RequestValueError
  | c :: l =>
      q ← lift_err Quote (quote_model_call_nusd [c] i o);
      cand ← greatest c q l i o;
      Ok (quote, cand)
  end.

(** The checks of [_snapshot_response] that are not about Python types. *)
Definition _snapshot_response (r : ModelResponse) : result exn ModelResponse :=
  let u := usage r in
  if in_bigint (usage_input u) && in_bigint (usage_output u)
     && in_bigint (default 0 (usage_read u)) && in_bigint (default 0 (usage_write u))
     && (default 0 (usage_read u) + default 0 (usage_write u) <=? usage_input u)
  then Ok r else Err IndeterminateModelCharge.

Definition attributed_pair (p : DurableBudgetedProvider) (r : ModelResponse) : result exn (string * string) :=
  '(provider, model) ←
    match actual_provider r, actual_model r with
    | Some provider, Some model => Ok (provider, model)
    | None, None => match pricing_candidates p with
                    | [c] => Ok c
                    | _ => Err IndeterminateModelCharge
                    end
    | _, _ => Err IndeterminateModelCharge
    end;
  pair ← lift_err (fun _ => IndeterminateModelCharge) (validated_pricing_pair model provider);
  _ ← require (bool_decide (pair ∈ pricing_candidates p)) IndeterminateModelCharge;
  Ok pair.

(** [QuoteExceeded], [ChargeStateConflict] and the value errors of [reconcile]. *)
Definition indeterminate_error (e : exn) : bool :=
  match e with
  | Repo (QuoteExceeded | ChargeStateConflict | BudgetValueError
          | BudgetPricing (UnknownModelPricing _ | PricingValueError)) => true
  | _ => false
  end.

#[export] Instance provider_await_errors : AwaitErrors exn := {|
  database_error := Database;
  cancelled_error := Cancelled
|}.

(** ** The program *)

(** The provider's own mutable fields. *)
Record provider_fields : Type := mkFields { _opened : bool; _next_ordinal : Z }.

(** What the wrapped provider does with the request. *)
Inductive delegate_outcome : Type :=
| Returned (r : ModelResponse)
| ReturnedMalformed
| Raised
| CancelledInside.

(** Ghost history: a reservation that authorises dispatch, and an invocation of the
    wrapped provider with the database at that moment. *)
Inductive event (DB : Type) : Type :=
| Granted (charge_id : string)
| Invoked (charge_id : string) (at_db : DB).
Arguments Granted {DB}.
Arguments Invoked {DB}.

Section provider.
Context {DB : Type} `{!ChargeRepository DB}.

#[local] Abbreviation P := (M DB provider_fields (event DB) exn).
#[local] Abbreviation W := (world DB provider_fields (event DB)).

Context (forecast : nat -> weather DB) (delegate : nat -> delegate_outcome)
  (sha256_hex : string -> string) (image_ok : string -> bool).

Definition repo_call {A} (op : Z -> DB -> DB * result budget_error A) : P A := call forecast Repo op.

Definition _charge_id (run : string) (ordinal : Z) : string :=
  String.append "model_v1_" (sha256_hex (String.append run (String.append ":" (dumps (JInt ordinal))))).

Definition _ensure_open (p : DurableBudgetedProvider) : P unit := fun w =>
  if _opened (fields w) then (w, Ok tt)
  else match cancellable forecast (repo_call (fun now => repo_open_run now (context p) (run_limit p) (project_limit p))) w with
       | (w', Ok _) => (mkWorld (db w') (ticks w') (mkFields true (_next_ordinal (fields w'))) (history w'), Ok tt)
       | (w', Err e) => (w', Err e)
       end.

Definition _allocate_ordinal : P Z := fun w =>
  let ordinal := _next_ordinal (fields w) in
  if MAX_INT32 <? ordinal then (w, Err OrdinalExhausted)
  else (mkWorld (db w) (ticks w) (mkFields (_opened (fields w)) (ordinal + 1)) (history w), Ok ordinal).

Definition get_charge (p : DurableBudgetedProvider) (id : string) : P (option ModelChargeRow) :=
  repo_call (fun now => repo_get now id (context p)).

Definition _mark_indeterminate_if_active (p : DurableBudgetedProvider) (id reason : string) : P unit :=
  charge ← get_charge p id;
  match charge with
  | None => raise (Repo ChargeStateConflict)
  | Some c =>
      if negb (is_active c) then mret tt
      else try_with
        (_ ← repo_call (fun now => repo_mark_indeterminate now id (context p) reason); mret tt)
        (fun e => match e with
          | Repo ChargeStateConflict =>
              charge ← get_charge p id;
              match charge with
              | None => raise e
              | Some c => if is_active c then raise e else mret tt
              end
          | _ => raise e
          end)
  end.

Definition _recover_failed_dispatch (p : DurableBudgetedProvider) (id : string) : P unit :=
  charge ← get_charge p id;
  match charge with
  | None => raise (Repo ChargeStateConflict)
  | Some c =>
      if bool_decide (state c = RESERVED) then
        _ ← repo_call (fun now => repo_release now id (context p)); mret tt
      else if bool_decide (state c = DISPATCHED) then
        _ ← repo_call (fun now => repo_mark_indeterminate now id (context p) "dispatch_interrupted"); mret tt
      else mret tt
  end.

(** [await self._delegate.complete(..)]; other clients commit meanwhile. *)
Definition invoke_delegate (id : string) : P ModelResponse := fun w =>
  (_ ← elapse forecast (Invoked id (db w));
   of_result match delegate (ticks w) with
             | Returned r => _snapshot_response r
             | ReturnedMalformed => Err IndeterminateModelCharge
             | Raised => Err DelegateFailure
             | CancelledInside => Err Cancelled
             end) w.

Definition usage_of (pair : string * string) (u : TokenUsage) : usage_report :=
  mkUsage None (usage_input u) (usage_output u) (usage_read u) (usage_write u) (Some pair.1) (Some pair.2).

(** The [try] block after the dispatch: call, attribute, reconcile. *)
Definition settle (p : DurableBudgetedProvider) (id : string) : P ModelResponse :=
  snapshot ← invoke_delegate id;
  pair ← of_result (attributed_pair p snapshot);
  o ← _cancellation_resistant forecast
        (repo_call (fun now => repo_reconcile now id (context p) (usage_of pair (usage snapshot))));
  if cancellation o then raise Cancelled
  else match value o with
  | Err e => raise (if indeterminate_error e then IndeterminateModelCharge else e)
  | Ok _ => mret snapshot
  end.

(** Its [except BaseException] block. *)
Definition clean_up (p : DurableBudgetedProvider) (id : string) (original : exn) : P ModelResponse :=
  let reason := (if bool_decide (original = Cancelled) then "call_cancelled" else "call_failed")%string in
  o ← _cancellation_resistant forecast (_mark_indeterminate_if_active p id reason);
  match value o with
  | Err _ => raise DurableModelChargeStateError
  | Ok _ => raise (if bool_decide (original = Cancelled) || cancellation o then Cancelled else original)
  end.

(** From a granted reservation on. *)
Definition dispatch (p : DurableBudgetedProvider) (id : string) : P ModelResponse :=
  o ← _cancellation_resistant forecast (repo_call (fun now => repo_mark_dispatched now id (context p)));
  match (if cancellation o then Err Cancelled else value o) with
  | Err failure =>
      recovery ← _cancellation_resistant forecast (_recover_failed_dispatch p id);
      match value recovery with
      | Err _ => raise DurableModelChargeStateError
      | Ok _ => raise (if bool_decide (failure = Cancelled) || cancellation recovery then Cancelled else failure)
      end
  | Ok _ => try_with (settle p id) (clean_up p id)
  end.

Definition reserve (p : DurableBudgetedProvider) (id : string) (ordinal quote : Z) (cand : string * string)
  : P ModelResponse :=
  o ← _cancellation_resistant forecast
        (repo_call (fun now => repo_reserve_call now id (context p) ordinal quote cand.1 cand.2));
  match value o with
  | Err e =>
      if cancellation o then raise Cancelled
      else match e with
           | Repo (ProjectBudgetExceeded | RunBudgetExceeded) => raise ModelBudgetExhausted
           | _ => raise e
           end
  | Ok reservation =>
      _ ← (if should_dispatch reservation then record_event (Granted id) else mret tt);
      if cancellation o then
        if should_dispatch reservation then
          released ← _cancellation_resistant forecast (repo_call (fun now => repo_release now id (context p)));
          match value released with
          | Err _ => raise DurableModelChargeStateError
          | Ok _ => raise Cancelled
          end
        else raise Cancelled
      else if negb (should_dispatch reservation) then raise DuplicateModelCharge
      else dispatch p id
  end.

(** What [complete] computes before it touches the ledger: the quoted input size,
    the quote and the candidate it is recorded under. *)
Definition prepare (p : DurableBudgetedProvider) (rq : request) : result exn (Z * (string * string)) :=
  _ ← require (negb (bool_decide (is_Some (response_contract rq)) && bool_decide (is_Some (response_format rq))))
        RequestValueError;
  estimated ← estimate_request_input_tokens image_ok rq;
  _ ← require (estimated <=? max_input_tokens p) ModelBudgetExhausted;
  _quoted_candidate p (Z.min (max_input_tokens p) (estimated + quote_input_headroom_tokens p)) (max_tokens rq).

Definition complete (p : DurableBudgetedProvider) (rq : request) : P ModelResponse :=
  '(quote, cand) ← of_result (prepare p rq);
  _ ← _ensure_open p;
  ordinal ← _allocate_ordinal;
  reserve p (_charge_id (sc_run (context p)) ordinal) ordinal quote cand.

(** ** Reasoning about programs of the provider *)

Context `{!Store DB} `{!ChargeRepositoryLaws DB}.
Hypothesis others_later : fair forecast.

Lemma wp_repo {A} (op : Z -> DB -> DB * result budget_error A) (Q : result exn A -> W -> Prop) w :
  db_ok (db w) -> (forall now st, db_ok st -> db_later st (op now st).1) ->
  (forall r w', after w w' -> history w' = history w ->
     (forall a, r = Ok a -> exists now st, db_ok st /\ db_later (db w) st
        /\ (op now st).2 = Ok a /\ db w' = (op now st).1) -> Q r w') ->
  wp (repo_call op) Q w.
Proof. by apply (wp_call forecast others_later). Qed.

(** No money is held for the charge any more. *)
Definition settled (st : DB) (id : string) : Prop :=
  exists c, repo_row st id = Some c /\ is_active c = false.

Lemma is_active_terminal c : is_active c = negb (terminal (state c)).
Proof. unfold is_active. by destruct (state c). Qed.

Lemma settled_later st st' id : db_ok st -> db_later st st' -> settled st id -> settled st' id.
Proof.
  intros Hok Hl (c & Hc & Ha). destruct (repo_later_row _ _ _ _ Hok Hl Hc) as (c' & Hc' & _ & _ & Ht).
  rewrite is_active_terminal in Ha. exists c'. split; [done|].
  rewrite Ht by (by destruct (terminal (state c))). by rewrite is_active_terminal, Ha.
Qed.

Lemma wp_get p id Q w : db_ok (db w) ->
  (forall r w', after w w' -> history w' = history w ->
     (forall c, r = Ok (Some c) -> repo_row (db w') id = Some c) -> Q r w') ->
  wp (get_charge p id) Q w.
Proof.
  intros Hok HQ. apply wp_repo; [done| |].
  { intros now st _. by rewrite repo_get_later. }
  intros r w' Ha Hh Hr. apply HQ; [done..|]. intros c ->.
  destruct (Hr _ eq_refl) as (now & st & Hst & _ & Hg & ->). rewrite repo_get_later. by eapply repo_get_ok.
Qed.

Lemma mark_indeterminate_spec p id reason w : db_ok (db w) ->
  wp (_mark_indeterminate_if_active p id reason)
    (fun r w' => after w w' /\ history w' = history w /\ (r = Ok tt -> settled (db w') id)) w.
Proof.
  intros Hok. apply wp_bind, wp_get; [done|]. intros r w1 Ha1 Hh1 Hr1.
  destruct r as [[c|]|e]; [|by split_and!..].
  destruct (is_active c) eqn:Hac; cbn [negb]; [|apply wp_ret; split_and!; [done..|]; intros _; exists c; eauto].
  apply wp_try, wp_bind, wp_repo; [by destruct Ha1|eauto with cogentrex|].
  intros r2 w2 Ha2 Hh2 Hr2. pose proof (after_trans _ _ _ Ha1 Ha2) as Ha12.
  destruct r2 as [c2|e].
  - destruct (Hr2 _ eq_refl) as (now & st & Hst & _ & Hop & Hdb).
    destruct (repo_indeterminate_ok _ _ _ _ _ _ Hst Hop) as [Hrow Hs].
    apply wp_ret. split_and!; [done|congruence|]. intros _. exists c2. rewrite Hdb. by rewrite is_active_terminal, Hs.
  - assert (after w w2 /\ history w2 = history w /\ (Err e = Ok tt -> settled (db w2) id)) as Hfail
      by (split_and!; [done|congruence|done]).
    destruct e as [[]| | | | | | | | | |]; try exact Hfail.
    apply wp_bind, wp_get; [by destruct Ha2|]. intros r3 w3 Ha3 Hh3 Hr3.
    pose proof (after_trans _ _ _ Ha12 Ha3) as Ha13.
    destruct r3 as [[c3|]|e]; [|try apply wp_raise; split_and!; [done|congruence|done]..].
    destruct (is_active c3) eqn:Hac3; [apply wp_raise; split_and!; [done|congruence|done]|].
    apply wp_ret. split_and!; [done|congruence|]. intros _. exists c3. eauto.
Qed.

Lemma recover_spec p id w : db_ok (db w) ->
  wp (_recover_failed_dispatch p id)
    (fun r w' => after w w' /\ history w' = history w /\ (r = Ok tt -> settled (db w') id)) w.
Proof.
  intros Hok. apply wp_bind, wp_get; [done|]. intros r w1 Ha1 Hh1 Hr1.
  destruct r as [[c|]|e]; [|by split_and!..].
  case_bool_decide as Hres; [|case_bool_decide as Hdis].
  - apply wp_bind, wp_repo; [by destruct Ha1|eauto with cogentrex|]. intros r2 w2 Ha2 Hh2 Hr2.
    pose proof (after_trans _ _ _ Ha1 Ha2).
    destruct r2 as [c2|]; [apply wp_ret|]; (split_and!; [done|congruence|]); [|done].
    destruct (Hr2 _ eq_refl) as (now & st & Hst & _ & Hop & ->). intros _. exists c2.
    destruct (repo_release_ok _ _ _ _ _ Hst Hop) as [? Hs]. by rewrite is_active_terminal, Hs.
  - apply wp_bind, wp_repo; [by destruct Ha1|eauto with cogentrex|]. intros r2 w2 Ha2 Hh2 Hr2.
    pose proof (after_trans _ _ _ Ha1 Ha2).
    destruct r2 as [c2|]; [apply wp_ret|]; (split_and!; [done|congruence|]); [|done].
    destruct (Hr2 _ eq_refl) as (now & st & Hst & _ & Hop & ->). intros _. exists c2.
    destruct (repo_indeterminate_ok _ _ _ _ _ _ Hst Hop) as [? Hs]. by rewrite is_active_terminal, Hs.
  - apply wp_ret. split_and!; [done..|]. intros _. exists c. split; [by apply Hr1|].
    rewrite is_active_terminal. by destruct (state c).
Qed.

(** The charge was reconciled at the exact price of the response's usage, under a
    pair the provider may use, within its quote. *)
Definition paid_for (p : DurableBudgetedProvider) (st : DB) (id : string) (r : ModelResponse) : Prop :=
  exists c provider model a,
    repo_row st id = Some c /\ state c = RECONCILED /\ actual_nusd c = Some a /\ a <= reserved_nusd c
    /\ attributed_pair p r = Ok (provider, model)
    /\ price_model_usage_nusd model provider (usage_input (usage r)) (usage_output (usage r))
         (usage_read (usage r)) (usage_write (usage r)) = Ok a.

Lemma paid_for_settled p st id r : paid_for p st id r -> settled st id.
Proof.
  intros (c & _ & _ & _ & Hc & Hs & _). exists c. split; [done|]. by rewrite is_active_terminal, Hs.
Qed.

Lemma wp_invoke id Q w : db_ok (db w) ->
  (forall r w', after w w' -> history w' = history w ++ [Invoked id (db w)] -> Q r w') ->
  wp (invoke_delegate id) Q w.
Proof. intros Hok HQ. apply wp_bind, (wp_elapse forecast others_later); [done|]. intros w' Ha Hh. by apply wp_of_result, HQ. Qed.

Lemma settle_spec p id w : db_ok (db w) ->
  wp (settle p id)
    (fun r w' => after w w' /\ history w' = history w ++ [Invoked id (db w)]
       /\ forall s, r = Ok s -> paid_for p (db w') id s) w.
Proof.
  intros Hok. apply wp_bind, wp_invoke; [done|]. intros r w1 Ha1 Hh1.
  destruct r as [s|e]; [|by split_and!].
  apply wp_bind. apply wp_of_result.
  destruct (attributed_pair p s) as [[prov mdl]|e] eqn:Hpair; [|by split_and!].
  apply wp_bind, wp_resistant, wp_repo; [by destruct Ha1|eauto with cogentrex|].
  intros r w2 Ha2 Hh2 Hr2 cancelled. pose proof (after_trans _ _ _ Ha1 Ha2). cbn [cancellation value].
  destruct cancelled; [apply wp_raise; split_and!; [done|congruence|done]|].
  destruct r as [c|e]; [apply wp_ret|apply wp_raise]; (split_and!; [done|congruence|]); [|done].
  intros s' [= <-]. destruct (Hr2 _ eq_refl) as (now & st & Hst & _ & Hop & Hdb).
  destruct (repo_reconcile_ok _ _ _ (usage_of (prov, mdl) (usage s)) _ _ prov mdl Hst eq_refl eq_refl Hop) as (Hrow & Hs & a & Ha & Hle & Hpr).
  exists c, prov, mdl, a. rewrite Hdb. by split_and!.
Qed.

Lemma clean_up_spec p id original w : db_ok (db w) ->
  wp (clean_up p id original)
    (fun r w' => after w w' /\ history w' = history w
       /\ exists e, r = Err e /\ (settled (db w') id \/ e = DurableModelChargeStateError)) w.
Proof.
  intros Hok. apply wp_bind, wp_resistant. eapply wp_mono; [by apply mark_indeterminate_spec|].
  intros r w1 (Ha & Hh & Hr) cancelled. cbn [value cancellation].
  destruct r as [[]|e]; apply wp_raise; split_and!; [done..| |done|done|]; eauto.
Qed.

(** The events of a call after its reservation: at most one invocation, and only of
    a charge that is durably dispatched. *)
Definition dispatched_in (st : DB) (id : string) : Prop :=
  exists c, repo_row st id = Some c /\ state c = DISPATCHED.

Lemma dispatch_spec p id w : db_ok (db w) ->
  wp (dispatch p id)
    (fun r w' => after w w'
       /\ (history w' = history w \/
           exists d, history w' = history w ++ [Invoked id d] /\ dispatched_in d id)
       /\ (settled (db w') id \/ r = Err DurableModelChargeStateError)
       /\ forall s, r = Ok s -> paid_for p (db w') id s) w.
Proof.
  intros Hok. apply wp_bind, wp_resistant, wp_repo; [done|eauto with cogentrex|].
  intros r w1 Ha1 Hh1 Hr1 cancelled. cbn [value cancellation].
  destruct (if cancelled then Err Cancelled else r) as [c|failure] eqn:Hfail.
  - assert (r = Ok c) as -> by by destruct cancelled.
    destruct (Hr1 _ eq_refl) as (now & st & Hst & _ & Hop & Hdb).
    destruct (repo_dispatch_ok _ _ _ _ _ Hst Hop) as [Hrow Hs]. rewrite <- Hdb in Hrow.
    apply wp_try. eapply wp_mono; [apply settle_spec; by destruct Ha1|].
    intros r w2 (Ha2 & Hh2 & Hpaid). rewrite Hh1 in Hh2. pose proof (after_trans _ _ _ Ha1 Ha2) as Ha12.
    assert (dispatched_in (db w1) id) as Hdis by by exists c.
    destruct r as [s|e].
    + split_and!; [done|by eauto| |done]. left. eapply paid_for_settled. by apply Hpaid.
    + eapply wp_mono; [apply clean_up_spec; by destruct Ha2|].
      intros r w3 (Ha3 & Hh3 & e' & -> & Hor). split_and!; [by eapply after_trans| | |done].
      * right. exists (db w1). by rewrite Hh3.
      * destruct Hor as [?| ->]; auto.
  - apply wp_bind, wp_resistant. eapply wp_mono; [apply recover_spec; by destruct Ha1|].
    intros r2 w2 (Ha2 & Hh2 & Hr2) cancelled2. pose proof (after_trans _ _ _ Ha1 Ha2). cbn [value cancellation].
    destruct r2 as [[]|e]; apply wp_raise; (split_and!; [done|left; congruence| |done]); auto.
Qed.

(** The events of one call. *)
Inductive call_events (id : string) : list (event DB) -> Prop :=
| events_none : call_events id []
| events_granted : call_events id [Granted id]
| events_invoked d : dispatched_in d id -> call_events id [Granted id; Invoked id d].

Definition call_post (p : DurableBudgetedProvider) (id : string) (w : W)
    (r : result exn ModelResponse) (w' : W) : Prop :=
  after w w' /\ exists evs, history w' = history w ++ evs /\ call_events id evs
    /\ (evs <> [] -> settled (db w') id \/ r = Err DurableModelChargeStateError)
    /\ forall s, r = Ok s -> evs <> [] /\ paid_for p (db w') id s.

Lemma call_post_fail p id w w' e : after w w' -> history w' = history w -> call_post p id w (Err e) w'.
Proof. intros Ha Hh. split; [done|]. exists []. rewrite app_nil_r. split_and!; [done|constructor|done..]. Qed.

Lemma reserve_spec p id ordinal quote cand w : db_ok (db w) ->
  wp (reserve p id ordinal quote cand) (call_post p id w) w.
Proof.
  intros Hok. apply wp_bind, wp_resistant, wp_repo; [done|eauto with cogentrex|].
  intros r w1 Ha1 Hh1 Hr1 cancelled. cbn [value cancellation].
  destruct r as [res|e]; [|destruct cancelled; [|repeat case_match]; by apply call_post_fail].
  apply wp_bind. destruct (should_dispatch res) eqn:Hd; cbn [negb].
  2:{ apply wp_ret. destruct cancelled; by apply call_post_fail. }
  apply wp_record. set (w2 := mkWorld (db w1) _ _ _).
  assert (after w w2) as Ha2 by done. assert (history w2 = history w ++ [Granted id]) as Hh2 by (cbn; by rewrite Hh1).
  destruct cancelled.
  - apply wp_bind, wp_resistant, wp_repo; [by destruct Ha2|eauto with cogentrex|].
    intros r w3 Ha3 Hh3 Hr3 again. cbn [value cancellation].
    assert (settled (db w3) id \/ is_ok r = false) as Hor.
    { destruct r as [c|]; [|by right]. left. destruct (Hr3 _ eq_refl) as (now & st & Hst & _ & Hop & ->).
      destruct (repo_release_ok _ _ _ _ _ Hst Hop) as [? Hs]. exists c. by rewrite is_active_terminal, Hs. }
    destruct r as [c|e]; apply wp_raise; (split; [by eapply after_trans|]);
      exists [Granted id]; rewrite Hh3; (split_and!; [done|constructor| |done]); intros _; [|by right].
    destruct Hor as [?|?]; [by left|done].
  - eapply wp_mono; [apply dispatch_spec; by destruct Ha2|].
    intros r w3 (Ha3 & Hev & Hset & Hpaid). split; [by eapply after_trans|].
    destruct Hev as [Hh3|(d & Hh3 & Hdis)]; rewrite Hh2 in Hh3.
    + exists [Granted id]. split_and!; [done|constructor|done|]. intros s Hs. split; [done|by apply Hpaid].
    + exists [Granted id; Invoked id d]. rewrite <- app_assoc in Hh3.
      split_and!; [done|by constructor|done|]. intros s Hs. split; [done|by apply Hpaid].
Qed.

Lemma call_post_weaken p id w w1 r w' :
  after w w1 -> history w1 = history w -> call_post p id w1 r w' -> call_post p id w r w'.
Proof. intros Ha Hh [Ha' Hev]. split; [by eapply after_trans|]. by rewrite <- Hh. Qed.

Lemma complete_spec p rq w : db_ok (db w) ->
  wp (complete p rq) (fun r w' => exists id, call_post p id w r w') w.
Proof.
  intros Hok. apply wp_bind. apply wp_of_result.
  destruct (prepare p rq) as [[quote cand]|e]; [|by exists ""%string; apply call_post_fail].
  apply wp_bind.
  assert (forall Q : result exn unit -> W -> Prop,
    (forall r w', after w w' -> history w' = history w -> Q r w') -> wp (_ensure_open p) Q w) as Hopen.
  { intros Q HQ. unfold wp, _ensure_open. destruct (_opened (fields w)); [by apply HQ|].
    pose proof (wp_cancellable forecast (repo_call (fun now => repo_open_run now (context p) (run_limit p) (project_limit p)))
      (fun r w' => after w w' /\ history w' = history w) w) as Hc.
    unfold wp at 2 in Hc. destruct (cancellable _ _ w) as [w' r] eqn:E.
    destruct Hc as [Ha Hh]; [|by destruct r; apply HQ].
    apply wp_repo; [done|eauto with cogentrex|]. by intros. }
  apply Hopen. intros r w1 Ha1 Hh1. destruct r as [[]|e]; [|by exists ""%string; apply call_post_fail].
  apply wp_bind. unfold wp at 1, _allocate_ordinal. destruct (MAX_INT32 <? _next_ordinal (fields w1)); cbn [fst snd].
  { exists ""%string. by apply call_post_fail. }
  set (w2 := mkWorld (db w1) _ _ _). eapply wp_mono; [apply (reserve_spec _ _ _ _ _ w2); by destruct Ha1|].
  intros r w3 Hpost. eexists. by eapply call_post_weaken.
Qed.
End provider.

(** ** Calm weather, over the ledger *)

#[local] Abbreviation provider_world := (world ledger provider_fields (event ledger)).

(** [hashlib.sha256(..).hexdigest()]: 64 lower-case hexadecimal digits. *)
Definition is_hex (c : ascii) : bool := is_digit c || between "a"%char "f"%char c.
Definition hex_digest (h : string -> string) : Prop :=
  forall s, String.length (h s) = 64%nat /\ string_forall is_hex (h s) = true.

Lemma hex_safe c : is_hex c = true -> safe_id_char c = true.
Proof.
  by destruct c as [[] [] [] [] [] [] [] []]; vm_compute.
Qed.

Lemma charge_id_valid h run n : hex_digest h -> _id (_charge_id h run n) 128 = Ok (_charge_id h run n).
Proof.
  intros Hh. unfold _charge_id. set (t := String.append run _). destruct (Hh t) as [Hl Hf].
  apply (string_forall_impl _ safe_id_char) in Hf; [|apply hex_safe].
  unfold _id. rewrite length_string_app, Hl. cbn [String.length Nat.ltb Nat.leb Nat.add orb].
  assert (safe_id (String.append "model_v1_" (h t)) = true) as ->; [exact Hf|done].
Qed.

Lemma scope_valid h s n : hex_digest h -> _run_scope s = Ok tt -> _scope (_charge_id h (sc_run s) n) s = Ok tt.
Proof. intros Hh Hs. unfold _scope. by rewrite charge_id_valid. Qed.

(** Names in the price table are identifiers the ledger accepts. *)
Lemma pricing_ids m p f : validated_pricing_pair m p = Ok (f, m) -> _id f 100 = Ok f /\ _id m 255 = Ok m.
Proof.
  intros [_ (pricing & Hm & _ & Ha & _)]%validated_inv. split.
  - assert (map_Forall (fun _ f => _id f 100 = Ok f) aliases) as Hall.
    { refine (bool_decide_eq_true_1 _ _). vm_compute. done. }
    apply (Hall _ _ Ha).
  - assert (map_Forall (fun m _ => _id m 255 = Ok m) MODEL_PRICING) as Hall.
    { refine (bool_decide_eq_true_1 _ _). vm_compute. done. }
    apply (Hall _ _ Hm).
Qed.

Definition canonical (c : string * string) : Prop := validated_pricing_pair c.2 c.1 = Ok c.

Lemma greatest_elem l : forall best q i o c, greatest best q l i o = Ok c -> c = best \/ c ∈ l.
Proof.
  induction l as [|x l IH]; intros best q i o c Hg; cbn in Hg; [inv_result; by left|].
  inv_result. rewrite elem_of_cons. destruct (q <? _); apply IH in Hg as [->|?]; auto.
Qed.

Lemma quoted_candidate_inv p i o quote cand : _quoted_candidate p i o = Ok (quote, cand) ->
  quote_model_call_nusd (pricing_candidates p) i o = Ok quote /\ cand ∈ pricing_candidates p.
Proof.
  unfold _quoted_candidate. intros Hq. inv_result. destruct (pricing_candidates p) as [|c l] eqn:Hc; [done|].
  inv_result. split; [done|]. rewrite elem_of_cons.
  match goal with H : greatest _ _ _ _ _ = Ok _ |- _ => by apply greatest_elem in H end.
Qed.

Lemma attributed_inv p r pair : attributed_pair p r = Ok pair ->
  pair ∈ pricing_candidates p /\ canonical pair.
Proof.
  unfold attributed_pair. intros Ha. inv_result. bool_to_prop. split; [done|]. unfold canonical.
  match goal with H : validated_pricing_pair ?m ?p = Ok ?x |- _ => destruct x as [f m'];
    pose proof (validated_inv _ _ _ _ H) as [-> _]; by apply validated_canonical in H end.
Qed.

Lemma snapshot_inv r s : _snapshot_response r = Ok s -> s = r
  /\ in_bigint (usage_input (usage r)) = true /\ in_bigint (usage_output (usage r)) = true
  /\ in_bigint (default 0 (usage_read (usage r))) = true /\ in_bigint (default 0 (usage_write (usage r))) = true
  /\ default 0 (usage_read (usage r)) + default 0 (usage_write (usage r)) <= usage_input (usage r).
Proof.
  unfold _snapshot_response. intros Hs. destruct (_ && _) eqn:Hb; [|done]. inv_result.
  apply andb_true_iff in Hb as [Hb Hle]. apply Z.leb_le in Hle. do 3 apply andb_true_iff in Hb as [Hb ?].
  by split_and!.
Qed.

Lemma reserve_fresh_grants st now s ord quote c n p r h : hex_digest h ->
  _run_scope s = Ok tt -> canonical c -> n = ord -> 0 <= ord <= MAX_INT32 -> 0 <= quote <= MAX_BIGINT ->
  projects st !! (sc_owner s, sc_project s) = Some p ->
  runs st !! sc_run s = Some r -> run_is s (sc_run s) r = true -> budget_opened_at r <> None ->
  charges st !! _charge_id h (sc_run s) n = None ->
  (forall k c, charges st !! k = Some c -> ~ (run_id c = sc_run s /\ ordinal c = ord)) ->
  quote <= limit_nusd p - spent_nusd p - project_reserved_nusd p ->
  quote <= budget_limit_nusd r - budget_spent_nusd r - budget_reserved_nusd r ->
  exists st', reserve_call now (_charge_id h (sc_run s) n) s ord quote c.1 c.2 st
      = (st', Ok (mkReservation (_charge_id h (sc_run s) n) RESERVED true quote))
    /\ charges st' !! _charge_id h (sc_run s) n = Some (new_charge now s ord quote c.1 c.2)
    /\ is_Some (runs st' !! sc_run s).
Proof.
  intros Hh Hs Hcan -> Hord Hquote HP HR Hris Hop Hnone Huni Hpq Hrq. destruct c as [prov mdl].
  unfold canonical in Hcan. cbn [fst snd] in *. destruct (pricing_ids _ _ _ Hcan) as [Hp Hm].
  eexists. split_and!.
  - rewrite (reserve_branches _ _ _ _ _ _ _ _ prov p r); try done.
    + by rewrite !(proj2 (Z.ltb_ge _ _)).
    + unfold validate_reserve, _amount. rewrite scope_valid by done. cbn [mbind result_bind].
      rewrite (proj2 (Z.leb_le 0 ord)), (proj2 (Z.leb_le ord MAX_INT32)) by lia. cbn [andb require mbind result_bind].
      rewrite (proj2 (in_bigint_spec quote)) by done. cbn [mbind result_bind]. by rewrite Hp, Hm; cbn; rewrite Hcan.
  - apply lookup_insert_eq.
  - apply lookup_insert_is_Some'. by left.
Qed.

Lemma dispatch_calm st now id s c : reachable st -> _scope id s = Ok tt ->
  charges st !! id = Some c -> charge_in s c = true -> state c = RESERVED -> is_Some (runs st !! sc_run s) ->
  exists st' c', mark_dispatched now id s st = (st', Ok c') /\ reachable st'
    /\ charges st' !! id = Some c' /\ state c' = DISPATCHED /\ same_identity c c' /\ is_Some (runs st' !! sc_run s).
Proof.
  intros Hr Hs Hc Hin Hst Hrun.
  destruct (in_place_intro st s id c (reachable_ok _ Hr) Hc Hin Hrun) as (p & r & Hip).
  assert (exists c', (mark_dispatched now id s st).2 = Ok c') as [c' Hc'].
  { eexists. unfold mark_dispatched. eapply simple_transition_succeeds; eauto. by apply list_elem_of_singleton. }
  destruct (dispatch_moved now id s st) as [[e E]|(d & d' & _ & Hd' & Hm & E)]; rewrite E in Hc'; [done|].
  inv_result. exists (mark_dispatched now id s st).1, c'. split_and!.
  - rewrite <- E. apply surjective_pairing.
  - eapply rtc_r; [exact Hr|apply step_dispatch].
  - by eapply moved_row.
  - done.
  - destruct Hm as [Hd _ _ ? _ _]. congruence.
  - destruct (moved_frame _ _ _ _ _ _ Hm) as (_ & _ & Hruns). by apply Hruns.
Qed.

Lemma reconcile_calm st now id s c pair u i o quote cands r : reachable st -> _scope id s = Ok tt ->
  charges st !! id = Some c -> charge_in s c = true -> state c = DISPATCHED -> is_Some (runs st !! sc_run s) ->
  reserved_nusd c = quote -> quote_model_call_nusd cands i o = Ok quote -> pair ∈ cands -> canonical pair ->
  _snapshot_response r = Ok r -> u = usage r -> usage_input u <= i -> usage_output u <= o ->
  exists st' c' a, reconcile now id s (usage_of pair u) st = (st', Ok c')
    /\ charges st' !! id = Some c' /\ state c' = RECONCILED /\ actual_nusd c' = Some a /\ a <= quote
    /\ price_model_usage_nusd pair.2 pair.1 (usage_input u) (usage_output u) (usage_read u) (usage_write u) = Ok a.
Proof.
  intros Hr Hs Hc Hin Hst Hrun Hq Hquote Hel Hcan (_ & Hi & Ho & Hrd & Hwr & Hle)%snapshot_inv -> Hii Hoo.
  pose proof (proj1 (in_bigint_spec _) Hi). pose proof (proj1 (in_bigint_spec _) Ho).
  destruct pair as [prov mdl].
  destruct (quoted_usage_prices _ _ _ _ prov mdl (usage_input (usage r)) (usage_output (usage r))
    (usage_read (usage r)) (usage_write (usage r)) Hquote Hel) as (a & Ha & Haq); [done..|lia|lia|].
  unfold canonical in Hcan. cbn [fst snd] in Hcan. destruct (pricing_ids _ _ _ Hcan) as [Hp Hm].
  destruct (in_place_intro st s id c (reachable_ok _ Hr) Hc Hin Hrun) as (p & rr & Hip).
  assert (forall x : option Z, in_bigint (default 0 x) = true -> _optional_amount x = Ok x) as Hopt.
  { intros [x|] Hx; [|done]. cbn in *. unfold _amount. by rewrite Hx. }
  assert (_id mdl 255 = Ok mdl) as Hm' by done.
  destruct (reconcile_succeeds now st s id c p rr (usage_of (prov, mdl) (usage r)) prov mdl a Hip)
    as (c' & Hc' & Hs' & Ha').
  - unfold validate_usage, usage_of. cbn [u_actual u_input u_output u_read u_write u_provider u_model fst snd].
    rewrite Hs. cbn [mbind result_bind _optional_amount]. unfold _amount at 1 2. rewrite Hi, Ho. cbn [mbind result_bind].
    rewrite !Hopt by done. cbn [mbind result_bind]. rewrite (proj2 (Z.leb_le _ _)) by done.
    cbn [require mbind result_bind _optional_id]. by rewrite Hp; cbn; rewrite Hm'.
  - done.
  - unfold price_charge, usage_of. cbn. rewrite Hcan. cbn. rewrite Ha. done.
  - by rewrite Hq.
  - exists (reconcile now id s (usage_of (prov, mdl) (usage r)) st).1, c', a. split_and!; [| |done..].
    + rewrite <- Hc'. apply surjective_pairing.
    + exact (proj1 (repo_reconcile_ok (DB := ledger) now id s (usage_of (prov, mdl) (usage r)) st c' prov mdl
        Hr eq_refl eq_refl Hc')).
Qed.

Lemma complete_calm delegate h image_ok p rq (w : provider_world) quote cand :
  prepare image_ok p rq = Ok (quote, cand) -> _opened (fields w) = true -> _next_ordinal (fields w) <= MAX_INT32 ->
  exists w', db w' = db w /\ ticks w' = ticks w /\
    complete calm delegate h image_ok p rq w
    = reserve calm delegate p (_charge_id h (sc_run (context p)) (_next_ordinal (fields w))) (_next_ordinal (fields w)) quote cand w'.
Proof.
  intros Hp Ho Hn. exists (mkWorld (db w) (ticks w) (mkFields true (_next_ordinal (fields w) + 1)) (history w)).
  split_and!; [done..|].
  unfold complete, mbind, M_bind, of_result. rewrite Hp. unfold _ensure_open. rewrite Ho.
  unfold _allocate_ordinal. rewrite (proj2 (Z.ltb_ge _ _)) by done. by rewrite Ho.
Qed.

Lemma invoke_calm delegate id (w : provider_world) r s :
  delegate (ticks w) = Returned r -> _snapshot_response r = Ok s ->
  invoke_delegate calm delegate id w
  = (mkWorld (db w) (S (ticks w)) (fields w) (history w ++ [Invoked id (db w)]), Ok s).
Proof. intros Hd Hs. unfold invoke_delegate, mbind, M_bind, elapse, of_result. cbn. by rewrite Hd, Hs. Qed.

(** From a granted reservation to the response. *)
Lemma dispatch_run delegate p id w c pair r quote i o :
  reachable (db w) -> _scope id (context p) = Ok tt -> charges (db w) !! id = Some c ->
  charge_in (context p) c = true -> state c = RESERVED -> is_Some (runs (db w) !! sc_run (context p)) ->
  reserved_nusd c = quote -> quote_model_call_nusd (pricing_candidates p) i o = Ok quote ->
  delegate (S (ticks w)) = Returned r -> _snapshot_response r = Ok r -> attributed_pair p r = Ok pair ->
  usage_input (usage r) <= i -> usage_output (usage r) <= o ->
  exists w' c' a, dispatch calm delegate p id w = (w', Ok r)
    /\ charges (db w') !! id = Some c' /\ state c' = RECONCILED /\ actual_nusd c' = Some a /\ a <= quote
    /\ price_model_usage_nusd pair.2 pair.1 (usage_input (usage r)) (usage_output (usage r))
         (usage_read (usage r)) (usage_write (usage r)) = Ok a.
Proof.
  intros Hr Hs Hc Hin Hst Hrun Hq Hquote Hdel Hsnap Hattr Hi Ho.
  destruct (dispatch_calm (db w) (Z.of_nat (ticks w)) id (context p) c Hr Hs Hc Hin Hst Hrun)
    as (st1 & c1 & E1 & Hr1 & Hc1 & Hst1 & (Eo & Ep & Er & _ & Eq) & Hrun1).
  destruct (attributed_inv _ _ _ Hattr) as [Hel Hcan].
  destruct (reconcile_calm st1 (Z.of_nat (S (S (ticks w)))) id (context p) c1 pair (usage r) i o quote
    (pricing_candidates p) r Hr1 Hs Hc1) as (st2 & c2 & a & E2 & Hc2 & Hs2 & Ha2 & Hle & Hpr); [..|done|done| |]; try done.
  { apply charge_in_spec in Hin as (? & ? & ?). apply charge_in_spec. split_and!; congruence. }
  { congruence. }
  eexists _, c2, a. split; [|split; [|by split_and!]].
  - unfold dispatch, mbind, M_bind.
    erewrite resistant_calm by (apply (call_calm Repo (fun now => repo_mark_dispatched now id (context p)) w); exact E1).
    cbn [cancellation value]. unfold try_with, settle, mbind, M_bind.
    erewrite invoke_calm by (exact Hdel || exact Hsnap). unfold of_result. rewrite Hattr.
    erewrite resistant_calm
      by (apply (call_calm Repo (fun now => repo_reconcile now id (context p) (usage_of pair (usage r)))); exact E2).
    reflexivity.
  - exact Hc2.
Qed.

(** ** Properties of every run

    For any repository with the laws, any forecast whose other clients are clients of
    the repository, and any behaviour of the wrapped provider. *)

(** C5. No call strands money: when a call was granted a reservation, then after the
    call, whatever failed or was cancelled on the way, the charge no longer holds
    money for a call that may still happen, unless the call reports
    [DurableModelChargeStateError]. *)
Theorem complete_never_strands {DB} `{ChargeRepositoryLaws DB} (forecast : nat -> weather DB) delegate sha256_hex image_ok
    (p : DurableBudgetedProvider) (rq : request) (w : world DB provider_fields (event DB)) :
  fair forecast -> db_ok (db w) ->
  let (w', r) := complete forecast delegate sha256_hex image_ok p rq w in
  forall id, Granted id ∈ drop (length (history w)) (history w') ->
    settled (db w') id \/ r = Err DurableModelChargeStateError.
Proof.
  intros Hothers Hok.
  pose proof (complete_spec forecast delegate sha256_hex image_ok Hothers p rq w Hok) as (id & _ & evs & Hh & Hev & Hset & _).
  destruct (complete _ _ _ _ p rq w) as [w' r]. cbn in *. intros id'. rewrite Hh, drop_app_length.
  destruct Hev as [| |d]; rewrite ?elem_of_cons, elem_of_nil; [by intros []|..];
    intros Hin; repeat destruct Hin as [[= ->]|Hin]; try done; by apply Hset.
Qed.

(** C6. One call invokes the wrapped provider at most once, only after its own
    reservation was granted, and only while that charge is durably dispatched; the
    only histories of a call are the three of [call_events]. *)
Theorem complete_dispatches_once {DB} `{ChargeRepositoryLaws DB} (forecast : nat -> weather DB) delegate sha256_hex image_ok
    (p : DurableBudgetedProvider) (rq : request) (w : world DB provider_fields (event DB)) :
  fair forecast -> db_ok (db w) ->
  exists id evs, history (complete forecast delegate sha256_hex image_ok p rq w).1 = history w ++ evs
    /\ call_events id evs.
Proof.
  intros Hothers Hok.
  destruct (complete_spec forecast delegate sha256_hex image_ok Hothers p rq w Hok) as (id & _ & evs & Hh & Hev & _).
  eauto.
Qed.

(** A response is returned only when it is paid for: the charge of the call is
    reconciled, at the exact price of the returned usage under a pair the provider may
    use, and within the reserved quote. *)
Theorem complete_success_is_paid {DB} `{ChargeRepositoryLaws DB} (forecast : nat -> weather DB) delegate sha256_hex image_ok
    (p : DurableBudgetedProvider) (rq : request) (w : world DB provider_fields (event DB)) (s : ModelResponse) :
  fair forecast -> db_ok (db w) ->
  (complete forecast delegate sha256_hex image_ok p rq w).2 = Ok s ->
  exists id, Granted id ∈ drop (length (history w)) (history (complete forecast delegate sha256_hex image_ok p rq w).1)
    /\ paid_for p (db (complete forecast delegate sha256_hex image_ok p rq w).1) id s.
Proof.
  intros Hothers Hok Hr.
  destruct (complete_spec forecast delegate sha256_hex image_ok Hothers p rq w Hok) as (id & _ & evs & Hh & Hev & _ & Hpaid).
  exists id. destruct (Hpaid _ Hr) as [Hne Hp]. split; [|done]. rewrite Hh, drop_app_length.
  destruct Hev; [done|left..].
Qed.

(** C7. A call within its limits succeeds: in calm weather, over a reachable ledger
    with room for the quote in the project and in the run, when the wrapped provider
    reports usage within the quoted tokens under a pair the provider may use, the call
    returns that response and its charge is reconciled at the exact price, which the
    quote covers. *)
Theorem quoted_call_succeeds (delegate : nat -> delegate_outcome) (h : string -> string)
    (image_ok : string -> bool) (p : DurableBudgetedProvider) (rq : request) (w : provider_world)
    (est quote : Z) (cand pair : string * string) (pr : ProjectBudgetRow) (run : RunRow) (r : ModelResponse) :
  let s := context p in
  let id := _charge_id h (sc_run s) (_next_ordinal (fields w)) in
  let quoted_input := Z.min (max_input_tokens p) (est + quote_input_headroom_tokens p) in
  hex_digest h -> _run_scope s = Ok tt -> Forall canonical (pricing_candidates p) ->
  estimate_request_input_tokens image_ok rq = Ok est -> prepare image_ok p rq = Ok (quote, cand) ->
  reachable (db w) -> _opened (fields w) = true -> 0 <= _next_ordinal (fields w) <= MAX_INT32 ->
  projects (db w) !! (sc_owner s, sc_project s) = Some pr ->
  runs (db w) !! sc_run s = Some run -> run_is s (sc_run s) run = true -> budget_opened_at run <> None ->
  quote <= limit_nusd pr - spent_nusd pr - project_reserved_nusd pr ->
  quote <= budget_limit_nusd run - budget_spent_nusd run - budget_reserved_nusd run ->
  charges (db w) !! id = None ->
  (forall k c, charges (db w) !! k = Some c -> ~ (run_id c = sc_run s /\ ordinal c = _next_ordinal (fields w))) ->
  delegate (S (S (ticks w))) = Returned r -> _snapshot_response r = Ok r -> attributed_pair p r = Ok pair ->
  usage_input (usage r) <= quoted_input -> usage_output (usage r) <= max_tokens rq ->
  exists w' c a, complete calm delegate h image_ok p rq w = (w', Ok r)
    /\ charges (db w') !! id = Some c /\ state c = RECONCILED /\ actual_nusd c = Some a /\ a <= quote
    /\ price_model_usage_nusd pair.2 pair.1 (usage_input (usage r)) (usage_output (usage r))
         (usage_read (usage r)) (usage_write (usage r)) = Ok a.
Proof.
  intros s id qi Hh Hs Hcan Hest Hprep Hr Hop Hord HP HR Hris Hopen Hpq Hrq Hnone Huni Hdel Hsnap Hattr Hi Ho.
  assert (quote_model_call_nusd (pricing_candidates p) qi (max_tokens rq) = Ok quote /\ cand ∈ pricing_candidates p)
    as [Hquote Hcand].
  { unfold prepare in Hprep. rewrite Hest in Hprep. inv_result. by apply quoted_candidate_inv. }
  destruct (complete_calm delegate h image_ok p rq w quote cand Hprep Hop ltac:(lia)) as (w0 & Edb & Et & ->).
  destruct (reserve_fresh_grants (db w) (Z.of_nat (ticks w)) s (_next_ordinal (fields w)) quote cand (_next_ordinal (fields w)) pr run h)
    as (st1 & E1 & Hc1 & Hrun1); try done.
  { by apply (proj1 (Forall_forall _ _) Hcan). }
  { by apply quote_bounded in Hquote. }
  rewrite <- Edb, <- Et in E1. pose proof (call_calm
    Repo (fun now => repo_reserve_call now id s (_next_ordinal (fields w)) quote cand.1 cand.2) w0 _ _ E1) as Hcall.
  set (w1 := mkWorld st1 (S (ticks w0)) (fields w0) (history w0 ++ [Granted id])).
  destruct (dispatch_run delegate p id w1 (new_charge (Z.of_nat (ticks w)) s (_next_ordinal (fields w)) quote cand.1 cand.2)
    pair r quote qi (max_tokens rq)) as (w' & c & a & E & Hrest); try done.
  - eapply rtc_r; [exact Hr|]. rewrite <- Edb.
    pose proof (step_reserve (Z.of_nat (ticks w0)) id s (_next_ordinal (fields w)) quote cand.1 cand.2
      (db w0) (db w0) (db w0)) as Hstep. fold (reserve_call (Z.of_nat (ticks w0)) id s (_next_ordinal (fields w)) quote
      cand.1 cand.2 (db w0)) in Hstep. unfold id in Hstep. rewrite E1 in Hstep. exact Hstep.
  - by apply scope_valid.
  - by apply charge_in_spec.
  - cbn. by rewrite Et.
  - exists w', c, a. split; [|done]. unfold reserve, mbind, M_bind.
    erewrite resistant_calm by exact Hcall. exact E.
Qed.

(** *** One call of a demonstration provider *)

Definition demo_digest (_ : string) : string := "0123456789abcdef0123456789abcdef0123456789abcdef0123456789abcdef".
Definition demo_provider : DurableBudgetedProvider :=
  mkProvider demo_scope 1000000 2000000 1000 100 [("anthropic", "claude-haiku-3")]%string.
Definition demo_request : request := mkRequest [mkMessage USER "hello" None [] []] [] 50 None None.
Definition demo_response : ModelResponse :=
  mkResponse (Some "hi"%string) [] (mkTokens 9 2 None None) None None None None.
Definition demo_world : provider_world := mkWorld demo_open 2 (mkFields true 0) [].

Lemma demo_charges_empty k : charges demo_open !! k = None.
Proof. assert (charges demo_open = ∅) as -> by (vm_compute; reflexivity). apply lookup_empty. Qed.

Lemma quoted_call_succeeds_witness : exists w' c,
  complete calm (fun _ => Returned demo_response) demo_digest (fun _ => true) demo_provider demo_request demo_world
    = (w', Ok demo_response)
  /\ charges (db w') !! _charge_id demo_digest "run-1" 0 = Some c /\ state c = RECONCILED.
Proof.
  destruct (quoted_call_succeeds (fun _ => Returned demo_response) demo_digest (fun _ => true) demo_provider
    demo_request demo_world 137 136563 ("anthropic", "claude-haiku-3")%string ("anthropic", "claude-haiku-3")%string
    (mkProject 2000000 0 0 1) (mkRun "alice" "proj" 1000000 0 0 (Some 1)) demo_response)
    as (w' & c & a & E & Hc & Hs & _).
  - intros s. split; reflexivity.
  - reflexivity.
  - repeat constructor.
  - vm_compute; reflexivity.
  - vm_compute; reflexivity.
  - apply demo_open_reachable.
  - reflexivity.
  - vm_compute; split; discriminate.
  - vm_compute; reflexivity.
  - vm_compute; reflexivity.
  - vm_compute; reflexivity.
  - discriminate.
  - vm_compute; discriminate.
  - vm_compute; discriminate.
  - apply demo_charges_empty.
  - intros k c Hk. exfalso. change (charges demo_open !! k = Some c) in Hk. by rewrite demo_charges_empty in Hk.
  - reflexivity.
  - vm_compute; reflexivity.
  - vm_compute; reflexivity.
  - vm_compute; discriminate.
  - vm_compute; discriminate.
  - exists w', c. split; [exact E|]. split; [exact Hc|exact Hs].
Defined.

(** A stormy run: the dispatch commits but its answer is lost, and the caller cancels
    during the recovery. *)
Definition storm (n : nat) : weather ledger :=
  if Nat.eqb n 3 then mkWeather (fun st : ledger => st) FailAfter false
  else mkWeather (fun st : ledger => st) Clean (Nat.eqb n 4).

Lemma storm_fair : fair storm.
Proof. intros n st _. unfold storm. destruct (Nat.eqb n 3); reflexivity. Qed.

Definition stormy : provider_world * result exn ModelResponse :=
  complete storm (fun _ => Returned demo_response) demo_digest (fun _ => true) demo_provider demo_request demo_world.

Lemma complete_never_strands_witness :
  settled (db stormy.1) (_charge_id demo_digest "run-1" 0) /\ stormy.2 = Err Cancelled.
Proof.
  pose proof (complete_never_strands storm (fun _ => Returned demo_response) demo_digest (fun _ => true)
    demo_provider demo_request demo_world storm_fair demo_open_reachable) as Hsafe.
  assert (stormy.2 = Err Cancelled) as Hr by (vm_compute; reflexivity).
  assert (Granted (_charge_id demo_digest "run-1" 0) ∈ drop (length (history demo_world)) (history stormy.1)) as Hin
    by (vm_compute; left).
  split; [|exact Hr]. fold stormy in Hsafe. destruct stormy as [w' r]. cbn [fst snd] in *.
  destruct (Hsafe _ Hin) as [?|E]; [done|congruence].
Defined.

Lemma complete_dispatches_once_witness : exists id evs,
  history stormy.1 = history demo_world ++ evs /\ call_events id evs.
Proof.
  pose proof (complete_dispatches_once storm (fun _ => Returned demo_response) demo_digest (fun _ => true)
    demo_provider demo_request demo_world storm_fair demo_open_reachable) as Honce.
  fold stormy in Honce. exact Honce.
Defined.

Definition fair_run : provider_world * result exn ModelResponse :=
  complete calm (fun _ => Returned demo_response) demo_digest (fun _ => true) demo_provider demo_request demo_world.

Lemma complete_success_is_paid_witness : exists id,
  fair_run.2 = Ok demo_response /\ paid_for demo_provider (db fair_run.1) id demo_response.
Proof.
  assert (fair_run.2 = Ok demo_response) as Hr by (vm_compute; reflexivity).
  pose proof (complete_success_is_paid calm (fun _ => Returned demo_response) demo_digest (fun _ => true)
    demo_provider demo_request demo_world demo_response calm_fair demo_open_reachable) as Hpaid.
  fold fair_run in Hpaid. destruct (Hpaid Hr) as (id & _ & Hp). exists id. split; [exact Hr|exact Hp].
Defined.

(** ** USD limits *)

(** The finite decimal [c * 10 ^ e] is the integer [n]. *)
Definition denotes (c e n : Z) : Prop := if 0 <=? e then n = c * 10 ^ e else c = n * 10 ^ (- e).

Lemma pow10_pos k : 0 < 10 ^ k \/ k < 0.
Proof. destruct (Z.lt_ge_cases k 0); [by right|left]. by apply Z.pow_pos_nonneg. Qed.

Lemma count_digits_spec fuel : forall c, 0 < c < 2 ^ Z.of_nat fuel ->
  10 ^ (count_digits fuel c - 1) <= c < 10 ^ count_digits fuel c /\ 1 <= count_digits fuel c.
Proof.
  induction fuel as [|fuel IH]; intros c Hc; [cbn in Hc; lia|]. cbn [count_digits].
  destruct (c <? 10) eqn:Hlt; bool_to_prop; [change (10 ^ (1 - 1)) with 1; change (10 ^ 1) with 10; lia|].
  rewrite Nat2Z.inj_succ, Z.pow_succ_r in Hc by lia.
  assert (0 < c / 10 < 2 ^ Z.of_nat fuel) as Hc'.
  { split; [apply Z.div_str_pos; lia|apply Z.div_lt_upper_bound; lia]. }
  destruct (IH _ Hc') as [[H1 H2] H3]. split; [|lia].
  replace (1 + count_digits fuel (c / 10) - 1) with (Z.succ (count_digits fuel (c / 10) - 1)) by lia.
  replace (1 + count_digits fuel (c / 10)) with (Z.succ (count_digits fuel (c / 10))) by lia.
  rewrite !Z.pow_succ_r by lia. pose proof (Z.div_mod c 10 ltac:(lia)). pose proof (Z.mod_pos_bound c 10 ltac:(lia)). lia.
Qed.

Lemma num_digits_spec c : 0 < c -> 10 ^ (num_digits c - 1) <= c < 10 ^ num_digits c /\ 1 <= num_digits c.
Proof.
  intros Hc. apply count_digits_spec. split; [done|].
  rewrite Z2Nat.id by (pose proof (Z.log2_nonneg c); lia). by apply Z.log2_spec.
Qed.

Lemma round_exact q d : 0 < d -> round_half_even (q * d) d = q.
Proof.
  intros Hd. unfold round_half_even. rewrite Z.div_mul, Z_mod_mult by lia.
  by rewrite (proj2 (Z.ltb_lt _ _)) by lia.
Qed.

Lemma denotes_shift q k e n : 0 <= k -> denotes (q * 10 ^ k) e n <-> denotes q (e + k) n.
Proof.
  intros Hk. unfold denotes. destruct (0 <=? e) eqn:He, (0 <=? e + k) eqn:Hek; bool_to_prop; try lia.
  - by rewrite <- Z.mul_assoc, <- Z.pow_add_r, (Z.add_comm k) by lia.
  - replace k with ((e + k) + - e) at 1 by lia. rewrite Z.pow_add_r, Z.mul_assoc by lia.
    assert (0 < 10 ^ (- e)) by (apply Z.pow_pos_nonneg; lia). split; [intros E%Z.mul_reg_r; lia|intros ->; lia].
  - replace (- e) with (- (e + k) + k) by lia. rewrite Z.pow_add_r, Z.mul_assoc by lia.
    assert (0 < 10 ^ k) by (apply Z.pow_pos_nonneg; lia). split; [intros E%Z.mul_reg_r; lia|intros ->; lia].
Qed.

(** The context does not round a coefficient of at most 28 digits times [10^9]. *)
Lemma fix_precision_exact c e n c' e' : 0 <= c < 10 ^ PREC ->
  fix_precision (c * 1000000000) e = (c', e') -> denotes c' e' n <-> denotes (c * 1000000000) e n.
Proof.
  intros Hc. unfold fix_precision. set (k := num_digits _ - PREC).
  destruct (k <=? 0) eqn:Hk; bool_to_prop; [by intros [= <- <-]|].
  destruct (Z.eq_dec c 0) as [->|Hne]; [by vm_compute in Hk|].
  destruct (num_digits_spec (c * 1000000000)) as [[Hlo Hhi] Hd]; [lia|].
  assert (k <= 9) as Hk9.
  { destruct (Z.lt_ge_cases 9 k); [exfalso|lia].
    assert (10 ^ (PREC + 9) <= 10 ^ (num_digits (c * 1000000000) - 1)) by (apply Z.pow_le_mono_r; lia).
    rewrite Z.pow_add_r in * by (unfold PREC; lia). lia. }
  assert (c * 1000000000 = c * 10 ^ (9 - k) * 10 ^ k) as E.
  { rewrite <- Z.mul_assoc, <- Z.pow_add_r by lia. by replace (9 - k + k) with 9 by lia. }
  rewrite E, round_exact by (apply Z.pow_pos_nonneg; lia).
  destruct (_ =? 10 ^ PREC) eqn:Hq; bool_to_prop.
  - exfalso. assert (c * 1000000000 = 10 ^ num_digits (c * 1000000000)) as Hbad; [|lia].
    rewrite E at 1. rewrite Hq, <- Z.pow_add_r by (unfold PREC in *; lia). f_equal. unfold k. lia.
  - intros [= <- <-]. symmetry. apply denotes_shift. lia.
Qed.

Lemma integral_denotes c e n :
  (decimal_is c e (to_integral_value c e) = true /\ to_integral_value c e = n) <-> denotes c e n.
Proof.
  unfold decimal_is, to_integral_value, denotes. destruct (0 <=? e) eqn:He; bool_to_prop.
  - rewrite Z.eqb_refl. naive_solver.
  - split; [intros [E <-]; by apply Z.eqb_eq|]. intros ->.
    rewrite round_exact by (apply Z.pow_pos_nonneg; lia). by rewrite Z.eqb_refl.
Qed.

(** A USD limit is converted exactly or refused: for a decimal of at most 28
    digits, the result is the integer number of nano-dollars the decimal denotes,
    and every negative, fractional or out-of-range limit is refused. *)
Theorem usd_limit_exact (negative : bool) (c e n : Z) : 0 <= c < 10 ^ PREC ->
  usd_limit_to_nusd (Finite negative c e) = Ok n <->
  (negative = true -> c = 0) /\ denotes (c * 1000000000) e n /\ 0 <= n <= MAX_BIGINT.
Proof.
  intros Hc. unfold usd_limit_to_nusd. destruct (fix_precision _ e) as [c' e'] eqn:Hfix.
  rewrite <- (fix_precision_exact c e n c' e' Hc Hfix), <- integral_denotes.
  destruct (negative && negb (c =? 0)) eqn:Hneg.
  { split; [done|]. intros [Hn _]. bool_to_prop. by apply Hn in H. }
  assert (negative = true -> c = 0) as Hn.
  { intros ->. cbn in Hneg. by bool_to_prop. }
  destruct (decimal_is _ _ _) eqn:Hd; cbn [negb]; [|naive_solver].
  destruct (in_bigint _) eqn:Hb.
  - apply in_bigint_spec in Hb. split; [intros; inv_result; done|]. by intros (_ & [_ ->] & _).
  - split; [done|]. intros (_ & [_ <-] & Hr). by apply in_bigint_spec in Hr; rewrite Hr in Hb.
Qed.

Lemma usd_limit_exact_witness : usd_limit_to_nusd (Finite false 125 (-2)) = Ok 1250000000.
Proof. apply usd_limit_exact; [by vm_compute|]. vm_compute. split_and!; done. Defined.

(** A wider decimal is rounded: a limit of 32 digits just above one dollar is
    accepted as exactly one dollar, though it denotes no whole number of
    nano-dollars. *)
Theorem usd_limit_rounds_wide :
  usd_limit_to_nusd (Finite false (10 ^ 31 + 1) (-31)) = Ok 1000000000
  /\ forall n, ~ denotes ((10 ^ 31 + 1) * 1000000000) (-31) n.
Proof.
  split; [vm_compute; reflexivity|]. intros n Hd. unfold denotes in Hd. cbn [Z.leb Z.compare] in Hd.
  apply (f_equal (fun x => x mod 10 ^ 31)) in Hd. rewrite Z_mod_mult in Hd. by vm_compute in Hd.
Qed.
