(* ===== verification/Policy.v ===== *)
(** * Policy rules and their evaluation ([security/policy.py])

    Canonical resources (tools, lexical paths, hosts), validated rules and requests,
    and [RulePolicyEngine.evaluate]. Text is ASCII, where NFC is the identity and the
    control category is code points below 32 and 127; [idna_encode] stands for the
    [idna] package. *)

From Stdlib Require Import ZArith Lia String Ascii.
From stdpp Require Import base gmap strings list sets fin_sets.
From S2P Require Import Prelude Strings.
Open Scope Z_scope.

(** ** Data *)

Inductive PolicyAction : Type := ALLOW | ASK | DENY.
Inductive RiskClass : Type := READ | WRITE | EXECUTE | NETWORK | SECRET | EXTERNAL_SIDE_EFFECT.
Inductive ResourceKind : Type := TOOL_KIND | PATH | HOST.

#[export] Instance PolicyAction_eq_dec : EqDecision PolicyAction.
Proof. solve_decision. Defined.
#[export] Instance RiskClass_eq_dec : EqDecision RiskClass.
Proof. solve_decision. Defined.
#[export] Instance ResourceKind_eq_dec : EqDecision ResourceKind.
Proof. solve_decision. Defined.

Definition risk_code (r : RiskClass) : nat :=
  match r with READ => 0 | WRITE => 1 | EXECUTE => 2 | NETWORK => 3 | SECRET => 4 | EXTERNAL_SIDE_EFFECT => 5 end.
Definition risk_decode (n : nat) : option RiskClass :=
  match n with
  | 0 => Some READ | 1 => Some WRITE | 2 => Some EXECUTE | 3 => Some NETWORK | 4 => Some SECRET
  | 5 => Some EXTERNAL_SIDE_EFFECT | _ => None
  end%nat.

#[export] Program Instance RiskClass_countable : Countable RiskClass :=
  inj_countable risk_code risk_decode _.
Next Obligation. by intros []. Qed.

(** [ValueError] is the only error of these validations on well-typed input. *)
Inductive policy_error : Type := PolicyValueError.

#[export] Instance policy_error_eq_dec : EqDecision policy_error.
Proof. solve_decision. Defined.

Record ResourcePattern : Type := mkPattern { kind : ResourceKind; pattern : string }.

#[export] Instance ResourcePattern_eq_dec : EqDecision ResourcePattern.
Proof. solve_decision. Defined.

Record PolicyRule : Type := mkRule {
  rule_id : string;
  action : PolicyAction;
  resources : list ResourcePattern;
  risk_classes : gset RiskClass;
  rule_description : string;
  enabled : bool
}.

Record PolicyRequest : Type := mkPolicyRequest {
  request_tool : string;
  request_resources : list ResourcePattern;
  request_risks : gset RiskClass;
  legacy_requires_approval : bool
}.

#[export] Instance PolicyRequest_eq_dec : EqDecision PolicyRequest.
Proof. solve_decision. Defined.

Record PolicyDecision : Type := mkDecision {
  decided : PolicyAction;
  decision_risks : gset RiskClass;
  matched_rule_id : option string;
  reason : string;
  specificity : Z * Z * Z
}.

(** ** Canonical text *)

Definition is_control (c : ascii) : bool :=
  (nat_of_ascii c <? 32)%nat || (nat_of_ascii c =? 127)%nat.

Definition _text (value : string) (strip : bool) : result policy_error string :=
  if negb (string_forall (fun c => negb (is_control c)) value) then Err PolicyValueError
  else let value := if strip then strip_spaces value else value in
       if string_eqb value "" then Err PolicyValueError else Ok value.

Definition star : ascii := "*"%char.
Definition slash : ascii := "/"%char.
Definition backslash : ascii := "\"%char.

Definition _canonical_tool (value : string) (as_pattern : bool) : result policy_error string :=
  value ← lower <$> _text value true;
  if as_pattern && string_eqb value "*" then Ok value
  else if contains_char star value then Err PolicyValueError
  else Ok value.

Definition canonical_tool_name (value : string) : result policy_error string := _canonical_tool value false.

(** The loop of [posixpath.normpath] on the components of a path with one leading
    slash; the new components are kept in reverse. *)
Definition norm_step (acc : list string) (comp : string) : list string :=
  if bool_decide (comp ∈ [""; "."]%string) then acc
  else if negb (string_eqb comp "..") || bool_decide (head acc = Some ".."%string) then comp :: acc
  else tail acc.

Definition normpath_rooted (path : string) : string :=
  String slash (join_with "/" (rev (fold_left norm_step (split_on slash path) []))).

Definition _normalize_absolute_path (value : string) : result policy_error string :=
  let value := replace_char backslash slash value in
  if negb (starts_with "/" value) then Err PolicyValueError
  else Ok (normpath_rooted (String slash (lstrip_char slash value))).

Definition _canonical_path (value : string) (as_pattern : bool) : result policy_error string :=
  value ← _text value false;
  if negb as_pattern && contains_char star value then Err PolicyValueError
  else if negb (contains_char star value) then _normalize_absolute_path value
  else
    let value := replace_char backslash slash value in
    if string_eqb value "/**" then Ok value
    else if negb (ends_with "/**" value) || contains_char star (string_drop_end 3 value)
    then Err PolicyValueError
    else
      prefix ← _normalize_absolute_path (string_drop_end 3 value);
      Ok (if string_eqb prefix "/" then "/**"%string else String.append prefix "/**").

(** *** Hosts *)

Definition is_digits (s : string) : bool := negb (string_eqb s "") && string_forall is_digit s.

Definition decimal_value (s : string) : Z :=
  (fix go (acc : Z) (s : string) :=
     match s with
     | EmptyString => acc
     | String c s' => go (acc * 10 + (Z.of_nat (nat_of_ascii c) - 48)) s'
     end) 0 s.

(** An octet of [ipaddress.IPv4Address]: up to three digits, no leading zero. *)
Definition ipv4_octet (s : string) : bool :=
  is_digits s && (String.length s <=? 3)%nat
  && negb (starts_with "0" s && negb (string_eqb s "0")) && (decimal_value s <=? 255).

(** [IPv4Address(s)] accepts [s]; its text is then [s] itself. *)
Definition is_ipv4 (s : string) : bool :=
  let octets := split_on "." s in
  (length octets =? 4)%nat && forallb ipv4_octet octets.

Definition is_hex_lower (c : ascii) : bool := is_digit c || between "a" "f" c.

(** A label that makes a host a numeric alias when all its labels are such. *)
Definition numeric_label (label : string) : bool :=
  is_digits label
  || (starts_with "0x" label && (2 <? String.length label)%nat && string_forall is_hex_lower (string_drop 2 label)).

Definition valid_label (label : string) : bool :=
  negb (string_eqb label "") && (String.length label <=? 63)%nat
  && negb (starts_with "-" label) && negb (ends_with "-" label)
  && string_forall (fun c => is_alnum c || Ascii.eqb c "-") label.

Section policy.
Context (idna_encode : string -> option string).

Definition _canonical_hostname (value : string) : result policy_error string :=
  if contains_char slash value || contains_char "@" value || contains_char ":" value then Err PolicyValueError
  else
    let value := rstrip_char "." value in
    if string_eqb value "" || starts_with "." value then Err PolicyValueError
    else match idna_encode value with
    | None => Err PolicyValueError
    | Some encoded =>
        let ascii_host := lower encoded in
        if is_ipv4 ascii_host then Ok ascii_host
        else if forallb numeric_label (split_on "." ascii_host) then Err PolicyValueError
        else if (253 <? String.length ascii_host)%nat then Err PolicyValueError
        else if negb (forallb valid_label (split_on "." ascii_host)) then Err PolicyValueError
        else Ok ascii_host
    end.

Definition _canonical_host (value : string) (as_pattern : bool) : result policy_error string :=
  value ← lower <$> _text value true;
  if as_pattern && string_eqb value "*" then Ok value
  else if starts_with "*." value && as_pattern then
    suffix ← _canonical_hostname (string_drop 2 value);
    Ok (String.append "*." suffix)
  else if contains_char star value then Err PolicyValueError
  else _canonical_hostname value.

Definition _canonical_resource (k : ResourceKind) (value : string) (as_pattern : bool) : result policy_error string :=
  match k with
  | TOOL_KIND => _canonical_tool value as_pattern
  | PATH => _canonical_path value as_pattern
  | HOST => _canonical_host value as_pattern
  end.

(** [ResourcePattern(kind, value)] *)
Definition new_pattern (k : ResourceKind) (value : string) : result policy_error ResourcePattern :=
  p ← _canonical_resource k value true; Ok (mkPattern k p).
End policy.

Definition is_wildcard (r : ResourcePattern) : bool := contains_char star (pattern r).

(** ** Rules and requests *)

(** [PolicyRule(..)] *)
Definition new_rule (id : string) (a : PolicyAction) (rs : list ResourcePattern) (risks : gset RiskClass)
    (description : string) (on : bool) : result policy_error PolicyRule :=
  id' ← _text id true;
  _ ← require (bool_decide (NoDup rs)) PolicyValueError;
  _ ← require (string_forall (fun c => negb (is_control c)) description) PolicyValueError;
  _ ← require (negb (bool_decide (a ∈ [ALLOW; ASK]) && bool_decide (rs = []) && bool_decide (risks = ∅)))
        PolicyValueError;
  Ok (mkRule id' a rs risks description on).

(** [PolicyRequest(..)] *)
Definition new_request (tool : string) (rs : list ResourcePattern) (risks : gset RiskClass) (legacy : bool)
  : result policy_error PolicyRequest :=
  tool' ← _canonical_tool tool false;
  _ ← require (negb (existsb (fun r => bool_decide (kind r = TOOL_KIND)) rs)) PolicyValueError;
  _ ← require (negb (existsb is_wildcard rs)) PolicyValueError;
  Ok (mkPolicyRequest tool' rs risks legacy).

Definition _resource_matches (rule_resource request_resource : ResourcePattern) : bool :=
  if negb (bool_decide (kind rule_resource = kind request_resource)) then false
  else
    let pat := pattern rule_resource in
    let concrete := pattern request_resource in
    if negb (is_wildcard rule_resource) then string_eqb pat concrete
    else match kind rule_resource with
    | TOOL_KIND => true
    | PATH =>
        if string_eqb pat "/**" then true
        else starts_with (String.append (string_drop_end 3 pat) "/") concrete
    | HOST =>
        if string_eqb pat "*" then true
        else let suffix := string_drop 2 pat in
             ends_with (String.append "." suffix) concrete && negb (string_eqb concrete suffix)
    end.

Definition bool_z (b : bool) : Z := if b then 1 else 0.

Definition literal_length (r : ResourcePattern) : Z :=
  Z.of_nat (String.length (string_filter (fun c => negb (Ascii.eqb c star)) (pattern r))).

Definition _specificity (rule : PolicyRule) : Z * Z * Z :=
  (foldr (fun r acc => bool_z (negb (is_wildcard r)) + acc) 0 (resources rule),
   foldr (fun r acc => literal_length r + acc) 0 (resources rule),
   bool_z (negb (bool_decide (risk_classes rule = ∅)))).

(** Order of Python tuples. *)
Definition spec_leb (a b : Z * Z * Z) : bool :=
  let '(a1, a2, a3) := a in
  let '(b1, b2, b3) := b in
  (a1 <? b1) || ((a1 =? b1) && ((a2 <? b2) || ((a2 =? b2) && (a3 <=? b3)))).

Record RulePolicyEngine : Type := mkEngine { rules : list PolicyRule; default_action : PolicyAction }.

Definition new_engine (rs : list PolicyRule) (default : PolicyAction) : result policy_error RulePolicyEngine :=
  _ ← require (bool_decide (NoDup (rule_id <$> rs))) PolicyValueError;
  Ok (mkEngine rs default).

(** The risk test of a rule: a DENY rule needs one common class, any other rule must
    cover all of the request's. *)
Definition risks_match (rule : PolicyRule) (request : PolicyRequest) : bool :=
  if bool_decide (risk_classes rule = ∅) then true
  else if bool_decide (action rule = DENY) then negb (bool_decide (risk_classes rule ## request_risks request))
  else bool_decide (request_risks request ⊆ risk_classes rule).

Definition concrete_resources (request : PolicyRequest) : list ResourcePattern :=
  mkPattern TOOL_KIND (request_tool request) :: request_resources request.

Definition rule_matches (rule : PolicyRule) (request : PolicyRequest) : bool :=
  enabled rule && risks_match rule request
  && forallb (fun r => existsb (_resource_matches r) (concrete_resources request)) (resources rule).

(** [max] of a non-empty list of specificities. *)
Definition spec_max (l : list (Z * Z * Z)) : Z * Z * Z :=
  match l with
  | [] => (0, 0, 0)
  | x :: l' => fold_left (fun a b => if spec_leb b a then a else b) l' x
  end.

Definition winner (matches : list PolicyRule) : option PolicyRule :=
  let best := spec_max (_specificity <$> matches) in
  let tied := List.filter (fun r => bool_decide (_specificity r = best)) matches in
  let deny := List.filter (fun r => bool_decide (action r = DENY)) tied in
  last (if bool_decide (deny = []) then tied else deny).

Definition action_value (a : PolicyAction) : string :=
  match a with ALLOW => "allow" | ASK => "ask" | DENY => "deny" end%string.

Open Scope string_scope.

Definition evaluate (engine : RulePolicyEngine) (request : PolicyRequest) : PolicyDecision :=
  let risks := request_risks request in
  if bool_decide (risks = ∅) then
    mkDecision DENY risks None "unclassified request denied by safety fallback" (0, 0, 0)%Z
  else
    let matches := List.filter (fun r => rule_matches r request) (rules engine) in
    match winner matches with
    | Some rule =>
        let detail := if string_eqb (rule_description rule) "" then "" else ": " ++ rule_description rule in
        mkDecision (action rule) risks (Some (rule_id rule))
          ("matched policy rule '" ++ rule_id rule ++ "'" ++ detail) (spec_max (_specificity <$> matches))
    | None =>
        if legacy_requires_approval request then
          mkDecision ASK risks None "legacy approval requirement requested human approval" (0, 0, 0)%Z
        else if negb (bool_decide (risks ∖ {[ READ ]} = ∅)) then
          mkDecision DENY risks None
            "unclassified or unmatched side-effecting request denied by safety fallback" (0, 0, 0)%Z
        else
          mkDecision (default_action engine) risks None
            ("no policy rule matched; using default action '" ++ action_value (default_action engine) ++ "'")
            (0, 0, 0)%Z
    end.

Close Scope string_scope.

(** ** Lemmas on paths *)

(** A component of a canonical path. *)
Definition good_segment (s : string) : Prop :=
  s <> "" /\ s <> "." /\ s <> ".." /\ contains_char slash s = false /\ contains_char backslash s = false.

Definition plain_segment (s : string) : Prop :=
  contains_char slash s = false /\ contains_char backslash s = false.

Definition rooted (segments : list string) : string := String slash (join_with "/" segments).

Lemma norm_step_good acc comp : Forall good_segment acc -> plain_segment comp ->
  Forall good_segment (norm_step acc comp).
Proof.
  intros Hacc [Hs Hb]. unfold norm_step. case_bool_decide as Hin; [done|].
  rewrite !elem_of_cons, elem_of_nil in Hin.
  destruct (string_eqb comp "..") eqn:Hdd; cbn [negb orb]; bool_to_prop; [|constructor; [|done]; repeat split; tauto].
  case_bool_decide as Hh; [|by destruct Hacc].
  destruct Hacc as [|x l Hx]; [done|]. injection Hh as ->. by destruct Hx as (_ & _ & ? & _).
Qed.

Lemma fold_norm_good l : forall acc, Forall good_segment acc -> Forall plain_segment l ->
  Forall good_segment (fold_left norm_step l acc).
Proof.
  induction l as [|x l IH]; intros acc Hacc Hl; [done|]. apply Forall_cons in Hl as [? ?]. cbn.
  apply IH; [by apply norm_step_good|done].
Qed.

Lemma fold_norm_id l : forall acc, Forall good_segment l -> fold_left norm_step l acc = (rev l ++ acc)%list.
Proof.
  induction l as [|x l IH]; intros acc Hl; [done|]. apply Forall_cons in Hl as [(H1 & H2 & H3 & _) Hl].
  cbn [fold_left rev]. rewrite IH by done. rewrite <- (app_assoc (rev l)). cbn. f_equal.
  unfold norm_step. rewrite bool_decide_eq_false_2 by (rewrite !elem_of_cons, elem_of_nil; tauto).
  by rewrite (proj2 (string_eqb_neq _ _) H3).
Qed.

Lemma split_forall P d s : string_forall P s = true -> Forall (fun x => string_forall P x = true) (split_on d s).
Proof.
  induction s as [|c s IH]; [by repeat constructor|]. cbn [string_forall split_on]. intros [Hc Hs]%andb_true_iff.
  specialize (IH Hs). destruct (Ascii.eqb c d); [by constructor|].
  destruct (split_on d s) as [|x l]; [by repeat constructor; cbn; rewrite Hc|].
  apply Forall_cons in IH as [Hx Hl]. constructor; [cbn; by rewrite Hc, Hx|done].
Qed.

Lemma join_forall P d l : string_forall P d = true -> Forall (fun x => string_forall P x = true) l ->
  string_forall P (join_with d l) = true.
Proof.
  intros Hd. induction l as [|x l IH]; intros Hl; [done|]. apply Forall_cons in Hl as [Hx Hl].
  destruct l as [|y l]; [done|]. rewrite join_cons_ne, !string_forall_app, Hx, Hd by done. by apply IH.
Qed.

Lemma fold_norm_incl l : forall acc x, x ∈ fold_left norm_step l acc -> x ∈ l \/ x ∈ acc.
Proof.
  induction l as [|y l IH]; intros acc x Hx; [by right|]. cbn in Hx. apply IH in Hx as [?|Hx]; [left; by right|].
  unfold norm_step in Hx. rewrite elem_of_cons.
  repeat case_match; [by right| |].
  - apply elem_of_cons in Hx as [->|?]; [by left; left|by right].
  - right. destruct acc; [done|by right].
Qed.

Lemma norm_forall P s : P slash = true -> string_forall P s = true -> string_forall P (normpath_rooted s) = true.
Proof.
  intros Hsl Hs. unfold normpath_rooted. cbn [string_forall]. rewrite Hsl. cbn [andb].
  apply join_forall; [by apply andb_true_iff|]. apply Forall_forall. intros x Hx.
  apply list_elem_of_In, in_rev, list_elem_of_In, fold_norm_incl in Hx as [Hx|Hx]; [|by apply elem_of_nil in Hx].
  by apply (proj1 (Forall_forall _ _) (split_forall P slash s Hs)).
Qed.

Lemma normpath_shape s : contains_char backslash s = false ->
  exists segs, normpath_rooted s = rooted segs /\ Forall good_segment segs.
Proof.
  intros Hb. exists (rev (fold_left norm_step (split_on slash s) [])). split; [done|].
  apply Forall_rev, fold_norm_good; [constructor|]. apply Forall_forall. intros x Hx. split.
  - by apply (proj1 (Forall_forall _ _) (split_on_free slash s)).
  - unfold contains_char in *. apply negb_false_iff. apply negb_false_iff in Hb.
    by apply (proj1 (Forall_forall _ _) (split_forall _ slash s Hb)).
Qed.

Lemma good_split segs : Forall good_segment segs -> segs <> [] -> split_on slash (join_with "/" segs) = segs.
Proof.
  intros Hg Hne. apply split_join; [done|]. eapply Forall_impl; [exact Hg|]. by intros x (_ & _ & _ & ? & _).
Qed.

Lemma join_head_not_slash segs : Forall good_segment segs -> lstrip_char slash (join_with "/" segs) = join_with "/" segs.
Proof.
  destruct segs as [|x l]; [done|]. intros [(Hne & _ & _ & Hs & _) _]%Forall_cons.
  assert (exists c t, join_with "/" (x :: l) = String c t /\ c <> slash) as (c & t & -> & Hc).
  { destruct x as [|c x]; [done|]. rewrite contains_char_cons in Hs. apply orb_false_iff in Hs as [Hc _].
    apply Ascii.eqb_neq in Hc. destruct l; [by exists c, x|]. rewrite join_cons_ne by done.
    by eexists c, _; rewrite string_app_cons. }
  cbn [lstrip_char]. by rewrite (proj2 (Ascii.eqb_neq _ _) Hc).
Qed.

Lemma rooted_no_backslash segs : Forall good_segment segs -> contains_char backslash (rooted segs) = false.
Proof.
  intros Hg. unfold contains_char. apply negb_false_iff. unfold rooted. cbn [string_forall]. cbn [andb].
  apply join_forall; [done|]. eapply Forall_impl; [exact Hg|]. intros x (_ & _ & _ & _ & Hb).
  by apply negb_false_iff in Hb.
Qed.

(** A canonical path is its own normal form. *)
Lemma normalize_rooted segs : Forall good_segment segs -> _normalize_absolute_path (rooted segs) = Ok (rooted segs).
Proof.
  intros Hg. unfold _normalize_absolute_path. rewrite replace_char_free by by apply rooted_no_backslash.
  assert (starts_with "/" (rooted segs) = true) as -> by (apply starts_with_spec; by exists (join_with "/" segs)).
  cbn [negb]. unfold rooted at 1. cbn [lstrip_char]. rewrite Ascii.eqb_refl, join_head_not_slash by done.
  unfold normpath_rooted. cbn [split_on]. rewrite Ascii.eqb_refl. cbn [fold_left].
  change (norm_step [] "") with (@nil string).
  destruct (decide (segs = [])) as [->|Hne]; [done|].
  rewrite good_split, fold_norm_id, app_nil_r, rev_involutive by done. done.
Qed.

Lemma replace_forall P a b s : P b = true -> string_forall P s = true -> string_forall P (replace_char a b s) = true.
Proof.
  intros Hb. unfold replace_char. induction s as [|c s IH]; [done|]. cbn [string_forall string_map].
  intros [Hc Hs]%andb_true_iff. apply andb_true_iff. split; [by destruct (Ascii.eqb c a)|auto].
Qed.

Lemma lstrip_forall P d s : string_forall P s = true -> string_forall P (lstrip_char d s) = true.
Proof.
  induction s as [|c s IH]; [done|]. cbn [string_forall lstrip_char]. intros [Hc Hs]%andb_true_iff.
  destruct (Ascii.eqb c d); [auto|]. cbn [string_forall]. by apply andb_true_iff.
Qed.

Lemma normalize_inv v p : _normalize_absolute_path v = Ok p ->
  (exists segs, p = rooted segs /\ Forall good_segment segs)
  /\ forall P, P slash = true -> string_forall P v = true -> string_forall P p = true.
Proof.
  unfold _normalize_absolute_path. destruct (starts_with _ _); cbn [negb]; [|done]. intros Hp. inv_result.
  set (r := replace_char backslash slash v). split.
  - apply normpath_shape. rewrite contains_char_cons. cbn [orb].
    apply lstrip_contains, replace_char_gone. done.
  - intros P HP Hv. apply norm_forall; [done|]. cbn [string_forall]. rewrite HP. cbn [andb].
    by apply lstrip_forall, replace_forall.
Qed.

Lemma text_inv v b t : _text v b = Ok t ->
  t = (if b then strip_spaces v else v) /\ t <> ""%string
  /\ string_forall (fun c => negb (is_control c)) v = true.
Proof.
  unfold _text. destruct (string_forall _ v) eqn:Hc; cbn [negb]; [|done].
  destruct (string_eqb _ "") eqn:He; [done|]. intros Ht. inv_result. bool_to_prop. done.
Qed.

Lemma text_intro v : v <> ""%string -> string_forall (fun c => negb (is_control c)) v = true -> _text v false = Ok v.
Proof. intros Hne Hc. unfold _text. rewrite Hc. cbn [negb]. by rewrite (proj2 (string_eqb_neq _ _) Hne). Qed.

Lemma no_star s : contains_char star s = false <-> string_forall (fun c => negb (Ascii.eqb c star)) s = true.
Proof. unfold contains_char. by rewrite negb_false_iff. Qed.

Lemma drop_suffix q : string_drop_end 3 (String.append q "/**") = q.
Proof. exact (drop_end_app q "/**"). Qed.

(** The two shapes of a canonical path. *)
Lemma canonical_path_inv v b p : _canonical_path v b = Ok p ->
  string_forall (fun c => negb (is_control c)) p = true /\
  exists segs, Forall good_segment segs /\ contains_char star (rooted segs) = false /\
    ((p = rooted segs) \/
     (b = true /\ p = (if decide (segs = []) then "/**"%string else String.append (rooted segs) "/**"))).
Proof.
  unfold _canonical_path. intros Hp. inv_result.
  match goal with H : _text _ _ = Ok _ |- _ => apply text_inv in H as (-> & Hne & Hc) end.
  destruct (negb b && contains_char star v) eqn:Hnb; [done|].
  destruct (contains_char star v) eqn:Hstar; cbn [negb] in Hp.
  - destruct b; [|done]. cbn in Hnb. clear Hnb.
    destruct (string_eqb _ "/**") eqn:Hall.
    { apply string_eqb_spec in Hall. rewrite Hall in Hp. inv_result. split; [done|]. exists []. by split_and!; [..|right]. }
    destruct (negb _ || _) eqn:Hbad; [done|]. inv_result. bool_to_prop.
    match goal with H : ends_with _ _ = true |- _ => apply ends_with_spec in H as [q Hq] end.
    rewrite Hq in *. rewrite (drop_suffix q) in *.
    match goal with H : _normalize_absolute_path _ = Ok _ |- _ => apply normalize_inv in H as [(segs & -> & Hg) Hf] end.
    assert (string_forall (fun c => negb (is_control c)) q = true) as Hqc.
    { assert (string_forall (fun c => negb (is_control c)) (replace_char backslash slash v) = true) as Hr
        by by apply replace_forall. rewrite Hq, string_forall_app in Hr. by apply andb_true_iff in Hr as [? _]. }
    assert (string_forall (fun c => negb (is_control c)) (rooted segs) = true) as Hsc by by apply Hf.
    assert (contains_char star (rooted segs) = false) as Hss by (apply no_star, Hf; [done|by apply no_star]).
    destruct (string_eqb (rooted segs) "/") eqn:Hroot; bool_to_prop.
    + split; [done|]. exists []. split_and!; [done..|by right].
    + split; [by rewrite string_forall_app, Hsc|]. exists segs. split_and!; [done..|]. right. split; [done|].
      destruct (decide (segs = [])) as [->|]; [done|done].
  - apply normalize_inv in Hp as [(segs & -> & Hg) Hf]. split; [by apply Hf|]. exists segs.
    split_and!; [done| |by left]. by apply no_star, Hf; [|apply no_star].
Qed.

(** Canonical paths are fixed points: what [_canonical_path] accepts and returns,
    it accepts again unchanged; without a wildcard it is a rooted path whose
    components are non-empty, free of separators and never dots, and a pattern is
    such a path followed by [/**]. *)
Theorem canonical_path_idempotent (v : string) (as_pattern : bool) (p : string) :
  _canonical_path v as_pattern = Ok p ->
  _canonical_path p as_pattern = Ok p /\
  exists segs, Forall good_segment segs /\
    (p = rooted segs \/ p = (if decide (segs = []) then "/**"%string else String.append (rooted segs) "/**")).
Proof.
  intros (Hc & segs & Hg & Hs & Hor)%canonical_path_inv. split; [|exists segs; split; [done|]; destruct Hor as [?|[_ ?]]; auto].
  assert (forall s, rooted s <> ""%string) as Hne by done.
  unfold _canonical_path. destruct Hor as [->|[-> ->]].
  - rewrite text_intro by done. cbn [mbind result_bind]. rewrite Hs, andb_false_r. cbn [negb].
    by apply normalize_rooted.
  - destruct (decide (segs = [])) as [->|Hsegs]; [done|].
    rewrite text_intro by done. cbn [mbind result_bind negb andb].
    rewrite contains_char_app. replace (contains_char star "/**") with true by done. rewrite orb_true_r. cbn [negb].
    rewrite replace_char_free by (rewrite contains_char_app, rooted_no_backslash; done).
    assert (String.append (rooted segs) "/**" <> "/**"%string) as Hlong.
    { intros E. apply (f_equal String.length) in E. rewrite length_string_app in E. cbn in E. lia. }
    rewrite (proj2 (string_eqb_neq _ _) Hlong).
    rewrite (proj2 (ends_with_spec "/**" _)) by (by exists (rooted segs)).
    rewrite (drop_suffix (rooted segs)), Hs. cbn [negb orb]. rewrite normalize_rooted by done.
    cbn [mbind result_bind].
    assert (rooted segs <> "/"%string) as Hroot.
    { destruct segs as [|x l]; [done|]. apply Forall_cons in Hg as [(Hx & _) _]. intros [= E].
      destruct l; cbn in E; [done|]. apply (f_equal String.length) in E.
      rewrite !length_string_app in E. destruct x; [done|]. cbn in E. lia. }
    by rewrite (proj2 (string_eqb_neq _ _) Hroot).
Qed.

Lemma canonical_path_idempotent_witness :
  _canonical_path "/srv//a/./b/../c\d/**" true = Ok "/srv/a/c/d/**"%string
  /\ _canonical_path "/srv/a/c/d/**" true = Ok "/srv/a/c/d/**"%string.
Proof.
  split; [vm_compute; reflexivity|].
  apply (canonical_path_idempotent "/srv//a/./b/../c\d/**" true). vm_compute; reflexivity.
Defined.

Lemma split_join_app d l t : l <> [] -> Forall (fun x => contains_char d x = false) l ->
  split_on d (String.append (join_with (String d "") l) (String d t)) = (l ++ split_on d t)%list.
Proof.
  induction l as [|x l IH]; [done|]. intros _ [Hx Hl]%Forall_cons.
  destruct l as [|y l]; [by apply split_on_app|].
  rewrite join_cons_ne by done. rewrite <- !string_app_assoc.
  change (String.append (String d "") (String.append (join_with (String d "") (y :: l)) (String d t)))
    with (String d (String.append (join_with (String d "") (y :: l)) (String d t))).
  rewrite split_on_app by done. cbn [app]. f_equal. by apply IH.
Qed.

Lemma prefix_segments ps cs : ps <> [] -> Forall good_segment ps -> Forall good_segment cs ->
  starts_with (String.append (rooted ps) "/") (rooted cs) = true <-> exists x l, cs = (ps ++ x :: l)%list.
Proof.
  intros Hne Hps Hcs. rewrite starts_with_spec.
  assert (Forall (fun x => contains_char slash x = false) ps) as Hfree.
  { eapply Forall_impl; [exact Hps|]. by intros x (_ & _ & _ & ? & _). }
  split.
  - intros [t Ht]. unfold rooted in Ht. rewrite <- string_app_assoc in Ht. injection Ht as Ht.
    change (String.append "/" t) with (String slash t) in Ht.
    destruct (decide (cs = [])) as [->|Hc].
    { apply (f_equal String.length) in Ht. rewrite length_string_app in Ht. cbn in Ht. lia. }
    apply (f_equal (split_on slash)) in Ht. rewrite good_split in Ht by done.
    change "/"%string with (String slash "") in Ht. rewrite split_join_app in Ht by done.
    pose proof (split_on_nonempty slash t). destruct (split_on slash t) as [|x l]; [done|]. by exists x, l.
  - intros (x & l & ->). exists (join_with "/" (x :: l)). unfold rooted.
    rewrite join_with_app by done. rewrite <- !string_app_assoc. done.
Qed.

(** A path rule is confined to its directory, component by component: a canonical
    wildcard path rule matches a canonical concrete path exactly when the rule is
    [/**] or the path's components properly extend the rule's; a sibling that only
    shares a textual prefix, or the directory itself, never matches. *)
Theorem path_rule_is_segmentwise (idna : string -> option string) (v u : string) (rule request : ResourcePattern) :
  new_pattern idna PATH v = Ok rule -> is_wildcard rule = true ->
  new_pattern idna PATH u = Ok request -> is_wildcard request = false ->
  exists ps cs, Forall good_segment ps /\ Forall good_segment cs
    /\ pattern rule = (if decide (ps = []) then "/**"%string else String.append (rooted ps) "/**")
    /\ pattern request = rooted cs
    /\ (_resource_matches rule request = true <-> ps = [] \/ exists x l, cs = (ps ++ x :: l)%list).
Proof.
  unfold new_pattern, is_wildcard. intros Hr Hrw Hq Hqw.
  destruct (_canonical_resource idna PATH v true) as [pv|] eqn:Ev; [|done].
  destruct (_canonical_resource idna PATH u true) as [pu|] eqn:Eu; [|done].
  cbn [mbind result_bind] in Hr, Hq. inv_result. cbn [pattern] in *.
  apply canonical_path_inv in Ev as (_ & segs0 & Hg0 & Hs0 & Hor0).
  apply canonical_path_inv in Eu as (_ & segs & Hg & Hs & Hor).
  destruct Hor as [->|[_ ->]]; [|exfalso].
  2:{ revert Hqw. destruct (decide (segs = [])); [done|]. by rewrite contains_char_app, orb_true_r. }
  destruct Hor0 as [->|[_ ->]]; [congruence|].
  exists segs0, segs. split_and!; [done..|].
  unfold _resource_matches, is_wildcard. cbn [kind pattern]. rewrite bool_decide_eq_true_2 by done. cbn [negb].
  rewrite Hrw. cbn [negb]. destruct (decide (segs0 = [])) as [->|Hne]; [rewrite string_eqb_refl; split; auto|].
  assert (String.append (rooted segs0) "/**" <> "/**"%string) as Hlong.
  { intros E. apply (f_equal String.length) in E. rewrite length_string_app in E. cbn in E. lia. }
  rewrite (proj2 (string_eqb_neq _ _) Hlong), (drop_suffix (rooted segs0)), prefix_segments by done.
  split; [auto|]. intros [?|?]; [done|done].
Qed.

Lemma path_rule_is_segmentwise_witness :
  exists ps cs, pattern (mkPattern PATH "/srv/app/**") = String.append (rooted ps) "/**"
    /\ rooted cs = "/srv/application/x"%string /\ ~ (exists x l, cs = (ps ++ x :: l)%list).
Proof.
  destruct (path_rule_is_segmentwise (fun _ => None) "/srv/app/**" "/srv/application/x"
    (mkPattern PATH "/srv/app/**") (mkPattern PATH "/srv/application/x")) as (ps & cs & _ & _ & Hp & Hc & Hm);
    [vm_compute; reflexivity..|].
  cbn [pattern] in Hp, Hc. destruct (decide (ps = [])) as [->|Hne]; [discriminate Hp|].
  exists ps, cs. split_and!; [exact Hp|by symmetry|]. intros Hex.
  assert (_resource_matches (mkPattern PATH "/srv/app/**") (mkPattern PATH "/srv/application/x") = true) as Ht
    by (apply Hm; by right).
  vm_compute in Ht. discriminate Ht.
Defined.

(** ** Lemmas on the evaluation *)

Lemma spec_leb_iff a b : spec_leb a b = true <->
  a.1.1 < b.1.1 \/ (a.1.1 = b.1.1 /\ (a.1.2 < b.1.2 \/ (a.1.2 = b.1.2 /\ a.2 <= b.2))).
Proof.
  destruct a as [[a1 a2] a3], b as [[b1 b2] b3]. cbn.
  rewrite orb_true_iff, andb_true_iff, orb_true_iff, andb_true_iff, !Z.ltb_lt, !Z.eqb_eq, Z.leb_le. done.
Qed.

Lemma spec_leb_refl a : spec_leb a a = true.
Proof. apply spec_leb_iff. lia. Qed.

Lemma spec_leb_trans a b c : spec_leb a b = true -> spec_leb b c = true -> spec_leb a c = true.
Proof. rewrite !spec_leb_iff. lia. Qed.

Lemma spec_leb_false a b : spec_leb a b = false -> spec_leb b a = true.
Proof.
  intros Hn. destruct (spec_leb b a) eqn:Hb; [done|exfalso].
  assert (~ spec_leb a b = true /\ ~ spec_leb b a = true) as [H1 H2] by (rewrite Hn, Hb; done).
  rewrite spec_leb_iff in H1, H2. lia.
Qed.

Lemma spec_leb_antisym a b : spec_leb a b = true -> spec_leb b a = true -> a = b.
Proof.
  rewrite !spec_leb_iff. destruct a as [[a1 a2] a3], b as [[b1 b2] b3]. cbn. intros. repeat f_equal; lia.
Qed.

Lemma spec_max_spec l : l <> [] -> spec_max l ∈ l /\ forall x, x ∈ l -> spec_leb x (spec_max l) = true.
Proof.
  assert (forall l a, (fold_left (fun a b => if spec_leb b a then a else b) l a = a \/
      fold_left (fun a b => if spec_leb b a then a else b) l a ∈ l)
    /\ forall x, x = a \/ x ∈ l -> spec_leb x (fold_left (fun a b => if spec_leb b a then a else b) l a) = true) as Hf.
  { intros l'. induction l' as [|y l' IH]; intros a; cbn.
    - split; [by left|]. intros x [->|Hx]; [apply spec_leb_refl|by apply elem_of_nil in Hx].
    - destruct (IH (if spec_leb y a then a else y)) as [Hin Hle]. split.
      + rewrite elem_of_cons. destruct (spec_leb y a); destruct Hin as [->|?]; auto.
      + intros x Hx. rewrite elem_of_cons in Hx. destruct (spec_leb y a) eqn:Hy.
        * destruct Hx as [->|[->|Hx]]; [by apply Hle; left| |by apply Hle; right].
          eapply spec_leb_trans; [exact Hy|]. by apply Hle; left.
        * apply spec_leb_false in Hy. destruct Hx as [->|[->|Hx]]; [|by apply Hle; left|by apply Hle; right].
          eapply spec_leb_trans; [exact Hy|]. by apply Hle; left. }
  destruct l as [|y l]; [done|]. intros _. cbn. destruct (Hf l y) as [Hin Hle]. rewrite elem_of_cons.
  split; [done|]. intros x Hx. apply Hle. by apply elem_of_cons.
Qed.

Lemma filter_filter {A} (P Q : A -> bool) l : List.filter P (List.filter Q l) = List.filter (fun x => Q x && P x) l.
Proof. induction l as [|x l IH]; [done|]. cbn. destruct (Q x); cbn; [destruct (P x)|]; by rewrite IH. Qed.

Lemma elem_of_filter_bool {A} (P : A -> bool) l x : x ∈ List.filter P l <-> x ∈ l /\ P x = true.
Proof. by rewrite !list_elem_of_In, filter_In. Qed.

(** The last element a filter keeps: nothing after it is kept. *)
Lemma filter_last {A} (P : A -> bool) l x : last (List.filter P l) = Some x ->
  exists a b, l = (a ++ x :: b)%list /\ P x = true /\ forall y, y ∈ b -> P y = false.
Proof.
  induction l as [|z l IH]; [done|]. cbn. destruct (P z) eqn:Hz.
  - destruct (List.filter P l) as [|w f] eqn:Hf.
    + intros [= <-]. exists [], l. split_and!; [done..|]. intros y Hy. destruct (P y) eqn:HP; [|done].
      assert (y ∈ List.filter P l) as Hin by by apply elem_of_filter_bool. rewrite Hf in Hin. by apply elem_of_nil in Hin.
    + intros Hl. destruct (IH Hl) as (a & b & -> & ? & ?). by exists (z :: a), b.
  - intros Hl. destruct (IH Hl) as (a & b & -> & ? & ?). by exists (z :: a), b.
Qed.

(** The rule that decides: a match of greatest specificity, a DENY rule if one ties,
    and the last such in the engine's order. *)
Record decides (matching : list PolicyRule) (rule : PolicyRule) : Prop := {
  dec_max : forall r, r ∈ matching -> spec_leb (_specificity r) (_specificity rule) = true;
  dec_deny : forall r, r ∈ matching -> _specificity r = _specificity rule -> action r = DENY -> action rule = DENY;
  dec_last : exists a b, matching = (a ++ rule :: b)%list /\
    forall r, r ∈ b -> _specificity r = _specificity rule -> action rule = DENY /\ action r <> DENY
}.

Lemma winner_decides matching : matching <> [] ->
  exists rule, winner matching = Some rule /\ decides matching rule
    /\ spec_max (_specificity <$> matching) = _specificity rule.
Proof.
  intros Hne. unfold winner. set (best := spec_max _).
  assert (_specificity <$> matching <> []) as Hne' by by destruct matching.
  destruct (spec_max_spec _ Hne') as [Hin Hmax]. fold best in Hin, Hmax.
  apply list_elem_of_fmap in Hin as (r0 & Hr0 & Hin0).
  set (S := fun r => bool_decide (_specificity r = best)). set (D := fun r => bool_decide (action r = DENY)).
  assert (r0 ∈ List.filter S matching) as Hr0S by (apply elem_of_filter_bool; split; [done|by apply bool_decide_eq_true]).
  assert (forall rule, rule ∈ matching -> _specificity rule = best ->
    forall r, r ∈ matching -> spec_leb (_specificity r) (_specificity rule) = true) as Hbest.
  { intros rule _ Es r Hr. rewrite Es. apply Hmax, list_elem_of_fmap. by exists r. }
  case_bool_decide as Hdeny.
  - assert (forall r, r ∈ matching -> _specificity r = best -> action r <> DENY) as Hnod.
    { intros r Hr Es Ea. assert (r ∈ List.filter D (List.filter S matching)) as Hbad.
      { apply elem_of_filter_bool. split; [apply elem_of_filter_bool; split; [done|]|]; by apply bool_decide_eq_true. }
      rewrite Hdeny in Hbad. by apply elem_of_nil in Hbad. }
    destruct (last (List.filter S matching)) as [rule|] eqn:Hl.
    2:{ apply last_None in Hl. rewrite Hl in Hr0S. by apply elem_of_nil in Hr0S. }
    exists rule. pose proof (filter_last _ _ _ Hl) as (a & b & Em & HS & Hb).
    unfold S in HS. bool_to_prop. assert (rule ∈ matching) as Hrule by (rewrite Em; apply elem_of_app; right; left).
    split_and!; [done| |done]. constructor; [by apply Hbest| |].
    + intros r Hr Es Ea. exfalso. by eapply Hnod; [exact Hr|congruence|].
    + exists a, b. split; [done|]. intros r Hr Es. specialize (Hb r Hr). unfold S in Hb. bool_to_prop. congruence.
  - destruct (last (List.filter D (List.filter S matching))) as [rule|] eqn:Hl; [|by apply last_None in Hl].
    exists rule. rewrite filter_filter in Hl. pose proof (filter_last _ _ _ Hl) as (a & b & Em & HSD & Hb).
    unfold S, D in HSD. bool_to_prop. assert (rule ∈ matching) as Hrule by (rewrite Em; apply elem_of_app; right; left).
    split_and!; [done| |done]. constructor; [by apply Hbest|done|].
    exists a, b. split; [done|]. intros r Hr Es. split; [done|]. specialize (Hb r Hr). unfold S, D in Hb.
    apply andb_false_iff in Hb as [Hb|Hb]; bool_to_prop; congruence.
Qed.

Lemma only_read (X : gset RiskClass) : X <> ∅ -> X ∖ {[ READ ]} = ∅ -> X = {[ READ ]}.
Proof.
  intros Hne He. assert (forall x, x ∈ X -> x = READ) as Hall.
  { intros x Hx. destruct (decide (x = READ)) as [|Hn]; [done|exfalso].
    assert (x ∈ X ∖ {[ READ ]}) as Hin by (apply elem_of_difference; split; [done|by rewrite elem_of_singleton]).
    rewrite He in Hin. by apply elem_of_empty in Hin. }
  apply set_choose_L in Hne as [y Hy]. pose proof (Hall y Hy) as ->. apply set_eq. intros x.
  rewrite elem_of_singleton. split; [apply Hall|by intros ->].
Qed.

(** C13. What the engine decides on a classified request that some rule matches: the
    decision is that of a matching rule of greatest specificity; a matching DENY rule
    of that specificity wins over the others, and among equals the last in the
    engine's order wins. *)
Theorem evaluate_selects (engine : RulePolicyEngine) (request : PolicyRequest) :
  request_risks request <> ∅ ->
  List.filter (fun r => rule_matches r request) (rules engine) <> [] ->
  exists rule, rule ∈ rules engine /\ rule_matches rule request = true
    /\ decides (List.filter (fun r => rule_matches r request) (rules engine)) rule
    /\ decided (evaluate engine request) = action rule
    /\ matched_rule_id (evaluate engine request) = Some (rule_id rule)
    /\ specificity (evaluate engine request) = _specificity rule.
Proof.
  intros Hr Hm. destruct (winner_decides _ Hm) as (rule & Hw & Hd & Hmax).
  assert (rule ∈ List.filter (fun r => rule_matches r request) (rules engine)) as Hin.
  { destruct (dec_last _ _ Hd) as (a & b & -> & _). apply elem_of_app. right. left. }
  apply elem_of_filter_bool in Hin as [Hin Hmatch]. exists rule. unfold evaluate.
  rewrite bool_decide_eq_false_2 by done. cbv zeta. rewrite Hw. by split_and!.
Qed.

(** C12. Fail-safe: whatever the rules and the default, a request is allowed only by an
    enabled ALLOW rule that matches it, covers every requested risk class or names
    none, and to which no matching DENY rule is as specific; or, with no matching
    rule, when the request is classified as reading only and needs no legacy
    approval. In particular an unclassified request is never allowed. *)
Theorem evaluate_allow_sound (engine : RulePolicyEngine) (request : PolicyRequest) :
  decided (evaluate engine request) = ALLOW ->
  request_risks request <> ∅ /\
  ((exists rule, rule ∈ rules engine /\ rule_matches rule request = true /\ action rule = ALLOW
      /\ (risk_classes rule = ∅ \/ request_risks request ⊆ risk_classes rule)
      /\ forall r, r ∈ rules engine -> rule_matches r request = true -> action r = DENY ->
           spec_leb (_specificity rule) (_specificity r) = false)
   \/ ((forall r, r ∈ rules engine -> rule_matches r request = false)
       /\ request_risks request = {[ READ ]} /\ legacy_requires_approval request = false
       /\ default_action engine = ALLOW)).
Proof.
  unfold evaluate. case_bool_decide as Hr; [done|]. cbv zeta. intros Hdec. split; [done|].
  set (matching := List.filter _ (rules engine)) in *.
  destruct (decide (matching = [])) as [Hm|Hm].
  - right. rewrite Hm in Hdec. cbn in Hdec. destruct (legacy_requires_approval request); [done|].
    case_bool_decide as Hside; cbn in Hdec; [|done]. split_and!; [|by apply only_read|done|done].
    intros r Hrin. destruct (rule_matches r request) eqn:Hmr; [|done].
    assert (r ∈ matching) as Hbad by by apply elem_of_filter_bool. rewrite Hm in Hbad. by apply elem_of_nil in Hbad.
  - left. destruct (winner_decides _ Hm) as (rule & Hw & Hd & _). rewrite Hw in Hdec. cbn in Hdec.
    assert (rule ∈ matching) as Hin.
    { destruct (dec_last _ _ Hd) as (a & b & -> & _). apply elem_of_app. right. left. }
    apply elem_of_filter_bool in Hin as [Hin Hmatch]. exists rule. split_and!; [done..| |].
    + unfold rule_matches, risks_match in Hmatch. rewrite Hdec in Hmatch. bool_to_prop.
      match goal with H : (if bool_decide (risk_classes rule = ∅) then _ else _) = true |- _ => revert H end.
      case_bool_decide as He; [by left|]. rewrite bool_decide_eq_false_2 by done. intros Hs. right.
      by apply bool_decide_eq_true in Hs.
    + intros r Hrin Hmr Ha. destruct (spec_leb (_specificity rule) (_specificity r)) eqn:Hle; [|done].
      assert (r ∈ matching) as Hrm by by apply elem_of_filter_bool.
      assert (_specificity r = _specificity rule) as Es by (apply spec_leb_antisym; [by apply (dec_max _ _ Hd)|done]).
      pose proof (dec_deny _ _ Hd r Hrm Es Ha). congruence.
Qed.

(** *** An engine for the examples *)

Definition demo_allow : PolicyRule :=
  mkRule "reader" ALLOW [mkPattern TOOL_KIND "read_file"; mkPattern PATH "/srv/app/**"] {[ READ ]} "" true.
Definition demo_deny : PolicyRule :=
  mkRule "secrets" DENY [mkPattern TOOL_KIND "read_file"; mkPattern PATH "/srv/key/**"] {[ SECRET ]} "" true.
Definition demo_engine : RulePolicyEngine := mkEngine [demo_deny; demo_allow] ASK.
Definition demo_policy_request (path : string) (risks : gset RiskClass) : PolicyRequest :=
  mkPolicyRequest "read_file" [mkPattern PATH path] risks false.

Lemma evaluate_selects_witness :
  exists rule, rule ∈ rules demo_engine
    /\ decided (evaluate demo_engine (demo_policy_request "/srv/key/k" {[ READ; SECRET ]})) = action rule
    /\ action rule = DENY.
Proof.
  destruct (evaluate_selects demo_engine (demo_policy_request "/srv/key/k" {[ READ; SECRET ]}))
    as (rule & Hin & Hm & _ & Hd & _).
  - vm_compute. discriminate.
  - vm_compute. discriminate.
  - exists rule. split; [exact Hin|]. split; [exact Hd|]. rewrite <- Hd. vm_compute. reflexivity.
Defined.

Lemma evaluate_allow_sound_witness :
  request_risks (demo_policy_request "/srv/app/a" {[ READ ]}) <> ∅.
Proof.
  apply (evaluate_allow_sound demo_engine (demo_policy_request "/srv/app/a" {[ READ ]})). vm_compute. reflexivity.
Defined.
