(* ===== verification/Authorization.v ===== *)
(** * Values exchanged with approval adapters ([security/approvals.py])

    A request for an approval and the decision about it, both bound to one tool call by
    its id, its canonical tool name and the digest of its arguments. *)

From Stdlib Require Import ZArith Lia String Ascii.
From stdpp Require Import base gmap strings list.
From S2P Require Import Prelude Policy.
Open Scope Z_scope.

Record AuthorizationRequest : Type := mkAuthRequest {
  q_call_id : string;
  q_tool : string;
  q_hash : string;
  q_risks : gset RiskClass;
  q_rule : option string
}.

#[export] Instance AuthorizationRequest_eq_dec : EqDecision AuthorizationRequest.
Proof. solve_decision. Defined.

Record AuthorizationOutcome : Type := mkAuthOutcome {
  o_approved : bool;
  o_call_id : string;
  o_tool : string;
  o_hash : string;
  o_reason : string
}.

#[export] Instance AuthorizationOutcome_eq_dec : EqDecision AuthorizationOutcome.
Proof. solve_decision. Defined.

(** The only error of these constructors on well-typed input is [ValueError]. *)
Definition _validate_binding (call_id tool hash : string) : result policy_error unit :=
  _ ← require (negb (string_eqb call_id "")) PolicyValueError;
  _ ← require (is_hex64 hash) PolicyValueError;
  name ← canonical_tool_name tool;
  require (string_eqb tool name) PolicyValueError.

Definition new_auth_request (call_id tool hash : string) (risks : gset RiskClass) (rule : option string)
  : result policy_error AuthorizationRequest :=
  _ ← _validate_binding call_id tool hash;
  _ ← require (negb (bool_decide (rule = Some ""%string))) PolicyValueError;
  Ok (mkAuthRequest call_id tool hash risks rule).

Definition new_outcome (approved : bool) (call_id tool hash reason : string) : result policy_error AuthorizationOutcome :=
  _ ← _validate_binding call_id tool hash;
  _ ← require (lower_code reason) PolicyValueError;
  Ok (mkAuthOutcome approved call_id tool hash reason).

(** [AuthorizationOutcome.binds] *)
Definition binds (o : AuthorizationOutcome) (q : AuthorizationRequest) : bool :=
  string_eqb (o_call_id o) (q_call_id q) && string_eqb (o_tool o) (q_tool q) && string_eqb (o_hash o) (q_hash q).

Lemma binds_spec o q : binds o q = true <-> o_call_id o = q_call_id q /\ o_tool o = q_tool q /\ o_hash o = q_hash q.
Proof. unfold binds. rewrite !andb_true_iff, !string_eqb_spec. tauto. Qed.

Lemma new_auth_request_Ok i t h risks rule q : new_auth_request i t h risks rule = Ok q ->
  q = mkAuthRequest i t h risks rule /\ i <> ""%string /\ is_hex64 h = true /\ canonical_tool_name t = Ok t.
Proof.
  unfold new_auth_request, _validate_binding. intros H. inv_result.
  repeat match goal with H : _ = Ok () |- _ => revert H end. intros; inv_result. bool_to_prop. by subst.
Qed.
