(* ===== verification/Numbers.v ===== *)
(** * Fractions: float literals and decimals

    A float is known by its text, a [repr] or the literal it is read from, and compared as
    the double it denotes. A [Decimal] is known by its value: an operation of Python's
    default context gives the exact result rounded half-even to 28 significant digits;
    exponents near the context's limits of a million are left out. *)

From Stdlib Require Import ZArith QArith Lia String Ascii.
From stdpp Require Import base list pretty.
From S2P Require Import Prelude Strings JsonText BudgetedProvider.
Open Scope Z_scope.

(** ** Literals *)

(** The number a decimal literal stands for. *)
Definition decimal_value (t : string) : option Q :=
  let '(negative, s) := match t with String "-" s => (true, s) | _ => (false, t) end in
  let '(int, s1) := take_digits s in
  let '(frac, s2) := take_fraction s1 in
  let '(exp, s3) := take_exponent s2 in
  if string_eqb int "" || negb (string_eqb s3 "") then None
  else
    let digits := string_drop 1 frac in
    let m := digits_value 0 (int ++ digits) in
    let e := match exp with
             | String _ (String "-" d) => - digits_value 0 d
             | String _ (String "+" d) => digits_value 0 d
             | String _ d => digits_value 0 d
             | EmptyString => 0
             end - Z.of_nat (String.length digits) in
    Some (inject_Z (if negative then - m else m) * (if 0 <=? e then inject_Z (10 ^ e) else / inject_Z (10 ^ (- e))))%Q.

Definition between_q (lo hi : Q) (t : string) : bool :=
  match decimal_value t with Some q => Qle_bool lo q && Qle_bool q hi | None => false end.

(** [float(z)] for an integer that has a float, as a [repr] (below 10^16 in absolute value). *)
Definition float_of_int (z : Z) : string := pretty z ++ ".0".

(** [0.0 <= float(t) <= 1.0] for a literal: with the rounding to the nearest double, the
    bounds on the decimal lie half a step outside. *)
Definition unit_interval (t : string) : bool :=
  between_q (- (1 # (2 ^ 1075))) (1 + (1 # (2 ^ 53))) t.

(** ** Decimals *)

Definition ltb_q (x y : Q) : bool := negb (Qle_bool y x).

Definition ten_to (k : Z) : Q := if 0 <=? k then inject_Z (10 ^ k) else (1 # Z.to_pos (10 ^ (- k))).

(** [n/d / 10^k] as a fraction. *)
Definition scaled (n d k : Z) : Z * Z := if 0 <=? k then (n, d * 10 ^ k) else (n * 10 ^ (- k), d).

(** The exponent that leaves [PREC] digits before the point. *)
Definition exponent_of (n d : Z) : Z :=
  let k := num_digits n - num_digits d - PREC in
  let '(a, b) := scaled n d k in
  if 10 ^ PREC * b <=? a then k + 1 else k.

(** The result of an operation, from its exact value. *)
Definition rounded (x : Q) : Q :=
  let n := Z.abs (Qnum x) in
  let d := Zpos (Qden x) in
  if n =? 0 then 0%Q
  else
    let k := exponent_of n d in
    let '(a, b) := scaled n d k in
    Qred (inject_Z (Z.sgn (Qnum x) * round_half_even a b) * ten_to k).

Definition dec_add (x y : Q) : Q := rounded (x + y).
Definition dec_sub (x y : Q) : Q := rounded (x - y).
Definition dec_mul (x y : Q) : Q := rounded (x * y).
Definition dec_div (x y : Q) : Q := rounded (x / y).

(** [to_integral_value(rounding=ROUND_FLOOR)] *)
Definition floor_of (x : Q) : Z := Qnum x / Zpos (Qden x).

(** [int(d)] *)
Definition truncated (x : Q) : Z := Z.quot (Qnum x) (Zpos (Qden x)).

Example third : rounded (1 # 3) = (3333333333333333333333333333 # 10000000000000000000000000000).
Proof. vm_compute. reflexivity. Qed.

Example two_thirds : rounded (- (2 # 3)) = (- 6666666666666666666666666667 # 10000000000000000000000000000).
Proof. vm_compute. reflexivity. Qed.

Example exact_price : dec_mul (2500 # 1) (3 # 1000000) = (3 # 400).
Proof. vm_compute. reflexivity. Qed.
