(* ===== verification/Reflection.v ===== *)
(** * Bounded self-reflection: its values and limits ([reflection/models.py], [reflection/service.py])

    A final answer may be criticised by the model once and revised once, without tools,
    within limits of input and output tokens, of cost and of time. This file holds what
    does not wait: the policy, the verdict and its validation, the prompts, the
    fingerprints, what a call may use and what it used. The calls themselves are in
    [Engine], where the model is the runtime's own.

    Text is UTF-8, prices are the values of [Decimal]s, and time is counted in
    milliseconds. *)

From Stdlib Require Import ZArith QArith Lia String Ascii.
From stdpp Require Import base gmap strings list.
From S2P Require Import Prelude Strings Json JsonText Sha256 BudgetedProvider Numbers.
Open Scope Z_scope.

(** ** Values *)

Inductive ReflectionDecision : Type := KEEP | REVISE.

Inductive ReflectionIssueCode : Type :=
| FACTUAL_ERROR | INSTRUCTION_MISS | UNSUPPORTED_CLAIM | INCOMPLETE | UNCLEAR | SAFETY.

Inductive ReflectionOutcomeCode : Type :=
| KEPT | REVISED | INVALID_VERDICT | PROVIDER_ERROR | TIME_LIMIT | TOKEN_LIMIT | COST_LIMIT | TOOL_CALL_BLOCKED
| EMPTY_REVISION.

#[export] Instance ReflectionDecision_eq_dec : EqDecision ReflectionDecision.
Proof. solve_decision. Defined.
#[export] Instance ReflectionIssueCode_eq_dec : EqDecision ReflectionIssueCode.
Proof. solve_decision. Defined.
#[export] Instance ReflectionOutcomeCode_eq_dec : EqDecision ReflectionOutcomeCode.
Proof. solve_decision. Defined.

Definition decision_value (d : ReflectionDecision) : string := match d with KEEP => "keep" | REVISE => "revise" end.

Definition issue_value (c : ReflectionIssueCode) : string :=
  match c with
  | FACTUAL_ERROR => "factual_error" | INSTRUCTION_MISS => "instruction_miss" | UNSUPPORTED_CLAIM => "unsupported_claim"
  | INCOMPLETE => "incomplete" | UNCLEAR => "unclear" | SAFETY => "safety"
  end.

Definition outcome_value (o : ReflectionOutcomeCode) : string :=
  match o with
  | KEPT => "kept" | REVISED => "revised" | INVALID_VERDICT => "invalid_verdict" | PROVIDER_ERROR => "provider_error"
  | TIME_LIMIT => "time_limit" | TOKEN_LIMIT => "token_limit" | COST_LIMIT => "cost_limit"
  | TOOL_CALL_BLOCKED => "tool_call_blocked" | EMPTY_REVISION => "empty_revision"
  end.

Definition all_issues : list ReflectionIssueCode :=
  [FACTUAL_ERROR; INSTRUCTION_MISS; UNSUPPORTED_CLAIM; INCOMPLETE; UNCLEAR; SAFETY].

Definition MAX_ISSUES : nat := 16.
Definition MAX_EVIDENCE_REFS : nat := 32.

Record ReflectionPolicy : Type := mkReflectionPolicy {
  enabled : bool;
  rubric_id : string;
  rubric_version : string;
  max_revisions : Z;
  max_input_tokens : Z;
  max_output_tokens : Z;
  max_seconds : Z;
  max_cost_usd : Q;
  input_cost_per_million_usd : Q;
  output_cost_per_million_usd : Q
}.

Definition default_reflection_policy : ReflectionPolicy :=
  mkReflectionPolicy false "final-answer-quality" "1" 1 8192 2048 10000 (1 # 20) 0 0.

(** [_SAFE_ID] *)
Definition rubric_safe (s : string) : bool := safe_id s && (String.length s <=? 128)%nat.

(** [ReflectionPolicy.__post_init__] *)
Definition reflection_policy_valid (p : ReflectionPolicy) : bool :=
  rubric_safe (rubric_id p) && rubric_safe (rubric_version p)
  && ((max_revisions p =? 0) || (max_revisions p =? 1))
  && (1 <=? max_input_tokens p) && (max_input_tokens p <=? 65536)
  && (1 <=? max_output_tokens p) && (max_output_tokens p <=? 16384)
  && (50 <=? max_seconds p) && (max_seconds p <=? 60000)
  && Qle_bool 0 (max_cost_usd p) && Qle_bool 0 (input_cost_per_million_usd p) && Qle_bool 0 (output_cost_per_million_usd p)
  && negb (enabled p && ltb_q 0 (max_cost_usd p) && Qeq_bool (input_cost_per_million_usd p) 0
           && Qeq_bool (output_cost_per_million_usd p) 0).

(** The checks of [BoundedReflectionService.__init__]. *)
Definition reflection_service_valid (p : ReflectionPolicy) (hash_key hash_scope : string) : bool :=
  negb (enabled p) || ((32 <=? String.length hash_key)%nat && negb (string_eqb hash_scope "")).

(** ** Verdicts *)

Record ReflectionVerdict : Type := mkVerdict {
  decision : ReflectionDecision;
  issue_codes : list ReflectionIssueCode;
  evidence_refs : list string;
  confidence : json
}.

(** A location: whether it is one of the request, and its line. *)
Definition line_number (s : string) : option Z :=
  match s with
  | String c rest =>
      if between "1" "9" c && string_forall is_digit rest && (String.length rest <=? 5)%nat
      then Some (digits_value 0 s) else None
  | EmptyString => None
  end.

Definition after (p s : string) : option string :=
  if starts_with p s then Some (string_drop (String.length p) s) else None.

(** [_EVIDENCE_REF] *)
Definition evidence_location (s : string) : option (bool * Z) :=
  match after "request:L" s with
  | Some line => (fun n => (true, n)) <$> line_number line
  | None => line ← after "draft:L" s; (fun n => (false, n)) <$> line_number line
  end.

Definition find_value {A} (value : A -> string) (members : list A) (v : json) : option A :=
  match v with JStr s => List.find (fun a => string_eqb (value a) s) members | _ => None end.

(** [float(value)] of a number in the unit interval. *)
Definition unit_float (v : json) : option json :=
  match v with
  | JInt z => if (0 <=? z) && (z <=? 1) then Some (JFloat (float_of_int z)) else None
  | JFloat t => if unit_interval t then Some (JFloat t) else None
  | _ => None
  end.

(** [ReflectionVerdict(..)] on values read from JSON; [None] where it raises. *)
Definition new_verdict (verdict : json) (codes refs : list string) (conf : json) : option ReflectionVerdict :=
  d ← find_value decision_value [KEEP; REVISE] verdict;
  codes ← mapM (fun c => find_value issue_value all_issues (JStr c)) codes;
  if negb ((length codes <=? MAX_ISSUES)%nat && bool_decide (NoDup codes)) then None
  else if bool_decide (d = KEEP) && negb (bool_decide (codes = [])) then None
  else if bool_decide (d = REVISE) && bool_decide (codes = []) then None
  else if negb ((length refs <=? MAX_EVIDENCE_REFS)%nat && bool_decide (NoDup refs)
                && forallb (fun r => bool_decide (is_Some (evidence_location r))) refs) then None
  else c ← unit_float conf; Some (mkVerdict d codes refs c).

Definition _VERDICT_KEYS : list string := ["verdict"; "issue_codes"; "evidence_refs"; "confidence"].

Definition member (key : string) (kvs : list (string * json)) : option json :=
  snd <$> List.find (fun kv => string_eqb kv.1 key) kvs.

Definition string_list (v : json) : option (list string) :=
  match v with JArr l => mapM (fun x => match x with JStr s => Some s | _ => None end) l | _ => None end.

Definition _verdict_validator (v : json) : option ReflectionVerdict :=
  match v with
  | JObj kvs =>
      if negb (bool_decide ((list_to_set (kvs.*1) : gset string) = list_to_set _VERDICT_KEYS)) then None
      else
        codes ← member "issue_codes" kvs; codes ← string_list codes;
        refs ← member "evidence_refs" kvs; refs ← string_list refs;
        verdict ← member "verdict" kvs; conf ← member "confidence" kvs;
        new_verdict verdict codes refs conf
  | _ => None
  end.

Definition REFLECTION_VERDICT_CONTRACT : ResponseContract :=
  mkContract "cogentrex.reflection-verdict" "1"
    [("type", JStr "object"); ("additionalProperties", JBool false);
     ("required", JArr (JStr <$> _VERDICT_KEYS));
     ("properties", JObj
       [("verdict", JObj [("enum", JArr [JStr "keep"; JStr "revise"])]);
        ("issue_codes", JObj
          [("type", JStr "array"); ("maxItems", JInt 16); ("uniqueItems", JBool true);
           ("items", JObj [("enum", JArr ((fun c => JStr (issue_value c)) <$> all_issues))])]);
        ("evidence_refs", JObj
          [("type", JStr "array"); ("maxItems", JInt 32); ("uniqueItems", JBool true);
           ("items", JObj [("type", JStr "string"); ("maxLength", JInt 128);
                           ("pattern", JStr "^(request|draft):L[1-9][0-9]{0,5}$")])]);
        ("confidence", JObj [("type", JStr "number"); ("minimum", JInt 0); ("maximum", JInt 1)])])]
    1048576 64 20000.

(** [len(text.splitlines())]: a line ends at a line feed, a carriage return, both, the
    controls 11, 12 and 28 to 30, or U+0085, U+2028 and U+2029; [open] tells whether a
    line has begun. *)
Fixpoint count_lines (open : bool) (s : string) : Z :=
  match s with
  | EmptyString => if open then 1 else 0
  | String "013" (String "010" s') => 1 + count_lines false s'
  | String "194" (String "133" s') => 1 + count_lines false s'
  | String "226" (String "128" (String "168" s')) => 1 + count_lines false s'
  | String "226" (String "128" (String "169" s')) => 1 + count_lines false s'
  | String c s' =>
      let n := nat_of_ascii c in
      if (((10 <=? n) && (n <=? 13)) || ((28 <=? n) && (n <=? 30)))%nat then 1 + count_lines false s'
      else count_lines true s'
  end.

Definition _line_count (text : string) : Z := 1 `max` count_lines false text.

Definition is_request (m : Message) : bool := match role m with SYSTEM | USER => true | _ => false end.

(** [_validate_evidence_locations]: [false] where it raises. *)
Definition evidence_within (v : ReflectionVerdict) (request_messages : list Message) (draft : string) : bool :=
  let request_lines := sum_z (fun m => _line_count (content m)) (List.filter is_request request_messages) in
  let draft_lines := _line_count draft in
  forallb (fun reference => match evidence_location reference with
                            | Some (of_request, line) => line <=? (if of_request then request_lines else draft_lines)
                            | None => false
                            end) (evidence_refs v).

(** ** Prompts and fingerprints *)

Definition newline : string := String "010" "".

Definition _CRITIQUE_SYSTEM : string :=
  "You are a bounded final-answer quality reviewer, not an agent." ++ newline
  ++ "Do not call tools, take actions, or reveal chain-of-thought. Assess only the supplied request and" ++ newline
  ++ "draft against the named rubric. Return only the requested compact JSON verdict. Evidence refs are" ++ newline
  ++ "short locations such as draft:L1 or request:L2, never quotations or reasoning.".

Definition _REVISION_SYSTEM : string :=
  "You are a bounded final-answer editor, not an agent." ++ newline
  ++ "Do not call tools, take actions, discuss your reasoning, or output metadata. Return only one revised" ++ newline
  ++ "final answer that fixes the supplied issue codes using the supplied evidence references.".

Definition plain_message (r : Role) (text : string) : Message := mkMessage r text None [] [].

Definition critique_messages (p : ReflectionPolicy) (request_messages : list Message) (draft : string) : list Message :=
  let body := dumps_unsorted (JObj
    [("rubric_id", JStr (rubric_id p)); ("rubric_version", JStr (rubric_version p));
     ("request", JArr ((fun m => JObj [("role", JStr (role_value (role m))); ("content", JStr (content m))])
                       <$> List.filter is_request request_messages));
     ("draft", JStr draft)]) in
  [plain_message SYSTEM _CRITIQUE_SYSTEM; plain_message USER body].

Definition revision_messages (draft : string) (v : ReflectionVerdict) : list Message :=
  let body := dumps_unsorted (JObj
    [("draft", JStr draft); ("issue_codes", JArr ((fun c => JStr (issue_value c)) <$> issue_codes v));
     ("evidence_refs", JArr (JStr <$> evidence_refs v))]) in
  [plain_message SYSTEM _REVISION_SYSTEM; plain_message USER body].

Definition derive_reflection_hmac_key (application_secret : string) : option string :=
  if string_eqb application_secret "" then None
  else Some (hmac_sha256 application_secret "cogentrex/reflection-fingerprint-key/v1").

Definition _digest (key scope label text : string) : string :=
  hmac_hex key ("cogentrex/reflection/v1" ++ String "000" (scope ++ String "000" (label ++ String "000" text))).

(** ** What a call may use *)

(** [math.ceil(n / 4)] *)
Definition quarter (n : Z) : Z := (n + 3) / 4.

Definition estimate_tokens (messages : list Message) : Z := sum_z (fun m => quarter (len (content m)) + 8) messages.

Definition _response_token_floor (text : option string) (calls : nat) : Z :=
  quarter (len (default "" text)) + 8 * Z.of_nat calls.

(** The counters of [reflect]. *)
Record spent : Type := mkSpent { s_usage : TokenUsage; s_cost : Q; s_calls : Z }.

Definition nothing_spent : spent := mkSpent no_usage 0 0.

Definition count_call (s : spent) : spent := mkSpent (s_usage s) (s_cost s) (s_calls s + 1).

Definition input_price (p : ReflectionPolicy) : Q := dec_div (input_cost_per_million_usd p) (1000000 # 1).
Definition output_price (p : ReflectionPolicy) : Q := dec_div (output_cost_per_million_usd p) (1000000 # 1).

(** The [max_tokens] of the next call, or the limit in its way. *)
Definition call_tokens (p : ReflectionPolicy) (max_total_tokens : option Z) (s : spent) (estimated_input cap : Z)
  : ReflectionOutcomeCode + Z :=
  if max_input_tokens p <? usage_input (s_usage s) + estimated_input then inl TOKEN_LIMIT
  else
    let max_tokens := cap `min` (max_output_tokens p - usage_output (s_usage s)) in
    let max_tokens := match max_total_tokens with
                      | Some m => max_tokens `min` (m - total_tokens (s_usage s) - estimated_input)
                      | None => max_tokens
                      end in
    if max_tokens <=? 0 then inl TOKEN_LIMIT
    else
      let after_input := dec_sub (dec_sub (max_cost_usd p) (s_cost s)) (dec_mul (inject_Z estimated_input) (input_price p)) in
      if ltb_q after_input 0 then inl COST_LIMIT
      else if ltb_q 0 (output_price p) then
        let max_tokens := max_tokens `min` floor_of (dec_div after_input (output_price p)) in
        if max_tokens <=? 0 then inl COST_LIMIT else inr max_tokens
      else inr max_tokens.

(** [_required_usage_count] and [_optional_usage_count] *)
Definition usage_counts (u : TokenUsage) : bool :=
  (0 <=? usage_input u) && (0 <=? usage_output u) && (0 <=? default 0 (usage_read u)) && (0 <=? default 0 (usage_write u)).

(** What a response is charged, and the limit it broke. *)
Definition charge_call (p : ReflectionPolicy) (max_total_tokens : option Z) (estimated_input max_tokens : Z)
    (text : option string) (calls : nat) (u : TokenUsage) (s : spent) : spent * option ReflectionOutcomeCode :=
  let output_floor := _response_token_floor text calls in
  if negb (usage_counts u) then (s, Some PROVIDER_ERROR)
  else
    let i := usage_input u `max` estimated_input in
    let o := usage_output u `max` output_floor in
    let used := add_usage (s_usage s) (mkTokens i o (usage_read u) (usage_write u)) in
    let cost := dec_add (s_cost s) (dec_add (dec_mul (inject_Z i) (input_price p)) (dec_mul (inject_Z o) (output_price p))) in
    let s' := mkSpent used cost (s_calls s) in
    if (max_tokens <? output_floor) || (max_input_tokens p <? usage_input used) || (max_output_tokens p <? usage_output used)
       || match max_total_tokens with Some m => m <? total_tokens used | None => false end
    then (s', Some TOKEN_LIMIT)
    else if ltb_q (max_cost_usd p) cost then (s', Some COST_LIMIT)
    else if (0 <? calls)%nat then (s', Some TOOL_CALL_BLOCKED)
    else (s', None).

Definition cost_microusd (s : spent) : Z := truncated (dec_mul (s_cost s) (1000000 # 1)).

Record ReflectionResult : Type := mkReflectionResult {
  selected : string;
  result_verdict : option ReflectionVerdict;
  result_outcome : ReflectionOutcomeCode;
  result_usage : TokenUsage;
  result_calls : Z;
  result_revisions : Z;
  result_cost : Q
}.

(** [ReflectionResult.__post_init__] *)
Definition reflection_result_valid (r : ReflectionResult) : bool :=
  bool_decide (result_calls r ∈ [0; 1; 2]) && bool_decide (result_revisions r ∈ [0; 1])
  && (result_revisions r <=? result_calls r).

(** ** Examples *)

Example lines_counted : _line_count ("a" ++ newline ++ "b" ++ newline) = 2 /\ _line_count "" = 1.
Proof. split; reflexivity. Qed.

Example a_verdict : _verdict_validator (JObj
    [("verdict", JStr "revise"); ("issue_codes", JArr [JStr "unclear"]); ("evidence_refs", JArr [JStr "draft:L1"]);
     ("confidence", JFloat "0.8")]) = Some (mkVerdict REVISE [UNCLEAR] ["draft:L1"] (JFloat "0.8")).
Proof. vm_compute. reflexivity. Qed.

Example a_vague_verdict : _verdict_validator (JObj
    [("verdict", JStr "revise"); ("issue_codes", JArr []); ("evidence_refs", JArr []); ("confidence", JInt 1)]) = None.
Proof. vm_compute. reflexivity. Qed.
