(* ===== verification/Engine.v ===== *)
(** * The agent loop ([runtime/engine.py])

    [AgentRuntime.run] asks a model for a response, decides and dispatches the tool
    calls in it and asks again, within budgets of iterations, tool calls, tokens and
    time. Everything around the loop is a collaborator that may answer anything, raise
    anything and take any time: the model, the tools, the policy engine, the human
    authorizer, the event sink, the result recorder and the clock. A collaborator is a
    function of the moment it is called at, so that each call may go differently. The
    reflection on a final answer ([reflection/service.py]) is part of the program: it asks
    the runtime's own model, at most twice.

    Values that collaborators only get copies of are immutable here. A tool call is
    not: the object the runtime describes to the tool executor may be kept and changed
    by it at any later moment, so the calls of a response live in cells, of which a
    prefix is exposed, and every interaction rewrites the exposed ones. The arguments
    of calls are JSON trees; a call changed into anything else is refused by the same
    tests as one changed into another tree. Policy requests and decisions are read once
    and are immutable.

    An interaction can be interrupted by the cancellation of the task that runs the
    loop, which is how a caller's cancellation and the deadline of [run] reach it. *)

From Stdlib Require Import ZArith Lia String Ascii.
From stdpp Require Import base gmap strings list.
From S2P Require Import Numbers Reflection.
From S2P Require Import Prelude Strings Durable Json JsonText BudgetedProvider Policy Authorization.
Open Scope Z_scope.

(** ** Data *)

Inductive StopReason : Type :=
| COMPLETED | STOP_CANCELLED | ITERATION_BUDGET_EXHAUSTED | TOOL_BUDGET_EXHAUSTED | TOKEN_BUDGET_EXHAUSTED
| CONTEXT_BUDGET_EXHAUSTED | TIME_BUDGET_EXHAUSTED | POLICY_DENIED | APPROVAL_TIMEOUT | APPROVAL_UNAVAILABLE
| PROVIDER_CAPABILITY_UNSUPPORTED | STRUCTURED_OUTPUT_INVALID | PROVIDER_LENGTH_LIMIT | PROVIDER_REFUSAL
| PROVIDER_CONTENT_FILTER | MONETARY_BUDGET_EXHAUSTED | MODEL_CHARGE_DUPLICATE | MODEL_CHARGE_INDETERMINATE
| PROVIDER_ERROR | STOP_ERROR.

#[export] Instance StopReason_eq_dec : EqDecision StopReason.
Proof. solve_decision. Defined.

Definition stop_value (r : StopReason) : string :=
  match r with
  | COMPLETED => "completed" | STOP_CANCELLED => "cancelled"
  | ITERATION_BUDGET_EXHAUSTED => "iteration_budget_exhausted" | TOOL_BUDGET_EXHAUSTED => "tool_budget_exhausted"
  | TOKEN_BUDGET_EXHAUSTED => "token_budget_exhausted" | CONTEXT_BUDGET_EXHAUSTED => "context_budget_exhausted"
  | TIME_BUDGET_EXHAUSTED => "time_budget_exhausted" | POLICY_DENIED => "policy_denied"
  | APPROVAL_TIMEOUT => "approval_timeout" | APPROVAL_UNAVAILABLE => "approval_unavailable"
  | PROVIDER_CAPABILITY_UNSUPPORTED => "provider_capability_unsupported"
  | STRUCTURED_OUTPUT_INVALID => "structured_output_invalid" | PROVIDER_LENGTH_LIMIT => "provider_length_limit"
  | PROVIDER_REFUSAL => "provider_refusal" | PROVIDER_CONTENT_FILTER => "provider_content_filter"
  | MONETARY_BUDGET_EXHAUSTED => "monetary_budget_exhausted" | MODEL_CHARGE_DUPLICATE => "model_charge_duplicate"
  | MODEL_CHARGE_INDETERMINATE => "model_charge_indeterminate" | PROVIDER_ERROR => "provider_error"
  | STOP_ERROR => "error"
  end%string.

Record RuntimeBudget : Type := mkBudget {
  max_iterations : Z;
  max_tool_calls : Z;
  max_total_tokens : Z;
  max_seconds : Z;
  max_tool_result_chars : Z;
  final_synthesis_tokens : Z;
  max_structured_retries : Z;
  max_context_tokens : Z;
  context_output_reserve_tokens : Z
}.

(** [RuntimeBudget.__post_init__] *)
Definition budget_valid (b : RuntimeBudget) : bool :=
  (1 <=? max_iterations b) && (0 <=? max_tool_calls b) && (0 <=? max_total_tokens b) && (0 <? max_seconds b)
  && (0 <=? max_structured_retries b) && (max_structured_retries b <=? 2)
  && (1 <=? max_context_tokens b) && (0 <=? context_output_reserve_tokens b)
  && (context_output_reserve_tokens b <? max_context_tokens b).

Record AgentResult : Type := mkResult {
  r_content : string;
  r_reason : StopReason;
  r_iterations : Z;
  r_calls : list json;
  r_usage : TokenUsage;
  r_error : option string;
  r_structured : option json
}.

(** Exceptions, by the handlers that tell them apart; the text is [str(error)]. *)
Inductive charge_error : Type := BudgetExhausted | DuplicateCharge | IndeterminateCharge | ChargeStateError.

Inductive rexn : Type :=
| XCancelled
| XDeadline
| XTimeout (text : string)
| XCharge (e : charge_error)
| XUnsupported (missing : list string) (text : string)
| XException (name text : string).

Definition charge_code (e : charge_error) : string :=
  match e with
  | BudgetExhausted => "model_budget_exhausted" | DuplicateCharge => "duplicate_model_charge"
  | IndeterminateCharge => "indeterminate_model_charge" | ChargeStateError => "durable_model_charge_state_error"
  end%string.

Definition exn_name (e : rexn) : string :=
  match e with
  | XCancelled => "CancelledError" | XDeadline => "DeadlineExceededError" | XTimeout _ => "TimeoutError"
  | XCharge BudgetExhausted => "ModelBudgetExhausted" | XCharge DuplicateCharge => "DuplicateModelCharge"
  | XCharge IndeterminateCharge => "IndeterminateModelCharge" | XCharge ChargeStateError => "DurableModelChargeStateError"
  | XUnsupported _ _ => "UnsupportedProviderCapability" | XException name _ => name
  end%string.

Definition exn_text (e : rexn) : string :=
  match e with
  | XCancelled => "" | XDeadline => "deadline_exceeded" | XTimeout text => text | XCharge e => charge_code e
  | XUnsupported _ text => text | XException _ text => text
  end%string.

(** [except Exception] does not catch a cancellation. *)
Definition is_exception (e : rexn) : bool := match e with XCancelled => false | _ => true end.

Inductive AgentEventKind : Type :=
| RUN_STARTED | ITERATION_STARTED | MODEL_RESPONSE | BUDGET_BLOCKED | PROVIDER_CAPABILITY_REJECTED
| STRUCTURED_OUTPUT_REJECTED | MODEL_PROGRESS | TEXT_DELTA | TOOL_CALL_REQUESTED | POLICY_DECIDED
| TOOL_CALL_COMPLETED | TOOL_PROGRESS | APPROVAL_REQUIRED | APPROVAL_DECIDED | TOOL_DENIED
| REFLECTION_STARTED | REFLECTION_VERDICT | REFLECTION_COMPLETED | RUN_STOPPED.

#[export] Instance AgentEventKind_eq_dec : EqDecision AgentEventKind.
Proof. solve_decision. Defined.

Record AgentEvent : Type := mkEvent {
  ev_kind : AgentEventKind;
  ev_iteration : Z;
  ev_data : list (string * json);
  ev_usage : TokenUsage
}.

(** [ProviderCapabilities], as the names of the declared ones, in the order of the
    dataclass fields. *)
Definition capability_names : list string :=
  ["native_tools"; "images"; "json_mode"; "json_schema"; "prompt_caching"; "cache_usage"; "usage"; "stop_reason";
   "streaming"]%string.

Definition in_order (names : gset string) : list string := filter (fun n => n ∈ names) capability_names.

(** [ProviderCapabilities.missing] *)
Definition missing (declared required : gset string) : list string :=
  in_order (required ∖ declared).

(** What a provider returns, before any of it is trusted: an id or a name that is not a
    string, and arguments that are not a JSON object, are [None]. *)
Record provider_call : Type := mkProviderCall {
  pc_id : option string;
  pc_name : option string;
  pc_arguments : option (list (string * json))
}.

Record provider_response : Type := mkProviderResponse {
  pr_content : option string;
  pr_calls : list provider_call;
  pr_usage : TokenUsage;
  pr_stop_reason : option string;
  pr_provider : option string;
  pr_model : option string
}.

(** A call of [model.complete]. *)
Record provider_request : Type := mkAsk {
  ask_messages : list Message;
  ask_tools : list ToolDefinition;
  ask_max_tokens : Z;
  ask_contract : option ResponseContract;
  ask_required : option (gset string)
}.

(** [_NativeToolBinding] and [_PolicyExecutionBinding] *)
Record _NativeToolBinding : Type := mkNative {
  n_call_id : string;
  n_tool : string;
  n_hash : string;
  n_json : string
}.

Record _PolicyExecutionBinding : Type := mkBinding {
  x_native : _NativeToolBinding;
  x_request : PolicyRequest;
  x_action : PolicyAction;
  x_risks : gset RiskClass;
  x_rule : option string;
  x_reason : string
}.

(** A decision as a policy engine returns it: [None] where a field has the wrong type. *)
Record raw_decision : Type := mkRawDecision {
  d_action : option PolicyAction;
  d_risks : option (gset RiskClass);
  d_rule : option (option string);
  d_reason : option string
}.

(** An outcome as an authorizer returns it, likewise. *)
Record raw_outcome : Type := mkRawOutcome {
  ro_approved : option bool;
  ro_call_id : option string;
  ro_tool : option string;
  ro_hash : option string;
  ro_reason : option string
}.

(** Optional extension of an authorizer; a prepared request may come back changed. *)
Record preparatory : Type := mkPreparatory {
  prepare : nat -> AuthorizationRequest -> result rexn AuthorizationRequest;
  cancel : nat -> AuthorizationRequest -> result rexn unit
}.

Record authorizer : Type := mkAuthorizer {
  authorize : nat -> AuthorizationRequest -> result rexn (AuthorizationRequest * option raw_outcome);
  a_preparatory : option preparatory
}.

(** [_RuntimeDeadlineState] *)
Record deadline_state : Type := mkDeadline {
  deadline : Z;
  terminal_started : bool;
  terminal_persisted : bool;
  terminal_reason : option StopReason;
  terminal_error : option string;
  ds_content : string;
  ds_iterations : Z;
  ds_calls : list json;
  ds_usage : option TokenUsage;
  ds_structured : option json;
  terminal_task : option (result rexn unit)
}.

(** Local variables of [_run], and of [_finalize], that their exception handlers read. *)
Record locals : Type := mkLocals {
  v_content : string;
  v_iterations : Z;
  v_usage : TokenUsage;
  v_retries : Z
}.

(** The mutable objects of a run: the message history, the call records, the keys seen,
    the calls of the current response and how many of them are exposed. *)
Record engine_state : Type := mkEngine {
  msgs : list Message;
  records : list json;
  seen_calls : gset string;
  cells : list ToolCall;
  exposed : nat;
  dstate : deadline_state;
  vars : locals;
  final_vars : locals
}.

(** What a run did, in order. *)
Inductive obs : Type :=
| Emitted (e : AgentEvent)
| Asked (rq : provider_request)
| Returned (calls : list provider_call)
| Described (c : ToolCall) (rq : PolicyRequest)
| Evaluated (rq : PolicyRequest) (a : PolicyAction)
| Authorized (o : AuthorizationOutcome)
| Executed (c : ToolCall)
| Recorded (content : string).

(** ** The program *)

Record collaborators : Type := mkCollaborators {
  clock : nat -> Z;
  interrupted : nat -> bool;
  timed_out : nat -> bool;
  sink : nat -> AgentEvent -> result rexn unit;
  capture_assistant_response : option (nat -> string -> result rexn unit);
  result_recorder : option (nat -> string -> result rexn unit);
  compliance : option (string -> result rexn string);
  model : nat -> provider_request -> result rexn provider_response;
  capabilities : nat -> gset string;
  routes_capabilities : bool;
  reflection_policy : ReflectionPolicy;
  reflection_hash_key : string;
  reflection_hash_scope : string;
  parse_and_validate : ResponseContract -> string -> result string json;
  definitions : list ToolDefinition;
  tool : nat -> ToolCall -> result rexn (list (string * json));
  policy_request : option (nat -> ToolCall -> ToolCall * result rexn PolicyRequest);
  tool_requires_approval : option (string -> bool);
  approval_hook : option (nat -> string -> string -> list (string * json) -> result rexn bool);
  policy_engine : option (nat -> PolicyRequest -> result rexn raw_decision);
  tool_authorizer : option authorizer;
  tamper : nat -> nat -> ToolCall -> ToolCall;
  sha256_hex : string -> string;
  image_ok : string -> bool
}.

Section runtime.
Context (co : collaborators) (budget : RuntimeBudget).

#[local] Abbreviation W := (world unit engine_state obs).
#[local] Abbreviation R := (M unit engine_state obs rexn).

(** *** Interactions *)

(** Whoever kept an exposed call may change it. *)
Definition tampered (t : nat) (s : engine_state) : engine_state :=
  mkEngine (msgs s) (records s) (seen_calls s)
    (imap (fun i c => if (i <? exposed s)%nat then tamper co t i c else c) (cells s)) (exposed s) (dstate s) (vars s) (final_vars s).

(** A synchronous call of a collaborator. *)
Definition sync {A} (o : list obs) (answer : nat -> result rexn A) : R A := fun w =>
  (mkWorld (db w) (S (ticks w)) (tampered (ticks w) (fields w)) (history w ++ o), answer (ticks w)).

(** An awaited one, during which the task may be cancelled. *)
Definition await {A} (o : list obs) (answer : nat -> result rexn A) : R A :=
  sync o (fun t => if interrupted co t then Err XCancelled else answer t).

Definition read_clock : R Z := sync [] (fun t => Ok (clock co t)).

Definition get {A} (f : engine_state -> A) : R A := fun w => (w, Ok (f (fields w))).
Definition modify (f : engine_state -> engine_state) : R unit := fun w =>
  (mkWorld (db w) (ticks w) (f (fields w)) (history w), Ok tt).

(** [try: m finally: f] *)
Definition try_finally {A} (m : R A) (f : R unit) : R A := fun w =>
  let (w1, r) := m w in
  match f w1 with
  | (w2, Ok _) => (w2, r)
  | (w2, Err e) => (w2, Err e)
  end.

(** [with suppress(Exception): m] *)
Definition suppress (m : R unit) : R unit :=
  try_with m (fun e => if is_exception e then mret tt else raise e).

Definition add_message (m : Message) : R unit := modify (fun s =>
  mkEngine (msgs s ++ [m]) (records s) (seen_calls s) (cells s) (exposed s) (dstate s) (vars s) (final_vars s)).
Definition add_record (r : json) : R unit := modify (fun s =>
  mkEngine (msgs s) (records s ++ [r]) (seen_calls s) (cells s) (exposed s) (dstate s) (vars s) (final_vars s)).
Definition set_seen (k : gset string) : R unit := modify (fun s =>
  mkEngine (msgs s) (records s) k (cells s) (exposed s) (dstate s) (vars s) (final_vars s)).
Definition set_cells (l : list ToolCall) : R unit := modify (fun s =>
  mkEngine (msgs s) (records s) (seen_calls s) l 0 (dstate s) (vars s) (final_vars s)).
Definition set_cell (i : nat) (c : ToolCall) : R unit := modify (fun s =>
  mkEngine (msgs s) (records s) (seen_calls s) (<[i := c]> (cells s)) (exposed s) (dstate s) (vars s) (final_vars s)).
Definition expose (i : nat) : R unit := modify (fun s =>
  mkEngine (msgs s) (records s) (seen_calls s) (cells s) (S i `max` exposed s) (dstate s) (vars s) (final_vars s)).
Definition set_deadline (d : deadline_state) : R unit := modify (fun s =>
  mkEngine (msgs s) (records s) (seen_calls s) (cells s) (exposed s) d (vars s) (final_vars s)).

Definition set_vars (v : locals) : R unit := modify (fun s =>
  mkEngine (msgs s) (records s) (seen_calls s) (cells s) (exposed s) (dstate s) v (final_vars s)).
Definition set_final_vars (v : locals) : R unit := modify (fun s =>
  mkEngine (msgs s) (records s) (seen_calls s) (cells s) (exposed s) (dstate s) (vars s) v).

Definition with_content (c : string) (v : locals) : locals := mkLocals c (v_iterations v) (v_usage v) (v_retries v).
Definition with_usage (u : TokenUsage) (v : locals) : locals := mkLocals (v_content v) (v_iterations v) u (v_retries v).

Definition cell (i : nat) : R ToolCall := fun w =>
  match cells (fields w) !! i with
  | Some c => (w, Ok c)
  | None => (w, Err (XException "IndexError" "tuple index out of range"))
  end.

(** [_expired]: the deadline is [started_at + max_seconds]. *)
Definition _expired : R bool :=
  d ← get (fun s => deadline (dstate s)); t ← read_clock; mret (d <=? t).

(** [await_before_deadline]: an operation that ends too late, or whose caller is
    cancelled meanwhile, goes on detached and its result is dropped. *)
Definition await_before_deadline {A} (m : R A) : R A :=
  d ← get (fun s => deadline (dstate s));
  t ← read_clock;
  if d - t <=? 0 then raise XDeadline
  else fun w =>
    let (w', r) := m w in
    sync [] (fun t => if interrupted co t then Err XCancelled
                      else if timed_out co t || (d <=? clock co t) then Err XDeadline else r) w'.

(** *** Events *)

(** [event_data] of [_emit]: cache counts are added to two kinds of events. *)
Definition event_data (kind : AgentEventKind) (data : list (string * json)) (u : TokenUsage) : list (string * json) :=
  if bool_decide (kind ∈ [MODEL_RESPONSE; RUN_STOPPED]) then
    data ++ match usage_read u with Some n => [("cache_read_input_tokens"%string, JInt n)] | None => [] end
         ++ match usage_write u with Some n => [("cache_write_input_tokens"%string, JInt n)] | None => [] end
  else data.

Definition set_persisted (d : deadline_state) : deadline_state :=
  mkDeadline (deadline d) (terminal_started d) true (terminal_reason d) (terminal_error d) (ds_content d)
    (ds_iterations d) (ds_calls d) (ds_usage d) (ds_structured d) (terminal_task d).

Definition set_progress (iterations : Z) (u : option TokenUsage) (d : deadline_state) : deadline_state :=
  mkDeadline (deadline d) (terminal_started d) (terminal_persisted d) (terminal_reason d) (terminal_error d)
    (ds_content d) iterations (ds_calls d) u (ds_structured d) (terminal_task d).

(** [state.iterations = ..] and [state.usage = ..] *)
Definition note_iterations (n : Z) : R unit := d ← get dstate; set_deadline (set_progress n (ds_usage d) d).
Definition note_usage (u : TokenUsage) : R unit := d ← get dstate; set_deadline (set_progress (ds_iterations d) (Some u) d).

(** The terminal event is emitted by a task of its own, which the cancellation of the
    run does not reach. *)
Definition _emit (kind : AgentEventKind) (iteration : Z) (data : list (string * json)) (u : TokenUsage) : R unit :=
  let e := mkEvent kind iteration (event_data kind data u) u in
  if bool_decide (kind = RUN_STOPPED) then
    _ ← sync [Emitted e] (fun t => sink co t e);
    d ← get dstate; set_deadline (set_persisted d)
  else
    _ ← await [Emitted e] (fun t => sink co t e);
    d ← get (fun s => deadline (dstate s));
    t ← read_clock;
    if d <=? t then raise XDeadline else mret tt.

Definition emit (kind : AgentEventKind) (iteration : Z) (data : list (string * json)) : R unit :=
  _emit kind iteration data no_usage.

Definition opt_json (o : option string) : json := match o with Some s => JStr s | None => JNull end.

(** *** Stopping *)

Definition enforce_output (content : string) : R string :=
  match compliance co with
  | None => mret content
  | Some f => sync [] (fun _ => f content)
  end.

(** [persist_terminal] *)
Definition persist_terminal (reason : StopReason) (content : string) (iterations : Z) (u : TokenUsage)
    (error : option string) (record_result : bool) : R unit :=
  _ ← match capture_assistant_response co with
      | Some f => sync [] (fun t => f t content)
      | None => mret tt
      end;
  _ ← match result_recorder co with
      | Some f => if record_result then sync [Recorded content] (fun t => f t content) else mret tt
      | None => mret tt
      end;
  _emit RUN_STOPPED iterations [("reason", JStr (stop_value reason)); ("error", opt_json error)]%string u.

Definition start_terminal (reason : StopReason) (content : string) (iterations : Z) (calls : list json)
    (u : TokenUsage) (error : option string) (structured : option json) (d : deadline_state) : deadline_state :=
  mkDeadline (deadline d) true (terminal_persisted d) (Some reason) error content iterations calls (Some u) structured
    (terminal_task d).

Definition set_task (o : result rexn unit) (d : deadline_state) : deadline_state :=
  mkDeadline (deadline d) (terminal_started d) (terminal_persisted d) (terminal_reason d) (terminal_error d)
    (ds_content d) (ds_iterations d) (ds_calls d) (ds_usage d) (ds_structured d) (Some o).

(** The terminal task, created once; its outcome is kept. *)
Definition run_terminal_task (task : option (result rexn unit)) (m : R unit) : R (result rexn unit) :=
  match task with
  | Some o => mret o
  | None => fun w =>
      let (w', o) := m w in
      (d ← get dstate; _ ← set_deadline (set_task o d); mret o) w'
  end.

Definition _stop (reason : StopReason) (content : string) (iterations : Z) (calls : list json) (u : TokenUsage)
    (error : option string) (structured : option json) (record_result : bool) : R AgentResult :=
  content ← enforce_output content;
  d ← get dstate;
  let started := terminal_started d in
  let reason := if started then default reason (terminal_reason d) else reason in
  let error := if started then terminal_error d else error in
  let structured := if started then ds_structured d else structured in
  let content := if started then ds_content d else content in
  let iterations := if started then ds_iterations d else iterations in
  let calls := if started then ds_calls d else calls in
  let u := if started then default u (ds_usage d) else u in
  _ ← (if started then mret tt
       else set_deadline (start_terminal reason content iterations calls u error structured d));
  o ← run_terminal_task (if started then terminal_task d else None)
        (persist_terminal reason content iterations u error record_result);
  _ ← await [] (fun _ => o);
  d ← get dstate;
  _ ← set_deadline (set_persisted d);
  mret (mkResult content reason iterations calls u error structured).

(** [_stop] with the local variables of its caller. *)
Definition stop (v : locals) (reason : StopReason) (error : option string) (structured : option json) : R AgentResult :=
  calls ← get records; _stop reason (v_content v) (v_iterations v) calls (v_usage v) error structured true.

Definition budget_reason (e : charge_error) : StopReason :=
  match e with
  | BudgetExhausted => MONETARY_BUDGET_EXHAUSTED | DuplicateCharge => MODEL_CHARGE_DUPLICATE
  | _ => MODEL_CHARGE_INDETERMINATE
  end.

Definition _stop_for_budget_error (v : locals) (e : charge_error) : R AgentResult :=
  let reason := budget_reason e in
  _ ← emit BUDGET_BLOCKED (v_iterations v)
        [("code", JStr (charge_code e)); ("stop_reason", JStr (stop_value reason))]%string;
  stop v reason (Some (charge_code e)) None.

Definition comma_join (l : list string) : string := String.concat "," l.

Definition _reject_provider_capabilities (v : locals) (names : list string) : R AgentResult :=
  _ ← emit PROVIDER_CAPABILITY_REJECTED (v_iterations v)
        [("code", JStr "provider_capability_unsupported"); ("missing_capabilities", JArr (JStr <$> names))]%string;
  stop v PROVIDER_CAPABILITY_UNSUPPORTED (Some ("provider_capability_unsupported:" ++ comma_join names)%string) None.

(** [_safe_missing_capability_names] *)
Definition _safe_missing_capability_names (reported : list string) : list string := in_order (list_to_set reported).

Definition _provider_requirements (messages : list Message) (contract : option ResponseContract)
    (explicit : gset string) (native_tools_required : bool) : gset string :=
  explicit
  ∪ (if native_tools_required then {[ "native_tools"%string ]} else ∅)
  ∪ (if existsb (fun m => negb (bool_decide (images m = []))) messages then {[ "images"%string ]} else ∅)
  ∪ (match contract with Some _ => {[ "json_mode"%string ]} | None => ∅ end).

(** [_normalize_provider_stop_reason]; [None] is to go on with the tool calls. *)
Definition _normalize_provider_stop_reason (reason : option string) (has_tool_calls : bool) : option StopReason :=
  let normalized := match reason with Some r => lower (strip r) | None => ""%string end in
  if bool_decide (normalized ∈ ["tool_use"; "tool_calls"]%string)
  then if has_tool_calls then None else Some PROVIDER_ERROR
  else if bool_decide (normalized ∈ [""; "stop"; "end_turn"; "stop_sequence"; "completed"]%string) then Some COMPLETED
  else if bool_decide (normalized ∈ ["max_tokens"; "length"; "max_output_tokens"]%string) then Some PROVIDER_LENGTH_LIMIT
  else if string_eqb normalized "refusal" then Some PROVIDER_REFUSAL
  else if bool_decide (normalized ∈ ["content_filter"; "safety"; "blocked"]%string) then Some PROVIDER_CONTENT_FILTER
  else Some PROVIDER_ERROR.

(** *** The calls of a response *)

Definition arguments_hash (args : list (string * json)) : string := sha256_hex co (dumps (JObj args)).

(** One call of [_snapshot_provider_tool_calls]; the error carries the safe identity. *)
Definition snapshot_call (policy_mode : bool) (c : provider_call)
  : result (string * string) (_NativeToolBinding * ToolCall) :=
  let safe (o : option string) := match o with Some s => if string_eqb s "" then "unavailable"%string else s
                                  | None => "unavailable"%string end in
  let safe_id := safe (pc_id c) in
  let safe_name := safe (pc_name c) in
  if negb (bool_decide (pc_id c = Some safe_id /\ pc_name c = Some safe_name)) then Err (safe_id, safe_name)
  else if policy_mode && negb (bool_decide (canonical_tool_name safe_name = Ok safe_name)) then Err (safe_id, safe_name)
  else match pc_arguments c with
  | None => Err (safe_id, safe_name)
  | Some args => Ok (mkNative safe_id safe_name (arguments_hash args) (dumps (JObj args)), mkToolCall safe_id safe_name args)
  end.

Fixpoint _snapshot_provider_tool_calls (policy_mode : bool) (l : list provider_call)
  : result (string * string) (list (_NativeToolBinding * ToolCall)) :=
  match l with
  | [] => Ok []
  | c :: l' => x ← snapshot_call policy_mode c; xs ← _snapshot_provider_tool_calls policy_mode l'; Ok (x :: xs)
  end.

(** The key under which a call counts as a repetition. *)
Definition call_key (c : ToolCall) : string := dumps_ascii (JArr [JStr (call_name c); JObj (arguments c)]).

Definition duplicate_message (c : ToolCall) : Message :=
  mkMessage TOOL (dumps_ascii (JObj [("error", JStr "Duplicate tool call blocked; use existing result.")]%string))
    (Some (call_id c)) [] [].

Definition unexecuted_message (reason : string) (c : ToolCall) : Message :=
  mkMessage TOOL (dumps_ascii (JObj [("error", JStr "Tool call was not executed."); ("reason_code", JStr reason)]%string))
    (Some (call_id c)) [] [].

(** [_append_unexecuted_tool_results] *)
Fixpoint _append_unexecuted_tool_results (reason : string) (l : list ToolCall) : R unit :=
  match l with
  | [] => mret tt
  | c :: l' => _ ← add_message (unexecuted_message reason c); _append_unexecuted_tool_results reason l'
  end.

(** *** Policy *)

Definition hash_data (h : option string) : list (string * json) :=
  match h with Some h => [("arguments_hash"%string, JStr h)] | None => [] end.

Definition action_value (a : PolicyAction) : string :=
  match a with ALLOW => "allow" | ASK => "ask" | DENY => "deny" end%string.

Definition decision_reason_code (a : PolicyAction) : string :=
  match a with ALLOW => "policy_allowed" | ASK => "approval_required" | DENY => "policy_denied" end%string.

Definition _emit_policy_failure (id name : string) (iteration : Z) (reason_code : string) (h : option string) : R unit :=
  emit POLICY_DECIDED iteration
    ([("id", JStr id); ("name", JStr name); ("action", JStr (action_value DENY)); ("reason_code", JStr reason_code)]%string
     ++ hash_data h).

Definition _emit_approval_failure (id name : string) (iteration : Z) (h reason_code : string) : R unit :=
  emit APPROVAL_DECIDED iteration
    [("id", JStr id); ("name", JStr name); ("arguments_hash", JStr h); ("approved", JBool false);
     ("reason_code", JStr reason_code)]%string.

Definition denial_record (name reason_code : string) : json :=
  JObj [("tool", JStr name); ("parameters", JObj []);
        ("result", JObj [("error", JStr "Tool call denied"); ("reason_code", JStr reason_code)]);
        ("status", JStr "denied")]%string.

Definition _record_denial (id name : string) (iteration : Z) (reason_code : string) (h : option string) : R unit :=
  _ ← add_record (denial_record name reason_code);
  emit TOOL_DENIED iteration
    ([("id", JStr id); ("name", JStr name); ("reason_code", JStr reason_code)]%string ++ hash_data h).

(** The pairs of a failure event and a denial. *)
Definition deny_policy (b : _NativeToolBinding) (iteration : Z) (code : string) : R StopReason :=
  _ ← _emit_policy_failure (n_call_id b) (n_tool b) iteration code (Some (n_hash b));
  _ ← _record_denial (n_call_id b) (n_tool b) iteration code (Some (n_hash b));
  mret POLICY_DENIED.

Definition deny_approval (b : _NativeToolBinding) (iteration : Z) (code : string) (reason : StopReason) : R StopReason :=
  _ ← _emit_approval_failure (n_call_id b) (n_tool b) iteration (n_hash b) code;
  _ ← _record_denial (n_call_id b) (n_tool b) iteration code (Some (n_hash b));
  mret reason.

(** [binding_matches] *)
Definition binding_matches (c : ToolCall) (b : _NativeToolBinding) : bool :=
  string_eqb (call_id c) (n_call_id b) && string_eqb (call_name c) (n_tool b)
  && bool_decide (canonical_tool_name (call_name c) = Ok (n_tool b))
  && string_eqb (arguments_hash (arguments c)) (n_hash b).

Definition sorted_risk_values (risks : gset RiskClass) : list json :=
  (fun r => JStr r.1) <$>
  filter (fun r => r.2 ∈ risks)
    [("execute", EXECUTE); ("external_side_effect", EXTERNAL_SIDE_EFFECT); ("network", NETWORK); ("read", READ);
     ("secret", SECRET); ("write", WRITE)]%string.

(** [re.fullmatch(r"[A-Za-z0-9_.:-]{1,128}", rule)] *)
Definition printable_rule (rule : string) : bool :=
  (1 <=? String.length rule)%nat && (String.length rule <=? 128)%nat && string_forall safe_id_char rule.

(** Ask the executor about the call in a cell, which it may change from then on. *)
Definition ask_policy_request (i : nat) (f : nat -> ToolCall -> ToolCall * result rexn PolicyRequest)
  : R (option PolicyRequest) :=
  c ← cell i;
  _ ← expose i;
  r ← sync [] (fun t => Ok (f t c));
  _ ← set_cell i r.1;
  match r.2 with
  | Ok rq => _ ← record_event (Described c rq); mret (Some rq)
  | Err e => if is_exception e then mret None else raise e
  end.

(** The fields of a decision that pass its tests. *)
Definition checked_decision (rq : PolicyRequest) (d : raw_decision)
  : option (PolicyAction * gset RiskClass * option string * string) :=
  match d_action d, d_risks d, d_rule d, d_reason d with
  | Some a, Some risks, Some rule, Some why =>
      if bool_decide (risks = request_risks rq) then Some (a, risks, rule, why) else None
  | _, _, _, _ => None
  end.

Definition decide_request (engine : nat -> PolicyRequest -> result rexn raw_decision) (rq : PolicyRequest)
  : R (option (PolicyAction * gset RiskClass * option string * string)) :=
  d ← sync [] (fun t => Ok (engine t rq));
  match d with
  | Ok raw => match checked_decision rq raw with
              | Some x => _ ← record_event (Evaluated rq x.1.1.1); mret (Some x)
              | None => mret None
              end
  | Err e => if is_exception e then mret None else raise e
  end.

(** The outcome of an authorizer, validated and copied; [None] is a mismatch. *)
Definition checked_outcome (asked after : AuthorizationRequest) (o : option raw_outcome) : option AuthorizationOutcome :=
  match o with
  | Some (mkRawOutcome (Some approved) (Some id) (Some name) (Some h) (Some why)) =>
      if bool_decide (after = asked) && lower_code why
         && string_eqb id (q_call_id asked) && string_eqb name (q_tool asked) && string_eqb h (q_hash asked)
      then Some (mkAuthOutcome approved id name h why) else None
  | _ => None
  end.

Definition cleanup (a : authorizer) (q : AuthorizationRequest) : R unit :=
  match a_preparatory a with
  | Some p => await [] (fun t => cancel p t q)
  | None => mret tt
  end.

(** Reserve the request before it is published. [Some reason] ends the run. *)
Definition prepare_approval (a : authorizer) (b : _NativeToolBinding) (q : AuthorizationRequest) (iteration : Z)
  : R (AuthorizationRequest + StopReason) :=
  match a_preparatory a with
  | None => mret (inl q)
  | Some p =>
      prepared ← try_with (q' ← await [] (fun t => prepare p t q); mret (Some q'))
        (fun e => _ ← cleanup a q; if is_exception e then mret None else raise e);
      match prepared with
      | None => reason ← deny_approval b iteration "approval_unavailable" APPROVAL_UNAVAILABLE; mret (inr reason)
      | Some q' =>
          late ← _expired;
          if (late : bool) then raise XDeadline
          else if bool_decide (q' = q) then mret (inl q')
          else _ ← cleanup a q;
               reason ← deny_approval b iteration "approval_binding_mismatch" APPROVAL_UNAVAILABLE; mret (inr reason)
      end
  end.

(** Wait for the authorizer, at most until the time out. *)
Definition wait_for_outcome (a : authorizer) (b : _NativeToolBinding) (q q' : AuthorizationRequest) (iteration : Z)
  : R ((AuthorizationRequest * option raw_outcome) + StopReason) :=
  try_finally
    (try_with
       (o ← await [] (fun t => Ok (if timed_out co t then None else Some (authorize a t q')));
        match o with
        | None => reason ← deny_approval b iteration "approval_timeout" APPROVAL_TIMEOUT; mret (inr reason)
        | Some r => x ← of_result r; mret (inl x)
        end)
       (fun e => if is_exception e
                 then reason ← deny_approval b iteration "approval_unavailable" APPROVAL_UNAVAILABLE; mret (inr reason)
                 else raise e))
    (suppress (cleanup a q)).

Definition approval_decided (o : AuthorizationOutcome) (iteration : Z) : R unit :=
  emit APPROVAL_DECIDED iteration
    [("id", JStr (o_call_id o)); ("name", JStr (o_tool o)); ("arguments_hash", JStr (o_hash o));
     ("approved", JBool (o_approved o)); ("reason_code", JStr (o_reason o))]%string.

(** The decision of a human about a call the policy asks about: [None] is an approval. *)
Definition ask_for_approval (approval_timeout : Z) (a : authorizer) (b : _NativeToolBinding) (risks : gset RiskClass)
    (rule : option string) (iteration : Z) : R (option StopReason) :=
  q ← of_result (lift_err (fun _ => XException "ValueError" "")
        (new_auth_request (n_call_id b) (n_tool b) (n_hash b) risks rule));
  prepared ← prepare_approval a b q iteration;
  match prepared with
  | inr reason => mret (Some reason)
  | inl q' =>
      _ ← try_with
        (emit APPROVAL_REQUIRED iteration
           [("id", JStr (n_call_id b)); ("name", JStr (n_tool b)); ("arguments_hash", JStr (n_hash b));
            ("risk_classes", JArr (sorted_risk_values risks))]%string)
        (fun e => _ ← cleanup a q; raise e);
      d ← get (fun s => deadline (dstate s));
      t ← read_clock;
      if (d - t) `min` approval_timeout <=? 0 then
        _ ← cleanup a q;
        Some <$> deny_approval b iteration "approval_timeout" APPROVAL_TIMEOUT
      else
        waited ← wait_for_outcome a b q q' iteration;
        match waited with
        | inr reason => mret (Some reason)
        | inl (after, raw) =>
            match checked_outcome q after raw with
            | None => Some <$> deny_approval b iteration "approval_binding_mismatch" APPROVAL_UNAVAILABLE
            | Some o =>
                _ ← record_event (Authorized o);
                _ ← approval_decided o iteration;
                if o_approved o then mret None
                else _ ← _record_denial (n_call_id b) (n_tool b) iteration (o_reason o) (Some (o_hash o));
                     mret (Some POLICY_DENIED)
            end
        end
  end.

(** [_enforce_policy] for the call in cell [i]. *)
Definition _enforce_policy (engine : nat -> PolicyRequest -> result rexn raw_decision) (approval_timeout : Z)
    (i : nat) (b : _NativeToolBinding) (iteration : Z) : R (_PolicyExecutionBinding + StopReason) :=
  c ← cell i;
  if negb (binding_matches c b) then inr <$> deny_policy b iteration "binding_mismatch"
  else match policy_request co with
  | None => inr <$> deny_policy b iteration "policy_metadata_unavailable"
  | Some f =>
      asked ← ask_policy_request i f;
      c ← cell i;
      if negb (binding_matches c b) then inr <$> deny_policy b iteration "binding_mismatch"
      else match asked with
      | None => inr <$> deny_policy b iteration "policy_metadata_unavailable"
      | Some rq =>
          if negb (string_eqb (request_tool rq) (n_tool b))
          then inr <$> deny_policy b iteration "policy_metadata_unavailable"
          else
            decision ← decide_request engine rq;
            match decision with
            | None => inr <$> deny_policy b iteration "policy_engine_unavailable"
            | Some (a, risks, rule, why) =>
                _ ← emit POLICY_DECIDED iteration
                  ([("id", JStr (n_call_id b)); ("name", JStr (n_tool b)); ("action", JStr (action_value a));
                    ("reason_code", JStr (decision_reason_code a)); ("risk_classes", JArr (sorted_risk_values risks));
                    ("arguments_hash", JStr (n_hash b))]%string
                   ++ match rule with
                      | Some r => if printable_rule r then [("matched_rule_id"%string, JStr r)] else []
                      | None => []
                      end);
                let binding := mkBinding b rq a risks rule why in
                match a with
                | ALLOW => mret (inl binding)
                | DENY =>
                    _ ← _record_denial (n_call_id b) (n_tool b) iteration "policy_denied" (Some (n_hash b));
                    mret (inr POLICY_DENIED)
                | ASK =>
                    match tool_authorizer co with
                    | None =>
                        _ ← _record_denial (n_call_id b) (n_tool b) iteration "approval_unavailable" (Some (n_hash b));
                        mret (inr APPROVAL_UNAVAILABLE)
                    | Some au =>
                        refused ← ask_for_approval approval_timeout au b risks rule iteration;
                        mret (match refused with None => inl binding | Some reason => inr reason end)
                    end
                end
            end
      end
  end.

(** [canonical_arguments_snapshot(json.loads(binding.arguments_json))] *)
Definition bound_arguments (b : _NativeToolBinding) : R (list (string * json)) :=
  match loads (n_json b) with
  | Some (JObj args) => mret args
  | _ => raise (XException "TypeError" "arguments must be an object")
  end.

Definition binding_changed : rexn := XException "ValueError" "policy execution binding changed".

(** [_prepare_policy_execution_call] for the call in cell [i]. *)
Definition _prepare_policy_execution_call (i : nat) (x : _PolicyExecutionBinding) : R ToolCall :=
  let b := x_native x in
  match policy_request co with
  | None => raise (XException "TypeError" "policy-aware tool metadata is unavailable")
  | Some f =>
      c ← cell i;
      if negb (binding_matches c b) then raise binding_changed
      else
        args ← bound_arguments b;
        if negb (string_eqb (arguments_hash args) (n_hash b)) then raise binding_changed
        else
          r ← sync [] (fun t => Ok (f t (mkToolCall (n_call_id b) (n_tool b) args)));
          rq ← of_result r.2;
          if negb (string_eqb (call_id r.1) (n_call_id b) && string_eqb (call_name r.1) (n_tool b)
                   && string_eqb (request_tool rq) (n_tool b) && bool_decide (rq = x_request x)
                   && string_eqb (arguments_hash (arguments r.1)) (n_hash b))
          then raise binding_changed
          else
            _ ← record_event (Described (mkToolCall (n_call_id b) (n_tool b) args) rq);
            mret (mkToolCall (n_call_id b) (n_tool b) args)
  end.

(** [_prepare_policy_batch] from cell [i] on; [None] is a repeated call. *)
Fixpoint prepare_calls (engine : nat -> PolicyRequest -> result rexn raw_decision) (approval_timeout : Z)
    (i : nat) (bs : list _NativeToolBinding) (iteration : Z) (batch_seen : gset string)
    : R ((list (option (ToolCall * _PolicyExecutionBinding)) * gset string) + StopReason) :=
  match bs with
  | [] => mret (inl ([], batch_seen))
  | b :: bs' =>
      c ← cell i;
      if decide (call_key c ∈ batch_seen) then
        _ ← add_message (duplicate_message c);
        rest ← prepare_calls engine approval_timeout (S i) bs' iteration batch_seen;
        mret (match rest with inl (l, k) => inl (None :: l, k) | inr reason => inr reason end)
      else
        let batch_seen := {[ call_key c ]} ∪ batch_seen in
        _ ← emit TOOL_CALL_REQUESTED iteration
              [("id", JStr (n_call_id b)); ("name", JStr (n_tool b)); ("arguments_hash", JStr (n_hash b))]%string;
        enforcement ← _enforce_policy engine approval_timeout i b iteration;
        match enforcement with
        | inr reason => mret (inr reason)
        | inl x =>
            prepared ← try_with (c ← _prepare_policy_execution_call i x; mret (Some c))
                         (fun e => if is_exception e then mret None else raise e);
            match prepared with
            | None =>
                inr <$> (if bool_decide (x_action x = ASK)
                         then deny_approval b iteration "binding_mismatch" APPROVAL_UNAVAILABLE
                         else deny_policy b iteration "binding_mismatch")
            | Some call =>
                rest ← prepare_calls engine approval_timeout (S i) bs' iteration batch_seen;
                mret (match rest with inl (l, k) => inl (Some (call, x) :: l, k) | inr reason => inr reason end)
            end
        end
  end.

Definition _prepare_policy_batch (engine : nat -> PolicyRequest -> result rexn raw_decision) (approval_timeout : Z)
    (bs : list _NativeToolBinding) (iteration : Z)
  : R (list (option (ToolCall * _PolicyExecutionBinding)) + StopReason) :=
  seen ← get seen_calls;
  r ← prepare_calls engine approval_timeout 0 bs iteration seen;
  match r with
  | inl (l, batch_seen) => _ ← set_seen batch_seen; mret (inl l)
  | inr reason => mret (inr reason)
  end.

(** *** Executing a call *)

(** [_policy_tool_result_data] *)
Definition _policy_tool_result_data (b : _NativeToolBinding) (serialized status : string) : list (string * json) :=
  [("id", JStr (n_call_id b)); ("name", JStr (n_tool b)); ("arguments_hash", JStr (n_hash b));
   ("arguments_size", JInt (len (n_json b))); ("output_hash", JStr (sha256_hex co serialized));
   ("output_size", JInt (len serialized)); ("status", JStr status)]%string.

(** The record of a call and the data of its completion event, from its policy binding
    or, without a policy, from the call object itself. *)
Definition completion (bound : option _PolicyExecutionBinding) (c : ToolCall) (output : json)
    (serialized status : string) (status_in_event : bool) : R (list (string * json) * list (string * json)) :=
  match bound with
  | None =>
      mret ([("tool", JStr (call_name c)); ("tool_call_id", JStr (call_id c)); ("parameters", JObj (arguments c));
             ("result", output); ("status", JStr status)]%string,
            [("id", JStr (call_id c)); ("name", JStr (call_name c)); ("arguments", JObj (arguments c));
             ("output", output)]%string ++ (if status_in_event then [("status"%string, JStr status)] else []))
  | Some x =>
      let b := x_native x in
      args ← bound_arguments b;
      let data := _policy_tool_result_data b serialized status in
      mret ([("tool", JStr (n_tool b)); ("tool_call_id", JStr (n_call_id b)); ("parameters", JObj args);
             ("result", output)]%string ++ data, data)
  end.

Definition reflexion_hint : string :=
  "The tool call failed. Analyze the error, adjust your approach, and try again with corrected parameters or a different tool.".

Definition error_output (e : rexn) : json :=
  JObj [("error", JStr (exn_name e ++ ": " ++ exn_text e)); ("reflexion_hint", JStr reflexion_hint)]%string.

Definition answered_id (bound : option _PolicyExecutionBinding) (c : ToolCall) : string :=
  match bound with Some x => n_call_id (x_native x) | None => call_id c end.

Definition tool_message (id content : string) : Message := mkMessage TOOL content (Some id) [] [].

Definition chunk_size : Z := 500.

(** Offsets of [range(0, n, 500)] *)
Definition offsets (n : Z) : list Z := (fun k => Z.of_nat k * chunk_size) <$> seq 0 (Z.to_nat (ceil_div n chunk_size)).

Definition slice (s : string) (from size : Z) : string := String.substring (Z.to_nat from) (Z.to_nat size) s.

Fixpoint emit_progress (bound : option _PolicyExecutionBinding) (c : ToolCall) (iteration : Z) (serialized : string)
    (data : list (string * json)) (l : list Z) : R unit :=
  match l with
  | [] => mret tt
  | i :: l' =>
      _ ← emit TOOL_PROGRESS iteration
            (match bound with
             | None => [("id", JStr (call_id c)); ("name", JStr (call_name c)); ("chunk", JStr (slice serialized i chunk_size));
                        ("offset", JInt i); ("total", JInt (len serialized))]%string
             | Some _ => data ++ [("offset", JInt i); ("total", JInt (len serialized))]%string
             end);
      emit_progress bound c iteration serialized data l'
  end.

(** [serialized[:n] + "...[truncated]"]; a negative bound counts from the end. *)
Definition truncated (serialized : string) : string :=
  let n := max_tool_result_chars budget in
  if n <? len serialized
  then (slice serialized 0%Z (if n <? 0 then len serialized + n else n)%Z ++ "...[truncated]")%string else serialized.

Definition execution_status (output : list (string * json)) : string :=
  match List.find (fun kv => string_eqb kv.1 "status") output with
  | Some (_, JStr s) => if string_eqb s "duplicate_effect_blocked" then "duplicate" else "success"
  | _ => "success"
  end%string.

(** One call: [current] reads the call object again after the tool had it. *)
Definition execute_call (bound : option _PolicyExecutionBinding) (c : ToolCall) (current : R ToolCall) (iteration : Z)
  : R unit :=
  outcome ← try_with (o ← await_before_deadline (await [Executed c] (fun t => tool co t c)); mret (Ok o))
              (fun e => match e with XCancelled | XDeadline => raise e | _ => mret (Err e) end);
  c ← current;
  match outcome with
  | Err e =>
      let output := error_output e in
      '(record, data) ← completion bound c output (dumps_ascii output) "error" false;
      _ ← add_record (JObj record);
      _ ← emit TOOL_CALL_COMPLETED iteration data;
      add_message (tool_message (answered_id bound c) (dumps_ascii output))
  | Ok output =>
      let serialized := dumps_ascii (JObj output) in
      let status := execution_status output in
      '(record, data) ← completion bound c (JObj output) serialized status true;
      _ ← add_record (JObj record);
      _ ← emit TOOL_CALL_COMPLETED iteration data;
      _ ← (if chunk_size <? len serialized
           then emit_progress bound c iteration serialized data (offsets (len serialized)) else mret tt);
      add_message (tool_message (answered_id bound c) (truncated serialized))
  end.

(** The calls of a prepared batch. *)
Fixpoint execute_prepared (l : list (option (ToolCall * _PolicyExecutionBinding))) (iteration : Z) : R unit :=
  match l with
  | [] => mret tt
  | None :: l' => execute_prepared l' iteration
  | Some (c, x) :: l' => _ ← execute_call (Some x) c (mret c) iteration; execute_prepared l' iteration
  end.

Definition denied_output : json := JObj [("error", JStr "User denied this tool call")]%string.

(** The deprecated approval hook: [true] goes on with the call. *)
Definition legacy_approval (c : ToolCall) (iteration : Z) : R bool :=
  match approval_hook co, tool_requires_approval co with
  | Some hook, Some needs =>
      if needs (call_name c) then
        _ ← emit APPROVAL_REQUIRED iteration
              [("id", JStr (call_id c)); ("name", JStr (call_name c)); ("arguments", JObj (arguments c))]%string;
        approved ← await [] (fun t => hook t (call_name c) (call_id c) (arguments c));
        if (approved : bool) then mret true
        else
          _ ← add_record (JObj [("tool", JStr (call_name c)); ("tool_call_id", JStr (call_id c));
                ("parameters", JObj (arguments c)); ("result", denied_output); ("status", JStr "denied")]%string);
          _ ← emit TOOL_DENIED iteration
                [("id", JStr (call_id c)); ("name", JStr (call_name c)); ("arguments", JObj (arguments c))]%string;
          _ ← add_message (tool_message (call_id c) (dumps_ascii denied_output));
          mret false
      else mret true
  | _, _ => mret true
  end.

(** The calls of a response without a policy, from cell [i] on; [false] when the budget
    of tool calls is exhausted. *)
Fixpoint execute_legacy (i n : nat) (iteration : Z) : R bool :=
  match n with
  | O => mret true
  | S n' =>
      used ← get (fun s => Z.of_nat (length (records s)));
      if max_tool_calls budget <=? used then
        rest ← get (fun s => drop i (cells s));
        _ ← _append_unexecuted_tool_results (stop_value TOOL_BUDGET_EXHAUSTED) rest;
        mret false
      else
        c ← cell i;
        seen ← get seen_calls;
        if decide (call_key c ∈ seen) then
          _ ← add_message (duplicate_message c); execute_legacy (S i) n' iteration
        else
          _ ← set_seen ({[ call_key c ]} ∪ seen);
          _ ← emit TOOL_CALL_REQUESTED iteration
                [("id", JStr (call_id c)); ("name", JStr (call_name c)); ("arguments", JObj (arguments c))]%string;
          approved ← legacy_approval c iteration;
          _ ← (if (approved : bool) then _ ← expose i; execute_call None c (cell i) iteration else mret tt);
          execute_legacy (S i) n' iteration
  end.

(** *** Responses *)

Definition opt_member (k : string) (o : option string) : list (string * json) :=
  match o with Some v => [(k, JStr v)] | None => [] end.

Definition response_data (r : provider_response) : list (string * json) :=
  opt_member "provider_stop_reason" (pr_stop_reason r) ++ opt_member "actual_provider" (pr_provider r)
  ++ opt_member "actual_model" (pr_model r).

Definition ask_model (tools : list ToolDefinition) (tokens : Z) (contract : option ResponseContract)
    (requirements : gset string) : R provider_response :=
  history ← get msgs;
  let rq := mkAsk history tools tokens contract (if routes_capabilities co then Some requirements else None) in
  await_before_deadline (await [Asked rq] (fun t => model co t rq)).

Definition nonempty (o : option string) : option string :=
  match o with Some s => if string_eqb s "" then None else Some s | None => None end.

(** [if response_content and self._compliance is not None] *)
Definition comply (o : option string) : R (option string) :=
  match nonempty o with
  | Some s => s' ← enforce_output s; mret (Some s')
  | None => mret o
  end.

Definition is_stop (r : option StopReason) : option StopReason :=
  match r with None | Some COMPLETED => None | Some reason => Some reason end.

Definition provider_stop (reason : StopReason) : option string :=
  Some ("provider_stop_reason:" ++ stop_value reason)%string.

Definition final_prompt : string :=
  "Execution budget reached. Do not call tools. Produce the best complete final answer now from the evidence already available. State any missing coverage.".

Definition user_message (content : string) : Message := mkMessage USER content None [] [].

(** What [_finalize] does with the response to its request. *)
Definition final_response (reason : StopReason) (contract : option ResponseContract) (r : provider_response)
  : R AgentResult :=
  v ← get final_vars;
  let v := with_usage (add_usage (v_usage v) (pr_usage r)) v in
  _ ← set_final_vars v;
  _ ← _emit MODEL_RESPONSE (v_iterations v) (response_data r) (pr_usage r);
  match is_stop (_normalize_provider_stop_reason (pr_stop_reason r) false) with
  | Some provider_reason => stop v provider_reason (provider_stop provider_reason) None
  | None =>
      if negb (bool_decide (pr_calls r = []))
      then stop v PROVIDER_ERROR (Some "provider_stop_reason:final_synthesis_tool_call"%string) None
      else
        response_content ← comply (pr_content r);
        match (match contract with
               | None => Ok None
               | Some c => Some <$> parse_and_validate co c (default ""%string response_content)
               end) with
        | Err code =>
            _ ← emit STRUCTURED_OUTPUT_REJECTED (v_iterations v) [("code"%string, JStr code)];
            stop v STRUCTURED_OUTPUT_INVALID (Some ("structured_output_invalid:" ++ code)%string) None
        | Ok structured =>
            match nonempty response_content with
            | Some text =>
                let v := with_content text v in
                _ ← set_final_vars v;
                _ ← emit TEXT_DELTA (v_iterations v) [("text"%string, JStr text)];
                stop v reason None structured
            | None => stop v reason None structured
            end
        end
  end.

Definition _finalize (reason : StopReason) (contract : option ResponseContract) (requirements : gset string)
  : R AgentResult :=
  v ← get vars;
  _ ← set_final_vars v;
  late ← _expired;
  if (late : bool) then stop v reason None None
  else
    _ ← add_message (user_message final_prompt);
    names ← sync [] (fun t => Ok (missing (capabilities co t) requirements));
    if negb (bool_decide (names = [])) then _reject_provider_capabilities v names
    else
      try_with
        (r ← ask_model [] (final_synthesis_tokens budget) contract requirements; final_response reason contract r)
        (fun e =>
          v ← get final_vars;
          match e with
          | XCancelled => raise e
          | XDeadline => stop v TIME_BUDGET_EXHAUSTED None None
          | XCharge e => _stop_for_budget_error v e
          | XUnsupported names _ => _reject_provider_capabilities v (_safe_missing_capability_names names)
          | _ => stop v reason (Some "final_synthesis_failed"%string) None
          end).

(** *** The loop *)

Definition retry_prompt (c : ResponseContract) : string :=
  "The previous response was invalid. Return exactly one JSON value matching schema " ++ schema_id c ++ " version "
  ++ schema_version c ++ ". Include no prose or markdown.".

(** Ask the model for the next response; [inr] ends the run. *)
Definition next_response (contract : option ResponseContract) (requirements : gset string)
  : R (provider_response + AgentResult) :=
  v ← get vars;
  let remaining := 1 `max` (max_total_tokens budget - total_tokens (v_usage v)) in
  try_with
    (r ← ask_model (definitions co) (4096 `min` remaining) contract requirements; mret (inl r))
    (fun e =>
      match e with
      | XCancelled | XDeadline => raise e
      | XCharge e => inr <$> _stop_for_budget_error v e
      | XUnsupported names _ => inr <$> _reject_provider_capabilities v (_safe_missing_capability_names names)
      | _ => inr <$> stop v PROVIDER_ERROR (Some "provider_call_failed"%string) None
      end).

(** A response whose calls cannot be detached ends the run. *)
Definition refuse_snapshot (failed : string * string) : R AgentResult :=
  v ← get vars;
  _ ← emit TOOL_CALL_REQUESTED (v_iterations v) [("id", JStr failed.1); ("name", JStr failed.2)]%string;
  _ ← _emit_policy_failure failed.1 failed.2 (v_iterations v) "policy_metadata_unavailable" None;
  _ ← _record_denial failed.1 failed.2 (v_iterations v) "policy_metadata_unavailable" None;
  stop v POLICY_DENIED None None.

(** *** Reflection *)

(** [BoundedReflectionService._emit] goes to the sink itself. *)
Definition emit_reflection (kind : AgentEventKind) (iteration : Z) (data : list (string * json)) (u : TokenUsage) : R unit :=
  let e := mkEvent kind iteration data u in await [Emitted e] (fun t => sink co t e).

Definition reflection_digest (label text : string) : string :=
  _digest (reflection_hash_key co) (reflection_hash_scope co) label text.

(** [complete]: one call of the model within the limits left. The counters come back with
    the response or with the limit that was met; a cancellation and the errors of the
    budgeted provider are raised. A call that ends too late goes on detached. *)
Definition reflection_call (started time_limit : Z) (max_total_tokens : option Z) (s : spent) (messages : list Message)
    (cap : Z) (contract : option ResponseContract) : R (spent * (ReflectionOutcomeCode + provider_response)) :=
  let p := reflection_policy co in
  now ← read_clock;
  if time_limit - (now - started) <=? 0 then mret (s, inl TIME_LIMIT)
  else
    let estimated_input := estimate_tokens messages in
    match call_tokens p max_total_tokens s estimated_input cap with
    | inl code => mret (s, inl code)
    | inr tokens =>
        let rq := mkAsk messages [] tokens contract None in
        answer ← await [Asked rq] (fun t => Ok (model co t rq));
        let s := count_call s in
        late ← sync [] (fun t => Ok (timed_out co t || (time_limit <=? clock co t - started)));
        if (late : bool) then mret (s, inl TIME_LIMIT)
        else
          match answer with
          | Err XCancelled => raise XCancelled
          | Err (XCharge e) => raise (XCharge e)
          | Err _ => mret (s, inl Reflection.PROVIDER_ERROR)
          | Ok r =>
              match charge_call p max_total_tokens estimated_input tokens (pr_content r) (length (pr_calls r)) (pr_usage r) s with
              | (s, Some code) => mret (s, inl code)
              | (s, None) => mret (s, inr r)
              end
          end
    end.

Definition parse_verdict (text : string) : option ReflectionVerdict :=
  match parse_and_validate co REFLECTION_VERDICT_CONTRACT text with Ok v => _verdict_validator v | Err _ => None end.

(** The first call: a verdict on the draft, or the limit met and the verdict read so far. *)
Definition critique (started time_limit : Z) (max_total_tokens : option Z) (request_messages : list Message) (draft : string)
    (iteration : Z) : R (spent * (option ReflectionVerdict * ReflectionOutcomeCode + ReflectionVerdict)) :=
  let p := reflection_policy co in
  '(s, answer) ← reflection_call started time_limit max_total_tokens nothing_spent (critique_messages p request_messages draft)
                   512 (Some REFLECTION_VERDICT_CONTRACT);
  match answer with
  | inl code => mret (s, inl (None, code))
  | inr r =>
      let text := default ""%string (pr_content r) in
      match parse_verdict text with
      | None => mret (s, inl (None, INVALID_VERDICT))
      | Some v =>
          if negb (evidence_within v request_messages draft) then mret (s, inl (Some v, INVALID_VERDICT))
          else
            _ ← emit_reflection REFLECTION_VERDICT iteration
                  [("rubric_id", JStr (rubric_id p)); ("rubric_version", JStr (rubric_version p));
                   ("draft_hash", JStr (reflection_digest "draft" draft));
                   ("critique_hash", JStr (reflection_digest "critique" text));
                   ("verdict", JStr (decision_value (Reflection.decision v)));
                   ("issue_codes", JArr ((fun c => JStr (issue_value c)) <$> issue_codes v));
                   ("evidence_refs", JArr (JStr <$> evidence_refs v)); ("confidence", confidence v)]%string (pr_usage r);
            mret (s, inr v)
      end
  end.

Definition _finish (draft chosen : string) (verdict : option ReflectionVerdict) (outcome : ReflectionOutcomeCode) (s : spent)
    (revisions iteration : Z) : R ReflectionResult :=
  let p := reflection_policy co in
  _ ← emit_reflection REFLECTION_COMPLETED iteration
        [("rubric_id", JStr (rubric_id p)); ("rubric_version", JStr (rubric_version p));
         ("draft_hash", JStr (reflection_digest "draft" draft)); ("selected_hash", JStr (reflection_digest "selected" chosen));
         ("outcome", JStr (outcome_value outcome)); ("calls", JInt (s_calls s)); ("revisions", JInt revisions);
         ("input_tokens", JInt (usage_input (s_usage s))); ("output_tokens", JInt (usage_output (s_usage s)));
         ("cost_microusd", JInt (cost_microusd s))]%string (s_usage s);
  mret (mkReflectionResult chosen verdict outcome (s_usage s) (s_calls s) revisions (s_cost s)).

(** [BoundedReflectionService.reflect] *)
Definition reflect (request_messages : list Message) (draft : string) (iteration : Z) (timeout_seconds max_total_tokens : option Z)
  : R ReflectionResult :=
  let p := reflection_policy co in
  if negb (Reflection.enabled p) then mret (mkReflectionResult draft None KEPT no_usage 0 0 (s_cost nothing_spent))
  else if match max_total_tokens with Some m => m <? 0 | None => false end
  then raise (XException "ValueError" "max_total_tokens must be a non-negative integer")
  else
    started ← read_clock;
    let time_limit := match timeout_seconds with
                      | Some t => Reflection.max_seconds p `min` (0 `max` t)
                      | None => Reflection.max_seconds p
                      end in
    _ ← emit_reflection REFLECTION_STARTED iteration
          [("rubric_id", JStr (rubric_id p)); ("rubric_version", JStr (rubric_version p));
           ("draft_hash", JStr (reflection_digest "draft" draft)); ("max_revisions", JInt (max_revisions p))]%string no_usage;
    '(s, judged) ← critique started time_limit max_total_tokens request_messages draft iteration;
    match judged with
    | inl (verdict, code) => _finish draft draft verdict code s 0 iteration
    | inr v =>
        if bool_decide (Reflection.decision v = KEEP) || (max_revisions p =? 0)
        then _finish draft draft (Some v) KEPT s 0 iteration
        else
          '(s, answer) ← reflection_call started time_limit max_total_tokens s (revision_messages draft v)
                           (Reflection.max_output_tokens p) None;
          match answer with
          | inl code => _finish draft draft (Some v) code s 0 iteration
          | inr r =>
              let revised := strip (default ""%string (pr_content r)) in
              if string_eqb revised "" then _finish draft draft (Some v) EMPTY_REVISION s 0 iteration
              else _finish draft revised (Some v) REVISED s 1 iteration
          end
    end.

(** The text of a response: a draft is kept, reflected on, and made compliant. *)
Definition settle_text (contract : option ResponseContract) (text : option string) (has_calls : bool) : R (option string) :=
  _ ← match nonempty text, contract with
      | Some t, None => v ← get vars; set_vars (with_content t v)
      | _, _ => mret tt
      end;
  text ← match nonempty text, contract with
         | Some t, None =>
             if negb has_calls && Reflection.enabled (reflection_policy co) then
               v ← get vars;
               d ← get (fun s => deadline (dstate s));
               now ← read_clock;
               history ← get msgs;
               reflection ← reflect history t (v_iterations v) (Some (0 `max` (d - now)))
                              (Some (0 `max` (max_total_tokens budget - total_tokens (v_usage v))));
               _ ← set_vars (with_usage (add_usage (v_usage v) (result_usage reflection)) v);
               mret (Some (selected reflection))
             else mret text
         | _, _ => mret text
         end;
  comply text.

Inductive parsed : Type := NoContract | Parsed (v : json) | RetryParse | StopParse (r : AgentResult).

(** Structured output of a response without calls. *)
Definition settle_structured (contract : option ResponseContract) (text : option string) (has_calls : bool) : R parsed :=
  match contract with
  | Some c =>
      if has_calls then mret NoContract
      else match parse_and_validate co c (default ""%string text) with
      | Ok v => mret (Parsed v)
      | Err code =>
          v ← get vars;
          let more := v_retries v <? max_structured_retries budget in
          _ ← emit STRUCTURED_OUTPUT_REJECTED (v_iterations v) [("code", JStr code); ("retry", JBool more)]%string;
          late ← (if more && (v_iterations v <? max_iterations budget)
                     && (total_tokens (v_usage v) <? max_total_tokens budget)
                  then _expired else mret true);
          if negb (late : bool) then
            _ ← set_vars (mkLocals (v_content v) (v_iterations v) (v_usage v) (v_retries v + 1));
            _ ← add_message (user_message (retry_prompt c));
            mret RetryParse
          else StopParse <$> stop v STRUCTURED_OUTPUT_INVALID (Some ("structured_output_invalid:" ++ code)%string) None
      end
  | None => mret NoContract
  end.

Definition emit_text (contract : option ResponseContract) (text : option string) (has_calls : bool) : R unit :=
  match nonempty text with
  | Some t =>
      if bool_decide (contract = None) || negb has_calls then
        v ← get vars;
        _ ← set_vars (with_content t v);
        emit (if has_calls then MODEL_PROGRESS else TEXT_DELTA) (v_iterations v) [("text"%string, JStr t)]
      else mret tt
  | None => mret tt
  end.

(** Number of calls of a response whose keys are new. *)
Definition novel_calls (seen : gset string) (calls : list ToolCall) : gset string * Z :=
  fold_left (fun acc c => if decide (call_key c ∈ acc.1) then acc else ({[ call_key c ]} ∪ acc.1, acc.2 + 1))
    calls (seen, 0).

(** The calls of a response: [None] goes on with the loop. *)
Definition dispatch_calls (approval_timeout : Z) (contract : option ResponseContract) (requirements : gset string)
    (bs : list _NativeToolBinding) : R (option AgentResult) :=
  v ← get vars;
  calls ← get cells;
  match policy_engine co with
  | Some engine =>
      seen ← get seen_calls;
      used ← get (fun s => Z.of_nat (length (records s)));
      if max_tool_calls budget <? used + (novel_calls seen calls).2 then
        _ ← _append_unexecuted_tool_results (stop_value TOOL_BUDGET_EXHAUSTED) calls;
        Some <$> _finalize TOOL_BUDGET_EXHAUSTED contract requirements
      else
        prepared ← _prepare_policy_batch engine approval_timeout bs (v_iterations v);
        match prepared with
        | inr reason => Some <$> stop v reason None None
        | inl l => _ ← execute_prepared l (v_iterations v); mret None
        end
  | None =>
      within ← execute_legacy 0 (length calls) (v_iterations v);
      if (within : bool) then mret None else Some <$> _finalize TOOL_BUDGET_EXHAUSTED contract requirements
  end.

(** A response with calls: the copy for the history, and the cells for the execution. *)
Definition dispatch_response (approval_timeout : Z) (contract : option ResponseContract) (requirements : gset string)
    (returned : list provider_call) (snaps : list (_NativeToolBinding * ToolCall)) (text : option string)
  : R (option AgentResult) :=
  _ ← record_event (Returned returned);
  _ ← add_message (mkMessage ASSISTANT
        (match contract with Some _ => ""%string | None => default ""%string text end) None (snaps.*2) []);
  _ ← set_cells (snaps.*2);
  dispatch_calls approval_timeout contract requirements (snaps.*1).

(** Everything after the provider returned. *)
Definition handle_response (approval_timeout : Z) (contract : option ResponseContract) (requirements : gset string)
    (r : provider_response) : R (option AgentResult) :=
  let snapshot := _snapshot_provider_tool_calls (bool_decide (is_Some (policy_engine co))) (pr_calls r) in
  late ← _expired;
  if (late : bool) then raise (XTimeout "") else
  v ← get vars;
  let v := with_usage (add_usage (v_usage v) (pr_usage r)) v in
  _ ← set_vars v;
  _ ← note_usage (v_usage v);
  _ ← _emit MODEL_RESPONSE (v_iterations v) (response_data r) (pr_usage r);
  match snapshot with
  | Err failed => Some <$> refuse_snapshot failed
  | Ok snaps =>
      let has_calls := negb (bool_decide (pr_calls r = [])) in
      v ← get vars;
      match is_stop (_normalize_provider_stop_reason (pr_stop_reason r) has_calls) with
      | Some reason => Some <$> stop v reason (provider_stop reason) None
      | None =>
          text ← settle_text contract (pr_content r) has_calls;
          structured ← settle_structured contract text has_calls;
          match structured with
          | RetryParse => mret None
          | StopParse res => mret (Some res)
          | _ =>
              _ ← emit_text contract text has_calls;
              v ← get vars;
              if max_total_tokens budget <? total_tokens (v_usage v) then
                Some <$> _finalize TOKEN_BUDGET_EXHAUSTED contract requirements
              else if negb has_calls then
                Some <$> stop v COMPLETED None (match structured with Parsed j => Some j | _ => None end)
              else
                dispatch_response approval_timeout contract requirements (pr_calls r) snaps text
          end
      end
  end.

(** One pass of the loop: [None] goes on. *)
Definition iterate (approval_timeout : Z) (contract : option ResponseContract) (requirements : gset string)
  : R (option AgentResult) :=
  v ← get vars;
  late ← _expired;
  if (late : bool) then Some <$> stop v TIME_BUDGET_EXHAUSTED None None
  else
    names ← sync [] (fun t => Ok (missing (capabilities co t) requirements));
    if negb (bool_decide (names = [])) then Some <$> _reject_provider_capabilities v names
    else
      let v := mkLocals (v_content v) (v_iterations v + 1) (v_usage v) (v_retries v) in
      _ ← set_vars v;
      _ ← note_iterations (v_iterations v);
      _ ← emit ITERATION_STARTED (v_iterations v) [];
      history ← get msgs;
      estimate ← of_result (lift_err (fun _ => XException "ValueError" "")
                   (estimate_request_input_tokens (image_ok co) (mkRequest history (definitions co) 0 contract None)));
      if max_context_tokens budget - context_output_reserve_tokens budget <? estimate
      then Some <$> stop v CONTEXT_BUDGET_EXHAUSTED None None
      else
        asked ← next_response contract requirements;
        match asked with
        | inr res => mret (Some res)
        | inl r => handle_response approval_timeout contract requirements r
        end.

(** The loop, with one unit of fuel per iteration the budget leaves. *)
Fixpoint loop (fuel : nat) (approval_timeout : Z) (contract : option ResponseContract) (requirements : gset string)
  : R AgentResult :=
  match fuel with
  | O => _finalize ITERATION_BUDGET_EXHAUSTED contract requirements
  | S fuel' =>
      v ← get vars;
      if v_iterations v <? max_iterations budget then
        r ← iterate approval_timeout contract requirements;
        match r with
        | Some res => mret res
        | None => loop fuel' approval_timeout contract requirements
        end
      else _finalize ITERATION_BUDGET_EXHAUSTED contract requirements
  end.

Definition _run (approval_timeout : Z) (messages : list Message) (contract : option ResponseContract)
    (explicit : gset string) : R AgentResult :=
  _ ← modify (fun s => mkEngine messages [] ∅ [] 0 (dstate s) (mkLocals "" 0 no_usage 0) (mkLocals "" 0 no_usage 0));
  let requirements := _provider_requirements messages contract explicit (negb (bool_decide (definitions co = []))) in
  _ ← emit RUN_STARTED 0 [];
  try_with
    (loop (Z.to_nat (max_iterations budget)) approval_timeout contract requirements)
    (fun e =>
      v ← get vars;
      match e with
      | XCancelled => raise e
      | XTimeout _ | XDeadline => stop v TIME_BUDGET_EXHAUSTED None None
      | XCharge e => _stop_for_budget_error v e
      | _ => stop v STOP_ERROR (Some ("runtime_error:" ++ exn_name e)%string) None
      end).

(** [_deadline_result]. The wait for a terminal task under way is part of that task's
    own outcome, and a failing attempt to stop is reported in the result. *)
Definition _deadline_result : R AgentResult :=
  d ← get dstate;
  let u := default no_usage (ds_usage d) in
  if terminal_started d then
    let error := if terminal_persisted d then terminal_error d
                 else match nonempty (terminal_error d) with
                      | Some e => Some e
                      | None => Some "terminal_persistence_indeterminate"%string
                      end in
    mret (mkResult (ds_content d) (default TIME_BUDGET_EXHAUSTED (terminal_reason d)) (ds_iterations d) (ds_calls d) u
            error (ds_structured d))
  else
    try_with
      (r ← _stop TIME_BUDGET_EXHAUSTED (ds_content d) (ds_iterations d) (ds_calls d) u (Some "deadline_exceeded"%string)
             None true;
       late ← sync [] (fun t => Ok (interrupted co t || timed_out co t));
       if (late : bool) then raise XDeadline else mret r)
      (fun _ => d ← get dstate;
                mret (mkResult (ds_content d) TIME_BUDGET_EXHAUSTED (ds_iterations d) (ds_calls d) u
                        (Some "terminal_persistence_indeterminate"%string) None)).

Definition initial_deadline (t : Z) : deadline_state :=
  mkDeadline t false false None None "" 0 [] None None None.

Definition run (approval_timeout : Z) (messages : list Message) (contract : option ResponseContract)
    (explicit : gset string) : R AgentResult :=
  started ← read_clock;
  _ ← set_deadline (initial_deadline (started + max_seconds budget));
  try_with
    (await_before_deadline (_run approval_timeout messages contract explicit))
    (fun e =>
      match e with
      | XCancelled =>
          d ← get dstate;
          _ ← _stop STOP_CANCELLED "" (ds_iterations d) (ds_calls d) (default no_usage (ds_usage d))
                (Some "run_cancelled"%string) None false;
          raise XCancelled
      | XDeadline => _deadline_result
      | _ => raise e
      end).
End runtime.
