(* ===== verification/EngineProofs.v ===== *)
(** * What the agent loop guarantees

    Every part of the loop is followed through a preorder on its worlds: how the trace
    grows, which cells are left alone, how the records relate to the executions. The
    first section proves once, for any preorder, that each part stays within it when its
    primitive steps do; the properties choose their preorders. *)

From Stdlib Require Import ZArith Lia String Ascii.
From stdpp Require Import base gmap strings list relations.
From S2P Require Import Reflection.
From S2P Require Import Prelude Strings Durable Json JsonText BudgetedProvider Policy Authorization Engine.
Open Scope Z_scope.

#[local] Abbreviation W := (world unit engine_state obs).
#[local] Abbreviation R := (M unit engine_state obs rexn).

(** ** Programs within a preorder *)

Definition within (T : W -> W -> Prop) {A} (m : R A) : Prop := forall w, T w (m w).1.

(** An observation that is neither an execution nor the end of the run. *)
Definition plain_obs (o : obs) : bool :=
  match o with
  | Executed _ | Asked _ | Recorded _ => false
  | Emitted e => negb (bool_decide (ev_kind e = RUN_STOPPED))
  | _ => true
  end.

Create HintDb within.
Create HintDb quiet.

Section within.
Context (co : collaborators) (budget : RuntimeBudget) (T : W -> W -> Prop) `{!PreOrder T}.

Lemma within_ret {A} (a : A) : within T (mret a : R A).
Proof. intros w. reflexivity. Qed.

Lemma within_raise {A} e : within T (raise e : R A).
Proof. intros w. reflexivity. Qed.

Lemma within_of_result {A} (r : result rexn A) : within T (of_result r).
Proof. intros w. reflexivity. Qed.

Lemma within_get {A} (f : engine_state -> A) : within T (get f).
Proof. intros w. reflexivity. Qed.

Lemma within_cell i : within T (cell i).
Proof. intros w. unfold cell. destruct (cells (fields w) !! i); reflexivity. Qed.

Lemma within_bind {A B} (m : R A) (f : A -> R B) : within T m -> (forall a, within T (f a)) -> within T (m ≫= f).
Proof.
  intros Hm Hf w. unfold mbind, M_bind. specialize (Hm w). destruct (m w) as [w' [a|e]]; cbn in *; [|done].
  etrans; [exact Hm|apply Hf].
Qed.

Lemma within_fmap {A B} (f : A -> B) (m : R A) : within T m -> within T (f <$> m).
Proof. intros Hm. apply within_bind; [done|]. intros a. apply within_ret. Qed.

Lemma within_try {A} (m : R A) h : within T m -> (forall e, within T (h e)) -> within T (try_with m h).
Proof.
  intros Hm Hh w. unfold try_with. specialize (Hm w). destruct (m w) as [w' [a|e]]; cbn in *; [done|].
  etrans; [exact Hm|apply Hh].
Qed.

Lemma within_finally {A} (m : R A) f : within T m -> within T f -> within T (try_finally m f).
Proof.
  intros Hm Hf w. unfold try_finally. specialize (Hm w). destruct (m w) as [w1 r]; cbn in *.
  specialize (Hf w1). destruct (f w1) as [w2 [[]|e]]; cbn in *; by etrans.
Qed.

Hypothesis sync_within : forall A o (f : nat -> result rexn A), forallb plain_obs o = true -> within T (sync co o f).

Lemma within_await {A} o (f : nat -> result rexn A) : forallb plain_obs o = true -> within T (await co o f).
Proof. apply sync_within. Qed.

Lemma within_clock : within T (read_clock co).
Proof. by apply sync_within. Qed.

Lemma within_deadline {A} (m : R A) : within T m -> within T (await_before_deadline co m).
Proof.
  intros Hm. apply within_bind; [apply within_get|]. intros d. apply within_bind; [apply within_clock|]. intros t.
  destruct (_ <=? 0); [apply within_raise|]. intros w. specialize (Hm w). destruct (m w) as [w' r]; cbn [fst] in Hm.
  etrans; [exact Hm|]. exact (sync_within A [] _ eq_refl w').
Qed.

(** Follow a program down to its primitive steps. *)
Ltac within_leaf := fail.
Ltac within_step := cbn beta zeta; lazymatch goal with
  | |- within _ (mret _) => apply within_ret
  | |- within _ (raise _) => apply within_raise
  | |- within _ (of_result _) => apply within_of_result
  | |- within _ (get _) => apply within_get
  | |- within _ (cell _) => apply within_cell
  | |- within _ (mbind _ _) => apply within_bind; [|intros ?]
  | |- within _ (fmap _ _) => apply within_fmap
  | |- within _ (try_with _ _) => apply within_try; [|intros ?]
  | |- within _ (try_finally _ _) => apply within_finally
  | |- within _ (await_before_deadline _ _) => apply within_deadline
  | |- within _ (read_clock _) => apply within_clock
  | |- within _ (match ?x with _ => _ end) => destruct x
  | |- within _ (sync _ [] _) => apply sync_within; reflexivity
  | |- within _ (await _ [] _) => apply within_await; reflexivity
  | |- within _ _ => first [within_leaf | assumption | solve [auto with within]]
  end.
Ltac within := repeat within_step.

Hypothesis record_within : forall o, plain_obs o = true -> within T (record_event o : R unit).
Hypothesis deadline_within : forall d, within T (set_deadline d).

Lemma within_expired : within T (_expired co).
Proof. unfold _expired. within. Qed.

Lemma within_emit_plain kind i data u : kind <> RUN_STOPPED -> within T (_emit co kind i data u).
Proof.
  intros Hk. unfold _emit. rewrite bool_decide_eq_false_2 by done. within. apply within_await.
  cbn. by rewrite bool_decide_eq_false_2.
Qed.

Lemma within_emit kind i data : kind <> RUN_STOPPED -> within T (emit co kind i data).
Proof. apply within_emit_plain. Qed.

Lemma within_emit_reflection kind i data u : kind <> RUN_STOPPED -> within T (emit_reflection co kind i data u).
Proof. intros Hk. apply within_await. cbn. by rewrite bool_decide_eq_false_2. Qed.

Ltac within_leaf ::= lazymatch goal with
  | |- within _ (record_event _) => apply record_within; reflexivity
  | |- within _ (emit_reflection _ _ _ _ _) => apply within_emit_reflection; discriminate
  | |- within _ (emit _ _ _ _) => apply within_emit; discriminate
  end.

Lemma within_enforce_output c : within T (enforce_output co c).
Proof. unfold enforce_output. destruct (compliance co); within. Qed.

Hypothesis add_record_within : forall r, within T (add_record r).

Lemma within_deny_policy b i code : within T (deny_policy co b i code).
Proof. unfold deny_policy, _emit_policy_failure, _record_denial. within. Qed.

Lemma within_deny_approval b i code r : within T (deny_approval co b i code r).
Proof. unfold deny_approval, _emit_approval_failure, _record_denial. within. Qed.

Lemma within_cleanup a q : within T (cleanup co a q).
Proof. unfold cleanup. destruct (a_preparatory a); within. Qed.

Lemma within_prepare_approval a b q i : within T (prepare_approval co a b q i).
Proof.
  unfold prepare_approval. destruct (a_preparatory a) as [p|]; within; auto using within_cleanup, within_deny_approval, within_expired.
Qed.

Hint Resolve within_expired within_enforce_output within_deny_policy within_deny_approval within_cleanup
  within_prepare_approval : within.

Lemma within_wait a b q q' i : within T (wait_for_outcome co a b q q' i).
Proof. unfold wait_for_outcome, suppress. within. Qed.

Hint Resolve within_wait : within.

Lemma within_ask_for_approval z a b risks rule i : within T (ask_for_approval co z a b risks rule i).
Proof.
  unfold ask_for_approval, approval_decided, _record_denial. within.
Qed.

Hint Resolve within_ask_for_approval : within.

(** The cells a part may expose and change. *)
Variable allowed : nat -> Prop.
Hypothesis set_cell_within : forall i c, allowed i -> within T (set_cell i c).
Hypothesis expose_within : forall i, allowed i -> within T (expose i).

Lemma within_ask_policy i f : allowed i -> within T (ask_policy_request co i f).
Proof. intros Hi. unfold ask_policy_request. within. Qed.

Lemma within_decide engine rq : within T (decide_request co engine rq).
Proof. unfold decide_request. within. Qed.

Hint Resolve within_ask_policy within_decide : within.

Lemma within_enforce_policy engine z i b it : allowed i -> within T (_enforce_policy co engine z i b it).
Proof. intros Hi. unfold _enforce_policy, _record_denial. within. Qed.

Lemma within_bound_arguments b : within T (bound_arguments b).
Proof. unfold bound_arguments. within. Qed.

Hint Resolve within_enforce_policy within_bound_arguments : within.

Lemma within_prepare_execution i x : within T (_prepare_policy_execution_call co i x).
Proof. unfold _prepare_policy_execution_call. within. Qed.

Hint Resolve within_prepare_execution : within.

Hypothesis add_message_within : forall m, within T (add_message m).
Hypothesis set_seen_within : forall k, within T (set_seen k).

Hypothesis all_allowed : forall i, allowed i.

Lemma within_prepare_calls engine z i bs it k : within T (prepare_calls co engine z i bs it k).
Proof. revert i k. induction bs as [|b bs IH]; intros i k; cbn [prepare_calls]; within. Qed.

Hint Resolve within_prepare_calls : within.

Lemma within_prepare_batch engine z bs it : within T (_prepare_policy_batch co engine z bs it).
Proof. unfold _prepare_policy_batch. within. Qed.

Lemma within_append_unexecuted reason l : within T (_append_unexecuted_tool_results reason l).
Proof. induction l as [|c l IH]; cbn; within. Qed.

Lemma within_completion x c o s st b : within T (completion co x c o s st b).
Proof. unfold completion. within. Qed.

Lemma within_emit_progress x c it s data l : within T (emit_progress co x c it s data l).
Proof. induction l as [|i l IH]; cbn; within. Qed.

Hint Resolve within_prepare_batch within_append_unexecuted within_completion within_emit_progress : within.

(** What follows the execution of a call. *)
Lemma within_execute_call x c current it : within T current ->
  (forall (f : nat -> result rexn (list (string * json))), within T (await co [Executed c] f)) ->
  within T (execute_call co budget x c current it).
Proof. intros Hc He. unfold execute_call. within. Qed.

Lemma within_legacy_approval c it : within T (legacy_approval co c it).
Proof. unfold legacy_approval. within. Qed.

Hint Resolve within_legacy_approval : within.

Hypothesis ask_within : forall A rq (f : nat -> result rexn A), within T (await co [Asked rq] f).
Hypothesis stop_within : forall r c i l u e s b, within T (_stop co r c i l u e s b).
Hypothesis vars_within : forall v, within T (set_vars v).
Hypothesis final_vars_within : forall v, within T (set_final_vars v).

Lemma within_stop v r e s : within T (stop co v r e s).
Proof. unfold stop. within. Qed.

Hint Resolve within_stop : within.

Lemma within_budget_stop v e : within T (_stop_for_budget_error co v e).
Proof. unfold _stop_for_budget_error. within. Qed.

Lemma within_reject v l : within T (_reject_provider_capabilities co v l).
Proof. unfold _reject_provider_capabilities. within. Qed.

Lemma within_ask_model t z c q : within T (ask_model co t z c q).
Proof. unfold ask_model. within. Qed.

Lemma within_comply o : within T (comply co o).
Proof. unfold comply. within. Qed.

Hint Resolve within_budget_stop within_reject within_ask_model within_comply : within.

Lemma within_final_response r c x : within T (final_response co r c x).
Proof. unfold final_response. within. by apply within_emit_plain. Qed.

Hint Resolve within_final_response : within.

Lemma within_finalize r c q : within T (_finalize co budget r c q).
Proof. unfold _finalize. within. Qed.

Lemma within_next_response c q : within T (next_response co budget c q).
Proof. unfold next_response. within. Qed.

Lemma within_refuse_snapshot x : within T (refuse_snapshot co x).
Proof. unfold refuse_snapshot, _emit_policy_failure, _record_denial. within. Qed.

Lemma within_reflection_call st tl mt s ms cap c : within T (reflection_call co st tl mt s ms cap c).
Proof. unfold reflection_call. within. Qed.

Hint Resolve within_reflection_call : within.

Lemma within_critique st tl mt rm draft i : within T (critique co st tl mt rm draft i).
Proof. unfold critique. within. Qed.

Lemma within_finish draft chosen v o s n i : within T (_finish co draft chosen v o s n i).
Proof. unfold _finish. within. Qed.

Hint Resolve within_critique within_finish : within.

Lemma within_reflect rm draft i ts mt : within T (reflect co rm draft i ts mt).
Proof. unfold reflect. within. Qed.

Hint Resolve within_reflect : within.

Lemma within_settle_text c t b : within T (settle_text co budget c t b).
Proof. unfold settle_text. within. Qed.

Lemma within_settle_structured c t b : within T (settle_structured co budget c t b).
Proof. unfold settle_structured. within. Qed.

Lemma within_emit_text c t b : within T (emit_text co c t b).
Proof. unfold emit_text. within; apply within_emit; by destruct b. Qed.

Hint Resolve within_finalize within_next_response within_refuse_snapshot within_settle_text within_settle_structured
  within_emit_text : within.

(** The loop, given what it does with the calls of a response. *)
Hypothesis dispatch_within : forall z c q l snaps text,
  _snapshot_provider_tool_calls co (bool_decide (is_Some (policy_engine co))) l = Ok snaps ->
  within T (dispatch_response co budget z c q l snaps text).

Lemma within_handle_response z c q r : within T (handle_response co budget z c q r).
Proof.
  unfold handle_response, note_usage. cbv zeta. destruct (_snapshot_provider_tool_calls _ _ _) as [snaps|] eqn:Hs;
    within; by apply within_emit_plain.
Qed.

Hint Resolve within_handle_response : within.

Lemma within_iterate z c q : within T (iterate co budget z c q).
Proof. unfold iterate, note_iterations. within. Qed.

Lemma within_loop n z c q : within T (loop co budget n z c q).
Proof. induction n as [|n IH]; cbn [loop]; within. apply within_iterate. Qed.

Hint Resolve within_loop : within.

(** Preorders that only see the trace. *)
Hypothesis modify_within : forall f, within T (modify f).

Lemma within_run_body z ms c q : within T (_run co budget z ms c q).
Proof. unfold _run. within. Qed.

Hint Resolve within_run_body : within.

Lemma within_deadline_result : within T (_deadline_result co).
Proof. unfold _deadline_result. within. Qed.

Hint Resolve within_deadline_result : within.

Lemma within_run z ms c q : within T (run co budget z ms c q).
Proof. unfold run. within. Qed.
End within.

#[export] Hint Resolve within_deny_policy within_deny_approval within_emit : within.

(** Follow a program down to the parts whose lemmas are in [quiet]. *)
Ltac calm_step := cbn beta zeta; lazymatch goal with
  | |- within _ (mret _) => apply within_ret; exact _
  | |- within _ (raise _) => apply within_raise; exact _
  | |- within _ (of_result _) => apply within_of_result; exact _
  | |- within _ (get _) => apply within_get; exact _
  | |- within _ (cell _) => apply within_cell; exact _
  | |- within _ (mbind _ _) => apply within_bind; [exact _| |intros ?]
  | |- within _ (fmap _ _) => apply within_fmap; [exact _|]
  | |- within _ (try_with _ _) => apply within_try; [exact _| |intros ?]
  | |- within _ (match ?x with _ => _ end) => destruct x
  | |- within _ (emit _ _ _ _) => apply within_emit; solve [auto with quiet | discriminate]
  | |- within _ (_emit _ _ _ _ _) => apply within_emit_plain; solve [auto with quiet | discriminate]
  | |- within _ _ => solve [auto with quiet]
  end.
Ltac calm := repeat calm_step.

(** ** The terminal task *)

Definition not_executed (o : obs) : bool := match o with Executed _ => false | _ => true end.

(** What stopping a run observes: its result recorded, its last event. *)
Definition ending_obs (o : obs) : bool := match o with Executed _ | Asked _ => false | _ => true end.

Lemma ending_not_executed l : forallb ending_obs l = true -> forallb not_executed l = true.
Proof. rewrite !forallb_forall. intros Hl o Ho. specialize (Hl o Ho). by destruct o. Qed.

Lemma plain_ending l : forallb plain_obs l = true -> forallb ending_obs l = true.
Proof. rewrite !forallb_forall. intros Hl o Ho. specialize (Hl o Ho). by destruct o. Qed.

Section terminal.
Context (co : collaborators) (T : W -> W -> Prop) `{!PreOrder T}.
Hypothesis sync_within : forall A o (f : nat -> result rexn A), forallb ending_obs o = true -> within T (sync co o f).
Hypothesis deadline_within : forall d, within T (set_deadline d).

Lemma within_persist r c i u e b : within T (persist_terminal co r c i u e b).
Proof.
  unfold persist_terminal, _emit. cbn. apply within_bind; [done| |intros _].
  { destruct (capture_assistant_response co) as [f|]; [by apply sync_within|by apply within_ret]. }
  apply within_bind; [done| |intros _; apply within_bind; [done| |intros _]].
  - destruct (result_recorder co) as [f|], b; [by apply sync_within|apply within_ret..]; done.
  - by apply sync_within.
  - apply within_bind; [done|by apply within_get|]. intros d. apply deadline_within.
Qed.

Lemma within_terminal_task t m : within T m -> within T (run_terminal_task t m).
Proof.
  intros Hm. unfold run_terminal_task. destruct t as [o|]; [by apply within_ret|]. intros w. specialize (Hm w).
  destruct (m w) as [w' o]. cbn [fst] in Hm. etrans; [exact Hm|].
  refine (within_bind T _ _ _ _ w'); [by apply within_get|]. intros d.
  apply within_bind; [done|apply deadline_within|]. intros _. by apply within_ret.
Qed.

Lemma within_stop_task r c i l u e s b : within T (_stop co r c i l u e s b).
Proof.
  unfold _stop, enforce_output. apply within_bind; [done| |intros c'].
  { destruct (compliance co); [by apply sync_within|by apply within_ret]. }
  apply within_bind; [done|by apply within_get|intros d]. cbv zeta.
  apply within_bind; [done| |intros _]. { destruct (terminal_started d); [by apply within_ret|apply deadline_within]. }
  apply within_bind; [done|apply within_terminal_task, within_persist|intros o].
  apply within_bind; [done|by apply sync_within|intros _].
  apply within_bind; [done|by apply within_get|intros d'].
  apply within_bind; [done|apply deadline_within|intros _]. by apply within_ret.
Qed.
End terminal.

(** ** Nothing runs unless it was vetted *)

(** The trace only grows. *)
Definition extends (w w' : W) : Prop := history w `prefix_of` history w'.
#[export] Instance extends_preorder : PreOrder extends.
Proof. split; [intros w; unfold extends; reflexivity|]. intros w1 w2 w3. unfold extends. by etrans. Qed.

(** It grows without an execution. *)
Definition no_execution (w w' : W) : Prop :=
  exists l, history w' = (history w ++ l)%list /\ forallb not_executed l = true.
#[export] Instance no_execution_preorder : PreOrder no_execution.
Proof.
  split; [intros w; exists []; by rewrite app_nil_r|]. intros w1 w2 w3 (l & Hl & Hf) (l' & Hl' & Hf').
  exists (l ++ l')%list. by rewrite Hl', Hl, app_assoc, forallb_app, Hf, Hf'.
Qed.

Section vetted.
Context (co : collaborators) (budget : RuntimeBudget).

(** A model returned a call with this id, this name and arguments of this digest. *)
Definition returned_call (tr : list obs) (id name hash : string) : Prop :=
  exists l pc args, Returned l ∈ tr /\ pc ∈ l /\ pc_id pc = Some id /\ pc_name pc = Some name
    /\ pc_arguments pc = Some args /\ arguments_hash co args = hash.

(** The model returned exactly this call, the tool executor described it, the policy
    engine decided about that description, and allowed it or asked a human, who approved
    exactly this call. *)
Definition vetted (tr : list obs) (c : ToolCall) : Prop :=
  returned_call tr (call_id c) (call_name c) (arguments_hash co (arguments c)) /\
  exists rq a, Described c rq ∈ tr /\ Evaluated rq a ∈ tr /\ request_tool rq = call_name c /\
    (a = ALLOW \/ a = ASK /\ exists o, Authorized o ∈ tr /\ o_approved o = true /\ o_call_id o = call_id c
                          /\ o_tool o = call_name c /\ o_hash o = arguments_hash co (arguments c)).

(** Every execution was vetted by what came before it. *)
Definition guarded (tr : list obs) : Prop :=
  forall i c, tr !! i = Some (Executed c) -> vetted (take i tr) c.

Definition keeps_guarded (w w' : W) : Prop := extends w w' /\ (guarded (history w) -> guarded (history w')).

#[export] Instance keeps_guarded_preorder : PreOrder keeps_guarded.
Proof. split; [by intros w; split|]. intros w1 w2 w3 [? ?] [? ?]. split; [by etrans|auto]. Qed.

Lemma returned_mono tr tr' i n h : tr `prefix_of` tr' -> returned_call tr i n h -> returned_call tr' i n h.
Proof.
  intros [k ->] (l & pc & args & Hl & Hrest). exists l, pc, args. split; [|done]. apply elem_of_app. by left.
Qed.

Lemma vetted_mono tr tr' c : tr `prefix_of` tr' -> vetted tr c -> vetted tr' c.
Proof.
  intros Hp (Hret & rq & a & Hd & He & Ht & Ha). split; [by eapply returned_mono|]. exists rq, a.
  assert (forall x, x ∈ tr -> x ∈ tr') as Hin by (intros x Hx; destruct Hp as [k ->]; apply elem_of_app; by left).
  split; [auto|]. split; [auto|]. split; [done|].
  destruct Ha as [Ha|(Ha & o & Ho & Hrest)]; [by left|right]. split; [done|]. exists o. auto.
Qed.

Lemma guarded_app tr l : guarded tr ->
  (forall i c, l !! i = Some (Executed c) -> vetted (tr ++ take i l) c) -> guarded (tr ++ l).
Proof.
  intros Hg Hl i c [Hi|[Hle Hi]]%lookup_app_Some.
  - rewrite take_app_le by (apply lookup_lt_Some in Hi; lia). by apply Hg.
  - rewrite take_app_ge by done. by apply Hl.
Qed.

Lemma guarded_quiet tr l : guarded tr -> forallb not_executed l = true -> guarded (tr ++ l).
Proof.
  intros Hg Hl. apply guarded_app; [done|]. intros i c Hi.
  rewrite forallb_forall in Hl. by specialize (Hl _ (proj1 (list_elem_of_In _ _) (list_elem_of_lookup_2 _ _ _ Hi))).
Qed.

Lemma no_execution_guarded w w' : no_execution w w' -> keeps_guarded w w'.
Proof.
  intros (l & Hl & Hf). split; [unfold extends; rewrite Hl; by apply prefix_app_r|]. rewrite Hl.
  intros Hg. by apply guarded_quiet.
Qed.

Lemma quiet_sync A o (f : nat -> result rexn A) : forallb not_executed o = true -> within no_execution (sync co o f).
Proof. intros Ho w. by exists o. Qed.

Lemma quiet_plain A o (f : nat -> result rexn A) : forallb plain_obs o = true -> within no_execution (sync co o f).
Proof.
  intros Ho. apply quiet_sync. rewrite forallb_forall in Ho |- *. intros x Hx. specialize (Ho x Hx). by destruct x.
Qed.

Lemma quiet_ask A rq (f : nat -> result rexn A) : within no_execution (await co [Asked rq] f).
Proof. by apply quiet_sync. Qed.

Lemma quiet_record o : plain_obs o = true -> within no_execution (record_event o : R unit).
Proof. intros Ho w. exists [o]. split; [done|]. by destruct o. Qed.

Lemma quiet_modify f : within no_execution (modify f).
Proof. intros w. exists []. by rewrite app_nil_r. Qed.

Lemma quiet_stop r c i l u e s b : within no_execution (_stop co r c i l u e s b).
Proof. apply within_stop_task; [apply _|intros; by apply quiet_sync, ending_not_executed|intros; apply quiet_modify]. Qed.

Lemma quiet_extends {A} (m : R A) : within no_execution m -> within extends m.
Proof. intros Hm w. destruct (Hm w) as (l & Hl & _). unfold extends. rewrite Hl. by apply prefix_app_r. Qed.

Lemma quiet_guarded {A} (m : R A) : within no_execution m -> within keeps_guarded m.
Proof. intros Hm w. by apply no_execution_guarded. Qed.
End vetted.

#[export] Hint Resolve quiet_sync quiet_plain quiet_ask quiet_record quiet_modify quiet_stop : quiet.
#[export] Hint Extern 1 (within _ (add_record _)) => apply quiet_modify : quiet.
#[export] Hint Extern 1 (within _ (add_message _)) => apply quiet_modify : quiet.
#[export] Hint Extern 1 (within _ (set_seen _)) => apply quiet_modify : quiet.
#[export] Hint Extern 1 (within _ (set_cell _ _)) => apply quiet_modify : quiet.
#[export] Hint Extern 1 (within _ (set_cells _)) => apply quiet_modify : quiet.
#[export] Hint Extern 1 (within _ (expose _)) => apply quiet_modify : quiet.
#[export] Hint Extern 1 (within _ (set_deadline _)) => apply quiet_modify : quiet.
#[export] Hint Extern 1 (within _ (set_vars _)) => apply quiet_modify : quiet.
#[export] Hint Extern 1 (within _ (set_final_vars _)) => apply quiet_modify : quiet.
#[export] Hint Extern 1 (PreOrder _) => apply _ : quiet.

(** A part without an execution of its own. *)
Ltac quiet L := apply L; solve [intros; auto with quiet].

Ltac quiet_all L := apply L with (allowed := fun _ : nat => True); solve [intros; auto with quiet].

Section specs.
Context (co : collaborators) (budget : RuntimeBudget).

Lemma quiet_enforce engine z i b it : within no_execution (_enforce_policy co engine z i b it).
Proof. quiet_all within_enforce_policy. Qed.
Lemma quiet_prepare_execution i x : within no_execution (_prepare_policy_execution_call co i x).
Proof. quiet within_prepare_execution. Qed.
Lemma quiet_prepare_calls engine z i bs it k : within no_execution (prepare_calls co engine z i bs it k).
Proof. quiet_all within_prepare_calls. Qed.
Lemma quiet_finalize r c q : within no_execution (_finalize co budget r c q).
Proof. quiet within_finalize. Qed.

(** What holds of the value and the trace when a program returns. *)
Definition returns {A} (m : R A) (w : W) (Q : A -> list obs -> Prop) : Prop :=
  wp m (fun r w' => match r with Ok a => Q a (history w') | Err _ => True end) w.

Lemma returns_ret {A} (a : A) w (Q : A -> list obs -> Prop) : Q a (history w) -> returns (mret a) w Q.
Proof. done. Qed.

Lemma returns_raise {A} e w (Q : A -> list obs -> Prop) : returns (raise e) w Q.
Proof. done. Qed.

Lemma returns_bind {A B} (m : R A) (f : A -> R B) w (Q : B -> list obs -> Prop) :
  wp m (fun r w' => match r with Ok a => returns (f a) w' Q | Err _ => True end) w -> returns (m ≫= f) w Q.
Proof. intros H. apply wp_bind. eapply wp_mono; [exact H|]. by intros [a|e] w'. Qed.

(** A step whose result does not matter. *)
Lemma returns_skip {A B} (m : R A) (f : A -> R B) w (Q : B -> list obs -> Prop) : within no_execution m ->
  (forall a w', no_execution w w' -> returns (f a) w' Q) -> returns (m ≫= f) w Q.
Proof.
  intros Hm Hf. apply returns_bind. unfold wp. specialize (Hm w). destruct (m w) as [w' [a|e]]; cbn in *; auto.
Qed.

(** A step with a specification of its own, remembered along the trace. *)
Lemma returns_step {A B} (m : R A) (f : A -> R B) w (P : A -> list obs -> Prop) (Q : B -> list obs -> Prop) :
  within no_execution m -> returns m w P ->
  (forall a w', no_execution w w' -> P a (history w') -> returns (f a) w' Q) -> returns (m ≫= f) w Q.
Proof.
  intros Hm HP Hf. apply returns_bind. unfold returns, wp in *. specialize (Hm w).
  destruct (m w) as [w' [a|e]]; cbn [fst snd] in *; [by apply Hf|done].
Qed.

Lemma no_execution_elem w w' o : no_execution w w' -> o ∈ history w -> o ∈ history w'.
Proof. intros (l & -> & _) Hin. apply elem_of_app. by left. Qed.

Lemma returns_record {B} o (f : unit -> R B) w (Q : B -> list obs -> Prop) : plain_obs o = true ->
  (forall w', no_execution w w' -> o ∈ history w' -> returns (f tt) w' Q) -> returns (record_event o ≫= f) w Q.
Proof.
  intros Ho Hf. apply returns_bind. apply Hf; [by apply quiet_record|]. cbn. apply elem_of_app. right. left.
Qed.

Definition approved_for (b : _NativeToolBinding) (tr : list obs) : Prop :=
  exists o, Authorized o ∈ tr /\ o_approved o = true /\ o_call_id o = n_call_id b /\ o_tool o = n_tool b
    /\ o_hash o = n_hash b.

Lemma checked_outcome_spec q after raw o : checked_outcome q after raw = Some o ->
  o_call_id o = q_call_id q /\ o_tool o = q_tool q /\ o_hash o = q_hash q.
Proof.
  unfold checked_outcome. destruct raw as [[[a|] [i|] [n|] [h|] [y|]]|]; try done. destruct (_ && _) eqn:Hc; [|done].
  intros [= <-]. bool_to_prop. by subst.
Qed.

Lemma ask_approved z a b risks rule it w :
  returns (ask_for_approval co z a b risks rule it) w (fun r tr => r = None -> approved_for b tr).
Proof.
  unfold ask_for_approval. apply returns_bind. unfold wp, of_result. cbn.
  destruct (new_auth_request _ _ _ _ _) as [q|e] eqn:Hq; [|done]. cbn. apply new_auth_request_Ok in Hq as (-> & _).
  apply returns_skip; [quiet within_prepare_approval|]. intros [q'|reason] w1 H1; [|by apply returns_ret].
  apply returns_skip; [apply within_try; [apply _|quiet within_emit|]|].
  { intros e. apply within_bind; [apply _|quiet within_cleanup|]. intros _. by apply within_raise, _. }
  intros _ w2 H2. apply returns_skip; [by apply within_get, _|]. intros d w3 H3.
  apply returns_skip; [quiet within_clock|]. intros t w4 H4. destruct (_ <=? 0).
  { apply returns_skip; [quiet within_cleanup|]. intros _ w5 H5.
    apply returns_skip; [quiet within_deny_approval|]. intros r w6 H6. by apply returns_ret. }
  apply returns_skip; [quiet within_wait|]. intros [[after raw]|reason] w5 H5; [|by apply returns_ret].
  destruct (checked_outcome _ _ _) as [o|] eqn:Ho.
  2: { apply returns_skip; [quiet within_deny_approval|]. intros r w6 H6. by apply returns_ret. }
  apply returns_record; [done|]. intros w6 H6 Hin. apply checked_outcome_spec in Ho as (Hi & Ht & Hh). cbn in *.
  apply returns_skip; [unfold approval_decided; quiet within_emit|]. intros _ w7 H7.
  destruct (o_approved o) eqn:Hap.
  - apply returns_ret. intros _. exists o. split; [by eapply no_execution_elem|]. auto.
  - apply returns_skip; [unfold _record_denial|]. 2: { intros _ w8 H8. by apply returns_ret. }
    apply within_bind; [apply _|auto with quiet|]. intros _. quiet within_emit.
Qed.

(** What the policy established about a binding. *)
Definition enforced (b : _NativeToolBinding) (x : _PolicyExecutionBinding) (tr : list obs) : Prop :=
  x_native x = b /\ Evaluated (x_request x) (x_action x) ∈ tr /\ request_tool (x_request x) = n_tool b
  /\ (x_action x = ALLOW \/ x_action x = ASK /\ approved_for b tr).

Lemma decide_returns engine rq w :
  returns (decide_request co engine rq) w (fun d tr => forall a risks rule why,
    d = Some (a, risks, rule, why) -> Evaluated rq a ∈ tr).
Proof.
  unfold decide_request. apply returns_skip; [by apply quiet_plain|]. intros [raw|e] w1 H1.
  2: { by destruct (is_exception e). }
  destruct (checked_decision rq raw) as [[[[a risks] rule] why]|]; [|by apply returns_ret].
  apply returns_record; [done|]. intros w2 H2 Hin. apply returns_ret. intros a' risks' rule' why' [= <- <- <- <-].
  exact Hin.
Qed.

Ltac skip L := apply returns_skip; [quiet L|].
Ltac skip_all L := apply returns_skip; [quiet_all L|].

Lemma denied_policy b it code w (Q : _PolicyExecutionBinding + StopReason -> list obs -> Prop) :
  (forall r tr, Q (inr r) tr) -> returns (inr <$> deny_policy co b it code) w Q.
Proof. intros HQ. skip within_deny_policy. intros r w' _. by apply returns_ret. Qed.

Lemma quiet_denial id name it code h : within no_execution (_record_denial co id name it code h).
Proof.
  unfold _record_denial. apply within_bind; [apply _|auto with quiet|]. intros _. quiet within_emit.
Qed.

Lemma enforce_returns engine z i b it w :
  returns (_enforce_policy co engine z i b it) w (fun r tr => forall x, r = inl x -> enforced b x tr).
Proof.
  unfold _enforce_policy. skip within_cell. intros c w1 _.
  destruct (negb _); [by apply denied_policy|].
  destruct (policy_request co) as [f|]; [|by apply denied_policy].
  skip_all within_ask_policy. intros asked w2 _. skip within_cell. intros c' w3 _.
  destruct (negb _); [by apply denied_policy|].
  destruct asked as [rq|]; [|by apply denied_policy].
  destruct (negb (string_eqb _ _)) eqn:Ht; [by apply denied_policy|]. bool_to_prop.
  eapply returns_step; [quiet within_decide|apply decide_returns|]. intros d w4 _ Hd.
  destruct d as [[[[a risks] rule] why]|]; [|by apply denied_policy]. specialize (Hd _ _ _ _ eq_refl).
  skip within_emit. intros _ w5 H5. cbv zeta. destruct a.
  - apply returns_ret. intros x [= <-]. repeat split; [by eapply no_execution_elem|done|by left].
  - destruct (tool_authorizer co) as [au|].
    + eapply returns_step; [quiet within_ask_for_approval|apply ask_approved|]. intros r w6 H6 Hr. apply returns_ret.
      intros x Hx. destruct r as [reason|]; [done|]. injection Hx as <-.
      repeat split; [by eapply no_execution_elem, no_execution_elem|done|]. right. split; [done|auto].
    + apply returns_skip; [apply quiet_denial|]. intros _ w6 _. by apply returns_ret.
  - apply returns_skip; [apply quiet_denial|]. intros _ w6 _. by apply returns_ret.
Qed.

Lemma prepare_execution_returns i x w :
  returns (_prepare_policy_execution_call co i x) w (fun c tr => Described c (x_request x) ∈ tr
    /\ call_id c = n_call_id (x_native x) /\ call_name c = n_tool (x_native x)
    /\ arguments_hash co (arguments c) = n_hash (x_native x)).
Proof.
  unfold _prepare_policy_execution_call. cbv zeta. destruct (policy_request co) as [f|]; [|done].
  skip within_cell. intros c w1 _. destruct (negb _); [done|].
  skip within_bound_arguments. intros args w2 _. destruct (negb (string_eqb _ _)) eqn:Hh; [done|].
  apply returns_skip; [by apply quiet_plain|]. intros [c' rq] w3 _. cbn [fst snd].
  apply returns_bind. unfold wp, of_result. cbn. destruct rq as [rq|e]; [|done].
  match goal with |- context [if negb ?b then _ else _] => destruct b eqn:Hm end; cbn [negb]; [|done].
  bool_to_prop. subst rq.
  apply returns_record; [done|]. intros w4 _ Hin. by apply returns_ret.
Qed.

Lemma enforced_mono b x w w' : no_execution w w' -> enforced b x (history w) -> enforced b x (history w').
Proof.
  intros Hn (Hb & He & Ht & Ha). split; [done|]. split; [by eapply no_execution_elem|]. split; [done|].
  destruct Ha as [Ha|(Ha & o & Ho & Hrest)]; [by left|right]. split; [done|]. exists o.
  split; [by eapply no_execution_elem|done].
Qed.

(** The two together make a call vetted. *)
Definition native_returned (b : _NativeToolBinding) (tr : list obs) : Prop :=
  returned_call co tr (n_call_id b) (n_tool b) (n_hash b).

Lemma enforced_vetted x c tr : native_returned (x_native x) tr -> enforced (x_native x) x tr -> Described c (x_request x) ∈ tr ->
  call_id c = n_call_id (x_native x) -> call_name c = n_tool (x_native x) ->
  arguments_hash co (arguments c) = n_hash (x_native x) -> vetted co tr c.
Proof.
  intros Hret (_ & He & Ht & Ha) Hd Hi Hn Hh. split; [by rewrite Hi, Hn, Hh|]. exists (x_request x), (x_action x).
  split; [done|]. split; [done|]. split; [congruence|].
  destruct Ha as [Ha|(Ha & o & Ho & Hap & H1 & H2 & H3)]; [by left|right]. split; [done|]. exists o.
  split; [done|]. split; [done|]. split; [congruence|]. split; congruence.
Qed.

Definition batch_vetted (l : list (option (ToolCall * _PolicyExecutionBinding))) (tr : list obs) : Prop :=
  Forall (fun o => match o with Some (c, _) => vetted co tr c | None => True end) l.

Lemma vetted_later w w' c : no_execution w w' -> vetted co (history w) c -> vetted co (history w') c.
Proof. intros (l & -> & _). by apply vetted_mono, prefix_app_r. Qed.

Lemma native_later b w w' : no_execution w w' -> native_returned b (history w) -> native_returned b (history w').
Proof. intros (l & -> & _). by apply returned_mono, prefix_app_r. Qed.

(** The attempt to prepare an enforced call. *)
Lemma vetting_returns i x w : native_returned (x_native x) (history w) -> enforced (x_native x) x (history w) ->
  returns (try_with (c ← _prepare_policy_execution_call co i x; mret (Some c))
             (fun e => if is_exception e then mret None else raise e)) w
    (fun r tr => forall c, r = Some c -> vetted co tr c).
Proof.
  intros Hret Hx. pose proof (quiet_prepare_execution i x w) as Hq. pose proof (prepare_execution_returns i x w) as Hr.
  apply wp_try, wp_bind. unfold returns, wp in *. destruct (_prepare_policy_execution_call co i x w) as [w' [c|e]];
    cbn [fst snd] in *.
  - destruct Hr as (Hd & Hi & Hn & Hh). intros c' [= <-]. eapply enforced_vetted; [|by eapply enforced_mono|done..].
    by eapply native_later.
  - by destruct (is_exception e).
Qed.

Lemma natives_later bs w w' : no_execution w w' -> Forall (fun b => native_returned b (history w)) bs ->
  Forall (fun b => native_returned b (history w')) bs.
Proof.
  intros Hn Hb. eapply Forall_impl; [exact Hb|]. intros b. by apply native_later.
Qed.

Lemma prepare_calls_returns engine z bs it : forall i k w, Forall (fun b => native_returned b (history w)) bs ->
  returns (prepare_calls co engine z i bs it k) w
    (fun r tr => forall l k', r = inl (l, k') -> batch_vetted l tr).
Proof.
  induction bs as [|b bs IH]; intros i k w Hret; cbn [prepare_calls].
  { apply returns_ret. intros l k' [= <- <-]. constructor. }
  skip within_cell. intros c w1 H1. destruct (decide _).
  { apply returns_skip; [auto with quiet|]. intros _ w2 H2. apply Forall_cons in Hret as [_ Hret].
    eapply returns_step; [apply quiet_prepare_calls|by apply IH; eapply natives_later, natives_later|].
    intros r w3 _ Hr. apply returns_ret.
    destruct r as [[l k']|reason]; [|done]. intros l' k'' [= <- <-]. constructor; [done|by eapply Hr]. }
  cbv zeta. skip within_emit. intros _ w2 H2.
  eapply returns_step; [apply quiet_enforce|apply enforce_returns|]. intros [x|reason] w3 H3 Hx; [|by apply returns_ret].
  specialize (Hx x eq_refl).
  assert (Forall (fun b => native_returned b (history w3)) (b :: bs)) as Hret3
    by (by eapply natives_later, natives_later, natives_later). apply Forall_cons in Hret3 as [Hb Hbs].
  eapply (returns_step _ _ _ (fun r tr => forall c, r = Some c -> vetted co tr c)).
  { apply within_try; [apply _| |].
    - apply within_bind; [apply _|apply quiet_prepare_execution|]. intros c'. by apply within_ret, _.
    - intros e. destruct (is_exception e); [by apply within_ret, _|by apply within_raise, _]. }
  { destruct Hx as (<- & ?). apply vetting_returns; [done|by split]. }
  intros [call|] w4 H4 Hc.
  - eapply returns_step; [apply quiet_prepare_calls|by apply IH; eapply natives_later|]. intros r w5 H5 Hr. apply returns_ret.
    destruct r as [[l k']|reason]; [|done]. intros l' k'' [= <- <-].
    constructor; [eapply vetted_later; [exact H5|by apply Hc]|by eapply Hr].
  - destruct (bool_decide _); [skip within_deny_approval|skip within_deny_policy]; intros r w5 _; by apply returns_ret.
Qed.

Lemma prepare_batch_returns engine z bs it w : Forall (fun b => native_returned b (history w)) bs ->
  returns (_prepare_policy_batch co engine z bs it) w (fun r tr => forall l, r = inl l -> batch_vetted l tr).
Proof.
  intros Hret. unfold _prepare_policy_batch. skip within_get. intros seen w1 H1.
  eapply returns_step; [apply quiet_prepare_calls|by eapply prepare_calls_returns, natives_later|].
  intros [[l k]|reason] w2 _ Hr; [|by apply returns_ret].
  apply returns_skip; [auto with quiet|]. intros _ w3 H3. apply returns_ret. intros l' [= <-].
  eapply Forall_impl; [by eapply Hr|]. intros [[c x]|]; [by apply vetted_later|done].
Qed.

(** Guarded as long as a batch of calls is vetted. *)
Definition keeps_batch (l : list (option (ToolCall * _PolicyExecutionBinding))) (w w' : W) : Prop :=
  extends w w' /\ (batch_vetted l (history w) -> guarded co (history w) -> guarded co (history w')).

Lemma batch_vetted_mono l tr tr' : tr `prefix_of` tr' -> batch_vetted l tr -> batch_vetted l tr'.
Proof. intros Hp Hl. eapply Forall_impl; [exact Hl|]. intros [[c x]|]; [by apply vetted_mono|done]. Qed.

#[local] Instance keeps_batch_preorder l : PreOrder (keeps_batch l).
Proof.
  split; [by intros w; split|]. intros w1 w2 w3 [He Hg] [He' Hg']. split; [by etrans|]. intros Hb Hg1.
  apply Hg'; [by eapply batch_vetted_mono|by apply Hg].
Qed.

Lemma quiet_batch {A} l (m : R A) : within no_execution m -> within (keeps_batch l) m.
Proof. intros Hm w. destruct (no_execution_guarded co _ _ (Hm w)). by split. Qed.

Lemma batch_sync {A} l c x (f : nat -> result rexn A) : Some (c, x) ∈ l ->
  within (keeps_batch l) (await co [Executed c] f).
Proof.
  intros Hin w. split; [by apply prefix_app_r|]. intros Hb Hg. cbn. apply guarded_app; [done|].
  intros [|i] c' Hc'; [|done]. injection Hc' as <-. cbn. rewrite app_nil_r.
  by apply (proj1 (Forall_forall _ _) Hb _ Hin).
Qed.

Lemma batch_execute_call l c x it : Some (c, x) ∈ l ->
  within (keeps_batch l) (execute_call co budget (Some x) c (mret c) it).
Proof.
  intros Hin. apply within_execute_call; try solve [intros; apply quiet_batch; auto with quiet | apply _].
  - apply quiet_batch. by apply within_ret, _.
  - intros f. by eapply batch_sync.
Qed.

Lemma batch_execute_prepared l it : forall l', l' ⊆ l -> within (keeps_batch l) (execute_prepared co budget l' it).
Proof.
  induction l' as [|[[c x]|] l' IH]; intros Hl; cbn [execute_prepared].
  - by apply within_ret, _.
  - apply within_bind; [apply _| |intros _; apply IH; set_solver]. apply batch_execute_call. set_solver.
  - apply IH. set_solver.
Qed.

(** Guarded as long as the bindings come from a response. *)
Definition keeps_returned (bs : list _NativeToolBinding) (w w' : W) : Prop :=
  extends w w' /\ (Forall (fun b => native_returned b (history w)) bs -> guarded co (history w) -> guarded co (history w')).

#[local] Instance keeps_returned_preorder bs : PreOrder (keeps_returned bs).
Proof.
  split; [by intros w; split|]. intros w1 w2 w3 [He Hg] [He' Hg']. split; [by etrans|]. intros Hb Hg1.
  apply Hg'; [|by apply Hg]. eapply Forall_impl; [exact Hb|]. intros b. by apply returned_mono.
Qed.

Lemma no_execution_returned bs w w' : no_execution w w' -> keeps_returned bs w w'.
Proof. intros Hn. destruct (no_execution_guarded co _ _ Hn). by split. Qed.

Lemma quiet_returned {A} bs (m : R A) : within no_execution m -> within (keeps_returned bs) m.
Proof. intros Hm w. by apply no_execution_returned. Qed.

Lemma quiet_stop_with v r e s : within no_execution (stop co v r e s).
Proof. quiet within_stop. Qed.

Lemma returned_dispatch z c q bs : is_Some (policy_engine co) ->
  within (keeps_returned bs) (dispatch_calls co budget z c q bs).
Proof.
  intros [engine He]. unfold dispatch_calls. rewrite He.
  assert (forall A B (m : R A) (f : A -> R B), within no_execution m -> (forall a, within (keeps_returned bs) (f a)) ->
    within (keeps_returned bs) (m ≫= f)) as Hq.
  { intros A B m f Hm Hf. apply within_bind; [apply _|by apply quiet_returned|done]. }
  apply Hq; [quiet within_get|intros v]. apply Hq; [quiet within_get|intros calls].
  apply Hq; [quiet within_get|intros seen]. apply Hq; [quiet within_get|intros used].
  destruct (_ <? _).
  { apply Hq; [quiet within_append_unexecuted|intros _]. apply Hq; [apply quiet_finalize|intros r]. by apply within_ret, _. }
  intros w. pose proof (prepare_batch_returns engine z bs (v_iterations v) w) as Hr.
  assert (no_execution w (_prepare_policy_batch co engine z bs (v_iterations v) w).1) as Hn
    by (revert w Hr; intros w _; quiet_all within_prepare_batch).
  unfold mbind, M_bind. unfold returns, wp in Hr.
  destruct (_prepare_policy_batch co engine z bs (v_iterations v) w) as [w' [[l|reason]|e]]; cbn [fst snd] in *.
  - assert (keeps_batch l w' (execute_prepared co budget l (v_iterations v) w').1) as [Hx Hg]
      by by apply batch_execute_prepared.
    destruct (no_execution_guarded co _ _ Hn) as [Hx' Hg'].
    destruct (execute_prepared co budget l (v_iterations v) w') as [w2 [[]|e]]; cbn [fst] in *;
      (split; [by etrans|]; intros Hret Hgw; apply Hg; [by apply Hr|auto]).
  - transitivity w'; [by apply no_execution_returned|].
    assert (within no_execution (Some <$> stop co v reason None None)) as Hs
      by (apply within_fmap; [apply _|apply quiet_stop_with]).
    by apply no_execution_returned, Hs.
  - by apply no_execution_returned.
Qed.

(** The bindings of a snapshot are those of the calls it was taken of. *)
Lemma snapshot_call_spec mode pc b call : snapshot_call co mode pc = Ok (b, call) ->
  pc_id pc = Some (n_call_id b) /\ pc_name pc = Some (n_tool b)
  /\ exists args, pc_arguments pc = Some args /\ n_hash b = arguments_hash co args /\ n_json b = dumps (JObj args)
     /\ call = mkToolCall (n_call_id b) (n_tool b) args.
Proof.
  unfold snapshot_call. cbv zeta. destruct (negb (bool_decide _)) eqn:Hid; [done|]. destruct (_ && _); [done|].
  destruct (pc_arguments pc) as [args|]; [|done]. intros H. inv_result. bool_to_prop. destruct Hid. cbn. by eauto 10.
Qed.

Lemma snapshot_spec mode l snaps : _snapshot_provider_tool_calls co mode l = Ok snaps ->
  Forall2 (fun pc x => snapshot_call co mode pc = Ok x) l snaps.
Proof.
  revert snaps. induction l as [|pc l IH]; intros snaps H; cbn in H; inv_result; [constructor|].
  constructor; [done|]. by apply IH.
Qed.

Lemma snapshot_returned mode l snaps tr : _snapshot_provider_tool_calls co mode l = Ok snaps -> Returned l ∈ tr ->
  Forall (fun b => native_returned b tr) snaps.*1.
Proof.
  intros Hs%snapshot_spec Hin. apply Forall_fmap, Forall_forall. intros [b call] Hx.
  apply list_elem_of_lookup in Hx as [i Hi]. destruct (Forall2_lookup_r _ _ _ _ _ Hs Hi) as (pc & Hpc & Hc).
  apply snapshot_call_spec in Hc as (Hid & Hn & args & Ha & Hh & _). exists l, pc, args. cbn.
  split; [done|]. split; [by eapply list_elem_of_lookup_2|]. by rewrite Hh.
Qed.

Lemma guarded_dispatch z c q l snaps text : is_Some (policy_engine co) ->
  _snapshot_provider_tool_calls co (bool_decide (is_Some (policy_engine co))) l = Ok snaps ->
  within (keeps_guarded co) (dispatch_response co budget z c q l snaps text).
Proof.
  intros He Hs w. unfold dispatch_response.
  pose (w1 := (record_event (Returned l) w : W * result rexn unit).1).
  assert (keeps_guarded co w w1) as H1 by (apply no_execution_guarded; by exists [Returned l]).
  assert (Forall (fun b => native_returned b (history w1)) snaps.*1) as Hret.
  { eapply snapshot_returned; [exact Hs|]. cbn. apply elem_of_app. right. left. }
  etrans; [exact H1|].
  match goal with |- keeps_guarded _ _ (mbind ?f _ _).1 => change (keeps_guarded co w1 (f tt w1).1) end.
  assert (forall m, within (keeps_returned snaps.*1) (_ ← add_message m; _ ← set_cells snaps.*2;
    dispatch_calls co budget z c q snaps.*1)) as Hk.
  { intros m. apply within_bind; [apply _|apply quiet_returned; auto with quiet|intros _].
    apply within_bind; [apply _|apply quiet_returned; auto with quiet|intros _]. by apply returned_dispatch. }
  destruct (Hk (mkMessage ASSISTANT match c with Some _ => ""%string | None => default ""%string text end None snaps.*2 []) w1)
    as [Hx Hg]. by split; [|auto].
Qed.

Lemma guarded_run z ms c q : is_Some (policy_engine co) -> within (keeps_guarded co) (run co budget z ms c q).
Proof.
  intros He. apply within_run; try solve [intros; apply quiet_guarded; auto with quiet | apply _].
  intros. by apply guarded_dispatch.
Qed.
End specs.

(** C1. With a policy engine, a tool call reaches the tool executor only if, before that
    moment, the model returned a call with that id, that tool name and arguments of that
    digest, the executor described the call, the policy engine decided about that
    description, and it either allowed it or asked - and then a human approved exactly
    that id, name and digest. This holds whatever the collaborators answer, raise or
    change behind the runtime's back, and wherever the run is interrupted. *)
Theorem nothing_runs_unvetted (co : collaborators) (budget : RuntimeBudget) (z : Z) (ms : list Message)
    (contract : option ResponseContract) (caps : gset string) (w : W) (i : nat) (c : ToolCall) :
  is_Some (policy_engine co) -> history w = [] ->
  let tr := history (run co budget z ms contract caps w).1 in
  tr !! i = Some (Executed c) -> vetted co (take i tr) c.
Proof.
  intros He Hw tr Hi. destruct (guarded_run co budget z ms contract caps He w) as [_ Hg].
  apply Hg; [|done]. by rewrite Hw.
Qed.

(** ** A run with a tool that the policy asks about *)

Definition demo_reply (t : nat) (rq : provider_request) : result rexn provider_response :=
  if (length (ask_messages rq) <=? 1)%nat then
    Ok (mkProviderResponse (Some "let me look"%string)
          [mkProviderCall (Some "c1"%string) (Some "write_file"%string) (Some [("path"%string, JStr "/tmp/x"%string)])]
          (mkTokens 10 5 None None) (Some "tool_use"%string) None None)
  else Ok (mkProviderResponse (Some "done"%string) [] (mkTokens 10 5 None None) (Some "end_turn"%string) None None).

Definition demo_description : PolicyRequest := mkPolicyRequest "write_file" [] {[ WRITE ]} false.

Definition demo_digest_hex (s : string) : string := "0123456789abcdef0123456789abcdef0123456789abcdef0123456789abcdef".

Definition demo_authorizer : authorizer :=
  mkAuthorizer (fun _ q => Ok (q, Some (mkRawOutcome (Some true) (Some (q_call_id q)) (Some (q_tool q)) (Some (q_hash q))
                                          (Some "user_approved"%string)))) None.

(** The executor keeps the call it described and renames it later. *)
Definition demo_co : collaborators := {|
  clock := Z.of_nat; interrupted := fun _ => false; timed_out := fun _ => false;
  sink := fun _ _ => Ok tt; capture_assistant_response := Some (fun _ _ => Ok tt);
  result_recorder := Some (fun _ _ => Ok tt); compliance := None; model := demo_reply;
  capabilities := fun _ => {[ "native_tools"%string ]}; routes_capabilities := false; reflection_policy := default_reflection_policy;
  reflection_hash_key := ""%string; reflection_hash_scope := ""%string; parse_and_validate := fun _ _ => Err "unparsable"%string;
  definitions := [mkTool "write_file" "" []]; tool := fun _ _ => Ok [("ok"%string, JBool true)];
  policy_request := Some (fun _ c => (c, Ok demo_description)); tool_requires_approval := None; approval_hook := None;
  policy_engine := Some (fun _ rq => Ok (mkRawDecision (Some ASK) (Some {[ WRITE ]}) (Some None) (Some "needs_a_human"%string)));
  tool_authorizer := Some demo_authorizer;
  tamper := fun t _ c => if (33 <? t)%nat then mkToolCall "other" (call_name c) [] else c;
  sha256_hex := demo_digest_hex; image_ok := fun _ => true |}.

Definition demo_budget : RuntimeBudget := mkBudget 5 5 1000 100000 12000 2048 1 200000 4096.

Definition demo_start : world unit engine_state obs :=
  mkWorld tt 0 (mkEngine [] [] ∅ [] 0 (initial_deadline 0) (mkLocals "" 0 no_usage 0) (mkLocals "" 0 no_usage 0)) [].

Definition demo_run := run demo_co demo_budget 30 [user_message "hi"] None ∅ demo_start.

Lemma nothing_runs_unvetted_witness : exists i c, history demo_run.1 !! i = Some (Executed c)
  /\ vetted demo_co (take i (history demo_run.1)) c.
Proof.
  exists 14%nat, (mkToolCall "c1" "write_file" [("path"%string, JStr "/tmp/x"%string)]).
  assert (history demo_run.1 !! 14%nat = Some (Executed (mkToolCall "c1" "write_file" [("path"%string, JStr "/tmp/x"%string)]))) as Hi
    by (vm_compute; reflexivity).
  split; [exact Hi|].
  exact (nothing_runs_unvetted demo_co demo_budget 30 [user_message "hi"] None ∅ demo_start _ _
    (ex_intro _ _ eq_refl) eq_refl Hi).
Defined.
