(* ===== verification/EngineBudgets.v ===== *)
(** * Budgets of the agent loop

    A run never executes more tool calls than its budget: with a policy, the batch of a
    response is counted before any of it is decided, and without one each call is
    counted before it runs. And it asks the model at most once per iteration, once more
    for the final synthesis, and twice more when it reflects on its answer. *)

From Stdlib Require Import ZArith Lia String Ascii.
From stdpp Require Import base gmap strings list relations.
From S2P Require Import Numbers Reflection.
From S2P Require Import Prelude Strings Durable Json JsonText BudgetedProvider Policy Authorization Engine EngineProofs.
Open Scope Z_scope.

#[local] Abbreviation W := (world unit engine_state obs).
#[local] Abbreviation R := (M unit engine_state obs rexn).

(** ** Counting executions *)

Definition executions (tr : list obs) : nat := length (filter (fun o => not_executed o = false) tr).

Lemma executions_app tr l : executions (tr ++ l) = (executions tr + executions l)%nat.
Proof. unfold executions. by rewrite filter_app, length_app. Qed.

Lemma executions_quiet l : forallb not_executed l = true -> executions l = 0%nat.
Proof.
  unfold executions. induction l as [|o l IH]; [done|]. cbn. intros [Ho Hl]%andb_true_iff.
  rewrite decide_False by congruence. auto.
Qed.

Definition used (w : W) : nat := length (records (fields w)).

(** No execution, and no record is lost. *)
Definition accounts (w w' : W) : Prop :=
  executions (history w') = executions (history w) /\ (used w <= used w')%nat.
#[export] Instance accounts_preorder : PreOrder accounts.
Proof. split; [by intros w; split|]. intros w1 w2 w3 [H1 H2] [H3 H4]. split; [congruence|lia]. Qed.

(** The cells from [k] on are untouched, and the others may be exposed. *)
Definition spares (k : nat) (w w' : W) : Prop :=
  (exposed (fields w) <= k)%nat -> (exposed (fields w') <= k)%nat
  /\ forall j, (k <= j)%nat -> cells (fields w') !! j = cells (fields w) !! j.
#[export] Instance spares_preorder k : PreOrder (spares k).
Proof.
  split; [by intros w; split|]. intros w1 w2 w3 H1 H2 Hk. destruct (H1 Hk) as [Hk2 Hc]. destruct (H2 Hk2) as [Hk3 Hc'].
  split; [done|]. intros j Hj. by rewrite Hc', Hc.
Qed.

Section budgets.
Context (co : collaborators) (budget : RuntimeBudget).

Lemma accounts_sync A o (f : nat -> result rexn A) : forallb not_executed o = true -> within accounts (sync co o f).
Proof.
  intros Ho w. split; [|done]. change (executions (history w ++ o) = executions (history w)).
  rewrite executions_app, (executions_quiet o) by done. lia.
Qed.

Lemma accounts_plain A o (f : nat -> result rexn A) : forallb plain_obs o = true -> within accounts (sync co o f).
Proof.
  intros Ho. apply accounts_sync. rewrite forallb_forall in Ho |- *. intros x Hx. specialize (Ho x Hx). by destruct x.
Qed.

Lemma accounts_ask A rq (f : nat -> result rexn A) : within accounts (await co [Asked rq] f).
Proof. by apply accounts_sync. Qed.

Lemma accounts_record o : plain_obs o = true -> within accounts (record_event o : R unit).
Proof.
  intros Ho w. split; [|done]. change (executions (history w ++ [o]) = executions (history w)).
  rewrite executions_app, (executions_quiet [o]); [lia|by destruct o].
Qed.

Lemma accounts_modify f : (forall s, (length (records s) <= length (records (f s)))%nat) -> within accounts (modify f).
Proof. intros Hf w. split; [done|apply Hf]. Qed.

Lemma accounts_add_record r : within accounts (add_record r).
Proof. apply accounts_modify. intros s. cbn. rewrite length_app. lia. Qed.

Lemma accounts_stop r c i l u e s b : within accounts (_stop co r c i l u e s b).
Proof. apply within_stop_task; [apply _|intros; by apply accounts_sync, ending_not_executed|intros; by apply accounts_modify]. Qed.

Lemma spares_sync k A o (f : nat -> result rexn A) : within (spares k) (sync co o f).
Proof.
  intros w Hk. split; [done|]. intros j Hj. cbn [fst fields cells tampered sync]. rewrite list_lookup_imap.
  destruct (cells (fields w) !! j); [|done]. cbn [fmap option_fmap option_map].
  by rewrite (proj2 (Nat.ltb_ge _ _)) by lia.
Qed.

Lemma spares_modify k f : (forall s, exposed (f s) = exposed s /\ cells (f s) = cells s) -> within (spares k) (modify f).
Proof. intros Hf w Hk. destruct (Hf (fields w)) as [He Hc]. cbn. by rewrite He, Hc. Qed.

Lemma spares_set_cell k i c : (i < k)%nat -> within (spares k) (set_cell i c).
Proof. intros Hi w Hk. split; [done|]. intros j Hj. cbn. by rewrite list_lookup_insert_ne by lia. Qed.

Lemma spares_expose k i : (i < k)%nat -> within (spares k) (expose i).
Proof. intros Hi w Hk. cbn. split; [lia|done]. Qed.
End budgets.

#[export] Hint Resolve accounts_plain accounts_ask accounts_record accounts_add_record accounts_stop : quiet.
#[export] Hint Resolve spares_sync spares_set_cell spares_expose : quiet.
#[export] Hint Extern 1 (within accounts (add_message _)) => apply accounts_modify; done : quiet.
#[export] Hint Extern 1 (within accounts (set_seen _)) => apply accounts_modify; done : quiet.
#[export] Hint Extern 1 (within accounts (set_cell _ _)) => apply accounts_modify; done : quiet.
#[export] Hint Extern 1 (within accounts (set_cells _)) => apply accounts_modify; done : quiet.
#[export] Hint Extern 1 (within accounts (expose _)) => apply accounts_modify; done : quiet.
#[export] Hint Extern 1 (within accounts (set_deadline _)) => apply accounts_modify; done : quiet.
#[export] Hint Extern 1 (within accounts (set_vars _)) => apply accounts_modify; done : quiet.
#[export] Hint Extern 1 (within accounts (set_final_vars _)) => apply accounts_modify; done : quiet.
#[export] Hint Extern 1 (within (spares _) (add_message _)) => apply spares_modify; done : quiet.
#[export] Hint Extern 1 (within (spares _) (add_record _)) => apply spares_modify; done : quiet.
#[export] Hint Extern 1 (within (spares _) (set_seen _)) => apply spares_modify; done : quiet.
#[export] Hint Extern 1 (within (spares _) (set_deadline _)) => apply spares_modify; done : quiet.
#[export] Hint Extern 1 (within (spares _) (record_event _)) => intros ? ?; done : quiet.

(** ** Programs by the number of observations of a kind they add at most *)

Section costs.
Context (co : collaborators) (budget : RuntimeBudget) (kind : obs -> Prop) `{!forall o, Decision (kind o)}.

Definition occurrences (tr : list obs) : nat := length (filter kind tr).
Definition costs (n : nat) {A} (m : R A) : Prop :=
  forall w, (occurrences (history (m w).1) <= n + occurrences (history w))%nat.

Lemma occurrences_app tr l : occurrences (tr ++ l) = (occurrences tr + occurrences l)%nat.
Proof. unfold occurrences. by rewrite filter_app, length_app. Qed.

Lemma costs_weaken {A} n k (m : R A) : (n <= k)%nat -> costs n m -> costs k m.
Proof. intros Hnk Hm w. specialize (Hm w). lia. Qed.

Lemma costs_bind {A B} n k (m : R A) (f : A -> R B) : costs n m -> (forall a, costs k (f a)) -> costs (n + k) (m ≫= f).
Proof.
  intros Hm Hf w. unfold mbind, M_bind. specialize (Hm w). destruct (m w) as [w' [a|e]]; cbn in *; [|lia].
  specialize (Hf a w'). lia.
Qed.

Lemma costs_try {A} n k (m : R A) h : costs n m -> (forall e, costs k (h e)) -> costs (n + k) (try_with m h).
Proof.
  intros Hm Hh w. unfold try_with. specialize (Hm w). destruct (m w) as [w' [a|e]]; cbn in *; [lia|].
  specialize (Hh e w'). lia.
Qed.

Lemma costs_sync {A} o (f : nat -> result rexn A) : costs (occurrences o) (sync co o f).
Proof. intros w. change (occurrences (history w ++ o) <= occurrences o + occurrences (history w))%nat. rewrite occurrences_app. lia. Qed.

Lemma costs_free {A} (m : R A) : within (fun w w' => (occurrences (history w') <= occurrences (history w))%nat) m -> costs 0 m.
Proof. intros Hm w. exact (Hm w). Qed.

Lemma costs_deadline {A} n (m : R A) : costs n m -> costs n (await_before_deadline co m).
Proof.
  intros Hm. unfold await_before_deadline.
  assert (costs 0 (get (fun s => deadline (dstate s)))) as H1 by by intros w.
  assert (costs 0 (read_clock co)) as H2 by exact (costs_sync [] _).
  apply (costs_bind 0 n); [exact H1|]. intros d. apply (costs_bind 0 n); [exact H2|]. intros t.
  destruct (_ <=? 0); [intros w; cbn; lia|]. intros w. specialize (Hm w). destruct (m w) as [w' r]. cbn [fst] in Hm.
  pose proof (costs_sync [] (fun t => if interrupted co t then Err XCancelled
    else if timed_out co t || (d <=? clock co t) then Err XDeadline else r) w') as Hs. cbn in *. lia.
Qed.
End costs.

Section bounds.
Context (co : collaborators) (budget : RuntimeBudget).

Lemma accounts_execute_rest {A} (m : R A) : within accounts m -> forall w, accounts w (m w).1.
Proof. done. Qed.

(** The number of calls a batch executes. *)
Definition batch_size (l : list (option (ToolCall * _PolicyExecutionBinding))) : nat :=
  length (filter is_Some l).

Lemma batch_size_none l : batch_size (None :: l) = batch_size l.
Proof. done. Qed.

Lemma batch_size_some x l : batch_size (Some x :: l) = S (batch_size l).
Proof. done. Qed.

Lemma novel_calls_cons seen c cs : (novel_calls seen (c :: cs)).2 =
  if decide (call_key c ∈ seen) then (novel_calls seen cs).2 else 1 + (novel_calls ({[ call_key c ]} ∪ seen) cs).2.
Proof.
  assert (forall cs k n, (fold_left (fun acc c => if decide (call_key c ∈ acc.1) then acc
    else ({[ call_key c ]} ∪ acc.1, acc.2 + 1)) cs (k, n)).2 = n + (novel_calls k cs).2) as Hn.
  { induction cs0 as [|c' cs' IH]; intros k n; unfold novel_calls; cbn [fold_left fst snd]; [lia|].
    destruct (decide _); [apply IH|]. rewrite IH. rewrite (IH _ (0 + 1)). lia. }
  unfold novel_calls at 1. cbn [fold_left fst snd]. destruct (decide _); [done|]. rewrite Hn. lia.
Qed.

Lemma novel_calls_nonneg cs : forall seen, 0 <= (novel_calls seen cs).2.
Proof.
  induction cs as [|c cs IH]; intros seen; [done|]. rewrite novel_calls_cons.
  destruct (decide _); [apply IH|]. specialize (IH ({[ call_key c ]} ∪ seen)). lia.
Qed.

(** A step that leaves the cells from [k] on alone. *)
Lemma wp_spare {A B} k (m : R A) (f : A -> R B) (Q : result rexn B -> W -> Prop) w :
  within (spares k) m -> (exposed (fields w) <= k)%nat ->
  (forall a w', (exposed (fields w') <= k)%nat ->
     (forall j, (k <= j)%nat -> cells (fields w') !! j = cells (fields w) !! j) -> wp (f a) Q w') ->
  (forall e w', Q (Err e) w') -> wp (m ≫= f) Q w.
Proof.
  intros Hm Hk Hf He. apply wp_bind. unfold wp. destruct (Hm w Hk) as [Hk' Hc].
  destruct (m w) as [w' [a|e]]; cbn [fst snd] in *; [by apply Hf|apply He].
Qed.

Lemma wp_inr {A} (m : R StopReason) (Q : result rexn (A + StopReason) -> W -> Prop) w :
  (forall r w', Q (Ok (inr r)) w') -> (forall e w', Q (Err e) w') -> wp (inr <$> m) Q w.
Proof. intros Hr He. apply wp_bind. unfold wp. destruct (m w) as [w' [r|e]]; [apply Hr|apply He]. Qed.

Lemma prepare_calls_size engine z bs it : forall i k w cs,
  (exposed (fields w) <= i)%nat -> (forall j, cells (fields w) !! (i + j)%nat = cs !! j) ->
  wp (prepare_calls co engine z i bs it k) (fun r _ => forall l k', r = Ok (inl (l, k')) ->
    Z.of_nat (batch_size l) <= (novel_calls k cs).2) w.
Proof.
  induction bs as [|b bs IH]; intros i k w cs He Hc; cbn [prepare_calls].
  { apply wp_ret. intros l k' [= <- <-]. apply novel_calls_nonneg. }
  apply wp_bind. unfold wp at 1, cell. pose proof (Hc 0%nat) as Hi. rewrite Nat.add_0_r in Hi. rewrite Hi.
  destruct cs as [|c cs]; [done|]. cbn [lookup list_lookup fst snd].
  assert (forall (w' : W), (exposed (fields w') <= S i)%nat ->
    (forall j, (S i <= j)%nat -> cells (fields w') !! j = cells (fields w) !! j) ->
    forall k, wp (prepare_calls co engine z (S i) bs it k) (fun r _ => forall l k', r = Ok (inl (l, k')) ->
      Z.of_nat (batch_size l) <= (novel_calls k cs).2) w') as Hrest.
  { intros w' He' Hc' k'. apply IH; [done|]. intros j. rewrite Hc' by lia.
    change (cells (fields w) !! (S i + j)%nat = (c :: cs) !! S j). rewrite <- (Hc (S j)). f_equal. lia. }
  rewrite novel_calls_cons. destruct (decide _).
  - apply (wp_spare (S i)); [auto with quiet|lia| |done]. intros _ w1 He1 Hc1.
    apply wp_bind. eapply wp_mono; [by apply Hrest|]. intros [r|ex] w2 Hr; [|done]. apply wp_ret.
    destruct r as [[l k']|reason]; [|done]. intros l' k'' [= <- <-]. rewrite batch_size_none. by eapply Hr.
  - cbv zeta. apply (wp_spare (S i)); [apply within_emit; by auto with quiet|lia| |done]. intros _ w1 He1 Hc1.
    apply (wp_spare (S i)); [|lia| |done].
    { apply (within_enforce_policy _ _) with (allowed := fun j => (j < S i)%nat); solve [intros; auto with quiet]. }
    intros [x|reason] w2 He2 Hc2; [|done].
    apply (wp_spare (S i)); [|lia| |done].
    { apply within_try; [apply _| |].
      - apply within_bind; [apply _| |intros c'; by apply within_ret, _].
        apply within_prepare_execution; solve [intros; auto with quiet].
      - intros ex. destruct (is_exception ex); [by apply within_ret, _|by apply within_raise, _]. }
    intros [call|] w3 He3 Hc3.
    + apply wp_bind. eapply wp_mono; [apply (Hrest w3 He3); intros j Hj; by rewrite Hc3, Hc2, Hc1|].
      intros [r|ex] w4 Hr; [|done]. apply wp_ret. destruct r as [[l k']|reason]; [|done]. intros l' k'' [= <- <-].
      specialize (Hr l k' eq_refl). rewrite batch_size_some. lia.
    + destruct (bool_decide _); by apply wp_inr.
Qed.

(** Within the budget of calls; and, while the loop goes on, every execution left a
    record. *)
Definition bounded (w : W) : Prop := Z.of_nat (executions (history w)) <= max_tool_calls budget.
Definition recorded (w : W) : Prop := bounded w /\ (executions (history w) <= used w)%nat.

(** Given room for [k] executions, a program stays within the budget. *)
Definition counts (k : nat) {A} (m : R A) : Prop := forall w, recorded w ->
  Z.of_nat (executions (history w)) + Z.of_nat k <= max_tool_calls budget ->
  bounded (m w).1 /\ (is_ok (m w).2 = true -> recorded (m w).1).

Lemma accounts_recorded w w' : accounts w w' -> recorded w -> recorded w'.
Proof. unfold recorded, bounded. intros [He Hu] [Hb Hr]. rewrite He. split; [done|lia]. Qed.

Lemma counts_quiet k {A} (m : R A) : within accounts m -> counts k m.
Proof.
  intros Hm w Hw _. assert (recorded (m w).1) as Hr by exact (accounts_recorded _ _ (Hm w) Hw). split; [apply Hr|done].
Qed.

Lemma counts_after k {A B} (m : R A) (f : A -> R B) : within accounts m -> (forall a, counts k (f a)) -> counts k (m ≫= f).
Proof.
  intros Hm Hf w Hw Hk. unfold mbind, M_bind. specialize (Hm w). pose proof (accounts_recorded _ _ Hm Hw) as Hr.
  destruct Hm as [He _]. destruct (m w) as [w' [a|e]]; cbn [fst snd is_ok] in *; [|by split; [apply Hr|]].
  apply Hf; [done|by rewrite He].
Qed.

Lemma counts_bind k {A B} (m : R A) (f : A -> R B) : counts k m -> (forall a, counts 0 (f a)) -> counts k (m ≫= f).
Proof.
  intros Hm Hf w Hw Hk. unfold mbind, M_bind. destruct (Hm w Hw Hk) as [Hb Hr].
  destruct (m w) as [w' [a|e]]; cbn [fst snd is_ok] in *; [|done]. specialize (Hr eq_refl). apply Hf; [done|].
  destruct Hr as [Hr _]. unfold bounded in Hr. lia.
Qed.

Lemma settled_bind {A B} (m : R A) (f : A -> R B) w :
  (forall a w', m w = (w', Ok a) -> bounded (f a w').1 /\ (is_ok (f a w').2 = true -> recorded (f a w').1)) ->
  (forall e w', m w = (w', Err e) -> bounded w') ->
  bounded ((m ≫= f) w).1 /\ (is_ok ((m ≫= f) w).2 = true -> recorded ((m ≫= f) w).1).
Proof. intros Hf He. unfold mbind, M_bind. destruct (m w) as [w' [a|e]]; cbn; [by apply Hf|]. split; [by eapply He|done]. Qed.

Lemma counts_get k {A B} (g : engine_state -> A) (f : A -> R B) :
  (forall w, recorded w -> Z.of_nat (executions (history w)) + Z.of_nat k <= max_tool_calls budget ->
     bounded (f (g (fields w)) w).1 /\ (is_ok (f (g (fields w)) w).2 = true -> recorded (f (g (fields w)) w).1)) ->
  counts k (get g ≫= f).
Proof. intros Hf. exact Hf. Qed.

(** No record is lost. *)
Definition grows (w w' : W) : Prop := (used w <= used w')%nat.
#[local] Instance grows_preorder : PreOrder grows.
Proof. split; [by intros w; unfold grows|]. intros w1 w2 w3. unfold grows. lia. Qed.

Lemma accounts_grows {A} (m : R A) : within accounts m -> within grows m.
Proof. intros Hm w. apply (Hm w). Qed.

Lemma execute_call_grows x c current it : within accounts current -> within grows (execute_call co budget x c current it).
Proof.
  intros Hc. apply within_execute_call;
    try solve [intros; apply accounts_grows; auto with quiet | by apply accounts_grows | apply _ | intros f w; by unfold grows].
Qed.

(** A program that leaves a record when it returns. *)
Definition earns {A} (m : R A) : Prop := forall w, is_ok (m w).2 = true -> (used w < used (m w).1)%nat.

Lemma earns_after {A B} (m : R A) (f : A -> R B) : within grows m -> (forall a, earns (f a)) -> earns (m ≫= f).
Proof.
  intros Hm Hf w. unfold mbind, M_bind. specialize (Hm w). unfold grows in Hm.
  destruct (m w) as [w' [a|e]]; cbn in *; [|done]. intros Hok. apply Hf in Hok. lia.
Qed.

Lemma earns_then {A B} (m : R A) (f : A -> R B) : earns m -> (forall a, within grows (f a)) -> earns (m ≫= f).
Proof.
  intros Hm Hf w. unfold mbind, M_bind. specialize (Hm w).
  destruct (m w) as [w' [a|e]]; cbn in *; [|done]. intros _. specialize (Hm eq_refl). pose proof (Hf a w') as Hg.
  unfold grows in Hg. lia.
Qed.

Lemma earns_record r : earns (add_record r).
Proof. intros w _. unfold used. cbn. rewrite length_app. cbn. lia. Qed.

Lemma execute_call_earns x c current it : within accounts current -> earns (execute_call co budget x c current it).
Proof.
  intros Hc. unfold execute_call. apply earns_after.
  { apply within_try; [apply _| |].
    - apply within_bind; [apply _| |intros o; by apply within_ret, _]. apply within_deadline; [apply _| |intros w; by unfold grows].
      intros A o f _ w. by unfold grows.
    - intros []; first [by apply within_raise, _|by apply within_ret, _]. }
  intros o. apply earns_after; [by apply accounts_grows|]. intros c'.
  assert (forall k i d, within accounts (emit co k i d) \/ k = RUN_STOPPED) as He.
  { intros k i d. destruct (decide (k = RUN_STOPPED)); [by right|left]. apply within_emit; auto with quiet. }
  assert (forall l i s d x c, within accounts (emit_progress co x c i s d l)) as Hp
    by (intros; apply within_emit_progress; solve [intros; auto with quiet]).
  destruct o as [out|e]; cbv zeta.
  - apply earns_after; [apply accounts_grows, within_completion; auto with quiet|]. intros [record data].
    apply earns_then; [apply earns_record|]. intros _.
    apply within_bind; [apply _| |intros _; apply within_bind; [apply _| |intros _; apply accounts_grows; auto with quiet]].
    + apply accounts_grows. by destruct (He TOOL_CALL_COMPLETED it data).
    + destruct (_ <? _); [apply accounts_grows, Hp|by apply within_ret, _].
  - apply earns_after; [apply accounts_grows, within_completion; auto with quiet|]. intros [record data].
    apply earns_then; [apply earns_record|]. intros _.
    apply within_bind; [apply _| |intros _; apply accounts_grows; auto with quiet].
    apply accounts_grows. by destruct (He TOOL_CALL_COMPLETED it data).
Qed.

Lemma costs_accounts {A} (m : R A) : within accounts m -> costs (fun o => not_executed o = false) 0 m.
Proof. intros Hm. apply costs_free. intros w. destruct (Hm w) as [He _]. unfold executions in He. unfold occurrences. lia. Qed.

Lemma execute_call_once x c current it : within accounts current ->
  costs (fun o => not_executed o = false) 1 (execute_call co budget x c current it).
Proof.
  intros Hc. unfold execute_call. apply (costs_bind _ 1 0).
  { apply (costs_try _ 1 0).
    - apply (costs_bind _ 1 0); [apply costs_deadline; exact (costs_sync co _ [Executed c] _)|].
      intros o. apply costs_accounts. by apply within_ret, _.
    - intros []; apply costs_accounts; first [by apply within_raise, _|by apply within_ret, _]. }
  intros o. apply costs_accounts. apply within_bind; [apply _|done|]. intros c'.
  destruct o as [out|e]; cbv zeta; (apply within_bind; [apply _|apply within_completion; auto with quiet|]); intros [record data];
    (apply within_bind; [apply _|auto with quiet|]); intros _;
    (apply within_bind; [apply _|apply within_emit; solve [auto with quiet | discriminate]|]); intros _; [|auto with quiet].
  apply within_bind; [apply _| |intros _; auto with quiet].
  destruct (_ <? _); [apply within_emit_progress; solve [intros; auto with quiet]|by apply within_ret, _].
Qed.

(** An executed call stays within a budget that had room for it, and leaves a record. *)
Lemma execute_call_counts x c current it w : within accounts current -> recorded w ->
  Z.of_nat (executions (history w)) + 1 <= max_tool_calls budget ->
  let r := execute_call co budget x c current it w in
  bounded r.1 /\ (executions (history r.1) <= S (executions (history w)))%nat /\ (is_ok r.2 = true -> recorded r.1).
Proof.
  intros Hc [Hb Hr] Hroom r. pose proof (execute_call_once x c current it Hc w) as H1.
  pose proof (execute_call_earns x c current it Hc w) as H2. fold r in H1, H2.
  change (executions (history r.1) <= 1 + executions (history w))%nat in H1. unfold recorded, bounded.
  split; [lia|]. split; [lia|]. intros Hok. specialize (H2 Hok). split; lia.
Qed.

Lemma execute_prepared_counts it l : forall w, recorded w ->
  Z.of_nat (executions (history w)) + Z.of_nat (batch_size l) <= max_tool_calls budget ->
  let r := execute_prepared co budget l it w in bounded r.1 /\ (is_ok r.2 = true -> recorded r.1).
Proof.
  induction l as [|[[c x]|] l IH]; intros w Hw Hroom; cbn [execute_prepared]; [split; [apply Hw|done]| |by apply IH].
  rewrite batch_size_some in Hroom.
  destruct (execute_call_counts (Some x) c (mret c) it w) as (Hb & H1 & Hr); [by apply within_ret, _|done|lia|].
  unfold mbind, M_bind. destruct (execute_call _ _ _ _ _ _ w) as [w' [[]|e]]; cbn [fst snd is_ok] in *; [|done].
  apply IH; [by apply Hr|lia].
Qed.

Lemma accounts_legacy_approval c it : within accounts (legacy_approval co c it).
Proof. apply within_legacy_approval; solve [intros; auto with quiet]. Qed.

Lemma execute_call_counts_one x c current it : within accounts current -> counts 1 (execute_call co budget x c current it).
Proof. intros Hc w Hw Hk. destruct (execute_call_counts x c current it w Hc Hw) as (? & _ & ?); [lia|done]. Qed.

Lemma execute_legacy_counts it n : forall i, counts 0 (execute_legacy co budget i n it).
Proof.
  induction n as [|n IH]; intros i; cbn [execute_legacy]; [apply counts_quiet; by apply within_ret, _|].
  apply counts_get. intros w Hw Hk. destruct (_ <=? _) eqn:Hu.
  { apply (counts_quiet 0); [|done..]. apply within_bind; [apply _|by apply within_get, _|]. intros rest.
    apply within_bind; [apply _|apply within_append_unexecuted; auto with quiet|]. intros _. by apply within_ret, _. }
  apply Z.leb_gt in Hu. change (Z.of_nat (used w) < max_tool_calls budget) in Hu.
  refine ((_ : counts 1 _) w Hw ltac:(destruct Hw; lia)).
  apply counts_after; [by apply within_cell, _|]. intros c. apply counts_after; [by apply within_get, _|]. intros seen.
  destruct (decide _).
  { apply counts_bind; [|intros _; apply IH]. apply counts_quiet. auto with quiet. }
  apply counts_after; [auto with quiet|]. intros _.
  apply counts_after; [apply within_emit; solve [auto with quiet | discriminate]|]. intros _.
  apply counts_after; [apply accounts_legacy_approval|]. intros [].
  - apply counts_bind; [|intros _; apply IH]. apply counts_after; [auto with quiet|]. intros _.
    apply execute_call_counts_one. by apply within_cell, _.
  - apply counts_bind; [|intros _; apply IH]. apply counts_quiet. by apply within_ret, _.
Qed.

(** *** The calls of a response *)

Lemma prepare_batch_size engine z bs it w : (exposed (fields w) <= 0)%nat ->
  forall l, (_prepare_policy_batch co engine z bs it w).2 = Ok (inl l) ->
  Z.of_nat (batch_size l) <= (novel_calls (seen_calls (fields w)) (cells (fields w))).2.
Proof.
  intros He l. unfold _prepare_policy_batch. change ((get seen_calls ≫= ?f) w) with (f (seen_calls (fields w)) w). cbv beta.
  pose proof (prepare_calls_size engine z bs it 0 (seen_calls (fields w)) w (cells (fields w)) He (fun j => eq_refl)) as Hs.
  unfold wp in Hs. unfold mbind, M_bind. destruct (prepare_calls _ _ _ _ _ _ _ w) as [w' [[[l' k]|r]|e]]; cbn; [|done..].
  intros [= ->]. by eapply Hs.
Qed.

Lemma accounts_prepare_batch engine z bs it : within accounts (_prepare_policy_batch co engine z bs it).
Proof. apply within_prepare_batch with (allowed := fun _ : nat => True); solve [intros; auto with quiet]. Qed.

Lemma accounts_stop_with v r e s : within accounts (stop co v r e s).
Proof. apply within_stop; solve [intros; auto with quiet]. Qed.

Lemma accounts_finalize r c q : within accounts (_finalize co budget r c q).
Proof. apply within_finalize; solve [intros; auto with quiet]. Qed.

Lemma dispatch_calls_counts z c q bs w : exposed (fields w) = 0%nat -> recorded w ->
  let r := dispatch_calls co budget z c q bs w in bounded r.1 /\ (is_ok r.2 = true -> recorded r.1).
Proof.
  intros He Hw. assert (Z.of_nat (executions (history w)) + Z.of_nat 0 <= max_tool_calls budget) as H0 by (destruct Hw as [Hb _]; unfold bounded in Hb; lia).
  unfold dispatch_calls. change ((get vars ≫= ?f) w) with (f (vars (fields w)) w). cbv beta.
  change ((get cells ≫= ?f) w) with (f (cells (fields w)) w). cbv beta. destruct (policy_engine co) as [engine|].
  - change ((get seen_calls ≫= ?f) w) with (f (seen_calls (fields w)) w). cbv beta.
    change ((get ?g ≫= ?f) w) with (f (Z.of_nat (used w)) w). cbv beta. destruct (_ <? _) eqn:Hroom.
    { apply (counts_quiet 0); [|done..]. apply within_bind; [apply _|apply within_append_unexecuted; auto with quiet|].
      intros _. apply within_fmap, accounts_finalize. apply _. }
    apply Z.ltb_ge in Hroom. pose proof (prepare_batch_size engine z bs (v_iterations (vars (fields w))) w) as Hs.
    pose proof (accounts_prepare_batch engine z bs (v_iterations (vars (fields w))) w) as Ha.
    pose proof (accounts_recorded _ _ Ha Hw) as Hw'. destruct Ha as [He' _].
    apply settled_bind; [|intros e w' E; rewrite E in Hw'; apply Hw']. intros prepared w' E. rewrite E in Hs, He', Hw'.
    cbn [fst snd] in *. destruct prepared as [l|reason].
    + assert (Z.of_nat (executions (history w')) + Z.of_nat (batch_size l) <= max_tool_calls budget) as Hfit.
      { rewrite He'. destruct Hw as [_ Hr]. specialize (Hs ltac:(lia) l eq_refl). lia. }
      destruct (execute_prepared_counts (v_iterations (vars (fields w))) l w' Hw' Hfit) as [Hb Hok].
      apply settled_bind; intros a w2 E2; rewrite E2 in Hb, Hok; [|done].
      apply (counts_quiet 0); [by apply within_ret, _|by apply Hok|]. destruct (Hok eq_refl) as [H1 _]. cbn [fst] in H1. unfold bounded in H1. lia.
    + apply (counts_quiet 0); [|done|by rewrite He']. apply within_fmap, accounts_stop_with. apply _.
  - refine (counts_bind 0 _ _ _ _ w Hw H0); [apply execute_legacy_counts|]. intros [].
    + apply counts_quiet. by apply within_ret, _.
    + apply counts_quiet, within_fmap, accounts_finalize. apply _.
Qed.

Lemma dispatch_counts z c q l snaps text : counts 0 (dispatch_response co budget z c q l snaps text).
Proof.
  unfold dispatch_response. apply counts_after; [auto with quiet|]. intros _. apply counts_after; [auto with quiet|]. intros _.
  intros w Hw Hk. change ((set_cells ?x ≫= ?f) w) with (f tt (set_cells x w).1). cbv beta. by apply dispatch_calls_counts.
Qed.

(** *** The loop *)

Lemma accounts_settle_text c t b : within accounts (settle_text co budget c t b).
Proof. apply within_settle_text; solve [intros; auto with quiet]. Qed.

Lemma accounts_settle_structured c t b : within accounts (settle_structured co budget c t b).
Proof. apply within_settle_structured; solve [intros; auto with quiet]. Qed.

Lemma accounts_emit_text c t b : within accounts (emit_text co c t b).
Proof. apply within_emit_text; solve [intros; auto with quiet]. Qed.

Lemma accounts_next_response c q : within accounts (next_response co budget c q).
Proof. apply within_next_response; solve [intros; auto with quiet]. Qed.

Lemma accounts_refuse_snapshot x : within accounts (refuse_snapshot co x).
Proof. apply within_refuse_snapshot; solve [intros; auto with quiet]. Qed.

Lemma accounts_expired : within accounts (_expired co).
Proof. apply within_expired; solve [intros; auto with quiet]. Qed.

Lemma accounts_reject v l : within accounts (_reject_provider_capabilities co v l).
Proof. apply within_reject; solve [intros; auto with quiet]. Qed.

Lemma accounts_charge v e : within accounts (_stop_for_budget_error co v e).
Proof. apply within_budget_stop; solve [intros; auto with quiet]. Qed.

#[local] Hint Resolve accounts_finalize accounts_stop_with accounts_settle_text accounts_settle_structured accounts_emit_text
  accounts_next_response accounts_refuse_snapshot accounts_expired accounts_reject accounts_charge : quiet.

Ltac counts_step := cbn beta zeta; lazymatch goal with
  | |- counts _ (mbind _ _) => apply counts_after; [solve [calm]|intros ?]
  | |- counts _ (dispatch_response _ _ _ _ _ _ _ _) => apply dispatch_counts
  | |- counts _ (match ?x with _ => _ end) => destruct x
  | |- counts _ _ => apply counts_quiet; solve [calm]
  end.

Lemma handle_response_counts z c q r : counts 0 (handle_response co budget z c q r).
Proof. unfold handle_response, note_usage. repeat counts_step. Qed.

Lemma iterate_counts z c q : counts 0 (iterate co budget z c q).
Proof.
  unfold iterate, note_iterations. repeat counts_step. apply handle_response_counts.
Qed.

Lemma loop_counts n z c q : counts 0 (loop co budget n z c q).
Proof.
  induction n as [|n IH]; cbn [loop]; repeat counts_step. apply counts_bind; [apply iterate_counts|]. intros [r|]; [|done].
  repeat counts_step.
Qed.

(** *** The run *)

Lemma bounded_quiet {A} (m : R A) w : within accounts m -> bounded w -> bounded (m w).1.
Proof. intros Hm Hb. destruct (Hm w) as [He _]. unfold bounded. by rewrite He. Qed.

(** A program that starts without any execution. *)
Definition caps {A} (m : R A) : Prop := forall w, executions (history w) = 0%nat -> bounded (m w).1.

Hypothesis room : 0 <= max_tool_calls budget.

Lemma caps_after {A B} (m : R A) (f : A -> R B) : within accounts m -> (forall a, caps (f a)) -> caps (m ≫= f).
Proof.
  intros Hm Hf w Hw. unfold mbind, M_bind. destruct (Hm w) as [He _]. destruct (m w) as [w' [a|e]]; cbn in *.
  - apply Hf. congruence.
  - unfold bounded. lia.
Qed.

Lemma caps_try {A} (m : R A) h : caps m -> (forall e, within accounts (h e)) -> caps (try_with m h).
Proof.
  intros Hm Hh w Hw. unfold try_with. specialize (Hm w Hw). destruct (m w) as [w' [a|e]]; cbn in *; [done|].
  by apply bounded_quiet.
Qed.

Lemma caps_deadline {A} (m : R A) : caps m -> caps (await_before_deadline co m).
Proof.
  intros Hm. apply caps_after; [calm|]. intros d. apply caps_after; [apply (accounts_plain co Z []); done|]. intros t.
  destruct (_ <=? 0); [intros w Hw; unfold bounded; cbn; lia|]. intros w Hw. specialize (Hm w Hw).
  destruct (m w) as [w' r]. cbn [fst] in Hm. unfold bounded in *. cbn [fst sync history]. by rewrite app_nil_r.
Qed.

Lemma run_body_caps z ms c q : caps (_run co budget z ms c q).
Proof.
  intros w Hw. unfold _run. match goal with |- bounded ((?m ≫= ?f) w).1 => change ((m ≫= f) w) with (f tt (m w).1) end.
  set (w1 := (modify _ w).1). assert (executions (history w1) = 0%nat) as H1 by exact Hw.
  assert (recorded w1) as Hr by (split; unfold bounded; rewrite H1; lia).
  assert (Z.of_nat (executions (history w1)) + Z.of_nat 0 <= max_tool_calls budget) as H0 by (rewrite H1; lia).
  clearbody w1. cbv beta zeta. unfold mbind, M_bind.
  assert (within accounts (emit co RUN_STARTED 0 [])) as Ha by calm. specialize (Ha w1).
  pose proof (accounts_recorded _ _ Ha Hr) as Hr'. destruct Ha as [He _].
  destruct (emit _ _ _ _ w1) as [w2 [[]|e]]; cbn [fst snd] in *; [|apply Hr'].
  destruct (loop_counts (Z.to_nat (max_iterations budget)) z c
    (_provider_requirements ms c q (negb (bool_decide (definitions co = [])))) w2 Hr' ltac:(by rewrite He)) as [Hb _].
  unfold try_with. destruct (loop _ _ _ _ _ _ w2) as [w3 [r|e]]; cbn [fst] in *; [done|].
  apply bounded_quiet; [calm|done].
Qed.

Lemma accounts_set_deadline d : within accounts (set_deadline d).
Proof. by apply accounts_modify. Qed.

Lemma accounts_deadline_result : within accounts (_deadline_result co).
Proof. unfold _deadline_result. calm. Qed.

Lemma run_caps z ms c q : caps (run co budget z ms c q).
Proof.
  unfold run. apply caps_after; [by apply (accounts_plain co Z [])|]. intros t.
  apply caps_after; [apply accounts_set_deadline|]. intros _.
  apply caps_try; [apply caps_deadline, run_body_caps|]. intros e. pose proof accounts_deadline_result. calm.
Qed.
End bounds.

(** ** Counting model calls *)

Definition asked (o : obs) : Prop := match o with Asked _ => True | _ => False end.
#[export] Instance asked_dec o : Decision (asked o).
Proof. destruct o; apply _. Defined.

Definition model_calls (tr : list obs) : nat := occurrences asked tr.

(** No call of the model. *)
Definition unasked (w w' : W) : Prop := (model_calls (history w') <= model_calls (history w))%nat.
#[export] Instance unasked_preorder : PreOrder unasked.
Proof. unfold unasked. split; [by intros w|]. intros w1 w2 w3. lia. Qed.

Section asks.
Context (co : collaborators) (budget : RuntimeBudget).

Lemma model_calls_quiet tr l : forallb (fun o => bool_decide (~ asked o)) l = true -> model_calls (tr ++ l) = model_calls tr.
Proof.
  intros Hl. unfold model_calls. rewrite occurrences_app. replace (occurrences asked l) with 0%nat; [lia|].
  unfold occurrences. induction l as [|o l IH]; [done|]. cbn in *. apply andb_true_iff in Hl as [Ho Hl].
  apply bool_decide_eq_true in Ho. rewrite decide_False by done. by apply IH.
Qed.

Lemma unasked_sync A o (f : nat -> result rexn A) : forallb (fun o => bool_decide (~ asked o)) o = true -> within unasked (sync co o f).
Proof. intros Ho w. unfold unasked. change (model_calls (history w ++ o) <= model_calls (history w))%nat. by rewrite model_calls_quiet. Qed.

Lemma unasked_list (P : obs -> bool) l : (forall o, P o = true -> ~ asked o) -> forallb P l = true ->
  forallb (fun o => bool_decide (~ asked o)) l = true.
Proof. rewrite !forallb_forall. intros HP Hl o Ho. apply bool_decide_eq_true_2. auto. Qed.

Lemma unasked_plain A o (f : nat -> result rexn A) : forallb plain_obs o = true -> within unasked (sync co o f).
Proof. intros Ho. apply unasked_sync. eapply unasked_list; [|exact Ho]. intros [] Hp Ha; by cbn in *. Qed.

Lemma unasked_execute c (f : nat -> result rexn (list (string * json))) : within unasked (await co [Executed c] f).
Proof. by apply unasked_sync. Qed.

Lemma unasked_record o : plain_obs o = true -> within unasked (record_event o : R unit).
Proof.
  intros Ho w. unfold unasked. change (model_calls (history w ++ [o]) <= model_calls (history w))%nat.
  rewrite model_calls_quiet; [done|]. by destruct o.
Qed.

Lemma unasked_modify f : within unasked (modify f).
Proof. intros w. by unfold unasked. Qed.

Lemma unasked_stop r c i l u e s b : within unasked (_stop co r c i l u e s b).
Proof.
  apply within_stop_task; [apply _| |intros; apply unasked_modify]. intros A o f Ho. apply unasked_sync.
  eapply unasked_list; [|exact Ho]. intros [] Hp Ha; by cbn in *.
Qed.
End asks.

#[export] Hint Resolve unasked_plain unasked_execute unasked_record unasked_modify unasked_stop : quiet.
#[export] Hint Extern 1 (within unasked (add_record _)) => apply unasked_modify : quiet.
#[export] Hint Extern 1 (within unasked (add_message _)) => apply unasked_modify : quiet.
#[export] Hint Extern 1 (within unasked (set_seen _)) => apply unasked_modify : quiet.
#[export] Hint Extern 1 (within unasked (set_cell _ _)) => apply unasked_modify : quiet.
#[export] Hint Extern 1 (within unasked (set_cells _)) => apply unasked_modify : quiet.
#[export] Hint Extern 1 (within unasked (expose _)) => apply unasked_modify : quiet.
#[export] Hint Extern 1 (within unasked (set_deadline _)) => apply unasked_modify : quiet.
#[export] Hint Extern 1 (within unasked (set_vars _)) => apply unasked_modify : quiet.
#[export] Hint Extern 1 (within unasked (set_final_vars _)) => apply unasked_modify : quiet.

Section paces.
Context (co : collaborators) (budget : RuntimeBudget).

Lemma costs_unasked n {A} (m : R A) : within unasked m -> costs asked n m.
Proof. intros Hm. apply (costs_weaken _ 0); [lia|]. apply costs_free. exact Hm. Qed.

Lemma costs_after n {A B} (m : R A) (f : A -> R B) : within unasked m -> (forall a, costs asked n (f a)) -> costs asked n (m ≫= f).
Proof. intros Hm Hf. apply (costs_bind _ 0 n); [by apply costs_unasked|done]. Qed.

Lemma costs_before n {A B} (m : R A) (f : A -> R B) : costs asked n m -> (forall a, costs asked 0 (f a)) -> costs asked n (m ≫= f).
Proof. intros Hm Hf. rewrite <- (Nat.add_0_r n). by apply costs_bind. Qed.

Lemma costs_guard n {A} (m : R A) h : costs asked n m -> (forall e, costs asked 0 (h e)) -> costs asked n (try_with m h).
Proof. intros Hm Hh. rewrite <- (Nat.add_0_r n). by apply costs_try. Qed.

Lemma unasked_stop_with v r e s : within unasked (stop co v r e s).
Proof. unfold stop. calm. Qed.
Lemma unasked_reject v l : within unasked (_reject_provider_capabilities co v l).
Proof. apply within_reject; solve [intros; auto with quiet]. Qed.
Lemma unasked_charge v e : within unasked (_stop_for_budget_error co v e).
Proof. apply within_budget_stop; solve [intros; auto with quiet]. Qed.
Lemma unasked_expired : within unasked (_expired co).
Proof. apply within_expired; solve [intros; auto with quiet]. Qed.
Lemma unasked_comply o : within unasked (comply co o).
Proof. apply within_comply; solve [intros; auto with quiet]. Qed.

#[local] Hint Resolve unasked_stop_with unasked_reject unasked_charge unasked_expired unasked_comply : quiet.

Lemma unasked_final_response r c x : within unasked (final_response co r c x).
Proof. unfold final_response. calm. Qed.
Lemma unasked_emit_reflection kind i data u : kind <> RUN_STOPPED -> within unasked (emit_reflection co kind i data u).
Proof. intros Hk. apply within_emit_reflection; [intros; by apply unasked_plain|done]. Qed.
#[local] Hint Extern 1 (within unasked (emit_reflection _ _ _ _ _)) => apply unasked_emit_reflection; discriminate : quiet.
Lemma unasked_finish draft chosen v o s n i : within unasked (_finish co draft chosen v o s n i).
Proof. unfold _finish. calm. Qed.
Lemma unasked_settle_structured c t b : within unasked (settle_structured co budget c t b).
Proof. apply within_settle_structured; solve [intros; auto with quiet]. Qed.
Lemma unasked_emit_text c t b : within unasked (emit_text co c t b).
Proof. apply within_emit_text; solve [intros; auto with quiet]. Qed.
Lemma unasked_refuse_snapshot x : within unasked (refuse_snapshot co x).
Proof. apply within_refuse_snapshot; solve [intros; auto with quiet]. Qed.
Lemma unasked_append r l : within unasked (_append_unexecuted_tool_results r l).
Proof. apply within_append_unexecuted; solve [intros; auto with quiet]. Qed.
Lemma unasked_prepare_batch engine z bs it : within unasked (_prepare_policy_batch co engine z bs it).
Proof. quiet_all within_prepare_batch. Qed.
Lemma unasked_execute_call x c current it : within unasked current -> within unasked (execute_call co budget x c current it).
Proof. intros Hc. apply within_execute_call; solve [intros; auto with quiet]. Qed.
Lemma unasked_legacy_approval c it : within unasked (legacy_approval co c it).
Proof. apply within_legacy_approval; solve [intros; auto with quiet]. Qed.

#[local] Hint Resolve unasked_final_response unasked_finish unasked_settle_structured unasked_emit_text unasked_refuse_snapshot
  unasked_append unasked_prepare_batch unasked_legacy_approval : quiet.

Lemma unasked_execute_prepared l it : within unasked (execute_prepared co budget l it).
Proof.
  induction l as [|[[c x]|] l IH]; cbn [execute_prepared]; [calm| |done]. apply within_bind; [apply _| |done].
  apply unasked_execute_call. calm.
Qed.

Lemma unasked_execute_legacy it n : forall i, within unasked (execute_legacy co budget i n it).
Proof.
  induction n as [|n IH]; intros i; cbn [execute_legacy]; [calm|].
  pose proof (fun c it => unasked_execute_call None c (cell i) it (within_cell unasked i)). calm.
Qed.

#[local] Hint Resolve unasked_execute_prepared unasked_execute_legacy : quiet.

Lemma costs_ask_model t z c q : costs asked 1 (ask_model co t z c q).
Proof. apply costs_after; [calm|]. intros h. apply costs_deadline. exact (costs_sync co asked [Asked _] _). Qed.

Ltac costs_step := cbn beta zeta; lazymatch goal with
  | |- costs _ _ (mbind _ _) => apply costs_after; [solve [calm]|intros ?]
  | |- costs _ _ (match ?x with _ => _ end) => destruct x
  | |- costs _ _ _ => apply costs_unasked; solve [calm]
  end.

Lemma costs_finalize r c q : costs asked 1 (_finalize co budget r c q).
Proof.
  unfold _finalize. repeat costs_step. apply costs_guard; [|intros e; repeat costs_step].
  apply costs_before; [apply costs_ask_model|]. intros x. repeat costs_step.
Qed.

Lemma costs_next_response c q : costs asked 1 (next_response co budget c q).
Proof.
  unfold next_response. repeat costs_step. apply costs_guard; [|intros e; repeat costs_step].
  apply costs_before; [apply costs_ask_model|]. intros x. repeat costs_step.
Qed.

(** The model calls of the reflection on an answer: a verdict and a revision. *)
Definition reflection_calls : nat := if Reflection.enabled (reflection_policy co) then 2 else 0.

Lemma costs_reflection_call st tl mt s ms cap c : costs asked 1 (reflection_call co st tl mt s ms cap c).
Proof.
  unfold reflection_call. repeat costs_step. apply costs_before; [exact (costs_sync co asked [Asked _] _)|].
  intros answer. repeat costs_step.
Qed.

Lemma costs_critique st tl mt rm draft i : costs asked 1 (critique co st tl mt rm draft i).
Proof. unfold critique. apply costs_before; [apply costs_reflection_call|]. intros x. repeat costs_step. Qed.

Lemma costs_reflect rm draft i ts mt : costs asked reflection_calls (reflect co rm draft i ts mt).
Proof.
  unfold reflect, reflection_calls. destruct (Reflection.enabled (reflection_policy co)); cbn [negb]; [|repeat costs_step]. repeat costs_step;
    (apply (costs_bind _ 1 1); [apply costs_critique|]); intros [s [[v o]|v]]; repeat costs_step;
    (apply costs_before; [apply costs_reflection_call|]); intros x; repeat costs_step.
Qed.

(** Only a response that ends the run is reflected on. *)
Lemma costs_settle_text (c : option ResponseContract) t (b : bool) :
  costs asked (match c with None => if b then 0 else reflection_calls | Some _ => 0 end) (settle_text co budget c t b).
Proof.
  unfold settle_text. apply costs_after; [calm|]. intros _. apply costs_before; [|intros text; apply costs_unasked; calm].
  destruct (nonempty t) as [d|], c as [c|]; try solve [apply costs_unasked; calm].
  destruct b; cbn [orb negb andb]; [apply costs_unasked; calm|].
  destruct (Reflection.enabled (reflection_policy co)); [|apply costs_unasked; calm]. repeat (apply costs_after; [solve [calm]|intros ?]).
  apply costs_before; [apply costs_reflect|]. intros result. repeat costs_step.
Qed.

(** [n] model calls when it goes on; when it does not, one more and those of a reflection. *)
Definition paces (n : nat) {A} (m : R (option A)) : Prop := forall w,
  (model_calls (history (m w).1) <= match (m w).2 with Ok None => n | _ => S n + reflection_calls end + model_calls (history w))%nat.

Lemma paces_some n {A} (m : R A) : costs asked (S n + reflection_calls) m -> paces n (Some <$> m).
Proof. intros Hm w. specialize (Hm w). unfold fmap, M_fmap, mbind, M_bind. by destruct (m w) as [w' [a|e]]. Qed.

Lemma paces_bind n k {A B} (m : R A) (f : A -> R (option B)) : costs asked n m -> (forall a, paces k (f a)) -> paces (n + k) (m ≫= f).
Proof.
  intros Hm Hf w. unfold mbind, M_bind. specialize (Hm w). unfold model_calls. destruct (m w) as [w' [a|e]]; cbn [fst snd] in *; [|lia].
  specialize (Hf a w'). unfold model_calls in Hf. destruct (f a w').2 as [[?|]|]; lia.
Qed.

Lemma paces_free n {A} (m : R (option A)) : within unasked m -> paces n m.
Proof. intros Hm w. specialize (Hm w). unfold unasked in Hm. destruct (m w).2 as [[?|]|]; lia. Qed.

Lemma paces_after n {A B} (m : R A) (f : A -> R (option B)) : within unasked m -> (forall a, paces n (f a)) -> paces n (m ≫= f).
Proof. intros Hm Hf. apply (paces_bind 0 n); [by apply costs_unasked|done]. Qed.

Ltac paces_step := cbn beta zeta; lazymatch goal with
  | |- paces _ (mbind _ _) => apply paces_after; [solve [calm]|intros ?]
  | |- paces _ (fmap _ (_finalize _ _ _ _ _)) => apply paces_some; apply (costs_weaken _ 1); [lia|apply costs_finalize]
  | |- paces _ (match ?x with _ => _ end) => destruct x
  | |- paces _ _ => apply paces_free; solve [calm]
  end.

(** Programs that end the run. *)
Definition finishes {A} (m : R (option A)) : Prop := forall w, (m w).2 <> Ok None.

Lemma finishes_some {A} (m : R A) : finishes (Some <$> m).
Proof. intros w. unfold fmap, M_fmap, mbind, M_bind. by destruct (m w) as [w' [a|e]]. Qed.

Lemma finishes_bind {A B} (m : R A) (f : A -> R (option B)) : (forall a, finishes (f a)) -> finishes (m ≫= f).
Proof. intros Hf w. unfold mbind, M_bind. destruct (m w) as [w' [a|e]]; [apply Hf|done]. Qed.

Lemma finishes_ret {A B} (a : A) (f : A -> R (option B)) : finishes (f a) -> finishes (mret a ≫= f).
Proof. intros Hf w. exact (Hf w). Qed.

Lemma costs_ret n {A B} (a : A) (f : A -> R B) : costs asked n (f a) -> costs asked n (mret a ≫= f).
Proof. intros Hf w. exact (Hf w). Qed.

Lemma paces_finishes {A} (m : R (option A)) : costs asked (S reflection_calls) m -> finishes m -> paces 0 m.
Proof. intros Hm He w. specialize (Hm w). specialize (He w). unfold model_calls. by destruct (m w).2 as [[a|]|e]. Qed.

Lemma handle_response_paces z c q r : paces 0 (handle_response co budget z c q r).
Proof.
  unfold handle_response, note_usage, dispatch_response, dispatch_calls. repeat paces_step.
  destruct (bool_decide (pr_calls r = [])), c as [c|]; cbn [negb];
    try (apply (paces_bind 0 0); [apply costs_settle_text|]; intros text; repeat paces_step).
  apply paces_finishes.
  - rewrite <- Nat.add_1_r. apply costs_bind; [apply (costs_settle_text None)|]. intros text.
    change (settle_structured co budget None text false) with (mret NoContract : R parsed). apply costs_ret.
    repeat costs_step. apply costs_before; [apply costs_finalize|]. intros res. repeat costs_step.
  - apply finishes_bind. intros text. change (settle_structured co budget None text false) with (mret NoContract : R parsed).
    apply finishes_ret, finishes_bind. intros _. apply finishes_bind. intros v. destruct (_ <? _); apply finishes_some.
Qed.

Lemma iterate_paces z c q : paces 1 (iterate co budget z c q).
Proof.
  unfold iterate, note_iterations. repeat paces_step.
  apply (paces_bind 1 0); [apply costs_next_response|]. intros [r|res]; [apply handle_response_paces|repeat paces_step].
Qed.

Lemma loop_asks n z c q : costs asked (S n + reflection_calls) (loop co budget n z c q).
Proof.
  induction n as [|n IH]; cbn [loop]; [apply (costs_weaken _ 1); [lia|apply costs_finalize]|]. apply costs_after; [calm|]. intros v.
  destruct (_ <? _); [|apply (costs_weaken _ 1); [lia|apply costs_finalize]].
  intros w. pose proof (iterate_paces z c q w) as Hi. unfold mbind, M_bind. unfold model_calls in Hi.
  destruct (iterate co budget z c q w) as [w' [[r|]|e]]; cbn [fst snd] in *; [cbn; lia| |lia].
  specialize (IH w'). lia.
Qed.

Lemma unasked_deadline_result : within unasked (_deadline_result co).
Proof. unfold _deadline_result. calm. Qed.
#[local] Hint Resolve unasked_deadline_result : quiet.

Lemma run_asks z ms c q : costs asked (S (Z.to_nat (max_iterations budget)) + reflection_calls) (run co budget z ms c q).
Proof.
  pose proof loop_asks as Hloop. unfold run, _run. repeat costs_step.
  apply costs_guard; [|intros e; repeat costs_step]. apply costs_deadline. repeat costs_step.
  apply costs_guard; [apply loop_asks|intros e; repeat costs_step].
Qed.
End paces.

(** ** Fuel *)

(** The local variables are untouched. *)
Definition same_vars (w w' : W) : Prop := vars (fields w') = vars (fields w).
#[export] Instance same_vars_preorder : PreOrder same_vars.
Proof. unfold same_vars. split; [by intros w|]. intros w1 w2 w3. congruence. Qed.

Lemma same_sync co A o (f : nat -> result rexn A) : within same_vars (sync co o f).
Proof. by intros w. Qed.
Lemma same_modify f : (forall s, vars (f s) = vars s) -> within same_vars (modify f).
Proof. intros Hf w. apply Hf. Qed.
Lemma same_record o : within same_vars (record_event o : R unit).
Proof. by intros w. Qed.
Lemma same_stop co r c i l u e s b : within same_vars (_stop co r c i l u e s b).
Proof. apply within_stop_task; [apply _|intros; apply same_sync|intros; by apply same_modify]. Qed.

#[export] Hint Resolve same_sync same_record same_stop : quiet.
#[export] Hint Extern 1 (within same_vars (await _ _ _)) => apply same_sync : quiet.
#[export] Hint Extern 1 (within same_vars (add_record _)) => apply same_modify; done : quiet.
#[export] Hint Extern 1 (within same_vars (add_message _)) => apply same_modify; done : quiet.
#[export] Hint Extern 1 (within same_vars (set_seen _)) => apply same_modify; done : quiet.
#[export] Hint Extern 1 (within same_vars (set_cell _ _)) => apply same_modify; done : quiet.
#[export] Hint Extern 1 (within same_vars (set_cells _)) => apply same_modify; done : quiet.
#[export] Hint Extern 1 (within same_vars (expose _)) => apply same_modify; done : quiet.
#[export] Hint Extern 1 (within same_vars (set_deadline _)) => apply same_modify; done : quiet.
#[export] Hint Extern 1 (within same_vars (set_final_vars _)) => apply same_modify; done : quiet.

Section fuel.
Context (co : collaborators) (budget : RuntimeBudget).

Lemma same_stop_with v r e s : within same_vars (stop co v r e s).
Proof. unfold stop. calm. Qed.
Lemma same_reject v l : within same_vars (_reject_provider_capabilities co v l).
Proof. apply within_reject; solve [intros; auto with quiet]. Qed.
Lemma same_charge v e : within same_vars (_stop_for_budget_error co v e).
Proof. apply within_budget_stop; solve [intros; auto with quiet]. Qed.
Lemma same_expired : within same_vars (_expired co).
Proof. apply within_expired; solve [intros; auto with quiet]. Qed.
Lemma same_comply o : within same_vars (comply co o).
Proof. apply within_comply; solve [intros; auto with quiet]. Qed.
Lemma same_finalize r c q : within same_vars (_finalize co budget r c q).
Proof. apply within_finalize; solve [intros; auto with quiet]. Qed.
Lemma same_next_response c q : within same_vars (next_response co budget c q).
Proof. apply within_next_response; solve [intros; auto with quiet]. Qed.
Lemma same_reflect rm draft i ts mt : within same_vars (reflect co rm draft i ts mt).
Proof. apply within_reflect; solve [intros; auto with quiet]. Qed.
Lemma same_refuse_snapshot x : within same_vars (refuse_snapshot co x).
Proof. apply within_refuse_snapshot; solve [intros; auto with quiet]. Qed.
Lemma same_append r l : within same_vars (_append_unexecuted_tool_results r l).
Proof. apply within_append_unexecuted; solve [intros; auto with quiet]. Qed.
Lemma same_prepare_batch engine z bs it : within same_vars (_prepare_policy_batch co engine z bs it).
Proof. quiet_all within_prepare_batch. Qed.
Lemma same_execute_call x c current it : within same_vars current -> within same_vars (execute_call co budget x c current it).
Proof. intros Hc. apply within_execute_call; solve [intros; auto with quiet]. Qed.
Lemma same_legacy_approval c it : within same_vars (legacy_approval co c it).
Proof. apply within_legacy_approval; solve [intros; auto with quiet]. Qed.

#[local] Hint Resolve same_stop_with same_reject same_charge same_expired same_comply same_finalize same_next_response same_reflect
  same_refuse_snapshot same_append same_prepare_batch same_legacy_approval : quiet.

Lemma same_execute_prepared l it : within same_vars (execute_prepared co budget l it).
Proof.
  induction l as [|[[c x]|] l IH]; cbn [execute_prepared]; [calm| |done]. apply within_bind; [apply _| |done].
  apply same_execute_call. calm.
Qed.

Lemma same_execute_legacy it n : forall i, within same_vars (execute_legacy co budget i n it).
Proof.
  induction n as [|n IH]; intros i; cbn [execute_legacy]; [calm|].
  pose proof (fun c it => same_execute_call None c (cell i) it (within_cell same_vars i)). calm.
Qed.

#[local] Hint Resolve same_execute_prepared same_execute_legacy : quiet.

(** Programs that run during pass [i], and stay in it. *)
Definition in_pass (i : Z) {A} (m : R A) : Prop := forall w,
  v_iterations (vars (fields w)) = i -> v_iterations (vars (fields (m w).1)) = i.

Lemma in_pass_same i {A} (m : R A) : within same_vars m -> in_pass i m.
Proof. intros Hm w Hi. specialize (Hm w). unfold same_vars in Hm. by rewrite Hm. Qed.

Lemma in_pass_bind i {A B} (m : R A) (f : A -> R B) : in_pass i m -> (forall a, in_pass i (f a)) -> in_pass i (m ≫= f).
Proof.
  intros Hm Hf w Hi. specialize (Hm w Hi). destruct (m w) as [w' [a|e]] eqn:E; cbn [fst] in Hm.
  - rewrite (bind_ok _ _ _ _ _ E). by apply Hf.
  - by rewrite (bind_err _ _ _ _ _ E).
Qed.

Lemma in_pass_get i {A} (f : locals -> R A) : (forall v, v_iterations v = i -> in_pass i (f v)) -> in_pass i (get vars ≫= f).
Proof. intros Hf w Hi. by apply Hf. Qed.

Lemma in_pass_set i v : v_iterations v = i -> in_pass i (set_vars v).
Proof. by intros Hv w _. Qed.

Ltac in_pass_step := cbn beta zeta; lazymatch goal with
  | |- in_pass _ (mbind _ (get vars)) => apply in_pass_get; intros ? ?
  | |- in_pass _ (mbind _ _) => apply in_pass_bind; [|intros ?]
  | |- in_pass _ (set_vars _) => apply in_pass_set; done
  | |- in_pass _ (match ?x with _ => _ end) => destruct x
  | |- in_pass _ _ => first [solve [auto] | apply in_pass_same; solve [calm]]
  end.

Lemma in_pass_settle_text i c t b : in_pass i (settle_text co budget c t b).
Proof. unfold settle_text. repeat in_pass_step. Qed.
Lemma in_pass_settle_structured i c t b : in_pass i (settle_structured co budget c t b).
Proof. unfold settle_structured. repeat in_pass_step. Qed.
Lemma in_pass_emit_text i c t b : in_pass i (emit_text co c t b).
Proof. unfold emit_text. destruct b; repeat in_pass_step. Qed.

#[local] Hint Resolve in_pass_settle_text in_pass_settle_structured in_pass_emit_text : core.

Lemma in_pass_handle i z c q r : in_pass i (handle_response co budget z c q r).
Proof. unfold handle_response, note_usage, dispatch_response, dispatch_calls. repeat in_pass_step. Qed.

(** A pass of the loop that goes on counts one iteration. *)
Lemma iterate_counts_pass z c q w : (iterate co budget z c q w).2 = Ok None ->
  v_iterations (vars (fields (iterate co budget z c q w).1)) = v_iterations (vars (fields w)) + 1.
Proof.
  set (i := v_iterations (vars (fields w))).
  assert (forall {A B} (m : R A) (f : A -> R B) (Q : result rexn B -> W -> Prop) w, within same_vars m ->
    (forall a w', vars (fields w') = vars (fields w) -> wp (f a) Q w') -> (forall e w', Q (Err e) w') -> wp (m ≫= f) Q w) as Hstep.
  { intros A B m f Q w0 Hm Hf He. apply wp_bind. unfold wp. specialize (Hm w0). destruct (m w0) as [w' [a|e]]; [by apply Hf|apply He]. }
  enough (wp (iterate co budget z c q) (fun r w' => r = Ok None -> v_iterations (vars (fields w')) = i + 1) w) as H by exact H.
  unfold iterate. apply wp_bind. unfold wp at 1, get. cbn [fst snd].
  assert (forall {A B} (m : R A) (g : A -> option B) (w : W), (forall a, g a <> None) ->
    wp (g <$> m) (fun r w' => r = Ok None -> v_iterations (vars (fields w')) = i + 1) w) as Hsome.
  { intros A B m g w0 Hg. apply wp_bind. unfold wp. destruct (m w0) as [w' [a|e]]; [|done]. cbn. intros [= Hn]. by destruct (Hg a). }
  apply Hstep; [calm| |done]. intros late w1 H1. destruct late; [by apply Hsome|].
  apply Hstep; [calm| |done]. intros names w2 H2. destruct (negb _); [by apply Hsome|]. cbv zeta.
  unfold wp. intros _. match goal with |- context [(set_vars ?v ≫= ?f) w2] => change ((set_vars v ≫= f) w2) with (f tt (set_vars v w2).1) end.
  set (w3 := (set_vars _ w2).1). assert (v_iterations (vars (fields w3)) = i + 1) as H3 by done. clearbody w3. cbv beta.
  match goal with |- v_iterations (vars (fields (?m w3).1)) = _ => enough (in_pass (i + 1) m) as Hp by exact (Hp w3 H3) end.
  unfold note_iterations. repeat in_pass_step. apply in_pass_handle.
Qed.

Definition left (w : W) : nat := Z.to_nat (max_iterations budget - v_iterations (vars (fields w))).

Lemma loop_enough n z c q : forall w, (left w <= n)%nat -> loop co budget n z c q w = loop co budget (left w) z c q w.
Proof.
  induction n as [|n IH]; intros w Hn; [by replace (left w) with 0%nat by lia|].
  destruct (left w) as [|k] eqn:Hk; cbn [loop];
    change ((get vars ≫= ?f) w) with (f (vars (fields w)) w); cbv beta; unfold left in Hk.
  - by rewrite (proj2 (Z.ltb_ge _ _)) by lia.
  - rewrite (proj2 (Z.ltb_lt _ _)) by lia. pose proof (iterate_counts_pass z c q w) as Hi.
    destruct (iterate co budget z c q w) as [w' [[r|]|e]] eqn:E; cbn [fst snd] in Hi;
      [by rewrite !(bind_ok _ _ _ _ _ E)| |by rewrite !(bind_err _ _ _ _ _ E)].
    rewrite !(bind_ok _ _ _ _ _ E). specialize (Hi eq_refl).
    assert (left w' = k) as Hk' by (unfold left in *; lia). rewrite IH by (unfold left in *; lia). by rewrite Hk'.
Qed.
End fuel.

(** C4. The loop ends: with at least as much fuel as there are iterations left, it behaves
    as the source's [while state.iterations < budget.max_iterations] - one pass and then
    the loop again with the same fuel, until the count reaches the budget - so the bound
    on the recursion cuts nothing. *)
Theorem loop_runs_to_its_end (co : collaborators) (budget : RuntimeBudget) (n : nat) (z : Z)
    (contract : option ResponseContract) (required : gset string) (w : world unit engine_state obs) :
  (Z.to_nat (max_iterations budget - v_iterations (vars (fields w))) <= n)%nat ->
  loop co budget n z contract required w =
  if v_iterations (vars (fields w)) <? max_iterations budget
  then match iterate co budget z contract required w with
       | (w', Ok None) => loop co budget n z contract required w'
       | (w', Ok (Some res)) => (w', Ok res)
       | (w', Err e) => (w', Err e)
       end
  else _finalize co budget ITERATION_BUDGET_EXHAUSTED contract required w.
Proof.
  intros Hn. rewrite (loop_enough co budget n) by done. destruct (Z.ltb_spec (v_iterations (vars (fields w))) (max_iterations budget)) as [Hlt|Hge].
  - destruct (left budget w) as [|k] eqn:Hk; [unfold left in Hk; lia|]. cbn [loop].
    change ((get vars ≫= ?f) w) with (f (vars (fields w)) w). cbv beta. rewrite (proj2 (Z.ltb_lt _ _) Hlt).
    pose proof (iterate_counts_pass co budget z contract required w) as Hi.
    destruct (iterate _ _ _ _ _ w) as [w' [[r|]|e]] eqn:E; cbn [fst snd] in Hi;
      [by rewrite (bind_ok _ _ _ _ _ E)| |by rewrite (bind_err _ _ _ _ _ E)].
    rewrite (bind_ok _ _ _ _ _ E). specialize (Hi eq_refl). unfold left in Hk.
    rewrite (loop_enough co budget n) by (unfold left; lia). f_equal. unfold left. lia.
  - by replace (left budget w) with 0%nat by (unfold left; lia).
Qed.

(** C2. A run that starts afresh executes at most [max_tool_calls] tool calls, and asks the
    model at most once per iteration, once for the final synthesis and, when reflection is
    enabled, twice for it: a verdict on the answer and its revision - whatever the model,
    the tools, the policy and the clock do. *)
Theorem budgets_respected (co : collaborators) (budget : RuntimeBudget) (z : Z) (ms : list Message)
    (contract : option ResponseContract) (caps : gset string) (w : world unit engine_state obs) :
  budget_valid budget = true -> history w = [] ->
  let tr := history (run co budget z ms contract caps w).1 in
  Z.of_nat (executions tr) <= max_tool_calls budget /\
     Z.of_nat (model_calls tr) <= max_iterations budget + 1 + (if Reflection.enabled (reflection_policy co) then 2 else 0).
Proof.
  intros Hb Hw tr. unfold budget_valid in Hb. rewrite !andb_true_iff, !Z.leb_le in Hb. split.
  - apply run_caps; [lia|by rewrite Hw].
  - pose proof (run_asks co budget z ms contract caps w) as Ha. rewrite Hw in Ha.
    unfold model_calls, tr, reflection_calls in *. destruct (Reflection.enabled _); cbn in Ha |- *; lia.
Qed.

(** ** The limits of reflection *)

(** What a program returns, when it returns. *)
Definition yields {A} (P : A -> Prop) (m : R A) : Prop := forall w a, (m w).2 = Ok a -> P a.

Lemma yields_ret {A} (P : A -> Prop) a : P a -> yields P (mret a : R A).
Proof. by intros Ha w b [= <-]. Qed.

Lemma yields_raise {A} (P : A -> Prop) e : yields P (raise e : R A).
Proof. by intros w b. Qed.

Lemma yields_bind {A B} (S : A -> Prop) (P : B -> Prop) (m : R A) (f : A -> R B) :
  yields S m -> (forall a, S a -> yields P (f a)) -> yields P (m ≫= f).
Proof.
  intros Hm Hf w b. unfold mbind, M_bind. specialize (Hm w). destruct (m w) as [w' [a|e]]; [|done]. cbn in Hm. eapply Hf, Hm. done.
Qed.

Lemma yields_then {A B} (P : B -> Prop) (m : R A) (f : A -> R B) : (forall a, yields P (f a)) -> yields P (m ≫= f).
Proof. intros Hf. apply (yields_bind (fun _ => True)); [done|auto]. Qed.

Section limits.
Context (co : collaborators).

Definition within_limits (p : ReflectionPolicy) (max_total : option Z) (u : TokenUsage) (cost : QArith_base.Q) : Prop :=
  usage_input u <= Reflection.max_input_tokens p /\ usage_output u <= Reflection.max_output_tokens p
  /\ (forall m, max_total = Some m -> total_tokens u <= m) /\ QArith_base.Qle cost (max_cost_usd p).

Definition answered (outcome : ReflectionOutcomeCode) : Prop := outcome = KEPT \/ outcome = REVISED.

Lemma call_tokens_limit p mt s e cap code : call_tokens p mt s e cap = inl code -> ~ answered code.
Proof. unfold call_tokens, answered. repeat case_match; try done; by intros [= <-] [?|?]. Qed.

Lemma charge_call_limits p mt e tokens text n u s s' broken : charge_call p mt e tokens text n u s = (s', broken) ->
  s_calls s' = s_calls s
  /\ match broken with Some code => ~ answered code | None => within_limits p mt (s_usage s') (s_cost s') end.
Proof.
  unfold charge_call, answered. destruct (negb _); [intros [= <- <-]; split; [done|by intros [?|?]]|]. cbv zeta.
  destruct (_ || _) eqn:Htokens; [intros [= <- <-]; split; [done|by intros [?|?]]|].
  destruct (ltb_q _ _) eqn:Hcost; [intros [= <- <-]; split; [done|by intros [?|?]]|].
  destruct (0 <? n)%nat; [intros [= <- <-]; split; [done|by intros [?|?]]|]. intros [= <- <-]. split; [done|].
  rewrite !orb_false_iff in Htokens. destruct Htokens as [[[_ Hi] Ho] Ht]. apply Z.ltb_ge in Hi, Ho.
  split; [exact Hi|]. split; [exact Ho|]. split.
  - intros m ->. by apply Z.ltb_ge in Ht.
  - apply QArith_base.Qle_bool_iff. unfold ltb_q in Hcost. by apply negb_false_iff in Hcost.
Qed.

Lemma yields_reflection_call st tl mt s ms cap c :
  yields (fun x => s_calls s <= s_calls x.1 <= s_calls s + 1
    /\ match x.2 with
       | inl code => ~ answered code
       | inr _ => s_calls x.1 = s_calls s + 1 /\ within_limits (reflection_policy co) mt (s_usage x.1) (s_cost x.1)
       end) (reflection_call co st tl mt s ms cap c).
Proof.
  unfold reflection_call. cbv zeta. apply yields_then. intros now.
  destruct (_ <=? 0); [apply yields_ret; split; [cbn; lia|by intros [?|?]]|].
  destruct (call_tokens _ _ _ _ _) as [code|tokens] eqn:Ht; [apply yields_ret; split; [cbn; lia|by eapply call_tokens_limit]|].
  apply yields_then. intros answer. apply yields_then. intros late.
  destruct late; [apply yields_ret; split; [cbn; lia|by intros [?|?]]|].
  destruct answer as [r|e].
  - destruct (charge_call _ _ _ _ _ _ _ _) as [s' [code|]] eqn:Hc; apply charge_call_limits in Hc as [Hn Hc]; cbn in Hn;
      apply yields_ret; cbn; (split; [lia|done]).
  - destruct e; try apply yields_raise; apply yields_ret; (split; [cbn; lia|by intros [?|?]]).
Qed.

Lemma yields_critique st tl mt rm draft i :
  yields (fun x => 0 <= s_calls x.1 <= 1
    /\ match x.2 with
       | inl (_, code) => ~ answered code
       | inr _ => s_calls x.1 = 1 /\ within_limits (reflection_policy co) mt (s_usage x.1) (s_cost x.1)
       end) (critique co st tl mt rm draft i).
Proof.
  unfold critique. eapply yields_bind; [apply yields_reflection_call|]. intros [s [code|r]] [Hn Hs]; cbn in Hn, Hs; [by apply yields_ret|].
  destruct (parse_verdict co _) as [v|]; [|apply yields_ret; split; [cbn; lia|by intros [?|?]]].
  destruct (negb _); [apply yields_ret; split; [cbn; lia|by intros [?|?]]|]. apply yields_then. intros _. apply yields_ret.
  cbn. split; [lia|done].
Qed.

(** What [reflect] guarantees of its result. *)
Definition bounded_reflection (mt : option Z) (draft : string) (res : ReflectionResult) : Prop :=
  reflection_result_valid res = true
  /\ (result_revisions res = 0 -> selected res = draft)
  /\ (result_outcome res = REVISED <-> result_revisions res = 1)
  /\ (answered (result_outcome res) -> within_limits (reflection_policy co) mt (result_usage res) (result_cost res)).

Lemma yields_finish mt draft chosen v o s n i : 0 <= s_calls s <= 2 -> 0 <= n <= 1 -> n <= s_calls s ->
  (n = 0 -> chosen = draft) -> (o = REVISED <-> n = 1) ->
  (answered o -> within_limits (reflection_policy co) mt (s_usage s) (s_cost s)) ->
  yields (bounded_reflection mt draft) (_finish co draft chosen v o s n i).
Proof.
  intros Hs Hn Hns Hdraft Ho Hlimits. unfold _finish. cbv zeta. apply yields_then. intros _. apply yields_ret.
  split; [|by split_and!]. unfold reflection_result_valid. cbn. rewrite !andb_true_iff, !bool_decide_eq_true.
  rewrite !elem_of_cons, elem_of_nil, Z.leb_le. lia.
Qed.

(** Reflection asks twice at most and counts its calls; it keeps the draft unless it revised
    it; an answer it stands by cost no more than its policy and the caller allow. *)
Theorem reflection_keeps_its_limits (rm : list Message) (draft : string) (i : Z) (ts mt : option Z) (w : W) (res : ReflectionResult) :
  Reflection.enabled (reflection_policy co) = true -> (reflect co rm draft i ts mt w).2 = Ok res -> bounded_reflection mt draft res.
Proof.
  intros He. revert w res. change (yields (bounded_reflection mt draft) (reflect co rm draft i ts mt)).
  unfold reflect. cbv zeta. rewrite He. cbn [negb]. destruct (match mt with Some m => m <? 0 | None => false end); [apply yields_raise|].
  apply yields_then. intros started. apply yields_then. intros _. eapply yields_bind; [apply yields_critique|].
  intros [s [[v code]|v]] [Hn Hs]; cbn in Hn, Hs.
  { apply yields_finish; try done; try lia. split; [intros ->; exfalso; apply Hs; by right|lia]. }
  destruct Hs as [Hone Hlimits]. destruct (_ || _); [by apply yields_finish; try done; lia|].
  eapply yields_bind; [apply yields_reflection_call|]. intros [s' [code|r]] [Hn' Hs']; cbn in Hn', Hs'.
  { apply yields_finish; try done; try lia. split; [intros ->; exfalso; apply Hs'; by right|lia]. }
  destruct Hs' as [Hn2 Hlimits']. destruct (string_eqb _ _); apply yields_finish; try done; lia.
Qed.
End limits.

(** ** A run that reflects on its answer *)

Definition reflecting_policy : ReflectionPolicy :=
  mkReflectionPolicy true "final-answer-quality" "1" 1 8192 2048 10000 (QArith_base.Qmake 1 20) (QArith_base.Qmake 1 1) (QArith_base.Qmake 2 1).

Definition reflecting_reply (t : nat) (rq : provider_request) : result rexn provider_response :=
  let answer text := Ok (mkProviderResponse (Some text) [] (mkTokens 10 5 None None) (Some "stop"%string) None None) in
  match ask_contract rq, ask_messages rq with
  | Some _, _ => answer "verdict"%string
  | None, m :: _ => if string_eqb (content m) _REVISION_SYSTEM then answer " done, and checked "%string else demo_reply t rq
  | None, [] => demo_reply t rq
  end.

Definition a_critique : json := JObj
  [("verdict", JStr "revise"); ("issue_codes", JArr [JStr "incomplete"]); ("evidence_refs", JArr [JStr "draft:L1"]);
   ("confidence", JFloat "0.8")]%string.

Definition reflecting_co : collaborators := {|
  clock := clock demo_co; interrupted := interrupted demo_co; timed_out := timed_out demo_co; sink := sink demo_co;
  capture_assistant_response := capture_assistant_response demo_co; result_recorder := result_recorder demo_co;
  compliance := compliance demo_co; model := reflecting_reply; capabilities := capabilities demo_co;
  routes_capabilities := routes_capabilities demo_co; reflection_policy := reflecting_policy;
  reflection_hash_key := "0123456789abcdef0123456789abcdef"%string; reflection_hash_scope := "alice"%string;
  parse_and_validate := fun _ _ => Ok a_critique; definitions := definitions demo_co; tool := tool demo_co;
  policy_request := policy_request demo_co; tool_requires_approval := tool_requires_approval demo_co;
  approval_hook := approval_hook demo_co; policy_engine := policy_engine demo_co; tool_authorizer := tool_authorizer demo_co;
  tamper := fun _ _ c => c; sha256_hex := sha256_hex demo_co; image_ok := image_ok demo_co |}.

Definition reflecting_run := run reflecting_co demo_budget 30 [user_message "hi"] None ∅ demo_start.

(** A response with a call, a draft, its critique and its revision, which is the answer. *)
Example reflecting_run_calls : reflection_policy_valid reflecting_policy = true
  /\ executions (history reflecting_run.1) = 1%nat /\ model_calls (history reflecting_run.1) = 4%nat
  /\ exists res, reflecting_run.2 = Ok res /\ r_content res = "done, and checked"%string.
Proof.
  split; [vm_compute; reflexivity|]. split; [vm_compute; reflexivity|]. split; [vm_compute; reflexivity|].
  eexists. split; vm_compute; reflexivity.
Qed.

Lemma budgets_respected_witness : Z.of_nat (executions (history reflecting_run.1)) <= max_tool_calls demo_budget
  /\ Z.of_nat (model_calls (history reflecting_run.1)) <= max_iterations demo_budget + 1 + 2.
Proof. exact (budgets_respected reflecting_co demo_budget 30 [user_message "hi"] None ∅ demo_start eq_refl eq_refl). Defined.

Lemma loop_runs_to_its_end_witness :
  loop demo_co demo_budget 7 30 None ∅ demo_start =
  if v_iterations (vars (fields demo_start)) <? max_iterations demo_budget
  then match iterate demo_co demo_budget 30 None ∅ demo_start with
       | (w', Ok None) => loop demo_co demo_budget 7 30 None ∅ w'
       | (w', Ok (Some res)) => (w', Ok res)
       | (w', Err e) => (w', Err e)
       end
  else _finalize demo_co demo_budget ITERATION_BUDGET_EXHAUSTED None ∅ demo_start.
Proof. exact (loop_runs_to_its_end demo_co demo_budget 7 30 None ∅ demo_start ltac:(vm_compute; lia)). Defined.
