(* ===== verification/EngineEnding.v ===== *)
(** * How a run ends

    However the loop is left - with a result, by an exception, by the deadline or by
    the cancellation of its task - at most one terminal event is emitted, and a result
    that the run returns is the one that event announced. The terminal state is written
    once, by the first [_stop]; every later one repeats it. *)

From Stdlib Require Import ZArith Lia String Ascii.
From stdpp Require Import base gmap strings list relations.
From S2P Require Import Prelude Strings Durable Json JsonText BudgetedProvider Policy Authorization Engine EngineProofs.
Open Scope Z_scope.

#[local] Abbreviation W := (world unit engine_state obs).
#[local] Abbreviation R := (M unit engine_state obs rexn).

(** The terminal events of a trace. *)
Definition ending_of (o : obs) : option AgentEvent :=
  match o with Emitted e => if bool_decide (ev_kind e = RUN_STOPPED) then Some e else None | _ => None end.
Definition endings (tr : list obs) : list AgentEvent := omap ending_of tr.

(** The terminal event of a state. *)
Definition ending_event (reason : StopReason) (error : option string) (iterations : Z) (u : TokenUsage) : AgentEvent :=
  mkEvent RUN_STOPPED iterations
    (event_data RUN_STOPPED [("reason", JStr (stop_value reason)); ("error", opt_json error)]%string u) u.

Definition state_ending (d : deadline_state) : AgentEvent :=
  ending_event (default STOP_ERROR (terminal_reason d)) (terminal_error d) (ds_iterations d) (default no_usage (ds_usage d)).

(** What no later step changes once the terminal state is written. *)
Definition frozen (d : deadline_state) :=
  (terminal_started d, terminal_reason d, terminal_error d, ds_content d, ds_iterations d, ds_usage d).

Definition ended_once (w : W) : Prop :=
  let d := dstate (fields w) in
  if terminal_started d
  then is_Some (terminal_reason d) /\ is_Some (ds_usage d) /\ is_Some (terminal_task d)
       /\ (endings (history w) = [] \/ endings (history w) = [state_ending d])
       /\ (terminal_persisted d = true \/ terminal_task d = Some (Ok tt) -> endings (history w) = [state_ending d])
  else endings (history w) = [] /\ terminal_persisted d = false.

Definition ongoing (w : W) : Prop := terminal_started (dstate (fields w)) = false.

(** The result tells what the terminal state holds, and without an error it was
    announced. *)
Definition agrees (d : deadline_state) (res : AgentResult) : Prop :=
  (terminal_started d = true ->
     r_iterations res = ds_iterations d /\ terminal_reason d = Some (r_reason res) /\ default no_usage (ds_usage d) = r_usage res)
  /\ (r_error res = None -> terminal_started d = true /\ terminal_persisted d = true /\ terminal_error d = None).

(** Steps that leave the terminal state and the terminal events alone, and steps that
    keep them consistent. *)
Definition untouched (w w' : W) : Prop :=
  dstate (fields w') = dstate (fields w) /\ endings (history w') = endings (history w).
#[export] Instance untouched_preorder : PreOrder untouched.
Proof. split; [by intros w; split|]. intros w1 w2 w3 [H1 H2] [H3 H4]. split; congruence. Qed.

Definition settles (w w' : W) : Prop := ended_once w ->
  ended_once w' /\ (terminal_started (dstate (fields w)) = true -> frozen (dstate (fields w')) = frozen (dstate (fields w))).
#[export] Instance settles_preorder : PreOrder settles.
Proof.
  split; [by intros w|]. intros w1 w2 w3 H1 H2 Hw. destruct (H1 Hw) as [Hw2 F1]. destruct (H2 Hw2) as [Hw3 F2]. split; [done|].
  intros Hs. specialize (F1 Hs). rewrite <- F1. apply F2. unfold frozen in F1. congruence.
Qed.

Lemma untouched_once w w' : untouched w w' -> ended_once w -> ended_once w'.
Proof. unfold ended_once. intros [Hd He]. by rewrite Hd, He. Qed.

Lemma untouched_settles w w' : untouched w w' -> settles w w'.
Proof. intros Hu Hw. split; [by eapply untouched_once|]. destruct Hu as [Hd _]. by rewrite Hd. Qed.

Lemma endings_app tr l : endings (tr ++ l) = endings tr ++ endings l.
Proof. apply omap_app. Qed.

Lemma endings_none l : forallb (fun o => bool_decide (ending_of o = None)) l = true -> endings l = [].
Proof.
  induction l as [|o l IH]; [done|]. cbn. intros [Ho Hl]%andb_true_iff. apply bool_decide_eq_true in Ho. rewrite Ho. by apply IH.
Qed.

Lemma endings_plain l : forallb plain_obs l = true -> endings l = [].
Proof.
  intros Hl. apply endings_none. rewrite forallb_forall in Hl |- *. intros o Ho. apply bool_decide_eq_true. specialize (Hl o Ho).
  destruct o; cbn in *; try done. by destruct (bool_decide _).
Qed.

Section untouched.
Context (co : collaborators) (budget : RuntimeBudget).

Lemma untouched_plain A o (f : nat -> result rexn A) : forallb plain_obs o = true -> within untouched (sync co o f).
Proof.
  intros Ho w. split; [done|]. change (endings (history w ++ o) = endings (history w)).
  by rewrite endings_app, (endings_plain o), app_nil_r.
Qed.

Lemma untouched_observe A o (f : nat -> result rexn A) : ending_of o = None -> within untouched (await co [o] f).
Proof.
  intros Ho w. split; [done|]. change (endings (history w ++ [o]) = endings (history w)).
  rewrite endings_app. cbn. by rewrite Ho, app_nil_r.
Qed.

Lemma untouched_record o : plain_obs o = true -> within untouched (record_event o : R unit).
Proof.
  intros Ho w. split; [done|]. change (endings (history w ++ [o]) = endings (history w)).
  rewrite endings_app, (endings_plain [o]), app_nil_r; [done|]. cbn. by rewrite Ho.
Qed.

Lemma untouched_modify f : (forall s, dstate (f s) = dstate s) -> within untouched (modify f).
Proof. intros Hf w. by split; [apply Hf|]. Qed.

Lemma settles_all {A} (m : R A) : within untouched m -> within settles m.
Proof. intros Hm w. apply untouched_settles, Hm. Qed.
End untouched.

#[export] Hint Resolve untouched_plain untouched_record : quiet.
#[export] Hint Extern 1 (within untouched (await _ [_] _)) => apply untouched_observe; reflexivity : quiet.
#[export] Hint Extern 1 (within untouched (add_record _)) => apply untouched_modify; done : quiet.
#[export] Hint Extern 1 (within untouched (add_message _)) => apply untouched_modify; done : quiet.
#[export] Hint Extern 1 (within untouched (set_seen _)) => apply untouched_modify; done : quiet.
#[export] Hint Extern 1 (within untouched (set_cell _ _)) => apply untouched_modify; done : quiet.
#[export] Hint Extern 1 (within untouched (set_cells _)) => apply untouched_modify; done : quiet.
#[export] Hint Extern 1 (within untouched (expose _)) => apply untouched_modify; done : quiet.
#[export] Hint Extern 1 (within untouched (set_vars _)) => apply untouched_modify; done : quiet.
#[export] Hint Extern 1 (within untouched (set_final_vars _)) => apply untouched_modify; done : quiet.
#[export] Hint Extern 5 (within settles _) => apply settles_all : quiet.

(** ** Writing the terminal state *)

(** Steps that only read or write the fields. *)
Ltac step := repeat (first
  [ match goal with |- context [(get ?g ≫= ?f) ?w] => change ((get g ≫= f) w) with (f (g (fields w)) w) end
  | match goal with |- context [(set_deadline ?d ≫= ?f) ?w] => change ((set_deadline d ≫= f) w) with (f tt (set_deadline d w).1) end
  | match goal with |- context [(mret ?a ≫= ?f) ?w] => change ((mret a ≫= f) w) with (f a w) end ]; cbv beta).

Section stop.
Context (co : collaborators).

(** The terminal task: the event follows the record of the result. *)
Lemma persist_spec reason content it u error rec w : endings (history w) = [] -> terminal_persisted (dstate (fields w)) = false ->
  let r := persist_terminal co reason content it u error rec w in
  let d := dstate (fields w) in let d' := dstate (fields r.1) in let e := ending_event reason error it u in
  frozen d' = frozen d /\ terminal_task d' = terminal_task d
  /\ (endings (history r.1) = [] \/ endings (history r.1) = [e])
  /\ (terminal_persisted d' = true \/ r.2 = Ok tt -> endings (history r.1) = [e]).
Proof.
  intros Hw Hp. unfold persist_terminal.
  set (c := match capture_assistant_response co with Some f => _ | None => _ end).
  set (m := match result_recorder co with Some f => _ | None => _ end). cbv zeta. 
  assert (within untouched c) as Hc.
  { unfold c. destruct (capture_assistant_response co) as [f|]; [by apply untouched_plain|by apply within_ret, _]. }
  assert (within untouched m) as Hm'.
  { unfold m. destruct (result_recorder co) as [f|]; [|by apply within_ret, _]. destruct rec; [|by apply within_ret, _].
    intros w'. split; [done|]. change (endings (history w' ++ [Recorded content]) = endings (history w')).
    by rewrite endings_app, app_nil_r. }
  clearbody c m. destruct (Hc w) as [Hd0 He0]. destruct (c w) as [w0 [[]|ex]] eqn:E0; cbn [fst] in Hd0, He0;
    [rewrite (bind_ok _ _ _ _ _ E0)|rewrite (bind_err _ _ _ _ _ E0); cbn -[endings]; rewrite Hd0, He0, Hw, Hp; split; [done|]; split; [done|];
       split; [by left|by intros [?|?]]].
  rewrite <- Hd0, <- He0 in *. clear w Hc Hd0 He0 E0 c. rename w0 into w, Hm' into Hm.
  destruct (Hm w) as [Hd He]. destruct (m w) as [w1 [[]|ex]] eqn:E; cbn [fst] in Hd, He;
    [rewrite (bind_ok _ _ _ _ _ E)|rewrite (bind_err _ _ _ _ _ E)].
  - unfold _emit. rewrite bool_decide_eq_true_2 by done. fold (ending_event reason error it u). set (e := ending_event reason error it u).
    assert (endings (history w1 ++ [Emitted e]) = [e]) as Hend by by rewrite endings_app, He, Hw.
    unfold mbind, M_bind, sync. cbn -[endings]. destruct (sink co (ticks w1) e) as [[]|ex]; cbn -[endings]; rewrite Hd, Hend; auto 10.
  - cbn -[endings]. rewrite Hd, He, Hw, Hp. split; [done|]. split; [done|]. split; [by left|]. by intros [?|?].
Qed.

(** What [_stop] leaves, started before or not. *)
Definition stopped_by (reason : StopReason) (it : Z) (u : TokenUsage) (error : option string) (d d' : deadline_state) : Prop :=
  (terminal_started d = true -> frozen d' = frozen d)
  /\ (terminal_started d = false -> terminal_started d' = true ->
        terminal_reason d' = Some reason /\ ds_iterations d' = it /\ ds_usage d' = Some u /\ terminal_error d' = error).

(** The caller waits for the terminal task, and reports. *)
Lemma stop_tail o res w : ended_once w -> terminal_started (dstate (fields w)) = true ->
  terminal_task (dstate (fields w)) = Some o ->
  let r := ((_ ← await co [] (fun _ => o); d ← get dstate; _ ← set_deadline (set_persisted d); mret res) : R AgentResult) w in
  ended_once r.1 /\ frozen (dstate (fields r.1)) = frozen (dstate (fields w))
  /\ forall res', r.2 = Ok res' -> res' = res /\ terminal_persisted (dstate (fields r.1)) = true.
Proof.
  intros Hw Hs Ho. cbv zeta. assert (within untouched (await co [] (fun _ => o))) as Hm by by apply untouched_plain.
  pose proof (untouched_once _ _ (Hm w) Hw) as Hw1. destruct (Hm w) as [Hd _].
  destruct (await co [] (fun _ => o) w) as [w1 [[]|ex]] eqn:E; cbn [fst] in Hd, Hw1;
    [rewrite (bind_ok _ _ _ _ _ E)|rewrite (bind_err _ _ _ _ _ E)]; [|cbn [fst snd]; by rewrite Hd].
  step. cbn -[endings frozen ended_once].
  assert (o = Ok tt) as ->. { unfold await, sync in E. destruct (interrupted _ _), o as [[]|]; by inversion E. }
  rewrite <- Hd in Hs, Ho |- *. split; [|split; [done|]].
  - unfold ended_once in *. cbn -[endings]. rewrite Hs in *. destruct Hw1 as (? & ? & ? & He & Hp).
    change (state_ending (set_persisted (dstate (fields w1)))) with (state_ending (dstate (fields w1))). rewrite Ho in *. auto 10.
  - by intros res' [= <-].
Qed.

Lemma stop_spec reason content it calls u error structured rec w : ended_once w ->
  let r := _stop co reason content it calls u error structured rec w in
  let d' := dstate (fields r.1) in
  ended_once r.1 /\ stopped_by reason it u error (dstate (fields w)) d'
  /\ forall res, r.2 = Ok res -> agrees d' res.
Proof.
  intros Hw. unfold _stop. assert (within untouched (enforce_output co content)) as Hm by by apply within_enforce_output; auto with quiet.
  pose proof (untouched_once _ _ (Hm w) Hw) as Hw1. destruct (Hm w) as [Hd _].
  destruct (enforce_output co content w) as [w1 [c1|ex]] eqn:E; cbn [fst] in Hd, Hw1;
    [rewrite (bind_ok _ _ _ _ _ E)|rewrite (bind_err _ _ _ _ _ E)]; [|cbn [fst snd]; rewrite Hd; split; [done|]; split; [split; congruence|done]].
  rewrite <- Hd. clear w Hw Hm Hd E. rename w1 into w, Hw1 into Hw.
  step. cbv zeta. destruct (terminal_started (dstate (fields w))) eqn:Hs.
  - pose proof Hw as Hw'. unfold ended_once in Hw'. rewrite Hs in Hw'. destruct Hw' as ([reason0 Hr] & [u0 Hu] & [o Ho] & _).
    rewrite Ho, Hr, Hu. cbn [run_terminal_task default].
    step.
    edestruct (stop_tail o) as (H1 & H2 & H3); [exact Hw|exact Hs|exact Ho|]. split; [exact H1|]. split; [by split; [|congruence]|].
    intros res Hres. destruct (H3 res Hres) as [-> Hpers]. injection H2 as F1 F2 F3 F4 F5 F6. split; cbn; [|by intros Herr; rewrite F1, F3].
    intros _. rewrite F2, F5, F6. by rewrite Hr, Hu.
  - unfold ended_once in Hw. rewrite Hs in Hw. destruct Hw as [He Hp].
    set (d1 := start_terminal _ _ _ _ _ _ _ _).
    step. set (w1 := (set_deadline d1 w).1).
    pose proof (persist_spec reason c1 it u error rec w1 He Hp) as (F1 & F2 & F3 & F4).
    unfold run_terminal_task.
    destruct (persist_terminal _ _ _ _ _ _ _ w1) as [w2 o] eqn:E2. cbn [fst snd] in *.
    set (w3 := (set_deadline (set_task o (dstate (fields w2))) w2).1).
    erewrite (bind_ok _ _ _ w3 o) by by rewrite E2.
    assert (frozen (dstate (fields w3)) = frozen d1) as F by exact F1.
    assert (endings (history w3) = endings (history w2)) as Eh by done.
    assert (terminal_persisted (dstate (fields w3)) = terminal_persisted (dstate (fields w2))) as Ep by done.
    assert (terminal_task (dstate (fields w3)) = Some o) as Et by done. rewrite <- Eh, <- Ep in *. clearbody w3.
    assert (state_ending (dstate (fields w3)) = ending_event reason error it u) as Fe.
    { injection F as G1 G2 G3 G4 G5 G6. unfold state_ending. by rewrite G2, G3, G5, G6. }
    assert (ended_once w3) as Hw3.
    { injection F as G1 G2 G3 G4 G5 G6. unfold ended_once. rewrite G1, G2, G6, Fe, Et.
      split; [by eexists|]. split; [by eexists|]. split; [by eexists|]. split; [done|].
      intros [Hp'|[= ->]]; [apply F4; by left|apply F4; by right]. }
    injection F as G1 G2 G3 G4 G5 G6.
    edestruct (stop_tail o) as (H1 & H2 & H3); [exact Hw3|exact G1|exact Et|]. split; [exact H1|].
    injection H2 as K1 K2 K3 K4 K5 K6. rewrite G2 in K2. rewrite G3 in K3. rewrite G5 in K5. rewrite G6 in K6. split.
    + split; [by rewrite Hs|]. intros _ _. done.
    + intros res Hres. destruct (H3 res Hres) as [-> Hpers]. rewrite G1 in K1. split; cbn.
      * intros _. by rewrite K2, K5, K6.
      * intros ->. by rewrite K1, K3.
Qed.
End stop.

(** ** Programs that may end the run *)

(** [closes]: from any consistent state, every value it returns ends the run. [ends]:
    as long as the run goes on, a value that does not end it leaves it going on. *)
Definition closes {A} (P : A -> option AgentResult) (m : R A) : Prop := forall w, ended_once w ->
  ended_once (m w).1
  /\ forall a, (m w).2 = Ok a -> exists res, P a = Some res /\ agrees (dstate (fields (m w).1)) res.

Definition ends {A} (P : A -> option AgentResult) (m : R A) : Prop := forall w, ended_once w -> ongoing w ->
  ended_once (m w).1
  /\ forall a, (m w).2 = Ok a -> match P a with None => ongoing (m w).1 | Some res => agrees (dstate (fields (m w).1)) res end.

Section ends.
Context (co : collaborators) (budget : RuntimeBudget).

Lemma closes_ends {A} (P : A -> option AgentResult) (m : R A) : closes P m -> ends P m.
Proof. intros Hm w Hw _. destruct (Hm w Hw) as [Hk Ha]. split; [done|]. intros a Ha'. by destruct (Ha a Ha') as (res & -> & ?). Qed.

Lemma closes_stop reason c i l u e s b : closes Some (_stop co reason c i l u e s b).
Proof. intros w Hw. destruct (stop_spec co reason c i l u e s b w Hw) as (Hk & _ & Ha). split; [done|]. eauto. Qed.

Lemma closes_raise {A} (P : A -> option AgentResult) e : closes P (raise e).
Proof. by intros w Hw. Qed.

Lemma closes_after {A B} (P : B -> option AgentResult) (m : R A) (f : A -> R B) :
  within untouched m -> (forall a, closes P (f a)) -> closes P (m ≫= f).
Proof.
  intros Hm Hf w Hw. pose proof (untouched_once _ _ (Hm w) Hw) as Hw'. destruct (m w) as [w' [a|e]] eqn:E.
  - rewrite (bind_ok _ _ _ _ _ E). by apply Hf.
  - by rewrite (bind_err _ _ _ _ _ E).
Qed.

Lemma closes_fmap {A B} (Q : A -> option AgentResult) (P : B -> option AgentResult) (g : A -> B) (m : R A) :
  closes Q m -> (forall a, P (g a) = Q a) -> closes P (g <$> m).
Proof.
  intros Hm Hg w Hw. destruct (Hm w Hw) as [Hk Ha]. unfold fmap, M_fmap. destruct (m w) as [w' [a|e]] eqn:E.
  - rewrite (bind_ok _ _ _ _ _ E). split; [done|]. intros b [= <-]. rewrite Hg. by apply Ha.
  - by rewrite (bind_err _ _ _ _ _ E).
Qed.

Lemma ends_ret {A} (P : A -> option AgentResult) a : P a = None -> ends P (mret a).
Proof. intros Ha w Hw Ho. split; [done|]. intros a' [= <-]. by rewrite Ha. Qed.

Lemma ends_after {A B} (P : B -> option AgentResult) (m : R A) (f : A -> R B) :
  within untouched m -> (forall a, ends P (f a)) -> ends P (m ≫= f).
Proof.
  intros Hm Hf w Hw Ho. pose proof (untouched_once _ _ (Hm w) Hw) as Hw'. destruct (Hm w) as [Hd _].
  destruct (m w) as [w' [a|e]] eqn:E; cbn [fst] in *.
  - rewrite (bind_ok _ _ _ _ _ E). apply Hf; [done|]. unfold ongoing. by rewrite Hd.
  - by rewrite (bind_err _ _ _ _ _ E).
Qed.

Lemma ends_bind {A B} (Q : A -> option AgentResult) (P : B -> option AgentResult) (m : R A) (f : A -> R B) :
  ends Q m -> (forall a, Q a = None -> ends P (f a)) ->
  (forall a res, Q a = Some res -> exists b, f a = mret b /\ P b = Some res) -> ends P (m ≫= f).
Proof.
  intros Hm Hf Hr w Hw Ho. destruct (Hm w Hw Ho) as [Hk Ha]. destruct (m w) as [w' [a|e]] eqn:E; cbn [fst snd] in *.
  - rewrite (bind_ok _ _ _ _ _ E). specialize (Ha a eq_refl). destruct (Q a) as [res|] eqn:HQ; [|by apply Hf].
    destruct (Hr a res HQ) as (b & -> & Hb). split; [done|]. intros b' [= <-]. by rewrite Hb.
  - by rewrite (bind_err _ _ _ _ _ E).
Qed.

Lemma ends_fmap {A B} (Q : A -> option AgentResult) (P : B -> option AgentResult) (g : A -> B) (m : R A) :
  ends Q m -> (forall a, P (g a) = Q a) -> ends P (g <$> m).
Proof.
  intros Hm Hg. apply (ends_bind Q); [done| |].
  - intros a Ha. apply ends_ret. by rewrite Hg.
  - intros a res Ha. exists (g a). by rewrite Hg.
Qed.

Lemma ends_try {A} (P : A -> option AgentResult) (m : R A) h : ends P m -> (forall e, closes P (h e)) -> ends P (try_with m h).
Proof.
  intros Hm Hh w Hw Ho. unfold try_with. destruct (Hm w Hw Ho) as [Hk Ha]. destruct (m w) as [w' [a|e]]; [done|].
  destruct (Hh e w' Hk) as [Hk' Ha']. split; [done|]. intros a E. by destruct (Ha' a E) as (res & -> & ?).
Qed.

Lemma ends_progress {A} (P : A -> option AgentResult) n u (f : unit -> R A) : ends P (f tt) ->
  ends P (d ← get dstate; set_deadline (set_progress (n d) (u d) d) ≫= f).
Proof.
  intros Hf w Hw Ho. step. unfold ongoing in *. apply Hf; [|done]. unfold ended_once in *. cbn -[endings]. by rewrite Ho in *.
Qed.

Lemma closes_stop_with v r e s : closes Some (stop co v r e s).
Proof. apply closes_after; [calm|]. intros calls. apply closes_stop. Qed.

Lemma closes_reject v l : closes Some (_reject_provider_capabilities co v l).
Proof. apply closes_after; [calm|]. intros _. apply closes_stop_with. Qed.

Lemma closes_charge v e : closes Some (_stop_for_budget_error co v e).
Proof. apply closes_after; [calm|]. intros _. apply closes_stop_with. Qed.

(** *** The parts of the loop *)

Lemma untouched_expired : within untouched (_expired co).
Proof. apply within_expired; solve [intros; auto with quiet]. Qed.
Lemma untouched_comply o : within untouched (comply co o).
Proof. apply within_comply; solve [intros; auto with quiet]. Qed.
Lemma untouched_ask_model t z c q : within untouched (ask_model co t z c q).
Proof. apply within_ask_model; solve [intros; auto with quiet]. Qed.
Lemma untouched_settle_text c t b : within untouched (settle_text co budget c t b).
Proof. apply within_settle_text; solve [intros; auto with quiet]. Qed.
Lemma untouched_emit_text c t b : within untouched (emit_text co c t b).
Proof. apply within_emit_text; solve [intros; auto with quiet]. Qed.
Lemma untouched_append r l : within untouched (_append_unexecuted_tool_results r l).
Proof. apply within_append_unexecuted; solve [intros; auto with quiet]. Qed.
Lemma untouched_prepare_batch engine z bs it : within untouched (_prepare_policy_batch co engine z bs it).
Proof. quiet_all within_prepare_batch. Qed.
Lemma untouched_legacy_approval c it : within untouched (legacy_approval co c it).
Proof. apply within_legacy_approval; solve [intros; auto with quiet]. Qed.
Lemma untouched_record_denial i n it code h : within untouched (_record_denial co i n it code h).
Proof. unfold _record_denial. calm. Qed.
Lemma untouched_policy_failure i n it code h : within untouched (_emit_policy_failure co i n it code h).
Proof. unfold _emit_policy_failure. calm. Qed.

#[local] Hint Resolve untouched_expired untouched_comply untouched_ask_model untouched_settle_text untouched_emit_text untouched_append
  untouched_prepare_batch untouched_legacy_approval untouched_record_denial untouched_policy_failure : quiet.

Lemma untouched_execute_call x c current it : within untouched current -> within untouched (execute_call co budget x c current it).
Proof. intros Hc. apply within_execute_call; solve [intros; auto with quiet]. Qed.

Lemma untouched_execute_prepared l it : within untouched (execute_prepared co budget l it).
Proof.
  induction l as [|[[c x]|] l IH]; cbn [execute_prepared]; [calm| |done]. apply within_bind; [apply _| |done].
  apply untouched_execute_call. calm.
Qed.

Lemma untouched_execute_legacy it n : forall i, within untouched (execute_legacy co budget i n it).
Proof.
  induction n as [|n IH]; intros i; cbn [execute_legacy]; [calm|].
  pose proof (fun c it => untouched_execute_call None c (cell i) it (within_cell untouched i)). calm.
Qed.

#[local] Hint Resolve untouched_execute_prepared untouched_execute_legacy : quiet.

Ltac closes_step := cbn beta zeta; lazymatch goal with
  | |- closes _ (mbind _ _) => apply closes_after; [solve [calm]|intros ?]
  | |- closes _ (raise _) => apply closes_raise
  | |- closes _ (stop _ _ _ _ _) => apply closes_stop_with
  | |- closes _ (_stop_for_budget_error _ _ _) => apply closes_charge
  | |- closes _ (_reject_provider_capabilities _ _ _) => apply closes_reject
  | |- closes _ (fmap _ _) => apply (closes_fmap Some); [|done]
  | |- closes _ (match ?x with _ => _ end) => destruct x
  end.

Ltac ends_step := cbn beta zeta; lazymatch goal with
  | |- ends _ (mbind _ _) => apply ends_after; [solve [calm]|intros ?]
  | |- ends _ (mret _) => apply ends_ret; reflexivity
  | |- ends _ (raise _) => apply closes_ends, closes_raise
  | |- ends _ (try_with _ _) => apply ends_try; [|intros ?; solve [repeat closes_step]]
  | |- ends _ (match ?x with _ => _ end) => destruct x
  | |- ends _ _ => apply closes_ends; solve [repeat closes_step]
  end.

Lemma final_response_ends r c x : ends Some (final_response co r c x).
Proof. unfold final_response. repeat ends_step. Qed.

Lemma finalize_ends r c q : ends Some (_finalize co budget r c q).
Proof. unfold _finalize. repeat ends_step. apply final_response_ends. Qed.

Definition response_end (x : provider_response + AgentResult) : option AgentResult :=
  match x with inl _ => None | inr res => Some res end.

Lemma next_response_ends c q : ends response_end (next_response co budget c q).
Proof. unfold next_response. repeat ends_step. Qed.

Definition parsed_end (p : parsed) : option AgentResult := match p with StopParse res => Some res | _ => None end.

Lemma settle_structured_ends c t b : ends parsed_end (settle_structured co budget c t b).
Proof. unfold settle_structured. repeat ends_step. Qed.

Lemma refuse_snapshot_closes x : closes Some (refuse_snapshot co x).
Proof. unfold refuse_snapshot. repeat closes_step. Qed.

Lemma dispatch_ends z c q l snaps text : ends id (dispatch_response co budget z c q l snaps text).
Proof.
  unfold dispatch_response, dispatch_calls. repeat ends_step; (apply (ends_fmap Some); [apply finalize_ends|done]).
Qed.

Lemma ends_note_usage {A} (P : A -> option AgentResult) u (f : unit -> R A) : ends P (f tt) -> ends P (note_usage u ≫= f).
Proof. exact (ends_progress P ds_iterations (fun _ => Some u) f). Qed.

Lemma ends_note_iterations {A} (P : A -> option AgentResult) n (f : unit -> R A) : ends P (f tt) -> ends P (note_iterations n ≫= f).
Proof. exact (ends_progress P (fun _ => n) ds_usage f). Qed.

Lemma handle_response_ends z c q r : ends id (handle_response co budget z c q r).
Proof.
  unfold handle_response. do 2 ends_step; [ends_step|]. do 2 ends_step. apply ends_note_usage. do 2 ends_step.
  - do 2 ends_step; [ends_step|]. ends_step. apply (ends_bind parsed_end); [apply settle_structured_ends| |].
    + intros p Hp. destruct p; try discriminate; repeat ends_step;
        first [apply dispatch_ends | apply (ends_fmap Some); [apply finalize_ends|done]].
    + intros p res Hp. destruct p; try discriminate. injection Hp as ->. by eexists.
  - apply closes_ends, (closes_fmap Some); [apply refuse_snapshot_closes|done].
Qed.

Lemma iterate_ends z c q : ends id (iterate co budget z c q).
Proof.
  unfold iterate. do 3 ends_step; [ends_step|]. do 2 ends_step; [ends_step|]. ends_step. apply ends_note_iterations. repeat ends_step.
  apply (ends_bind response_end); [apply next_response_ends| |].
  - intros [r|res]; [|done]. intros _. apply handle_response_ends.
  - intros [r|res] res'; [done|]. intros [= ->]. by eexists.
Qed.

Lemma loop_ends n z c q : ends Some (loop co budget n z c q).
Proof.
  induction n as [|n IH]; cbn [loop]; [apply finalize_ends|]. do 2 ends_step; [|apply finalize_ends].
  apply (ends_bind id); [apply iterate_ends| |].
  - intros [r|]; [done|]. intros _. apply IH.
  - intros [r|] res; [|done]. intros [= ->]. by eexists.
Qed.

Lemma run_body_ends z ms c q : ends Some (_run co budget z ms c q).
Proof.
  unfold _run. apply ends_after; [by apply untouched_modify|]. intros _. repeat ends_step. apply loop_ends.
Qed.

(** The result for a stop that did not come through in time. *)
Lemma late_result u w : ended_once w ->
  (terminal_started (dstate (fields w)) = true ->
     terminal_reason (dstate (fields w)) = Some TIME_BUDGET_EXHAUSTED /\ ds_usage (dstate (fields w)) = Some u) ->
  let r := (d ← get dstate;
            mret (mkResult (ds_content d) TIME_BUDGET_EXHAUSTED (ds_iterations d) (ds_calls d) u
                    (Some "terminal_persistence_indeterminate"%string) None) : R AgentResult) w in
  ended_once r.1 /\ forall a, r.2 = Ok a -> exists res, Some a = Some res /\ agrees (dstate (fields r.1)) res.
Proof.
  intros Hw Hd. cbv zeta. step. split; [done|]. intros a [= <-]. eexists. split; [done|]. split; cbn; [|done].
  intros Hs. destruct (Hd Hs) as [-> ->]. done.
Qed.

Lemma deadline_result_closes : closes Some (_deadline_result co).
Proof.
  intros w Hw. unfold _deadline_result. step. cbv zeta. destruct (terminal_started (dstate (fields w))) eqn:Hs.
  - split; [done|]. intros a [= <-]. eexists. split; [done|]. unfold ended_once in Hw. rewrite Hs in Hw.
    destruct Hw as ([reason Hr] & _). cbn. split; cbn; [by rewrite Hr|].
    destruct (terminal_persisted _); [done|]. by destruct (nonempty _).
  - unfold try_with. set (u := default no_usage _).
    destruct (stop_spec co TIME_BUDGET_EXHAUSTED (ds_content (dstate (fields w))) (ds_iterations (dstate (fields w)))
      (ds_calls (dstate (fields w))) u (Some "deadline_exceeded"%string) None true w Hw) as (Hk & [_ Hnew] & Ha).
    specialize (Hnew Hs).
    assert (terminal_started (dstate (fields (_stop co TIME_BUDGET_EXHAUSTED (ds_content (dstate (fields w)))
      (ds_iterations (dstate (fields w))) (ds_calls (dstate (fields w))) u (Some "deadline_exceeded"%string) None true w).1)) = true -> _)
      as Hnew' by exact (fun H => conj (proj1 (Hnew H)) (proj1 (proj2 (proj2 (Hnew H))))). clear Hnew. rename Hnew' into Hnew.
    destruct (_stop _ _ _ _ _ _ _ _ _ w) as [w1 [res|e]] eqn:E; cbn [fst snd] in *.
    + rewrite (bind_ok _ _ _ _ _ E). set (g := fun t : nat => Ok (interrupted co t || timed_out co t)).
      match goal with |- context [(sync co [] g ≫= ?f) w1] =>
        change ((sync co [] g ≫= f) w1) with (f (interrupted co (ticks w1) || timed_out co (ticks w1)) (sync co [] g w1).1) end.
      pose proof (untouched_plain co bool [] g eq_refl w1) as Hu. pose proof (untouched_once _ _ Hu Hk) as Hk2. destruct Hu as [Hd _].
      set (w2 := (sync co [] g w1).1) in *. clearbody w2. rewrite <- Hd in Hnew, Ha. destruct (_ || _).
      * by apply (late_result u w2).
      * split; [done|]. intros a [= <-]. eexists. split; [done|]. by apply Ha.
    + rewrite (bind_err _ _ _ _ _ E). by apply (late_result u w1).
Qed.

Lemma ends_deadline {A} (P : A -> option AgentResult) (m : R A) : ends P m -> ends P (await_before_deadline co m).
Proof.
  intros Hm. unfold await_before_deadline. ends_step. ends_step. ends_step; [ends_step|].
  intros w Hw Ho. destruct (Hm w Hw Ho) as [Hk Ha]. destruct (m w) as [w' r]. cbn [fst snd] in *.
  set (f := fun t => _). pose proof (untouched_plain co A [] f eq_refl w') as Hu.
  split; [exact (untouched_once _ _ Hu Hk)|]. intros x Hx. cbn [snd sync] in Hx. unfold f in Hx.
  destruct (interrupted _ _); [done|]. destruct (_ || _); [done|]. specialize (Ha x Hx). unfold ongoing in *.
  destruct Hu as [Hd _]. by rewrite Hd.
Qed.

Lemma closes_stop_raise {A} (P : A -> option AgentResult) reason c i l u e s b ex :
  closes P (_ ← _stop co reason c i l u e s b; raise ex).
Proof.
  intros w Hw. destruct (stop_spec co reason c i l u e s b w Hw) as (Hk & _).
  destruct (_stop _ _ _ _ _ _ _ _ _ w) as [w1 [res|e']] eqn:E;
    [rewrite (bind_ok _ _ _ _ _ E)|rewrite (bind_err _ _ _ _ _ E)]; done.
Qed.

Lemma run_ends z ms c q w : endings (history w) = [] ->
  let r := run co budget z ms c q w in
  ended_once r.1 /\ forall res, r.2 = Ok res -> agrees (dstate (fields r.1)) res.
Proof.
  intros Hw. unfold run.
  pose proof (untouched_plain co Z [] (fun t => Ok (clock co t)) eq_refl w) as [_ He]. fold (read_clock co) in He.
  rewrite (bind_ok (read_clock co) _ w (read_clock co w).1 (clock co (ticks w)) eq_refl).
  set (w1 := (read_clock co w).1) in *. rewrite Hw in He. clearbody w1. step. set (d := initial_deadline _). set (w2 := (set_deadline d w1).1).
  assert (ended_once w2) as Hw2 by done. assert (ongoing w2) as Ho2 by done. clearbody w2. clear d He w1 Hw w.
  refine ((_ : ends Some _) w2 Hw2 Ho2). clear w2 Hw2 Ho2. apply ends_try; [apply ends_deadline, run_body_ends|].
  intros e. destruct e; try apply closes_raise; [|apply deadline_result_closes].
  apply closes_after; [calm|]. intros d. apply closes_stop_raise.
Qed.
End ends.

(** C3. However a run ends, it emits at most one terminal event; when it returns a result,
    any terminal event it emitted carries the reason, the iteration and the token usage of
    that result, and a result without an error was announced by exactly that event. *)
Theorem one_terminal_event (co : collaborators) (budget : RuntimeBudget) (z : Z) (ms : list Message)
    (contract : option ResponseContract) (caps : gset string) (w : world unit engine_state obs) :
  history w = [] ->
  let r := run co budget z ms contract caps w in
  (length (endings (history r.1)) <= 1)%nat
  /\ forall res, r.2 = Ok res ->
       (forall e, e ∈ endings (history r.1) -> exists error, e = ending_event (r_reason res) error (r_iterations res) (r_usage res))
       /\ (r_error res = None ->
            endings (history r.1) = [ending_event (r_reason res) None (r_iterations res) (r_usage res)]).
Proof.
  intros Hw r. destruct (run_ends co budget z ms contract caps w) as [Hk Ha]; [by rewrite Hw|]. fold r in Hk, Ha.
  unfold ended_once in Hk. destruct (terminal_started (dstate (fields r.1))) eqn:Hs.
  - destruct Hk as (_ & _ & _ & He & Hp). split; [by destruct He as [-> | ->]; cbn; lia|]. intros res Hres.
    destruct (Ha res Hres) as [Hsame Hok]. destruct (Hsame Hs) as (Hi & Hr & Hu).
    assert (state_ending (dstate (fields r.1)) = ending_event (r_reason res) (terminal_error (dstate (fields r.1)))
      (r_iterations res) (r_usage res)) as Hend by (unfold state_ending; by rewrite Hr, Hu, Hi).
    split.
    + intros e Hin. destruct He as [He|He]; rewrite He in Hin; [by apply elem_of_nil in Hin|].
      apply list_elem_of_singleton in Hin as ->. eauto.
    + intros Hnone. destruct (Hok Hnone) as (_ & Hpers & Herr). rewrite Hp by by left. by rewrite Hend, Herr.
  - destruct Hk as [He _]. rewrite He. split; [cbn; lia|]. intros res Hres. destruct (Ha res Hres) as [_ Hok]. split.
    + intros e Hin. by apply elem_of_nil in Hin.
    + intros Hnone. destruct (Hok Hnone) as [Hst _]. congruence.
Qed.

Lemma one_terminal_event_witness : exists res, demo_run.2 = Ok res /\ r_reason res = COMPLETED
  /\ endings (history demo_run.1) = [ending_event COMPLETED None 2 (mkTokens 20 10 None None)].
Proof.
  destruct (one_terminal_event demo_co demo_budget 30 [user_message "hi"] None ∅ demo_start eq_refl) as [_ H].
  assert (exists res, demo_run.2 = Ok res /\ r_reason res = COMPLETED /\ r_error res = None /\ r_iterations res = 2
    /\ r_usage res = mkTokens 20 10 None None) as (res & Hr & Hreason & Herr & Hit & Hu)
    by (eexists; split; [vm_compute; reflexivity|]; repeat split).
  exists res. split; [exact Hr|]. split; [exact Hreason|]. destruct (H res Hr) as [_ Hend]. specialize (Hend Herr).
  rewrite Hreason, Hit, Hu in Hend. exact Hend.
Defined.
