(* ===== verification/EffectLedger.v ===== *)
(** * The durable effect ledger ([services/effect_ledger.py])

    One row per external effect, keyed by its identity digest. A reservation inserts
    the row or reports the state of the row that is there; every transition is one
    conditional update of a row still reserved; an indeterminate row can be reviewed
    once. Rows are never deleted. Timestamps are integers. *)

From Stdlib Require Import ZArith Lia String Ascii.
From stdpp Require Import base gmap strings list fin_maps sorting relations.
From S2P Require Import Prelude Strings Sql.
Open Scope Z_scope.

(** ** Data *)

Inductive EffectState : Type := E_RESERVED | E_COMMITTED | E_FAILED | E_INDETERMINATE.

#[export] Instance EffectState_eq_dec : EqDecision EffectState.
Proof. solve_decision. Defined.

Inductive effect_error : Type :=
| EffectStateConflict
| EffectReviewConflictError
| EffectReservationUnavailable
| EffectValueError.

#[export] Instance effect_error_eq_dec : EqDecision effect_error.
Proof. solve_decision. Defined.

(** [EffectBinding], the safe metadata of one logical effect. *)
Record EffectBinding : Type := mkBinding {
  b_effect_id : string;
  b_identity_version : Z;
  b_owner_id : string;
  b_project_id : string;
  b_run_id : string;
  b_tool_name : string;
  b_schema_hash : string
}.

Record EffectRow : Type := mkEffect {
  identity_version : Z;
  e_owner_id : string;
  e_project_id : string;
  e_run_id : string;
  tool_name : string;
  schema_hash : string;
  e_state : EffectState;
  output_hash : option string;
  output_size : option Z;
  failure_code : option string;
  review_disposition : option string;
  reviewed_by : option string;
  reserved_at : Z;
  completed_at : option Z;
  reviewed_at : option Z
}.

Abbreviation effects := (gmap string EffectRow).

Record EffectReservation : Type := mkEffectReservation {
  er_effect_id : string;
  er_state : EffectState;
  should_execute : bool
}.

(** ** Validation *)

(** [^eff_v1_[0-9a-f]{64}$] *)
Definition _effect_id (value : string) : result effect_error string :=
  if starts_with "eff_v1_" value && is_hex64 (string_drop 7 value) then Ok value else Err EffectValueError.

Definition _digest (value : string) : result effect_error string :=
  if is_hex64 value then Ok value else Err EffectValueError.

Definition _safe_code (value : string) : result effect_error string :=
  if lower_code value then Ok value else Err EffectValueError.

(** The length test counts characters, which are bytes of ASCII text. *)
Definition _reviewer (value : string) : result effect_error string :=
  if negb ((1 <=? String.length value)%nat && (String.length value <=? 255)%nat)
     || negb (string_forall (fun c => negb (nat_of_ascii c <? 32)%nat) value)
  then Err EffectValueError else Ok value.

Definition _REVIEW_DISPOSITIONS : list string :=
  ["confirmed_committed"; "confirmed_failed"; "requires_compensation"]%string.

(** ** Operations *)

Definition new_effect (now : Z) (b : EffectBinding) (schema : string) : EffectRow :=
  mkEffect (b_identity_version b) (b_owner_id b) (b_project_id b) (b_run_id b) (b_tool_name b) schema
    E_RESERVED None None None None None now None None.

(** The insertion is one transaction; the row of a duplicate is read by a later one,
    from the database [reread]. *)
Definition reserve_effect_at (now : Z) (b : EffectBinding) (reread st : effects)
  : effects * result effect_error EffectReservation :=
  match (id ← _effect_id (b_effect_id b); schema ← _digest (b_schema_hash b); Ok (id, schema)) with
  | Err e => (st, Err e)
  | Ok (id, schema) =>
      match st !! id with
      | None => (<[id := new_effect now b schema]> st, Ok (mkEffectReservation id E_RESERVED true))
      | Some _ => (st, match reread !! id with
                       | None => Err EffectReservationUnavailable
                       | Some row => Ok (mkEffectReservation id (e_state row) false)
                       end)
      end
  end.

Definition reserve_effect (now : Z) (b : EffectBinding) (st : effects) := reserve_effect_at now b st st.

Definition is_reserved (id k : string) (r : EffectRow) : bool :=
  bool_decide (k = id) && bool_decide (e_state r = E_RESERVED).

Definition complete_row (now : Z) (s : EffectState) (hash : option string) (size : option Z)
    (code : option string) (r : EffectRow) : EffectRow :=
  mkEffect (identity_version r) (e_owner_id r) (e_project_id r) (e_run_id r) (tool_name r) (schema_hash r)
    s hash size code (review_disposition r) (reviewed_by r) (reserved_at r) (Some now) (reviewed_at r).

Definition _transition (now : Z) (effect_id : string) (s : EffectState) (hash : option string)
    (size : option Z) (code : option string) (st : effects) : effects * result effect_error unit :=
  match _effect_id effect_id with
  | Err e => (st, Err e)
  | Ok id =>
      if Nat.eqb (rowcount (is_reserved id) st) 1
      then (update_where (is_reserved id) (complete_row now s hash size code) st, Ok tt)
      else (st, Err EffectStateConflict)
  end.

Definition commit_effect (now : Z) (id hash : string) (size : Z) (st : effects) : effects * result effect_error unit :=
  match (hash ← _digest hash; _ ← require (in_bigint size) EffectValueError; Ok hash) with
  | Err e => (st, Err e)
  | Ok hash => _transition now id E_COMMITTED (Some hash) (Some size) None st
  end.

Definition fail_effect (now : Z) (id code : string) (st : effects) : effects * result effect_error unit :=
  match _safe_code code with
  | Err e => (st, Err e)
  | Ok code => _transition now id E_FAILED None None (Some code) st
  end.

Definition mark_effect_indeterminate (now : Z) (id code : string) (st : effects) : effects * result effect_error unit :=
  match _safe_code code with
  | Err e => (st, Err e)
  | Ok code => _transition now id E_INDETERMINATE None None (Some code) st
  end.

Definition stale_reservation (cutoff : Z) (k : string) (r : EffectRow) : bool :=
  bool_decide (e_state r = E_RESERVED) && (reserved_at r <? cutoff).

(** The update sets neither output column; a reserved row has none. *)
Definition recover_stale_reservations (now cutoff : Z) (st : effects) : effects * Z :=
  (update_where (stale_reservation cutoff)
     (fun r => mkEffect (identity_version r) (e_owner_id r) (e_project_id r) (e_run_id r) (tool_name r)
        (schema_hash r) E_INDETERMINATE (output_hash r) (output_size r) (Some "stale_reservation"%string)
        (review_disposition r) (reviewed_by r) (reserved_at r) (Some now) (reviewed_at r)) st,
   Z.of_nat (rowcount (stale_reservation cutoff) st)).

Definition effect_in (owner project run : string) (r : EffectRow) : bool :=
  bool_decide (e_owner_id r = owner /\ e_project_id r = project /\ e_run_id r = run).

Definition get_effect (id owner project run : string) (st : effects)
  : result effect_error (option EffectRow) :=
  id ← _effect_id id;
  Ok (snd <$> scalar (fun k r => bool_decide (k = id) && effect_in owner project run r) st).

Definition reviewable (id owner project run k : string) (r : EffectRow) : bool :=
  bool_decide (k = id) && effect_in owner project run r && bool_decide (e_state r = E_INDETERMINATE)
  && bool_decide (review_disposition r = None).

Definition review_row (now : Z) (disposition by_ : string) (r : EffectRow) : EffectRow :=
  mkEffect (identity_version r) (e_owner_id r) (e_project_id r) (e_run_id r) (tool_name r) (schema_hash r)
    (e_state r) (output_hash r) (output_size r) (failure_code r) (Some disposition) (Some by_)
    (reserved_at r) (completed_at r) (Some now).

(** The record returned is read by a later transaction, from [reread]; none is
    [EffectReviewConflictError]. *)
Definition review_indeterminate_at (now : Z) (id owner project run disposition by_ : string)
    (reread : effects -> effects) (st : effects) : effects * result effect_error EffectRow :=
  match (id ← _effect_id id;
         _ ← require (bool_decide (disposition ∈ _REVIEW_DISPOSITIONS)) EffectValueError;
         by_ ← _reviewer by_; Ok (id, by_)) with
  | Err e => (st, Err e)
  | Ok (id, by_) =>
      if Nat.eqb (rowcount (reviewable id owner project run) st) 1 then
        let st' := update_where (reviewable id owner project run) (review_row now disposition by_) st in
        (st', match get_effect id owner project run (reread st') with
              | Err e => Err e
              | Ok None => Err EffectReviewConflictError
              | Ok (Some r) => Ok r
              end)
      else (st, Err EffectReviewConflictError)
  end.

Definition review_indeterminate (now : Z) (id owner project run disposition by_ : string) (st : effects) :=
  review_indeterminate_at now id owner project run disposition by_ (fun st => st) st.

(** Row order of [list]: by reservation time, then id. *)
Definition effect_le (a b : string * EffectRow) : Prop :=
  reserved_at a.2 < reserved_at b.2 \/ (reserved_at a.2 = reserved_at b.2 /\ String.leb a.1 b.1 = true).

#[export] Instance effect_le_dec : RelDecision effect_le.
Proof. intros a b. unfold effect_le. apply _. Defined.

Definition EFFECT_MAX_PAGE : Z := 200.

Definition list_effects (owner project run : string) (limit offset : Z) (st : effects)
  : result effect_error (list (string * EffectRow)) :=
  _ ← require ((1 <=? limit) && (limit <=? EFFECT_MAX_PAGE) && (0 <=? offset)) EffectValueError;
  Ok (take (Z.to_nat limit) (drop (Z.to_nat offset)
        (merge_sort effect_le (select_where (fun _ r => effect_in owner project run r) st)))).

(** ** Steps: one committed method call, with any arguments and clock *)

Inductive effect_step : effects -> effects -> Prop :=
| estep_reserve now b reread st : effect_step st (reserve_effect_at now b reread st).1
| estep_commit now id hash size st : effect_step st (commit_effect now id hash size st).1
| estep_fail now id code st : effect_step st (fail_effect now id code st).1
| estep_indeterminate now id code st : effect_step st (mark_effect_indeterminate now id code st).1
| estep_recover now cutoff st : effect_step st (recover_stale_reservations now cutoff st).1
| estep_review now id o p r d b reread st :
    effect_step st (review_indeterminate_at now id o p r d b reread st).1.

Definition effects_reachable (st : effects) : Prop := rtc effect_step ∅ st.

(** ** Lemmas *)

Lemma pins_reserved id : pins (is_reserved id) id.
Proof. intros k r Hk. unfold is_reserved in Hk. by bool_to_prop. Qed.

Lemma pins_reviewable id o p u : pins (reviewable id o p u) id.
Proof. intros k r Hk. unfold reviewable in Hk. by bool_to_prop. Qed.

(** The columns no method changes. *)
Definition same_effect (r r' : EffectRow) : Prop :=
  identity_version r' = identity_version r /\ e_owner_id r' = e_owner_id r /\ e_project_id r' = e_project_id r
  /\ e_run_id r' = e_run_id r /\ tool_name r' = tool_name r /\ schema_hash r' = schema_hash r
  /\ reserved_at r' = reserved_at r.

(** One move of a tombstone. *)
Inductive effect_moves (r r' : EffectRow) : Prop :=
| move_commit hash size : e_state r = E_RESERVED -> e_state r' = E_COMMITTED ->
    output_hash r' = Some hash -> output_size r' = Some size -> failure_code r' = None ->
    0 <= size <= MAX_BIGINT -> is_Some (completed_at r') ->
    review_disposition r' = review_disposition r -> same_effect r r' -> effect_moves r r'
| move_stop code : e_state r = E_RESERVED -> (e_state r' = E_FAILED \/ e_state r' = E_INDETERMINATE) ->
    (output_hash r' = None \/ output_hash r' = output_hash r) ->
    (output_size r' = None \/ output_size r' = output_size r) -> failure_code r' = Some code ->
    is_Some (completed_at r') -> review_disposition r' = review_disposition r -> same_effect r r' ->
    effect_moves r r'
| move_review d : e_state r = E_INDETERMINATE -> e_state r' = E_INDETERMINATE -> review_disposition r = None ->
    review_disposition r' = Some d -> output_hash r' = output_hash r -> output_size r' = output_size r ->
    failure_code r' = failure_code r -> completed_at r' = completed_at r -> same_effect r r' -> effect_moves r r'.

(** The rows of a step: kept, moved, or one new reservation. *)
Lemma transition_rows now id s hash size code st :
  let out := _transition now id s hash size code st in
  (exists e, out = (st, Err e)) \/
  (exists r, st !! id = Some r /\ e_state r = E_RESERVED /\
     out = (<[id := complete_row now s hash size code r]> st, Ok tt)).
Proof.
  unfold _transition. destruct (_effect_id id) as [id'|] eqn:Hid; [|by left; eauto].
  assert (id' = id) as -> by (unfold _effect_id in Hid; destruct (_ && _); by inv_result).
  destruct (Nat.eqb _ 1) eqn:Hc; [|by left; eauto]. right. apply Nat.eqb_eq in Hc.
  destruct (pinned_hit _ (complete_row now s hash size code) _ _ (pins_reserved id) Hc) as (r & Hr & HP & ->).
  unfold is_reserved in HP. bool_to_prop. by exists r.
Qed.

Lemma effect_step_rows st st' : effect_step st st' ->
  forall k r, st !! k = Some r -> exists r', st' !! k = Some r' /\ (r' = r \/ effect_moves r r').
Proof.
  assert (forall id s hash size code now k r, st !! k = Some r ->
    (forall r0, e_state r0 = E_RESERVED -> effect_moves r0 (complete_row now s hash size code r0)) ->
    exists r', (_transition now id s hash size code st).1 !! k = Some r' /\ (r' = r \/ effect_moves r r')) as Htrans.
  { intros id s hash size code now k r Hk Hmv.
    destruct (transition_rows now id s hash size code st) as [[e ->]|(r0 & Hr0 & Hs & ->)]; [by eauto|].
    cbn. destruct (decide (k = id)) as [->|Hne]; [|rewrite lookup_insert_ne by done; by eauto].
    rewrite lookup_insert_eq. simplify_eq. by eauto. }
  intros Hstep k r Hk. destruct Hstep.
  - unfold reserve_effect_at. destruct (_ ← _effect_id _; _) as [[id schema]|]; [|by eauto].
    destruct (st !! id) eqn:Hid; [by eauto|]. cbn. exists r. rewrite lookup_insert_ne by congruence. by auto.
  - unfold commit_effect. destruct (_ ← _digest _; _) as [h|] eqn:Hv; [|by eauto]. inv_result. bool_to_prop.
    apply Htrans; [done|]. intros r0 Hr0. by eapply move_commit.
  - unfold fail_effect. destruct (_safe_code code) as [c|]; [|by eauto]. apply Htrans; [done|].
    intros r0 Hr0. eapply move_stop; cbn; eauto. done.
  - unfold mark_effect_indeterminate. destruct (_safe_code code) as [c|]; [|by eauto]. apply Htrans; [done|].
    intros r0 Hr0. eapply move_stop; cbn; eauto. done.
  - unfold recover_stale_reservations. cbn. rewrite lookup_update_where, Hk. cbn. eexists. split; [done|].
    destruct (stale_reservation cutoff k r) eqn:Hs; [right|by left]. unfold stale_reservation in Hs. bool_to_prop.
    eapply move_stop; cbn; eauto. done.
  - unfold review_indeterminate_at. destruct (_ ← _effect_id _; _) as [[id' by']|]; [|by eauto].
    destruct (Nat.eqb _ 1) eqn:Hc; [|by eauto]. apply Nat.eqb_eq in Hc. cbn.
    destruct (pinned_hit _ (review_row now d by') _ _ (pins_reviewable id' o p r0) Hc) as (r1 & Hr1 & HP & ->).
    unfold reviewable in HP. bool_to_prop.
    destruct (decide (k = id')) as [->|Hne]; [|rewrite lookup_insert_ne by done; by eauto].
    rewrite lookup_insert_eq. simplify_eq. eexists. split; [done|]. right. by eapply move_review.
Qed.

Lemma effect_step_new st st' k r' : effect_step st st' -> st !! k = None -> st' !! k = Some r' ->
  exists now b schema, r' = new_effect now b schema.
Proof.
  assert (forall id s hash size code now, st !! k = None -> (_transition now id s hash size code st).1 !! k = None) as Htrans.
  { intros id s hash size code now Hk.
    destruct (transition_rows now id s hash size code st) as [[e ->]|(r0 & Hr0 & _ & ->)]; [done|].
    cbn. rewrite lookup_insert_ne; [done|congruence]. }
  intros Hstep Hk Hk'. destruct Hstep.
  - unfold reserve_effect_at in Hk'. destruct (_ ← _effect_id _; _) as [[id schema]|]; [|cbn in Hk'; congruence].
    destruct (st !! id) eqn:Hid; cbn in Hk'; [congruence|].
    destruct (decide (k = id)) as [->|Hne]; [rewrite lookup_insert_eq in Hk'|rewrite lookup_insert_ne in Hk' by done; congruence].
    simplify_eq. by eauto.
  - unfold commit_effect in Hk'. destruct (_ ← _digest _; _); [|cbn in Hk'; congruence]. rewrite Htrans in Hk'; done.
  - unfold fail_effect in Hk'. destruct (_safe_code code); [|cbn in Hk'; congruence]. rewrite Htrans in Hk'; done.
  - unfold mark_effect_indeterminate in Hk'. destruct (_safe_code code); [|cbn in Hk'; congruence]. rewrite Htrans in Hk'; done.
  - cbn in Hk'. rewrite lookup_update_where, Hk in Hk'. done.
  - unfold review_indeterminate_at in Hk'. destruct (_ ← _effect_id _; _) as [[id' by']|]; [|cbn in Hk'; congruence].
    destruct (Nat.eqb _ 1); cbn in Hk'; [|congruence]. rewrite lookup_update_where, Hk in Hk'. done.
Qed.

(** What a row says about itself. *)
Definition effect_row_ok (r : EffectRow) : Prop :=
  match e_state r with
  | E_RESERVED => output_hash r = None /\ output_size r = None /\ failure_code r = None
      /\ completed_at r = None /\ review_disposition r = None
  | E_COMMITTED => is_Some (output_hash r) /\ (exists n, output_size r = Some n /\ 0 <= n <= MAX_BIGINT)
      /\ failure_code r = None /\ is_Some (completed_at r) /\ review_disposition r = None
  | E_FAILED => output_hash r = None /\ output_size r = None /\ is_Some (failure_code r)
      /\ is_Some (completed_at r) /\ review_disposition r = None
  | E_INDETERMINATE => output_hash r = None /\ output_size r = None /\ is_Some (failure_code r)
      /\ is_Some (completed_at r)
  end.

Lemma moves_ok r r' : effect_row_ok r -> effect_moves r r' -> effect_row_ok r'.
Proof.
  unfold effect_row_ok. intros Hok [h n Hs Hs' Hh Hn Hf Hb Hc Hv _|c Hs Hs' Hh Hn Hf Hc Hv _|d Hs Hs' _ _ Hh Hn Hf Hc _];
    rewrite Hs in Hok.
  - rewrite Hs', Hh, Hn, Hv. destruct Hok as (_ & _ & _ & _ & ?). split_and!; eauto.
  - destruct Hok as (Eh & En & _ & _ & Ev). rewrite Eh in Hh. rewrite En in Hn.
    assert (output_hash r' = None /\ output_size r' = None) as [? ?] by (split; [by destruct Hh|by destruct Hn]).
    destruct Hs' as [-> | ->]; rewrite Hf; split_and!; eauto; congruence.
  - rewrite Hs', Hh, Hn, Hf, Hc. exact Hok.
Qed.

Lemma effects_rows_ok st : effects_reachable st -> forall k r, st !! k = Some r -> effect_row_ok r.
Proof.
  intros Hr. unfold effects_reachable in Hr. remember (∅ : effects) as st0 eqn:E0. assert (forall k r, st0 !! k = Some r -> effect_row_ok r) as Hbase.
  { subst. intros k r Hk. by rewrite lookup_empty in Hk. }
  clear E0. induction Hr as [|st1 st2 st3 Hstep _ IH]; [done|]. apply IH. intros k r' Hk'.
  destruct (st1 !! k) as [r|] eqn:Hk.
  - destruct (effect_step_rows _ _ Hstep _ _ Hk) as (r2 & Hr2 & [->|Hm]); simplify_eq; [by eapply Hbase|].
    eapply moves_ok; [by eapply Hbase|done].
  - destruct (effect_step_new _ _ _ _ Hstep Hk Hk') as (now & b & schema & ->). done.
Qed.

(** A tombstone that no method touches any more. *)
Definition final (r : EffectRow) : bool :=
  match e_state r with
  | E_RESERVED => false
  | E_COMMITTED | E_FAILED => true
  | E_INDETERMINATE => bool_decide (is_Some (review_disposition r))
  end.

(** Legal successions of states. *)
Definition effect_reaches (a b : EffectState) : bool :=
  bool_decide (a = b) || bool_decide (a = E_RESERVED).

Lemma reaches_from_reserved b : effect_reaches E_RESERVED b = true.
Proof. by destruct b. Qed.

Lemma effects_evolve st st' k r : rtc effect_step st st' -> st !! k = Some r ->
  exists r', st' !! k = Some r' /\ same_effect r r' /\ effect_reaches (e_state r) (e_state r') = true
    /\ (final r = true -> r' = r).
Proof.
  intros Hs. revert r. induction Hs as [st1|st1 st2 st3 H12 _ IH]; intros r Hk.
  { exists r. split_and!; [done|by repeat split| |done]. unfold effect_reaches. by rewrite bool_decide_eq_true_2. }
  destruct (effect_step_rows _ _ H12 _ _ Hk) as (r1 & Hk1 & Hmv). destruct (IH _ Hk1) as (r2 & Hk2 & Hid & Hre & Hfin).
  exists r2. split; [done|]. destruct Hmv as [->|Hmv]; [done|].
  assert (same_effect r r1) as Hid1 by by destruct Hmv.
  assert (effect_reaches (e_state r) (e_state r1) = true /\ final r = false) as [Hre1 Hnf].
  { destruct Hmv as [h n Hs Hs' _ _ _ _ _ _ _|c Hs Hs' _ _ _ _ _ _|d Hs Hs' Hv _ _ _ _ _ _]; unfold final; rewrite Hs;
      [split; [by apply reaches_from_reserved|done]..|]. rewrite Hs'. split; [done|]. by rewrite Hv. }
  split_and!.
  - destruct Hid as (?&?&?&?&?&?&?), Hid1 as (?&?&?&?&?&?&?). repeat split; congruence.
  - by destruct (e_state r), (e_state r1), (e_state r2).
  - congruence.
Qed.

Lemma effects_reach_step st st' : effects_reachable st -> effect_step st st' -> effects_reachable st'.
Proof. apply rtc_r. Qed.

(** *** One effect, for the examples *)

Definition demo_effect_id : string :=
  "eff_v1_0123456789abcdef0123456789abcdef0123456789abcdef0123456789abcdef".
Definition demo_hash : string := "0123456789abcdef0123456789abcdef0123456789abcdef0123456789abcdef".
Definition demo_binding : EffectBinding := mkBinding demo_effect_id 1 "alice" "proj" "run-1" "write_file" demo_hash.
Definition demo_effects : effects := (reserve_effect 1 demo_binding ∅).1.
Definition demo_committed : effects := (commit_effect 2 demo_effect_id demo_hash 10 demo_effects).1.

Lemma demo_effects_reachable : effects_reachable demo_effects.
Proof. eapply effects_reach_step; [apply rtc_refl|apply estep_reserve]. Qed.

Lemma demo_committed_reachable : effects_reachable demo_committed.
Proof. eapply effects_reach_step; [apply demo_effects_reachable|apply estep_commit]. Qed.

(** ** Properties *)

(** An effect is executed at most once: after a reservation that tells its caller
    to execute, no later reservation of the same effect id is told to execute, by any
    client and after any history. *)
Theorem effect_executed_once (st st2 : effects) (now now' : Z) (b b' : EffectBinding) (reread reread' : effects)
    (res res' : EffectReservation) :
  (reserve_effect_at now b reread st).2 = Ok res -> should_execute res = true ->
  rtc effect_step (reserve_effect_at now b reread st).1 st2 ->
  b_effect_id b' = b_effect_id b ->
  (reserve_effect_at now' b' reread' st2).2 = Ok res' -> should_execute res' = false.
Proof.
  unfold reserve_effect_at at 1 2. intros H1 Hd1 Hs Hid H2.
  destruct (_ ← _effect_id (b_effect_id b); _) as [[id schema]|] eqn:Hv; [|done].
  assert (id = b_effect_id b) as ->.
  { inv_result. match goal with H : _effect_id _ = Ok _ |- _ =>
      unfold _effect_id in H; destruct (_ && _) in H; by inv_result end. }
  destruct (st !! b_effect_id b) eqn:Hb.
  { cbn in H1. destruct (reread !! b_effect_id b); [|done]. injection H1 as <-. discriminate Hd1. }
  destruct (effects_evolve _ _ (b_effect_id b) (new_effect now b schema) Hs (lookup_insert_eq _ _ _)) as (r' & Hr' & _).
  unfold reserve_effect_at in H2.
  destruct (_ ← _effect_id (b_effect_id b'); _) as [[id' schema']|] eqn:Hv'; [|done].
  assert (id' = b_effect_id b') as ->.
  { inv_result. match goal with H : _effect_id _ = Ok _ |- _ =>
      unfold _effect_id in H; destruct (_ && _) in H; by inv_result end. }
  rewrite Hid, Hr' in H2. cbn in H2. destruct (reread' !! _); [|done]. by injection H2 as <-.
Qed.

Lemma effect_executed_once_witness :
  should_execute (mkEffectReservation demo_effect_id E_COMMITTED false) = false.
Proof.
  apply (effect_executed_once ∅ demo_committed 1 3 demo_binding demo_binding ∅ demo_committed
    (mkEffectReservation demo_effect_id E_RESERVED true)).
  - vm_compute; reflexivity.
  - reflexivity.
  - apply rtc_once, (estep_commit 2 demo_effect_id demo_hash 10).
  - reflexivity.
  - vm_compute; reflexivity.
Defined.

(** The life of a tombstone: a row is never lost, its identity never changes, it
    leaves the reserved state at most once, and a committed, failed or reviewed row
    is never written again. *)
Theorem effect_lifecycle (st st' : effects) (k : string) (r : EffectRow) :
  rtc effect_step st st' -> st !! k = Some r ->
  exists r', st' !! k = Some r' /\ same_effect r r' /\ effect_reaches (e_state r) (e_state r') = true
    /\ (final r = true -> r' = r).
Proof. apply effects_evolve. Qed.

Lemma effect_lifecycle_witness : exists r r',
  demo_effects !! demo_effect_id = Some r /\ demo_committed !! demo_effect_id = Some r' /\ same_effect r r'.
Proof.
  destruct (effect_lifecycle demo_effects demo_committed demo_effect_id (new_effect 1 demo_binding demo_hash))
    as (r' & Hr' & Hid & _).
  - apply rtc_once, (estep_commit 2 demo_effect_id demo_hash 10).
  - vm_compute; reflexivity.
  - eexists _, r'. split; [|split; [exact Hr'|exact Hid]]. vm_compute; reflexivity.
Defined.

(** Every row of a reachable effect ledger is well formed: a reserved row has no
    outcome, a committed row has a digest and a size in range and no failure code, a
    failed or indeterminate row has a failure code and no output, every row but a
    reserved one has a completion time, and only an indeterminate row can carry a
    review. *)
Theorem effect_rows_well_formed (st : effects) : effects_reachable st ->
  forall k r, st !! k = Some r -> effect_row_ok r.
Proof. apply effects_rows_ok. Qed.

Lemma effect_rows_well_formed_witness :
  effect_row_ok (complete_row 2 E_COMMITTED (Some demo_hash) (Some 10) None (new_effect 1 demo_binding demo_hash)).
Proof.
  apply (effect_rows_well_formed demo_committed demo_committed_reachable demo_effect_id). vm_compute; reflexivity.
Defined.
