(* ===== verification/EffectExecutor.v ===== *)
(** * At-most-once execution of effectful tools ([runtime/effect_executor.py])

    [DurableEffectToolExecutor.execute] reserves the effect's identity, runs the tool
    once, hashes its output and commits; every other way out marks the tombstone
    failed or indeterminate. Like the budgeted provider it is a program over a store
    that other clients change, under the forecast of [Durable], proved against an
    interface that [EffectLedger] implements. The registry's answers for a call, the
    identity binding and the tool itself are parameters. *)

From Stdlib Require Import ZArith Lia String Ascii.
From stdpp Require Import base gmap strings list fin_maps relations.
From S2P Require Import Prelude Strings Sql Durable Json Policy MonetaryLedger BudgetedProvider EffectLedger.
Open Scope Z_scope.

(** ** Evidence of an output

    A Python value as the tool built it; a container carries its identity. [POther]
    is any value of another type or a container with a key that is not a string. *)

#[warnings="-register-all"]
Inductive pyval : Type :=
| PNone
| PBool (b : bool)
| PInt (z : Z)
| PFloat (finite : bool) (repr : string)
| PStr (s : string)
| PDict (identity : nat) (items : list (string * pyval))
| PList (identity : nat) (items : list pyval)
| POther.

Definition MAX_NODES : Z := 4096.
Definition MAX_DEPTH : Z := 32.
Definition MAX_STRING : Z := 16384.
Definition MAX_OUTPUT : Z := 1048576.

(** [stack.append((key, depth + 1)); stack.append((item, depth + 1))] for each item. *)
Definition push_items (items : list (string * pyval)) (depth : Z) (stack : list (pyval * Z)) : list (pyval * Z) :=
  fold_left (fun st kv => (kv.2, depth + 1) :: (PStr kv.1, depth + 1) :: st) items stack.

Definition push_list (items : list pyval) (depth : Z) (stack : list (pyval * Z)) : list (pyval * Z) :=
  fold_left (fun st v => (v, depth + 1) :: st) items stack.

(** The traversal; [false] is [IndeterminateToolEffectError]. The node limit stops it
    before the fuel does. *)
Fixpoint scan (fuel : nat) (stack : list (pyval * Z)) (ancestors : gset nat) (nodes bytes : Z) : bool :=
  match stack with
  | [] => true
  | (v, depth) :: stack' =>
    match fuel with
    | O => false
    | S fuel' =>
      let nodes := nodes + 1 in
      if (MAX_DEPTH <? depth) || (MAX_NODES <? nodes) then false
      else match v with
      | PNone | PBool _ => scan fuel' stack' ancestors nodes bytes
      | PInt z => if 10 ^ 1000 <=? Z.abs z then false else scan fuel' stack' ancestors nodes bytes
      | PFloat finite _ => if finite then scan fuel' stack' ancestors nodes bytes else false
      | PStr s =>
          if MAX_STRING <? len s then false
          else let bytes := bytes + len s in
               if MAX_OUTPUT <? bytes then false else scan fuel' stack' ancestors nodes bytes
      | PDict i items =>
          if bool_decide (i ∈ ancestors) then false
          else scan fuel' (push_items items depth stack') ({[ i ]} ∪ ancestors) nodes bytes
      | PList i items =>
          if bool_decide (i ∈ ancestors) then false
          else scan fuel' (push_list items depth stack') ({[ i ]} ∪ ancestors) nodes bytes
      | POther => false
      end
    end
  end.

Definition SCAN_FUEL : nat := 4097.

(** The detached copy, as the JSON document it encodes to. *)
Fixpoint snapshot (v : pyval) : json :=
  match v with
  | PNone | POther => JNull
  | PBool b => JBool b
  | PInt z => JInt z
  | PFloat _ repr => JFloat repr
  | PStr s => JStr s
  | PDict _ items =>
      JObj ((fix go l := match l with [] => [] | (k, v) :: l' => (k, snapshot v) :: go l' end) items)
  | PList _ items => JArr ((fix go l := match l with [] => [] | v :: l' => snapshot v :: go l' end) items)
  end.

(** Exceptions a call can end with. *)
Inductive exec_exn : Type :=
| ERepo (e : effect_error)
| EDatabase
| ECancelled
| EPermissionError
| EToolError
| EIdentityError
| IndeterminateToolEffectError
| EffectDispatchRejectedError.

#[export] Instance exec_exn_eq_dec : EqDecision exec_exn.
Proof. solve_decision. Defined.

#[export] Instance executor_await_errors : AwaitErrors exec_exn := {|
  database_error := EDatabase;
  cancelled_error := ECancelled
|}.

(** The copy, its digest and its size. *)
Definition _output_evidence (sha256_hex : string -> string) (v : pyval) : result exec_exn (json * string * Z) :=
  if negb (scan SCAN_FUEL [(v, 0)] ∅ 0 0) then Err IndeterminateToolEffectError
  else let encoded := dumps (snapshot v) in
       if MAX_OUTPUT <? len encoded then Err IndeterminateToolEffectError
       else Ok (snapshot v, sha256_hex encoded, len encoded).

(** ** What the executor needs of the ledger *)

Class EffectRepository (DB : Type) := {
  eff_reserve : Z -> EffectBinding -> DB -> DB * result effect_error EffectReservation;
  eff_commit : Z -> string -> string -> Z -> DB -> DB * result effect_error unit;
  eff_fail : Z -> string -> string -> DB -> DB * result effect_error unit;
  eff_mark_indeterminate : Z -> string -> string -> DB -> DB * result effect_error unit;
  eff_get : Z -> string -> scope -> DB -> DB * result effect_error (option EffectRow);
  eff_row : DB -> string -> option EffectRow
}.

Definition effect_of (s : scope) (r : EffectRow) : bool := effect_in (sc_owner s) (sc_project s) (sc_run s) r.

Class EffectRepositoryLaws (DB : Type) `{EffectRepository DB} `{!Store DB} := {
  eff_later_row st st' k r : db_ok st -> db_later st st' -> eff_row st k = Some r ->
    exists r', eff_row st' k = Some r' /\ same_effect r r' /\ effect_reaches (e_state r) (e_state r') = true;
  eff_committed_final st st' k r : db_ok st -> db_later st st' -> eff_row st k = Some r ->
    e_state r = E_COMMITTED -> eff_row st' k = Some r;
  eff_reserve_later now b st : db_later st (eff_reserve now b st).1;
  eff_commit_later now id h n st : db_later st (eff_commit now id h n st).1;
  eff_fail_later now id c st : db_later st (eff_fail now id c st).1;
  eff_mark_later now id c st : db_later st (eff_mark_indeterminate now id c st).1;
  eff_get_same now id s st : (eff_get now id s st).1 = st;
  eff_reserve_grants now b st res : db_ok st -> (eff_reserve now b st).2 = Ok res -> should_execute res = true ->
    eff_row st (b_effect_id b) = None /\
    exists r, eff_row (eff_reserve now b st).1 (b_effect_id b) = Some r /\ e_state r = E_RESERVED
      /\ e_owner_id r = b_owner_id b /\ e_project_id r = b_project_id b /\ e_run_id r = b_run_id b;
  eff_commit_ok now id h n st : db_ok st -> (eff_commit now id h n st).2 = Ok tt ->
    exists r, eff_row (eff_commit now id h n st).1 id = Some r /\ e_state r = E_COMMITTED
      /\ output_hash r = Some h /\ output_size r = Some n;
  eff_fail_ok now id c st : db_ok st -> (eff_fail now id c st).2 = Ok tt ->
    exists r, eff_row (eff_fail now id c st).1 id = Some r /\ e_state r = E_FAILED;
  eff_mark_ok now id c st : db_ok st -> (eff_mark_indeterminate now id c st).2 = Ok tt ->
    exists r, eff_row (eff_mark_indeterminate now id c st).1 id = Some r /\ e_state r = E_INDETERMINATE;
  eff_get_ok now id s st o : db_ok st -> (eff_get now id s st).2 = Ok o ->
    forall r, eff_row st id = Some r -> effect_of s r = true -> o = Some r
}.

#[export] Hint Resolve eff_reserve_later eff_commit_later eff_fail_later eff_mark_later : cogentrex.

(** ** The program *)

(** Ghost history: a reservation that authorises execution, and an execution of the
    tool with the database at that moment. *)
Inductive effect_event (DB : Type) : Type :=
| EGranted (effect_id : string)
| EExecuted (effect_id : string) (at_db : DB).
Arguments EGranted {DB}.
Arguments EExecuted {DB}.

(** What the tool does with the call. *)
Inductive tool_outcome : Type :=
| ToolReturned (output : pyval)
| ToolPermissionError
| ToolRaised
| ToolCancelled.

Definition tool_result (o : tool_outcome) : result exec_exn pyval :=
  match o with
  | ToolReturned v => Ok v
  | ToolPermissionError => Err EPermissionError
  | ToolRaised => Err EToolError
  | ToolCancelled => Err ECancelled
  end.

Definition state_value (s : EffectState) : string :=
  match s with
  | E_RESERVED => "reserved" | E_COMMITTED => "committed" | E_FAILED => "failed"
  | E_INDETERMINATE => "indeterminate"
  end%string.

Definition duplicate_response (s : EffectState) : json :=
  JObj [("status", JStr "duplicate_effect_blocked"); ("effect_state", JStr (state_value s))]%string.

Section executor.
Context {DB : Type} `{!EffectRepository DB}.

(** Resources approved for a call, by its key. *)
Definition call_key : Type := (string * string * string)%type.

#[local] Abbreviation X := (gmap (string * string * string) (list ResourcePattern)).
#[local] Abbreviation P := (M DB X (effect_event DB) exec_exn).
#[local] Abbreviation W := (world DB X (effect_event DB)).

Context (forecast : nat -> weather DB) (sha256_hex : string -> string)
  (effect_spec : ToolCall -> option (list ResourcePattern) -> result exec_exn (option (list ResourcePattern)))
  (complies : ToolCall -> bool)
  (bind_effect : ToolCall -> list ResourcePattern -> result exec_exn EffectBinding)
  (tool plain_tool : nat -> tool_outcome).

Definition eff_call {A} (op : Z -> DB -> DB * result effect_error A) : P A := call forecast ERepo op.

Definition _call_key (c : ToolCall) : result exec_exn (string * string * string) :=
  name ← lift_err (fun _ => EIdentityError) (canonical_tool_name (call_name c));
  Ok (call_id c, name, sha256_hex (dumps (JObj (arguments c)))).

(** [policy_request]: remember the resources the policy was asked about. *)
Definition approve (c : ToolCall) (resources : list ResourcePattern) : P unit := fun w =>
  match _call_key c with
  | Err e => (w, Err e)
  | Ok key => (mkWorld (db w) (ticks w) (<[key := resources]> (fields w)) (history w), Ok tt)
  end.

(** [self._approved_resources.pop(key, None)] *)
Definition pop_approved (key : string * string * string) : P (option (list ResourcePattern)) := fun w =>
  (mkWorld (db w) (ticks w) (delete key (fields w)) (history w), Ok (fields w !! key)).

Definition _mark_indeterminate (s : scope) (id code : string) : P unit :=
  record ← eff_call (fun now => eff_get now id s);
  match record with
  | Some r => if bool_decide (e_state r = E_RESERVED)
              then eff_call (fun now => eff_mark_indeterminate now id code) else mret tt
  | None => mret tt
  end.

(** [await self._delegate.execute_effect(..)] *)
Definition run_tool (id : string) : P pyval := fun w =>
  (_ ← elapse forecast (EExecuted id (db w)); of_result (tool_result (tool (ticks w)))) w.

Definition attempt (s : scope) (id : string) : P json :=
  output ← run_tool id;
  '(copy, hash, size) ← of_result (_output_evidence sha256_hex output);
  committed ← _cancellation_resistant forecast (eff_call (fun now => eff_commit now id hash size));
  match value committed with
  | Err _ =>
      _ ← _cancellation_resistant forecast (_mark_indeterminate s id "commit_failed");
      raise IndeterminateToolEffectError
  | Ok _ => if cancellation committed then raise ECancelled else mret copy
  end.

Definition on_exception (s : scope) (id : string) (e : exec_exn) : P json :=
  match e with
  | EPermissionError =>
      failed ← _cancellation_resistant forecast (eff_call (fun now => eff_fail now id "permission_denied"));
      match value failed with
      | Err _ => raise IndeterminateToolEffectError
      | Ok _ => raise EffectDispatchRejectedError
      end
  | _ =>
      cleanup ← _cancellation_resistant forecast (_mark_indeterminate s id "dispatch_interrupted");
      match value cleanup with
      | Err _ => raise IndeterminateToolEffectError
      | Ok _ => raise (if bool_decide (e = ECancelled) || cancellation cleanup then ECancelled
                       else IndeterminateToolEffectError)
      end
  end.

(** From the reservation on. *)
Definition execute_bound (s : scope) (b : EffectBinding) : P json :=
  o ← _cancellation_resistant forecast (eff_call (fun now => eff_reserve now b));
  match value o with
  | Err e => raise (if cancellation o then ECancelled else e)
  | Ok reservation =>
      _ ← (if should_execute reservation then record_event (EGranted (b_effect_id b)) else mret tt);
      if cancellation o then
        if should_execute reservation then
          released ← _cancellation_resistant forecast
            (eff_call (fun now => eff_fail now (b_effect_id b) "dispatch_cancelled"));
          match value released with
          | Err _ => raise IndeterminateToolEffectError
          | Ok _ => raise ECancelled
          end
        else raise ECancelled
      else if negb (should_execute reservation) then mret (duplicate_response (er_state reservation))
      else try_with (attempt s (b_effect_id b)) (on_exception s (b_effect_id b))
  end.

Definition execute (s : scope) (c : ToolCall) : P json :=
  key ← of_result (_call_key c);
  approved ← pop_approved key;
  spec ← of_result (effect_spec c approved);
  match spec with
  | None => fun w =>
      (mkWorld (w_others (forecast (ticks w)) (db w)) (S (ticks w)) (fields w) (history w),
       snapshot <$> tool_result (plain_tool (ticks w)))
  | Some resources =>
      if negb (complies c) then raise EPermissionError
      else b ← of_result (bind_effect c resources); execute_bound s b
  end.

(** ** Reasoning *)

Context `{!Store DB} `{!EffectRepositoryLaws DB}.
Hypothesis others_later : fair forecast.

Lemma wp_eff {A} (op : Z -> DB -> DB * result effect_error A) (Q : result exec_exn A -> W -> Prop) w :
  db_ok (db w) -> (forall now st, db_ok st -> db_later st (op now st).1) ->
  (forall r w', after w w' -> history w' = history w ->
     (forall a, r = Ok a -> exists now st, db_ok st /\ db_later (db w) st
        /\ (op now st).2 = Ok a /\ db w' = (op now st).1) -> Q r w') ->
  wp (eff_call op) Q w.
Proof. by apply (wp_call forecast others_later). Qed.

(** The effect's tombstone belongs to the scope and is no longer reserved. *)
Definition decided (st : DB) (s : scope) (id : string) : Prop :=
  exists r, eff_row st id = Some r /\ effect_of s r = true /\ e_state r <> E_RESERVED.

(** The tombstone is there, in the scope. *)
Definition entered (st : DB) (s : scope) (id : string) : Prop :=
  exists r, eff_row st id = Some r /\ effect_of s r = true.

Lemma effect_of_same s r r' : same_effect r r' -> effect_of s r = true -> effect_of s r' = true.
Proof.
  intros (_ & Eo & Ep & Er & _). unfold effect_of, effect_in. rewrite !bool_decide_eq_true. intros (? & ? & ?).
  split_and!; congruence.
Qed.

Lemma entered_later st st' s id : db_ok st -> db_later st st' -> entered st s id -> entered st' s id.
Proof.
  intros Hok Hl (r & Hr & Hs). destruct (eff_later_row _ _ _ _ Hok Hl Hr) as (r' & Hr' & Hid & _).
  exists r'. split; [done|]. by eapply effect_of_same.
Qed.

(** A row with a known state, in a scope entered before. *)
Lemma decided_intro st st' s id r : db_ok st -> db_later st st' -> entered st s id ->
  eff_row st' id = Some r -> e_state r <> E_RESERVED -> decided st' s id.
Proof.
  intros Hok Hl He Hr Hs. destruct (entered_later _ _ _ _ Hok Hl He) as (r' & Hr' & Hsc).
  exists r'. simplify_eq. done.
Qed.

Lemma mark_spec s id code w : db_ok (db w) -> entered (db w) s id ->
  wp (_mark_indeterminate s id code)
    (fun r w' => after w w' /\ history w' = history w /\ (r = Ok tt -> decided (db w') s id)) w.
Proof.
  intros Hok He. apply wp_bind, wp_eff; [done|intros now st _; by rewrite eff_get_same|].
  intros r w1 Ha1 Hh1 Hr1. destruct r as [o|e]; [|by split_and!].
  destruct (Hr1 _ eq_refl) as (now & st & Hst & Hl & Hg & Hdb). rewrite eff_get_same in Hdb.
  destruct (entered_later _ _ _ _ Hok Hl He) as (r & Hr & Hsc).
  rewrite (eff_get_ok _ _ _ _ _ Hst Hg _ Hr Hsc). case_bool_decide as Hres.
  - apply wp_eff; [by destruct Ha1|eauto with cogentrex|]. intros r2 w2 Ha2 Hh2 Hr2.
    split_and!; [by eapply after_trans|congruence|]. intros ->.
    destruct (Hr2 _ eq_refl) as (now2 & st2 & Hst2 & Hl2 & Hop & ->).
    destruct (eff_mark_ok _ _ _ _ Hst2 Hop) as (r3 & Hr3 & Hs3).
    eapply (decided_intro (db w1)); [by destruct Ha1| |by exists r; rewrite Hdb|exact Hr3|by rewrite Hs3].
    etrans; [exact Hl2|apply eff_mark_later].
  - apply wp_ret. split_and!; [done..|]. intros _. exists r. by rewrite Hdb.
Qed.

(** The output was committed: the tombstone holds its digest and size. *)
Definition committed_as (st : DB) (id : string) (copy : json) : Prop :=
  exists r, eff_row st id = Some r /\ e_state r = E_COMMITTED
    /\ output_hash r = Some (sha256_hex (dumps copy)) /\ output_size r = Some (len (dumps copy)).

Lemma evidence_inv v copy hash size : _output_evidence sha256_hex v = Ok (copy, hash, size) ->
  hash = sha256_hex (dumps copy) /\ size = len (dumps copy) /\ copy = snapshot v.
Proof.
  unfold _output_evidence. destruct (negb _); [done|]. destruct (_ <? _); [done|]. intros [= <- <- <-]. done.
Qed.

Lemma wp_run_tool id Q w : db_ok (db w) ->
  (forall r w', after w w' -> history w' = history w ++ [EExecuted id (db w)] -> Q r w') ->
  wp (run_tool id) Q w.
Proof. intros Hok HQ. apply wp_bind, (wp_elapse forecast others_later); [done|]. intros w' Ha Hh. by apply wp_of_result, HQ. Qed.

Lemma attempt_spec s id w : db_ok (db w) -> entered (db w) s id ->
  wp (attempt s id)
    (fun r w' => after w w' /\ history w' = history w ++ [EExecuted id (db w)]
       /\ forall copy, r = Ok copy -> committed_as (db w') id copy) w.
Proof.
  intros Hok He. apply wp_bind, wp_run_tool; [done|]. intros output w1 Ha1 Hh1.
  destruct output as [output|e]; [|by split_and!].
  apply wp_bind, wp_of_result. destruct (_output_evidence sha256_hex output) as [[[copy hash] size]|e] eqn:Hev; [|by split_and!].
  apply evidence_inv in Hev as (-> & -> & _).
  apply wp_bind, wp_resistant, wp_eff; [by destruct Ha1|eauto with cogentrex|].
  intros r w2 Ha2 Hh2 Hr2 cancelled. pose proof (after_trans _ _ _ Ha1 Ha2) as Ha12. cbn [value cancellation].
  destruct r as [[]|e].
  - destruct (Hr2 _ eq_refl) as (now & st & Hst & _ & Hop & Hdb).
    destruct (eff_commit_ok _ _ _ _ _ Hst Hop) as (r & Hr & Hs & Hh & Hn).
    destruct cancelled; [apply wp_raise; split_and!; [done|congruence|done]|apply wp_ret].
    split_and!; [done|congruence|]. intros copy' [= <-]. exists r. by rewrite Hdb.
  - apply wp_bind, wp_resistant. eapply wp_mono; [apply mark_spec; [by destruct Ha2|]|].
    { eapply entered_later; [exact Hok| |exact He]. by destruct Ha12. }
    intros r w3 (Ha3 & Hh3 & _) again. apply wp_raise. split_and!; [by eapply after_trans|congruence|done].
Qed.

Lemma on_exception_spec s id e w : db_ok (db w) -> entered (db w) s id ->
  wp (on_exception s id e)
    (fun r w' => after w w' /\ history w' = history w
       /\ exists e', r = Err e' /\ (decided (db w') s id \/ e' = IndeterminateToolEffectError)) w.
Proof.
  intros Hok He.
  assert (e <> EPermissionError -> wp (cleanup ← _cancellation_resistant forecast (_mark_indeterminate s id "dispatch_interrupted");
      match value cleanup with
      | Err _ => raise IndeterminateToolEffectError
      | Ok _ => raise (if bool_decide (e = ECancelled) || cancellation cleanup then ECancelled
                       else IndeterminateToolEffectError)
      end)
    (fun (r : result exec_exn json) w' => after w w' /\ history w' = history w
       /\ exists e', r = Err e' /\ (decided (db w') s id \/ e' = IndeterminateToolEffectError)) w) as Hgen.
  { intros _. apply wp_bind, wp_resistant. eapply wp_mono; [by apply mark_spec|].
    intros r w1 (Ha & Hh & Hr) cancelled. cbn [value cancellation].
    destruct r as [[]|x]; apply wp_raise; split_and!; [done..| |done|done|]; eexists; (split; [done|]); auto. }
  destruct e; try (by apply Hgen). unfold on_exception.
  apply wp_bind, wp_resistant, wp_eff; [done|eauto with cogentrex|].
  intros r w1 Ha Hh Hr cancelled. cbn [value cancellation].
  destruct r as [[]|x]; apply wp_raise; split_and!; [done..| |done|done|]; eexists; (split; [done|]); [|by right].
  left. destruct (Hr _ eq_refl) as (now & st & Hst & Hl & Hop & ->).
  destruct (eff_fail_ok _ _ _ _ Hst Hop) as (r & Hrow & Hs).
  eapply (decided_intro (db w)); [done| |done|exact Hrow|by rewrite Hs]. etrans; [exact Hl|apply eff_fail_later].
Qed.

(** The events of one call, the execution only of a reserved tombstone. *)
Inductive exec_events (id : string) : list (effect_event DB) -> Prop :=
| exec_none : exec_events id []
| exec_granted : exec_events id [EGranted id]
| exec_ran d r : eff_row d id = Some r -> e_state r = E_RESERVED -> exec_events id [EGranted id; EExecuted id d].

Definition exec_post (s : scope) (id : string) (w : W) (r : result exec_exn json) (w' : W) : Prop :=
  after w w' /\ exists evs, history w' = history w ++ evs /\ exec_events id evs
    /\ (evs <> [] -> decided (db w') s id \/ r = Err IndeterminateToolEffectError)
    /\ forall copy, r = Ok copy ->
         if bool_decide (evs = []) then exists st, copy = duplicate_response st
         else committed_as (db w') id copy.

Lemma exec_post_fail s id w w' e : after w w' -> history w' = history w -> exec_post s id w (Err e) w'.
Proof. intros Ha Hh. split; [done|]. exists []. rewrite app_nil_r. split_and!; [done|constructor|done..]. Qed.

Lemma committed_decided st s id copy : entered st s id -> committed_as st id copy -> decided st s id.
Proof. intros (r & Hr & Hs) (r' & Hr' & Hc & _). exists r. simplify_eq. split_and!; [done..|by rewrite Hc]. Qed.

Lemma execute_bound_spec s b w : db_ok (db w) ->
  (b_owner_id b = sc_owner s /\ b_project_id b = sc_project s /\ b_run_id b = sc_run s) ->
  wp (execute_bound s b) (exec_post s (b_effect_id b) w) w.
Proof.
  intros Hok (Eo & Ep & Er). set (id := b_effect_id b).
  apply wp_bind, wp_resistant, wp_eff; [done|eauto with cogentrex|].
  intros r w1 Ha1 Hh1 Hr1 cancelled. cbn [value cancellation].
  destruct r as [res|e]; [|destruct cancelled; by apply exec_post_fail].
  apply wp_bind. destruct (should_execute res) eqn:Hd; cbn [negb].
  2:{ apply wp_ret. destruct cancelled; [by apply exec_post_fail|]. split; [done|]. exists [].
      rewrite app_nil_r. split_and!; [done|constructor|done|]. intros copy [= <-]. cbn. by eexists. }
  destruct (Hr1 _ eq_refl) as (now & st & Hst & _ & Hop & Hdb).
  destruct (eff_reserve_grants _ _ _ _ Hst Hop Hd) as (_ & r & Hrow & Hres & Ro & Rp & Rr). rewrite <- Hdb in Hrow.
  assert (entered (db w1) s id) as He.
  { exists r. split; [done|]. apply bool_decide_eq_true. split_and!; congruence. }
  apply wp_record. set (w2 := mkWorld (db w1) _ _ _). assert (after w w2) as Ha2 by done.
  assert (history w2 = history w ++ [EGranted id]) as Hh2 by (cbn; by rewrite Hh1).
  destruct cancelled.
  - apply wp_bind, wp_resistant, wp_eff; [by destruct Ha2|eauto with cogentrex|].
    intros r3 w3 Ha3 Hh3 Hr3 again. cbn [value cancellation]. pose proof (after_trans _ _ _ Ha2 Ha3).
    destruct r3 as [[]|e]; apply wp_raise; (split; [done|]); exists [EGranted id]; rewrite Hh3;
      (split_and!; [done|constructor| |done]); intros _; [left|by right].
    destruct (Hr3 _ eq_refl) as (now3 & st3 & Hst3 & Hl3 & Hop3 & ->).
    destruct (eff_fail_ok _ _ _ _ Hst3 Hop3) as (r4 & Hr4 & Hs4).
    eapply (decided_intro (db w1)); [by destruct Ha2| |done|exact Hr4|by rewrite Hs4].
    etrans; [exact Hl3|apply eff_fail_later].
  - apply wp_try. eapply wp_mono; [apply attempt_spec; [by destruct Ha2|exact He]|].
    intros r3 w3 (Ha3 & Hh3 & Hc3). rewrite Hh2, <- app_assoc in Hh3. pose proof (after_trans _ _ _ Ha2 Ha3) as Ha23.
    assert (entered (db w3) s id) as He3 by (eapply entered_later; [|by destruct Ha3|exact He]; by destruct Ha2).
    assert (exec_events id [EGranted id; EExecuted id (db w2)]) as Hev by by econstructor.
    destruct r3 as [copy|e].
    + split; [done|]. eexists. split_and!; [exact Hh3|exact Hev| |].
      * intros _. left. eapply committed_decided; [done|by apply Hc3].
      * intros copy' [= <-]. cbn. by apply Hc3.
    + eapply wp_mono; [apply on_exception_spec; [by destruct Ha3|exact He3]|].
      intros r4 w4 (Ha4 & Hh4 & e' & -> & Hor). split; [by eapply after_trans|].
      eexists. split_and!; [rewrite Hh4; exact Hh3|exact Hev| |done].
      intros _. destruct Hor as [?| ->]; auto.
Qed.

(** The identity binding names the executor's own scope: true of identifiers that
    are already normalised. *)
Definition binds_scope (s : scope) : Prop := forall c rs b, bind_effect c rs = Ok b ->
  b_owner_id b = sc_owner s /\ b_project_id b = sc_project s /\ b_run_id b = sc_run s.

Lemma execute_spec s c w : db_ok (db w) -> binds_scope s ->
  wp (execute s c) (fun r w' =>
    (exists id, exec_post s id w r w') \/
    (history w' = history w /\ exists key approved, _call_key c = Ok key /\ effect_spec c approved = Ok None)) w.
Proof.
  intros Hok Hbind. apply wp_bind, wp_of_result.
  destruct (_call_key c) as [key|e] eqn:Hkey; [|left; exists ""%string; by apply exec_post_fail].
  apply wp_bind. unfold wp at 1, pop_approved. cbn [fst snd].
  apply wp_bind, wp_of_result.
  destruct (effect_spec c (fields w !! key)) as [[resources|]|e] eqn:Hspec;
    [|right; split; [done|by eauto]|left; exists ""%string; by apply exec_post_fail].
  destruct (complies c); cbn [negb]; [|left; exists ""%string; by apply exec_post_fail].
  apply wp_bind, wp_of_result.
  destruct (bind_effect c resources) as [b|e] eqn:Hb; [|left; exists ""%string; by apply exec_post_fail].
  set (w1 := mkWorld (db w) _ _ _). eapply wp_mono; [apply (execute_bound_spec s b w1); [done|by eapply Hbind]|].
  intros r w' Hpost. left. by exists (b_effect_id b).
Qed.
End executor.

(** ** The effect ledger is such a repository *)

#[export] Instance effects_repository : EffectRepository effects := {|
  eff_reserve := reserve_effect;
  eff_commit := commit_effect;
  eff_fail := fail_effect;
  eff_mark_indeterminate := mark_effect_indeterminate;
  eff_get := fun _ id s st => (st, get_effect id (sc_owner s) (sc_project s) (sc_run s) st);
  eff_row := fun st id => st !! id
|}.

#[export] Program Instance effects_store : Store effects := {|
  db_ok := effects_reachable;
  db_later := rtc effect_step
|}.
Next Obligation. intros st st' Hr Hs. cbn in *. exact (rtc_trans _ _ _ Hr Hs). Qed.

Lemma transition_row now id s hash size code (st : effects) :
  (_transition now id s hash size code st).2 = Ok tt ->
  exists r, (_transition now id s hash size code st).1 !! id = Some (complete_row now s hash size code r).
Proof.
  intros Hok. destruct (transition_rows now id s hash size code st) as [[e E]|(r & Hr & _ & E)]; rewrite E in *; [done|].
  exists r. apply lookup_insert_eq.
Qed.

#[export] Instance effects_repository_laws : EffectRepositoryLaws effects.
Proof.
  split.
  - intros st st' k r _ Hs Hk. destruct (effects_evolve _ _ _ _ Hs Hk) as (r' & ? & ? & ? & _). by exists r'.
  - intros st st' k r _ Hs Hk Hc. destruct (effects_evolve _ _ _ _ Hs Hk) as (r' & ? & _ & _ & Hf).
    rewrite Hf in *; [done|]. unfold final. by rewrite Hc.
  - intros. apply rtc_once, estep_reserve.
  - intros. apply rtc_once, estep_commit.
  - intros. apply rtc_once, estep_fail.
  - intros. apply rtc_once, estep_indeterminate.
  - done.
  - intros now b st res _ Hres Hd. cbn in *. unfold reserve_effect, reserve_effect_at in *.
    destruct (_ ← _effect_id (b_effect_id b); _) as [[id schema]|] eqn:Hv; [|done].
    assert (id = b_effect_id b) as ->.
    { inv_result. match goal with H : _effect_id _ = Ok _ |- _ =>
        unfold _effect_id in H; destruct (_ && _) in H; by inv_result end. }
    destruct (st !! b_effect_id b) as [r|] eqn:Hb; cbn in *; [inv_result; done|].
    split; [done|]. eexists. split; [apply lookup_insert_eq|done].
  - intros now id h n st _ Hok. cbn in *. unfold commit_effect in *.
    destruct (_ ← _digest h; _) as [h'|] eqn:Hv; [|done].
    assert (h' = h) as -> by (inv_result; match goal with H : _digest _ = Ok _ |- _ =>
      unfold _digest in H; destruct (is_hex64 _) in H; by inv_result end).
    destruct (transition_row _ _ _ _ _ _ _ Hok) as [r Hr]. eexists. by split_and!.
  - intros now id c st _ Hok. cbn in *. unfold fail_effect in *. destruct (_safe_code c); [|done].
    destruct (transition_row _ _ _ _ _ _ _ Hok) as [r Hr]. eexists. by split_and!.
  - intros now id c st _ Hok. cbn in *. unfold mark_effect_indeterminate in *. destruct (_safe_code c); [|done].
    destruct (transition_row _ _ _ _ _ _ _ Hok) as [r Hr]. eexists. by split_and!.
  - intros now id s st o _ Hg r Hr Hsc. cbn in *. unfold get_effect in Hg.
    destruct (_effect_id id) as [id'|] eqn:Hid; [|done]. cbn in Hg. inv_result.
    assert (id' = id) as -> by (unfold _effect_id in Hid; destruct (_ && _) in Hid; by inv_result).
    rewrite (scalar_pinned _ _ id r); [done| |done|].
    + intros k r' HP. by bool_to_prop.
    + by rewrite bool_decide_eq_true_2.
Qed.

(** ** Properties *)

(** C11. No execution strands a tombstone: when a call was granted a reservation, then
    after the call, whatever failed or was cancelled, the effect's row has left the
    reserved state, unless the call reports [IndeterminateToolEffectError]. *)
Theorem execute_never_strands {DB} `{EffectRepositoryLaws DB} (forecast : nat -> weather DB)
    (sha256_hex : string -> string)
    (effect_spec : ToolCall -> option (list ResourcePattern) -> result exec_exn (option (list ResourcePattern)))
    (complies : ToolCall -> bool) (bind_effect : ToolCall -> list ResourcePattern -> result exec_exn EffectBinding)
    (tool plain_tool : nat -> tool_outcome) (s : scope) (c : ToolCall)
    (w : world DB (gmap (string * string * string) (list ResourcePattern)) (effect_event DB)) :
  fair forecast -> db_ok (db w) -> binds_scope bind_effect s ->
  let (w', r) := execute forecast sha256_hex effect_spec complies bind_effect tool plain_tool s c w in
  forall id, EGranted id ∈ drop (length (history w)) (history w') ->
    decided (db w') s id \/ r = Err IndeterminateToolEffectError.
Proof.
  intros Hfair Hok Hbind.
  pose proof (execute_spec forecast sha256_hex effect_spec complies bind_effect tool plain_tool Hfair s c w Hok Hbind) as Hs.
  unfold wp in Hs. destruct (execute _ _ _ _ _ _ _ s c w) as [w' r]. cbn [fst snd] in Hs. intros id.
  destruct Hs as [(id' & _ & evs & Hh & Hev & Hset & _)|[Hh _]]; rewrite Hh.
  - rewrite drop_app_length. intros Hin. assert (id = id') as ->.
    { destruct Hev; rewrite ?elem_of_cons, elem_of_nil in Hin; [done|..];
        repeat destruct Hin as [[= ->]|Hin]; done. }
    apply Hset. intros ->. by apply elem_of_nil in Hin.
  - rewrite drop_all. intros Hin. by apply elem_of_nil in Hin.
Qed.

(** One call executes the tool at most once, only after its own reservation was
    granted and while the tombstone is still reserved. *)
Theorem execute_runs_once {DB} `{EffectRepositoryLaws DB} (forecast : nat -> weather DB)
    (sha256_hex : string -> string)
    (effect_spec : ToolCall -> option (list ResourcePattern) -> result exec_exn (option (list ResourcePattern)))
    (complies : ToolCall -> bool) (bind_effect : ToolCall -> list ResourcePattern -> result exec_exn EffectBinding)
    (tool plain_tool : nat -> tool_outcome) (s : scope) (c : ToolCall)
    (w : world DB (gmap (string * string * string) (list ResourcePattern)) (effect_event DB)) :
  fair forecast -> db_ok (db w) -> binds_scope bind_effect s ->
  exists id evs,
    history (execute forecast sha256_hex effect_spec complies bind_effect tool plain_tool s c w).1 = history w ++ evs
    /\ exec_events id evs.
Proof.
  intros Hfair Hok Hbind.
  destruct (execute_spec forecast sha256_hex effect_spec complies bind_effect tool plain_tool Hfair s c w Hok Hbind)
    as [(id & _ & evs & Hh & Hev & _)|[Hh _]]; [by eauto|].
  exists ""%string, []. rewrite app_nil_r. split; [done|constructor].
Qed.

(** What an effectful call returns: either the tool's output, and then the
    effect's row is committed with the digest and the size of exactly that output, or
    the notice that the effect was reserved before, and then the tool did not run. *)
Theorem execute_returns_committed {DB} `{EffectRepositoryLaws DB} (forecast : nat -> weather DB)
    (sha256_hex : string -> string)
    (effect_spec : ToolCall -> option (list ResourcePattern) -> result exec_exn (option (list ResourcePattern)))
    (complies : ToolCall -> bool) (bind_effect : ToolCall -> list ResourcePattern -> result exec_exn EffectBinding)
    (tool plain_tool : nat -> tool_outcome) (s : scope) (c : ToolCall)
    (w : world DB (gmap (string * string * string) (list ResourcePattern)) (effect_event DB)) (copy : json) :
  fair forecast -> db_ok (db w) -> binds_scope bind_effect s ->
  (forall approved, effect_spec c approved <> Ok None) ->
  let (w', r) := execute forecast sha256_hex effect_spec complies bind_effect tool plain_tool s c w in
  r = Ok copy ->
  (exists id, EGranted id ∈ drop (length (history w)) (history w') /\ committed_as sha256_hex (db w') id copy)
  \/ (history w' = history w /\ exists st, copy = duplicate_response st).
Proof.
  intros Hfair Hok Hbind Heff.
  pose proof (execute_spec forecast sha256_hex effect_spec complies bind_effect tool plain_tool Hfair s c w Hok Hbind) as Hs.
  unfold wp in Hs. destruct (execute _ _ _ _ _ _ _ s c w) as [w' r]. cbn [fst snd] in Hs. intros ->.
  destruct Hs as [(id & _ & evs & Hh & Hev & _ & Hc)|(_ & key & approved & _ & Hno)]; [|by destruct (Heff approved)].
  specialize (Hc _ eq_refl). case_bool_decide as He.
  - right. subst evs. by rewrite app_nil_r in Hh.
  - left. exists id. split; [|done]. rewrite Hh, drop_app_length. destruct Hev; [done|left..].
Qed.

Lemma scan_enough fuel : forall stack ancestors nodes bytes extra,
  MAX_NODES + 1 <= Z.of_nat fuel + nodes ->
  scan (fuel + extra) stack ancestors nodes bytes = scan fuel stack ancestors nodes bytes.
Proof.
  induction fuel as [|fuel IH]; intros stack ancestors nodes bytes extra Hf; destruct stack as [|[v depth] stack].
  - by destruct extra.
  - destruct extra as [|extra]; [done|]. cbn [scan Nat.add].
    rewrite (proj2 (Z.ltb_lt MAX_NODES (nodes + 1))) by lia. by rewrite orb_true_r.
  - done.
  - cbn [scan Nat.add]. destruct (_ || _); [done|]. destruct v; repeat case_match; try done; apply IH; lia.
Qed.

(** The traversal of an output terminates within its fuel: it visits at most the
    4096 nodes the source allows, so more fuel never changes its answer. *)
Theorem evidence_fuel_enough (extra : nat) (v : pyval) :
  scan (SCAN_FUEL + extra) [(v, 0)] ∅ 0 0 = scan SCAN_FUEL [(v, 0)] ∅ 0 0.
Proof. apply scan_enough. unfold SCAN_FUEL, MAX_NODES. lia. Qed.

(** An output that holds one container twice is refused after the tool ran, though
    it has no cycle; the same output with two equal containers is accepted. *)
Theorem shared_output_refused (sha256_hex : string -> string) :
  _output_evidence sha256_hex (PDict 0 [("a", PList 1 []); ("b", PList 1 [])]%string)
    = Err IndeterminateToolEffectError
  /\ is_ok (_output_evidence sha256_hex (PDict 0 [("a", PList 1 []); ("b", PList 2 [])]%string)) = true.
Proof. split; vm_compute; reflexivity. Qed.

(** *** Calls of a demonstration executor *)

Definition demo_call : ToolCall := mkToolCall "call-1" "write_file" [("path", JStr "/srv/app/x")]%string.
Definition demo_tool (_ : nat) : tool_outcome := ToolReturned (PDict 0 [("ok", PBool true)]%string).
Definition demo_bind (_ : ToolCall) (_ : list ResourcePattern) : result exec_exn EffectBinding := Ok demo_binding.
Definition demo_spec (_ : ToolCall) (_ : option (list ResourcePattern)) : result exec_exn (option (list ResourcePattern)) :=
  Ok (Some []).
Definition demo_executor_world : world effects (gmap (string * string * string) (list ResourcePattern)) (effect_event effects) :=
  mkWorld ∅ 0 ∅ [].

Lemma demo_binds : binds_scope demo_bind demo_scope.
Proof. intros c rs b [= <-]. done. Qed.

(** The commit is lost, and the caller cancels during the cleanup. *)
Definition effect_storm (n : nat) : weather effects :=
  if Nat.eqb n 2 then mkWeather (fun st => st) FailBefore false
  else mkWeather (fun st => st) Clean (Nat.eqb n 3).

Lemma effect_storm_fair : fair effect_storm.
Proof. intros n st _. unfold effect_storm. destruct (Nat.eqb n 2); reflexivity. Qed.

Definition stormy_execution :=
  execute effect_storm demo_digest demo_spec (fun _ => true) demo_bind demo_tool demo_tool demo_scope demo_call
    demo_executor_world.

Lemma execute_never_strands_witness : decided (db stormy_execution.1) demo_scope demo_effect_id
  \/ stormy_execution.2 = Err IndeterminateToolEffectError.
Proof.
  pose proof (execute_never_strands effect_storm demo_digest demo_spec (fun _ => true) demo_bind demo_tool demo_tool
    demo_scope demo_call demo_executor_world effect_storm_fair (rtc_refl _ _) demo_binds) as Hsafe.
  fold stormy_execution in Hsafe.
  assert (EGranted demo_effect_id ∈ drop (length (history demo_executor_world)) (history stormy_execution.1)) as Hin
    by (vm_compute; left).
  destruct stormy_execution as [w' r]. exact (Hsafe _ Hin).
Defined.

Lemma execute_runs_once_witness : exists id evs,
  history stormy_execution.1 = history demo_executor_world ++ evs /\ exec_events id evs.
Proof.
  pose proof (execute_runs_once effect_storm demo_digest demo_spec (fun _ => true) demo_bind demo_tool demo_tool
    demo_scope demo_call demo_executor_world effect_storm_fair (rtc_refl _ _) demo_binds) as Honce.
  fold stormy_execution in Honce. exact Honce.
Defined.

Definition fair_execution :=
  execute calm demo_digest demo_spec (fun _ => true) demo_bind demo_tool demo_tool demo_scope demo_call
    demo_executor_world.

Lemma execute_returns_committed_witness :
  fair_execution.2 = Ok (JObj [("ok", JBool true)]%string) /\
  ((exists id, EGranted id ∈ drop (length (history demo_executor_world)) (history fair_execution.1)
      /\ committed_as demo_digest (db fair_execution.1) id (JObj [("ok", JBool true)]%string))
   \/ (history fair_execution.1 = history demo_executor_world
       /\ exists st, JObj [("ok", JBool true)]%string = duplicate_response st)).
Proof.
  pose proof (execute_returns_committed calm demo_digest demo_spec (fun _ => true) demo_bind demo_tool demo_tool
    demo_scope demo_call demo_executor_world (JObj [("ok", JBool true)]%string) calm_fair (rtc_refl _ _) demo_binds) as Hc.
  fold fair_execution in Hc.
  assert (fair_execution.2 = Ok (JObj [("ok", JBool true)]%string)) as Hr by (vm_compute; reflexivity).
  split; [exact Hr|]. destruct fair_execution as [w' r]. apply Hc; [|exact Hr]. intros approved E. discriminate E.
Defined.
