(* ===== verification/EffectIdentity.v ===== *)
(** * The identity of an external effect ([runtime/effect_ledger.py])

    [EffectIdentityInput] checks and canonicalises what an effect is about,
    [bind_effect_identity] reduces it to an HMAC: the key of the effect's tombstone.
    Included are the argument snapshot and hash of [security/policy.py]. Text is ASCII,
    on which the normal form NFC is the identity; an iterator is the list of what it
    still has to give. *)

From Stdlib Require Import ZArith Lia String Ascii.
From stdpp Require Import base gmap strings list fin_maps sorting.
From S2P Require Import Prelude Strings Json JsonText Sha256 Policy MonetaryLedger BudgetedProvider EffectLedger EffectExecutor.
Open Scope Z_scope.

Definition IDENTITY_VERSION : Z := 1.
Definition _MIN_SECRET_BYTES : Z := 32.
Definition MAX_IDENTITY_NESTING_DEPTH : Z := 32.
Definition MAX_IDENTITY_NODES : Z := 4096.
Definition MAX_IDENTITY_STRING_BYTES : Z := 16384.
Definition MAX_CANONICAL_DOCUMENT_BYTES : Z := 262144.
Definition MAX_IDENTITY_RESOURCES : Z := 64.
Definition MAX_RESOURCE_PATTERN_BYTES : Z := 2048.

Inductive identity_error : Type := IdentityTypeError | IdentityValueError.

#[export] Instance identity_error_eq_dec : EqDecision identity_error.
Proof. solve_decision. Defined.

(** ** Values

    A Python value as a caller may pass it: containers carry their [id], a key that is
    not a string is [None], a value of any other type is [VOther]. *)

#[warnings="-register-all"]
Inductive value : Type :=
| VNone
| VBool (b : bool)
| VInt (z : Z)
| VFloat (finite : bool) (repr : string)
| VStr (s : string)
| VDict (identity : nat) (items : list (option string * value))
| VList (identity : nat) (items : list value)
| VOther.

Lemma value_nested_ind (P : value -> Prop) :
  P VNone -> (forall b, P (VBool b)) -> (forall z, P (VInt z)) -> (forall f t, P (VFloat f t)) -> (forall s, P (VStr s)) ->
  (forall i items, Forall (fun kv => P kv.2) items -> P (VDict i items)) ->
  (forall i items, Forall P items -> P (VList i items)) -> P VOther -> forall v, P v.
Proof.
  intros Hn Hb Hi Hf Hs Hd Hl Ho. fix IH 1. intros [| | | | |i items|i items|]; [done|done|done|done|done|apply Hd|apply Hl|done].
  - induction items as [|[k v] items IHl]; constructor; [apply IH|apply IHl].
  - induction items as [|v items IHl]; constructor; [apply IH|apply IHl].
Qed.

Definition _unicode_bytes (s : string) (maximum : Z) : result identity_error unit :=
  require (len s <=? maximum) IdentityValueError.

(** Leading and trailing white space, control characters, length. *)
Definition _identifier (s : string) (maximum : Z) : result identity_error string :=
  _ ← _unicode_bytes s MAX_IDENTITY_STRING_BYTES;
  _ ← require (negb (string_eqb s "") && string_eqb s (strip s)) IdentityValueError;
  _ ← require (len s <=? maximum) IdentityValueError;
  _ ← require (string_forall (fun c => negb (is_control c)) s) IdentityValueError;
  Ok s.

(** ** Bounded traversal ([_validate_canonical_value]) *)

Inductive event : Type :=
| EValue (v : value) (depth : Z)
| EMapping (items : list (option string * value)) (depth : Z)
| EList (items : list value) (depth : Z)
| ELeave (identity : nat).

(** The key of an item: one more node, a string, not too long. *)
Definition key_check (k : option string) (nodes : Z) : option identity_error :=
  if MAX_IDENTITY_NODES <? nodes then Some IdentityValueError
  else match k with
       | None => Some IdentityTypeError
       | Some k => if len k <=? MAX_IDENTITY_STRING_BYTES then None else Some IdentityValueError
       end.

(** Entering a container. *)
Definition enter_check (i : nat) (depth : Z) (active : gset nat) : option identity_error :=
  if MAX_IDENTITY_NESTING_DEPTH <=? depth then Some IdentityValueError
  else if bool_decide (i ∈ active) then Some IdentityValueError else None.

(** The loop; [None] is fuel that ran out. *)
Fixpoint walk (fuel : nat) (stack : list event) (active : gset nat) (nodes : Z) : option (result identity_error unit) :=
  match stack with
  | [] => Some (Ok tt)
  | e :: stack' =>
    match fuel with
    | O => None
    | S fuel' =>
      match e with
      | ELeave i => walk fuel' stack' (active ∖ {[ i ]}) nodes
      | EMapping [] _ | EList [] _ => walk fuel' stack' active nodes
      | EMapping ((k, child) :: items) depth =>
          match key_check k (nodes + 1) with
          | Some err => Some (Err err)
          | None => walk fuel' (EValue child depth :: EMapping items depth :: stack') active (nodes + 1)
          end
      | EList (child :: items) depth =>
          walk fuel' (EValue child depth :: EList items depth :: stack') active nodes
      | EValue v depth =>
          let nodes := nodes + 1 in
          if MAX_IDENTITY_NODES <? nodes then Some (Err IdentityValueError)
          else match v with
          | VNone | VBool _ | VInt _ => walk fuel' stack' active nodes
          | VFloat finite _ => if finite then walk fuel' stack' active nodes else Some (Err IdentityValueError)
          | VStr s =>
              match _unicode_bytes s MAX_IDENTITY_STRING_BYTES with
              | Err err => Some (Err err)
              | Ok _ => walk fuel' stack' active nodes
              end
          | VDict i items =>
              match enter_check i depth active with
              | Some err => Some (Err err)
              | None => walk fuel' (EMapping items (depth + 1) :: ELeave i :: stack') ({[ i ]} ∪ active) nodes
              end
          | VList i items =>
              match enter_check i depth active with
              | Some err => Some (Err err)
              | None => walk fuel' (EList items (depth + 1) :: ELeave i :: stack') ({[ i ]} ∪ active) nodes
              end
          | VOther => Some (Err IdentityTypeError)
          end
      end
    end
  end.

(** Each node costs at most four events. *)
Definition WALK_FUEL : nat := Z.to_nat (4 * (MAX_IDENTITY_NODES + 1)).

Definition _validate_canonical_value (v : value) : option (result identity_error unit) :=
  match v with
  | VDict _ _ => walk WALK_FUEL [EValue v 0] ∅ 0
  | _ => Some (Err IdentityTypeError)
  end.

(** ** The canonical document *)

(** [_canonical_json_value] of [security/policy.py]. *)
Fixpoint _canonical_json_value (v : value) (active : gset nat) : result identity_error json :=
  match v with
  | VNone => Ok JNull
  | VBool b => Ok (JBool b)
  | VInt z => Ok (JInt z)
  | VFloat finite repr => if finite then Ok (JFloat repr) else Err IdentityValueError
  | VStr s => Ok (JStr s)
  | VDict i items =>
      if bool_decide (i ∈ active) then Err IdentityValueError
      else JObj <$> (fix go l := match l with
                                 | [] => Ok []
                                 | (k, x) :: l' =>
                                     match k with
                                     | None => Err IdentityTypeError
                                     | Some k => x ← _canonical_json_value x ({[ i ]} ∪ active); l' ← go l'; Ok ((k, x) :: l')
                                     end
                                 end) items
  | VList i items =>
      if bool_decide (i ∈ active) then Err IdentityValueError
      else JArr <$> (fix go l := match l with
                                 | [] => Ok []
                                 | x :: l' => x ← _canonical_json_value x ({[ i ]} ∪ active); l' ← go l'; Ok (x :: l')
                                 end) items
  | VOther => Err IdentityTypeError
  end.

Definition canonical_arguments_snapshot (v : value) : result identity_error json :=
  normalized ← _canonical_json_value v ∅;
  match normalized with JObj _ => Ok normalized | _ => Err IdentityTypeError end.

(** [int.__repr__] refuses integers of more than [MAX_INT_DIGITS] digits. *)
Fixpoint encodable (v : json) : bool :=
  match v with
  | JInt z => int_printable z
  | JArr l => (fix go l := match l with [] => true | x :: l' => encodable x && go l' end) l
  | JObj kvs => (fix go l := match l with [] => true | (_, x) :: l' => encodable x && go l' end) kvs
  | _ => true
  end.

Definition canonical_arguments_hash (v : value) : result identity_error string :=
  normalized ← _canonical_json_value v ∅;
  _ ← require (encodable normalized) IdentityValueError;
  Ok (sha256_hex (dumps normalized)).

(** The snapshot and its text; the traversal always ends ([walk_is_check]), so running
    out of fuel has no effect on any value. *)
Definition _canonical_document (v : value) : result identity_error (json * string) :=
  _ ← default (Err IdentityValueError) (_validate_canonical_value v);
  snapshot ← canonical_arguments_snapshot v;
  _ ← require (encodable snapshot) IdentityValueError;
  _ ← require (len (dumps snapshot) <=? MAX_CANONICAL_DOCUMENT_BYTES) IdentityValueError;
  Ok (snapshot, dumps snapshot).

Definition _canonical_json (v : json) : result identity_error string :=
  _ ← require (encodable v) IdentityValueError; Ok (dumps v).

(** ** Identity *)

(** The constructor's arguments. *)
Record effect_request : Type := mkEffectRequest {
  q_owner_id : string;
  q_project_id : string;
  q_run_id : string;
  q_tool_name : string;
  q_arguments : value;
  q_resources : list ResourcePattern;
  q_input_schema : value;
  q_tool_call_id : option string
}.

Record EffectIdentityInput : Type := mkIdentity {
  i_owner_id : string;
  i_project_id : string;
  i_run_id : string;
  i_tool_name : string;
  i_arguments : json;
  i_resources : list ResourcePattern;
  i_input_schema : json;
  i_tool_call_id : option string;
  _arguments_hash : string;
  _schema_hash : string
}.

Definition kind_value (k : ResourceKind) : string :=
  match k with TOOL_KIND => "tool" | PATH => "path" | HOST => "host" end.

(** [key=lambda item: (item.kind.value, item.pattern)] *)
Definition resource_le (a b : ResourcePattern) : Prop :=
  (if string_eqb (kind_value (kind a)) (kind_value (kind b)) then String.leb (pattern a) (pattern b)
   else String.leb (kind_value (kind a)) (kind_value (kind b))) = true.

#[export] Instance resource_le_dec : RelDecision resource_le.
Proof. intros a b. unfold resource_le. apply _. Defined.

(** The loop over the iterator, which asks for one resource more than it accepts. *)
Fixpoint take_resources (taken : Z) (l : list ResourcePattern) : result identity_error unit :=
  match l with
  | [] => Ok tt
  | r :: l' =>
      _ ← require (negb (taken =? MAX_IDENTITY_RESOURCES)) IdentityValueError;
      _ ← _unicode_bytes (kind_value (kind r)) MAX_IDENTITY_STRING_BYTES;
      _ ← _unicode_bytes (pattern r) MAX_RESOURCE_PATTERN_BYTES;
      take_resources (taken + 1) l'
  end.

Definition canonical_tool (name : string) : result identity_error string :=
  _ ← _unicode_bytes name MAX_IDENTITY_STRING_BYTES;
  name ← lift_err (fun _ => IdentityValueError) (canonical_tool_name name);
  _identifier name 255.

(** [EffectIdentityInput(..)] *)
Definition new_identity (q : effect_request) : result identity_error EffectIdentityInput :=
  owner ← _identifier (q_owner_id q) 255;
  project ← _identifier (q_project_id q) 255;
  run ← _identifier (q_run_id q) 36;
  tool ← canonical_tool (q_tool_name q);
  '(args, args_json) ← _canonical_document (q_arguments q);
  '(schema, schema_json) ← _canonical_document (q_input_schema q);
  _ ← take_resources 0 (q_resources q);
  _ ← require (bool_decide (NoDup (q_resources q))) IdentityValueError;
  Ok (mkIdentity owner project run tool args (merge_sort resource_le (q_resources q)) schema (q_tool_call_id q)
        (sha256_hex args_json) (sha256_hex schema_json)).

(** [EffectBinding.__post_init__] *)
Definition new_binding (id : string) (version : Z) (owner project run tool schema : string) : result identity_error EffectBinding :=
  _ ← require (is_ok (_effect_id id)) IdentityValueError;
  _ ← require (version =? IDENTITY_VERSION) IdentityValueError;
  owner ← _identifier owner 255;
  project ← _identifier project 255;
  run ← _identifier run 36;
  tool ← canonical_tool tool;
  _ ← require (is_hex64 schema) IdentityValueError;
  Ok (mkBinding id version owner project run tool schema).

Definition resource_document (r : ResourcePattern) : json :=
  JObj [("kind", JStr (kind_value (kind r))); ("pattern", JStr (pattern r))]%string.

Definition identity_document (i : EffectIdentityInput) : json :=
  JObj [("arguments_hash", JStr (_arguments_hash i)); ("identity_version", JInt IDENTITY_VERSION);
        ("owner_id", JStr (i_owner_id i)); ("project_id", JStr (i_project_id i));
        ("resources", JArr (resource_document <$> i_resources i)); ("run_id", JStr (i_run_id i));
        ("schema_hash", JStr (_schema_hash i)); ("tool_name", JStr (i_tool_name i))]%string.

Definition bind_effect_identity (i : EffectIdentityInput) (secret : string) : result identity_error EffectBinding :=
  _ ← require (_MIN_SECRET_BYTES <=? len secret) IdentityValueError;
  document ← _canonical_json (identity_document i);
  new_binding (String.append "eff_v1_" (hmac_hex secret document)) IDENTITY_VERSION
    (i_owner_id i) (i_project_id i) (i_run_id i) (i_tool_name i) (_schema_hash i).

(** What [DurableEffectToolExecutor.execute] does with both. *)
Definition bind_request (secret : string) (q : effect_request) : result identity_error EffectBinding :=
  i ← new_identity q; bind_effect_identity i secret.

(** ** The traversal is a recursive check

    [check v depth active nodes] is the number of nodes counted when the traversal of [v]
    ends, and its error. *)

Definition visit {A} (check : A -> Z -> Z * option identity_error) : list A -> Z -> Z * option identity_error :=
  fix go l n := match l with
                | [] => (n, None)
                | x :: l' => match check x n with
                             | (n, None) => go l' n
                             | (n, Some e) => (n, Some e)
                             end
                end.

Fixpoint check (v : value) (depth : Z) (active : gset nat) (n : Z) : Z * option identity_error :=
  let n := n + 1 in
  if MAX_IDENTITY_NODES <? n then (n, Some IdentityValueError)
  else match v with
  | VNone | VBool _ | VInt _ => (n, None)
  | VFloat finite _ => (n, if finite then None else Some IdentityValueError)
  | VStr s => (n, if len s <=? MAX_IDENTITY_STRING_BYTES then None else Some IdentityValueError)
  | VDict i items =>
      match enter_check i depth active with
      | Some e => (n, Some e)
      | None => visit (fun kv n => match key_check kv.1 (n + 1) with
                                   | Some e => (n + 1, Some e)
                                   | None => check kv.2 (depth + 1) ({[ i ]} ∪ active) (n + 1)
                                   end) items n
      end
  | VList i items =>
      match enter_check i depth active with
      | Some e => (n, Some e)
      | None => visit (fun x n => check x (depth + 1) ({[ i ]} ∪ active) n) items n
      end
  | VOther => (n, Some IdentityTypeError)
  end.

(** [k] units of fuel take the traversal of [e] to what the check says; [n] and [m] count
    the nodes. *)
Definition walks (e : event) (active active' : gset nat) (n : Z) (answer : Z * option identity_error) : Prop :=
  exists k : nat, n <= answer.1 /\ Z.of_nat k < 4 * (answer.1 - n) /\
    forall fuel stack, walk (k + fuel) (e :: stack) active n =
      match answer.2 with None => walk fuel stack active' answer.1 | Some err => Some (Err err) end.

(** The same for the remaining items of a container and the event that leaves it. *)
Definition walks_on (e : event) (i : nat) (active : gset nat) (n : Z) (answer : Z * option identity_error) : Prop :=
  exists k : nat, n <= answer.1 /\ Z.of_nat k <= 4 * (answer.1 - n) + 2 /\
    forall fuel stack, walk (k + fuel) (e :: ELeave i :: stack) ({[ i ]} ∪ active) n =
      match answer.2 with None => walk fuel stack active answer.1 | Some err => Some (Err err) end.

Lemma leave_active i (active : gset nat) : i ∉ active -> ({[ i ]} ∪ active) ∖ {[ i ]} = active.
Proof. set_solver. Qed.

Lemma enter_fresh i depth active : enter_check i depth active = None -> depth < MAX_IDENTITY_NESTING_DEPTH /\ i ∉ active.
Proof.
  unfold enter_check. destruct (_ <=? _) eqn:Hd; [done|]. apply Z.leb_gt in Hd.
  case_bool_decide; [done|]. by split.
Qed.

Lemma walks_stop i active n e depth : i ∉ active -> e = EMapping [] depth \/ e = EList [] depth ->
  walks_on e i active n (n, None).
Proof.
  intros Hi He. exists 2%nat. cbn [fst snd]. split; [lia|]. split; [lia|]. intros fuel stack.
  destruct He as [-> | ->]; cbn [walk Nat.add]; by rewrite leave_active.
Qed.

Lemma walks_items i items depth active : i ∉ active ->
  Forall (fun kv => forall n, walks (EValue kv.2 depth) ({[ i ]} ∪ active) ({[ i ]} ∪ active) n
                                (check kv.2 depth ({[ i ]} ∪ active) n)) items ->
  forall n, walks_on (EMapping items depth) i active n
    (visit (fun kv n => match key_check kv.1 (n + 1) with
                        | Some e => (n + 1, Some e)
                        | None => check kv.2 depth ({[ i ]} ∪ active) (n + 1)
                        end) items n).
Proof.
  intros Hi. induction 1 as [|[key x] items Hx _ IH]; intros n.
  - apply (walks_stop _ _ _ _ depth); [done|by left].
  - cbn [visit fst snd]. destruct (key_check key (n + 1)) as [err|] eqn:Hk.
    { exists 1%nat. cbn [fst snd]. split; [lia|]. split; [lia|]. intros fuel stack. cbn [walk Nat.add]. by rewrite Hk. }
    cbn [fst snd] in Hx. specialize (Hx (n + 1)). destruct (check x depth _ (n + 1)) as [m [err|]] eqn:Hc.
    + destruct Hx as (k & Hm & Hcost & Hw). exists (S k). cbn [fst snd] in *. split; [lia|]. split; [lia|].
      intros fuel stack. cbn [walk Nat.add]. rewrite Hk. apply Hw.
    + destruct Hx as (k & Hm & Hcost & Hw). destruct (IH m) as (k' & Hm' & Hcost' & Hw'). cbn [fst snd] in *.
      exists (S (k + k')). split; [lia|]. split; [lia|].
      intros fuel stack. cbn [walk Nat.add]. rewrite Hk, <- Nat.add_assoc, Hw. apply Hw'.
Qed.

Lemma walks_list i items depth active : i ∉ active ->
  Forall (fun x => forall n, walks (EValue x depth) ({[ i ]} ∪ active) ({[ i ]} ∪ active) n
                                (check x depth ({[ i ]} ∪ active) n)) items ->
  forall n, walks_on (EList items depth) i active n
    (visit (fun x n => check x depth ({[ i ]} ∪ active) n) items n).
Proof.
  intros Hi. induction 1 as [|x items Hx _ IH]; intros n.
  - apply (walks_stop _ _ _ _ depth); [done|by right].
  - cbn [visit]. specialize (Hx n). destruct (check x depth _ n) as [m [err|]] eqn:Hc.
    + destruct Hx as (k & Hm & Hcost & Hw). exists (S k). cbn [fst snd] in *. split; [lia|]. split; [lia|].
      intros fuel stack. cbn [walk Nat.add]. apply Hw.
    + destruct Hx as (k & Hm & Hcost & Hw). destruct (IH m) as (k' & Hm' & Hcost' & Hw'). cbn [fst snd] in *.
      exists (S (k + k')). split; [lia|]. split; [lia|].
      intros fuel stack. cbn [walk Nat.add]. rewrite <- Nat.add_assoc, Hw. apply Hw'.
Qed.

Lemma check_walks v : forall depth active n, walks (EValue v depth) active active n (check v depth active n).
Proof.
  induction v as [|b|z|finite t|s|i items IH|i items IH|] using value_nested_ind; intros depth active n;
    unfold check; fold check; (destruct (MAX_IDENTITY_NODES <? n + 1) eqn:Hn;
      [exists 1%nat; cbn [fst snd]; split; [lia|]; split; [lia|]; intros; cbn [walk Nat.add]; by rewrite Hn|]).
  1-5, 8: exists 1%nat; cbn [fst snd]; split; [lia|]; split; [lia|]; intros; cbn [walk Nat.add]; rewrite Hn; try done.
  - by destruct finite.
  - unfold _unicode_bytes, require. by destruct (len s <=? MAX_IDENTITY_STRING_BYTES).
  - destruct (enter_check i depth active) as [err|] eqn:He.
    { exists 1%nat; cbn [fst snd]; split; [lia|]; split; [lia|]; intros; cbn [walk Nat.add]. by rewrite Hn, He. }
    destruct (walks_items i items (depth + 1) active) with (n := n + 1) as (k & Hm & Hcost & Hw);
      [by apply enter_fresh in He as [_ ?]|eapply Forall_impl; [exact IH|]; intros kv Hkv m; apply Hkv|].
    exists (S k). split; [lia|]. split; [lia|]. intros fuel stack. cbn [walk Nat.add]. rewrite Hn, He. apply Hw.
  - destruct (enter_check i depth active) as [err|] eqn:He.
    { exists 1%nat; cbn [fst snd]; split; [lia|]; split; [lia|]; intros; cbn [walk Nat.add]. by rewrite Hn, He. }
    destruct (walks_list i items (depth + 1) active) with (n := n + 1) as (k & Hm & Hcost & Hw);
      [by apply enter_fresh in He as [_ ?]|eapply Forall_impl; [exact IH|]; intros kv Hkv m; apply Hkv|].
    exists (S k). split; [lia|]. split; [lia|]. intros fuel stack. cbn [walk Nat.add]. rewrite Hn, He. apply Hw.
Qed.

(** *** What the check accepts *)

(** Strings within bounds, finite floats, string keys, no cycle, depth below the limit. *)
Fixpoint shaped (v : value) (depth : Z) (active : gset nat) : bool :=
  match v with
  | VNone | VBool _ | VInt _ => true
  | VFloat finite _ => finite
  | VStr s => len s <=? MAX_IDENTITY_STRING_BYTES
  | VDict i items =>
      (depth <? MAX_IDENTITY_NESTING_DEPTH) && bool_decide (i ∉ active)
      && forallb (fun kv => match kv.1 with Some k => len k <=? MAX_IDENTITY_STRING_BYTES | None => false end
                            && shaped kv.2 (depth + 1) ({[ i ]} ∪ active)) items
  | VList i items =>
      (depth <? MAX_IDENTITY_NESTING_DEPTH) && bool_decide (i ∉ active)
      && forallb (fun x => shaped x (depth + 1) ({[ i ]} ∪ active)) items
  | VOther => false
  end.

(** Values and keys. *)
Fixpoint node_count (v : value) : Z :=
  match v with
  | VDict _ items => 1 + fold_right (fun kv acc => 1 + node_count kv.2 + acc) 0 items
  | VList _ items => 1 + fold_right (fun x acc => node_count x + acc) 0 items
  | _ => 1
  end.

Lemma node_count_pos v : 0 < node_count v.
Proof.
  induction v as [| | | | |i items IH|i items IH|] using value_nested_ind; cbn [node_count]; try lia.
  - induction IH as [|kv items Hkv _ IHl]; cbn [fold_right]; lia.
  - induction IH as [|x items Hx _ IHl]; cbn [fold_right]; lia.
Qed.

Definition weight {A} (w : A -> Z) (l : list A) : Z := fold_right (fun x acc => w x + acc) 0 l.

Lemma visit_check_spec {A} (f : A -> Z -> Z * option identity_error) (p : A -> bool) (w : A -> Z) l :
  Forall (fun x => 0 <= w x /\ forall n m, n <= MAX_IDENTITY_NODES ->
    f x n = (m, None) <-> p x = true /\ n + w x <= MAX_IDENTITY_NODES /\ m = n + w x) l ->
  forall n m, n <= MAX_IDENTITY_NODES ->
    visit f l n = (m, None) <-> forallb p l = true /\ n + weight w l <= MAX_IDENTITY_NODES /\ m = n + weight w l.
Proof.
  induction 1 as [|x l [Hw Hx] Hl IH]; intros n m Hn.
  - cbn. split; [intros [= <-]; lia|]. intros (_ & _ & ->). by rewrite Z.add_0_r.
  - assert (0 <= weight w l) by (clear -Hl; unfold weight; induction Hl as [|? ? [? _]]; cbn [fold_right]; lia).
    cbn [visit forallb]. rewrite andb_true_iff. change (weight w (x :: l)) with (w x + weight w l). split.
    + destruct (f x n) as [m' [e|]] eqn:Hf; [done|]. apply Hx in Hf as (Hp & Hle & ->); [|done]. fold (visit f).
      intros (? & ? & ?)%IH; [|done]. repeat split; [done..| |]; lia.
    + intros ([Hp Hps] & Hle & ->). destruct (Hx n (n + w x) Hn) as [_ Hf]. rewrite Hf by (split; [done|lia]).
      fold (visit f). apply IH; [lia|]. repeat split; [done| |]; lia.
Qed.

Lemma node_count_dict i items : node_count (VDict i items) = 1 + weight (fun kv => 1 + node_count kv.2) items.
Proof. reflexivity. Qed.
Lemma node_count_list i items : node_count (VList i items) = 1 + weight node_count items.
Proof. reflexivity. Qed.

Lemma enter_check_spec i depth active :
  enter_check i depth active = None <-> (depth <? MAX_IDENTITY_NESTING_DEPTH) && bool_decide (i ∉ active) = true.
Proof.
  unfold enter_check. rewrite Z.ltb_antisym. destruct (_ <=? depth); [done|].
  rewrite bool_decide_not. by destruct (bool_decide (i ∈ active)).
Qed.

(** The check ends without an error exactly on small, well-shaped values. *)
Lemma check_spec v : forall depth active n m, n <= MAX_IDENTITY_NODES ->
  check v depth active n = (m, None)
  <-> shaped v depth active = true /\ n + node_count v <= MAX_IDENTITY_NODES /\ m = n + node_count v.
Proof.
  induction v as [|b|z|finite t|s|i items IH|i items IH|] using value_nested_ind; intros depth active n m Hm;
    unfold check; fold check; destruct (MAX_IDENTITY_NODES <? n + 1) eqn:Hn;
    try (apply Z.ltb_lt in Hn; split; [done|]; intros (_ & Hle & _);
         match type of Hle with context[node_count ?v] => pose proof (node_count_pos v) end; lia);
    apply Z.ltb_ge in Hn; cbn [shaped].
  1-3: cbn [node_count]; split; [by intros [= <-]|by intros (_ & _ & ->)].
  - cbn [node_count]. destruct finite; naive_solver.
  - cbn [node_count]. destruct (len s <=? MAX_IDENTITY_STRING_BYTES); naive_solver.
  - rewrite node_count_dict, andb_true_iff, <- enter_check_spec. destruct (enter_check i depth active) as [e|]; [naive_solver|].
    rewrite (visit_check_spec _ (fun kv => match kv.1 with Some k => len k <=? MAX_IDENTITY_STRING_BYTES | None => false end
               && shaped kv.2 (depth + 1) ({[ i ]} ∪ active)) (fun kv => 1 + node_count kv.2)); [naive_solver lia| |done].
    eapply Forall_impl; [exact IH|]. intros [k x] Hx. cbn [fst snd] in *. pose proof (node_count_pos x).
    split; [lia|]. intros n' m' Hn'. unfold key_check. destruct (MAX_IDENTITY_NODES <? n' + 1) eqn:Hk.
    { apply Z.ltb_lt in Hk. split; [done|lia]. }
    apply Z.ltb_ge in Hk. destruct k as [k|]; [|naive_solver]. destruct (len k <=? _); cbn [andb]; [|naive_solver].
    rewrite Hx by done. naive_solver lia.
  - rewrite node_count_list, andb_true_iff, <- enter_check_spec. destruct (enter_check i depth active) as [e|]; [naive_solver|].
    rewrite (visit_check_spec _ (fun x => shaped x (depth + 1) ({[ i ]} ∪ active)) node_count); [naive_solver lia| |done].
    eapply Forall_impl; [exact IH|]. intros x Hx. pose proof (node_count_pos x). split; [lia|]. intros. by apply Hx.
  - split; [done|by intros (? & _)].
Qed.

(** The count stops at the first node too many. *)
Lemma visit_bound {A} (f : A -> Z -> Z * option identity_error) l :
  Forall (fun x => forall n, n <= MAX_IDENTITY_NODES -> let r := f x n in
    r.1 <= MAX_IDENTITY_NODES + 1 /\ (r.2 = None -> r.1 <= MAX_IDENTITY_NODES)) l ->
  forall n, n <= MAX_IDENTITY_NODES -> let r := visit f l n in
    r.1 <= MAX_IDENTITY_NODES + 1 /\ (r.2 = None -> r.1 <= MAX_IDENTITY_NODES).
Proof.
  induction 1 as [|x l Hx _ IH]; intros n Hn; cbn [visit]; [cbn; lia|].
  specialize (Hx n Hn) as [Hb Hs]. destruct (f x n) as [m [e|]]; [done|]. by apply IH, Hs.
Qed.

Lemma check_bound v : forall depth active n, n <= MAX_IDENTITY_NODES -> let r := check v depth active n in
  r.1 <= MAX_IDENTITY_NODES + 1 /\ (r.2 = None -> r.1 <= MAX_IDENTITY_NODES).
Proof.
  induction v as [|b|z|finite t|s|i items IH|i items IH|] using value_nested_ind; intros depth active n Hm;
    unfold check; fold check; (destruct (MAX_IDENTITY_NODES <? n + 1) eqn:Hn; [cbn; split; [lia|done]|]);
    apply Z.ltb_ge in Hn; try (cbn; lia).
  - destruct (enter_check i depth active); [cbn; lia|]. apply visit_bound; [|done].
    eapply Forall_impl; [exact IH|]. intros [k x] Hx m Hn'. cbn [fst snd] in *. unfold key_check.
    destruct (MAX_IDENTITY_NODES <? m + 1) eqn:Hk; [cbn; split; [lia|done]|]. apply Z.ltb_ge in Hk.
    destruct k as [k|]; [|cbn; lia]. destruct (len k <=? _); [by apply Hx|cbn; lia].
  - destruct (enter_check i depth active); [cbn; lia|]. apply visit_bound; [|done].
    eapply Forall_impl; [exact IH|]. intros x Hx m Hn'. by apply Hx.
Qed.

(** With the fuel of the model the loop ends, and says what the check says. *)
Lemma walk_is_check v : walk WALK_FUEL [EValue v 0] ∅ 0 =
  Some match (check v 0 ∅ 0).2 with None => Ok tt | Some e => Err e end.
Proof.
  destruct (check_walks v 0 ∅ 0) as (k & _ & Hk & Hw).
  destruct (check_bound v 0 ∅ 0) as [Hb _]; [done|].
  assert (WALK_FUEL = k + (WALK_FUEL - k))%nat as -> by (unfold WALK_FUEL; lia).
  rewrite Hw. destruct (check v 0 ∅ 0).2; [done|]. by destruct (WALK_FUEL - k)%nat.
Qed.

Definition is_dict (v : value) : bool := match v with VDict _ _ => true | _ => false end.

Lemma validate_spec v : exists answer, _validate_canonical_value v = Some answer /\
  (answer = Ok tt <-> is_dict v = true /\ shaped v 0 ∅ = true /\ node_count v <= MAX_IDENTITY_NODES).
Proof.
  destruct (is_dict v) eqn:Hv; [|exists (Err IdentityTypeError); split; [by destruct v|by split; [|intros (? & _)]]].
  exists match (check v 0 ∅ 0).2 with None => Ok tt | Some e => Err e end.
  split; [rewrite <- walk_is_check; by destruct v|].
  pose proof (check_spec v 0 ∅ 0) as Hs. destruct (check v 0 ∅ 0) as [m [e|]]; cbn [snd].
  - split; [done|]. intros (_ & Hsh & Hle). destruct (Hs (0 + node_count v)) as [_ H]; [done|]. discriminate H. repeat split; [done|lia].
  - split; [|done]. intros _. destruct (Hs m) as [(Hsh & Hle & _) _]; [done|done|]. repeat split; [done|lia].
Qed.

(** C28. The bounded, iterative validation of an identity's JSON value ends on every value
    and accepts exactly the objects with at most 4096 nodes (values and keys), nesting
    below 32, strings and keys up to 16 KiB, finite floats, string keys and no container
    inside itself: a container shared by siblings is no cycle. *)
Theorem validation_accepts_exactly (v : value) : exists answer, _validate_canonical_value v = Some answer /\
  (answer = Ok tt <-> is_dict v = true /\ shaped v 0 ∅ = true /\ node_count v <= MAX_IDENTITY_NODES).
Proof. apply validate_spec. Qed.

(** ** The canonical document *)

(** The value as JSON. *)
Fixpoint json_of (v : value) : json :=
  match v with
  | VNone | VOther => JNull
  | VBool b => JBool b
  | VInt z => JInt z
  | VFloat _ repr => JFloat repr
  | VStr s => JStr s
  | VDict _ items => JObj ((fun kv => (default ""%string kv.1, json_of kv.2)) <$> items)
  | VList _ items => JArr (json_of <$> items)
  end.

(** The snapshot of what passed the traversal cannot fail. *)
Lemma snapshot_shaped v : forall depth active, shaped v depth active = true -> _canonical_json_value v active = Ok (json_of v).
Proof.
  induction v as [|b|z|finite t|s|i items IH|i items IH|] using value_nested_ind; intros depth active Hs; try done.
  - cbn in *. by rewrite Hs.
  - cbn [shaped] in Hs. bool_to_prop. cbn [_canonical_json_value json_of]. rewrite bool_decide_eq_false_2 by done.
    match goal with |- fmap JObj ?g = _ => assert (g = Ok ((fun kv => (default ""%string kv.1, json_of kv.2)) <$> items)) as -> end; [|done].
    match goal with H : forallb _ _ = true |- _ => rename H into Hall end. induction IH as [|[[k|] x] items Hx _ IHl]; [done| |done].
    cbn [forallb fst snd] in *. bool_to_prop. rewrite (Hx (depth + 1)) by done. cbn [mbind result_bind]. by rewrite IHl.
  - cbn [shaped] in Hs. bool_to_prop. cbn [_canonical_json_value json_of]. rewrite bool_decide_eq_false_2 by done.
    match goal with |- fmap JArr ?g = _ => assert (g = Ok (json_of <$> items)) as -> end; [|done].
    match goal with H : forallb _ _ = true |- _ => rename H into Hall end. induction IH as [|x items Hx _ IHl]; [done|].
    cbn [forallb] in *. bool_to_prop. rewrite (Hx (depth + 1)) by done. cbn [mbind result_bind]. by rewrite IHl.
Qed.

(** A document is refused only for its shape or its size. *)
Definition document_ok (v : value) : Prop :=
  is_dict v = true /\ shaped v 0 ∅ = true /\ node_count v <= MAX_IDENTITY_NODES
  /\ encodable (json_of v) = true /\ len (dumps (json_of v)) <= MAX_CANONICAL_DOCUMENT_BYTES.

Lemma canonical_document_spec v r : _canonical_document v = Ok r <-> document_ok v /\ r = (json_of v, dumps (json_of v)).
Proof.
  unfold _canonical_document, document_ok. destruct (validate_spec v) as (answer & -> & Ha). cbn [default id].
  destruct answer as [[]|e]; cbn [mbind result_bind]; [|split; [done|]; intros ((? & ? & ? & _) & _); by discriminate (proj2 Ha)].
  destruct Ha as [(Hd & Hs & Hn) _]; [done|]. unfold canonical_arguments_snapshot. rewrite (snapshot_shaped v 0) by done.
  destruct v; try done. cbn [mbind result_bind json_of]. set (j := JObj _). unfold require.
  destruct (encodable j) eqn:He; cbn [mbind result_bind]; [|split; [done|]; by intros ((_ & _ & _ & ? & _) & _)].
  destruct (len (dumps j) <=? _) eqn:Hl; cbn [mbind result_bind].
  - apply Z.leb_le in Hl. split; [intros [= <-]; by repeat split|]. by intros [_ ->].
  - apply Z.leb_gt in Hl. split; [done|]. intros ((_ & _ & _ & _ & ?) & _). lia.
Qed.

(** ** Canonical names and orders *)

Lemma kind_value_inj k k' : kind_value k = kind_value k' -> k = k'.
Proof. by destruct k, k'. Qed.

#[export] Instance resource_le_total : Total resource_le.
Proof.
  intros a b. unfold resource_le. destruct (string_eqb (kind_value (kind a)) (kind_value (kind b))) eqn:He.
  - apply string_eqb_spec in He as ->. rewrite string_eqb_refl. apply String.leb_total.
  - assert (string_eqb (kind_value (kind b)) (kind_value (kind a)) = false) as ->
      by (apply string_eqb_neq; apply string_eqb_neq in He; congruence).
    apply String.leb_total.
Qed.

(** The order of pairs. *)
Lemma resource_le_spec a b : resource_le a b <->
  kind_value (kind a) <> kind_value (kind b) /\ String.leb (kind_value (kind a)) (kind_value (kind b)) = true
  \/ kind a = kind b /\ String.leb (pattern a) (pattern b) = true.
Proof.
  unfold resource_le. destruct (string_eqb _ _) eqn:He.
  - apply string_eqb_spec in He. pose proof (kind_value_inj _ _ He). naive_solver.
  - apply string_eqb_neq in He. split; [by left|]. intros [[_ ?]|[Hk _]]; [done|]. by rewrite Hk in He.
Qed.

#[export] Instance resource_le_trans : Transitive resource_le.
Proof.
  intros a b c. rewrite !resource_le_spec. intros [[Hne Hle]|[Hk Hle]] [[Hne' Hle']|[Hk' Hle']].
  - left. split; [|by eapply string_leb_trans]. intros Heq. rewrite <- Heq in Hle'.
    by apply Hne, String.leb_antisym.
  - left. by rewrite <- Hk'.
  - left. by rewrite Hk.
  - right. split; [congruence|]. by eapply string_leb_trans.
Qed.

#[export] Instance resource_le_antisym : AntiSymm eq resource_le.
Proof.
  intros [k p] [k' p']. rewrite !resource_le_spec. cbn [kind pattern].
  intros [[Hne Hle]|[Hk Hle]] [[Hne' Hle']|[Hk' Hle']]; subst; try done.
  - by destruct Hne; apply String.leb_antisym.
  - f_equal. by apply String.leb_antisym.
Qed.

Lemma resources_sorted l l' : l ≡ₚ l' -> merge_sort resource_le l = merge_sort resource_le l'.
Proof.
  intros Hp. apply (StronglySorted_unique resource_le); [apply StronglySorted_merge_sort; apply _..|].
  by rewrite !merge_sort_Permutation.
Qed.

Definition clean (s : string) : bool := string_forall (fun c => negb (is_control c)) s.

(** Without control characters the only white space is the blank. *)
Lemma lstrip_clean s : clean s = true -> lstrip_white s = lstrip_char " " s.
Proof.
  induction s as [|c s IH]; [done|]. unfold clean. cbn [string_forall lstrip_white lstrip_char]. intros H. bool_to_prop.
  rewrite IH by done. assert (is_white c = Ascii.eqb c " ") as ->; [|done].
  clear -H. destruct c as [[] [] [] [] [] [] [] []]; first [reflexivity|discriminate H].
Qed.

Lemma strip_clean s : clean s = true -> strip_spaces s = strip s.
Proof.
  intros H. unfold strip, strip_spaces, rstrip_char. rewrite (lstrip_clean s) by done. f_equal.
  rewrite lstrip_clean; [done|]. unfold clean. rewrite string_forall_rev. by apply lstrip_forall.
Qed.

Lemma identifier_spec s m t : _identifier s m = Ok t <->
  t = s /\ len s <= MAX_IDENTITY_STRING_BYTES /\ s <> ""%string /\ s = strip s /\ len s <= m /\ clean s = true.
Proof.
  unfold _identifier, _unicode_bytes, require. fold (clean s).
  destruct (len s <=? MAX_IDENTITY_STRING_BYTES) eqn:H1; cbn [mbind result_bind]; [|split; [done|]; apply Z.leb_gt in H1; lia].
  destruct (string_eqb s "") eqn:H2; cbn [negb andb mbind result_bind];
    [apply string_eqb_spec in H2; naive_solver|apply string_eqb_neq in H2].
  destruct (string_eqb s (strip s)) eqn:H3; cbn [mbind result_bind];
    [apply string_eqb_spec in H3|apply string_eqb_neq in H3; naive_solver].
  destruct (len s <=? m) eqn:H4; cbn [mbind result_bind]; [|split; [done|]; apply Z.leb_gt in H4; lia].
  apply Z.leb_le in H1, H4. destruct (clean s); cbn [mbind result_bind]; naive_solver.
Qed.

(** A canonical name is its own canonical name. *)
Lemma canonical_tool_idem name t : canonical_tool name = Ok t -> canonical_tool t = Ok t.
Proof.
  unfold canonical_tool at 1. intros H. inv_result.
  match goal with H : canonical_tool_name _ = Ok _ |- _ => rename H into Hc end.
  match goal with H : _identifier _ _ = Ok _ |- _ => pose proof H as Hi; apply identifier_spec in H as (-> & H1 & H2 & H3 & H4 & H5) end.
  unfold canonical_tool, _unicode_bytes, require. rewrite (proj2 (Z.leb_le _ _)) by done. cbn [mbind result_bind].
  unfold canonical_tool_name, _canonical_tool in *. destruct (_text name true) as [u|] eqn:Ht; [|done].
  cbn [fmap result_fmap mbind result_bind lift_err andb] in *. destruct (contains_char star (lower u)) eqn:Hs; [done|].
  injection Hc as <-. unfold _text. fold (clean (lower u)). rewrite H5, strip_clean, <- H3 by done. cbn [negb].
  rewrite (proj2 (string_eqb_neq _ _)) by done. cbn [fmap result_fmap mbind result_bind]. rewrite lower_idem, Hs. exact Hi.
Qed.

(** ** The identity *)

#[local] Opaque sha256_hex hmac_hex hmac_sha256 sha256.

Definition arguments_text (q : effect_request) : string := dumps (json_of (q_arguments q)).
Definition schema_text (q : effect_request) : string := dumps (json_of (q_input_schema q)).

(** What an accepted request becomes. *)
Record identity_of (q : effect_request) (i : EffectIdentityInput) : Prop := {
  of_owner : i_owner_id i = q_owner_id q;
  of_project : i_project_id i = q_project_id q;
  of_run : i_run_id i = q_run_id q;
  of_tool : canonical_tool (q_tool_name q) = Ok (i_tool_name i);
  of_resources : i_resources i = merge_sort resource_le (q_resources q);
  of_arguments : _arguments_hash i = sha256_hex (arguments_text q);
  of_schema : _schema_hash i = sha256_hex (schema_text q);
  of_names : _identifier (i_owner_id i) 255 = Ok (i_owner_id i) /\ _identifier (i_project_id i) 255 = Ok (i_project_id i)
    /\ _identifier (i_run_id i) 36 = Ok (i_run_id i)
}.

Lemma new_identity_spec q i : new_identity q = Ok i -> identity_of q i.
Proof.
  unfold new_identity. intros H. inv_result.
  repeat match goal with H : _identifier _ _ = Ok _ |- _ => pose proof H; apply identifier_spec in H as (-> & _) end.
  repeat match goal with H : _canonical_document _ = Ok _ |- _ => apply canonical_document_spec in H as [_ [= -> ->]] end.
  by split.
Qed.

(** The message that is signed. *)
Definition identity_text (i : EffectIdentityInput) : string := dumps (identity_document i).

Lemma document_encodable i : encodable (identity_document i) = true.
Proof.
  unfold identity_document. cbn [encodable fmap list_fmap]. rewrite !andb_true_r. cbn [andb].
  change (int_printable IDENTITY_VERSION) with true. cbn [andb]. induction (i_resources i) as [|r l IH]; [done|]. cbn. exact IH.
Qed.

Lemma effect_id_ok h : is_hex64 h = true -> _effect_id (String.append "eff_v1_" h) = Ok (String.append "eff_v1_" h).
Proof.
  intros H. unfold _effect_id.
  assert (starts_with "eff_v1_" (String.append "eff_v1_" h) = true) as -> by (apply starts_with_spec; by exists h).
  change 7%nat with (String.length "eff_v1_"). rewrite drop_app, H. done.
Qed.

Lemma bind_spec q i secret : identity_of q i -> _MIN_SECRET_BYTES <= len secret ->
  bind_effect_identity i secret = Ok (mkBinding (String.append "eff_v1_" (hmac_hex secret (identity_text i))) IDENTITY_VERSION
    (i_owner_id i) (i_project_id i) (i_run_id i) (i_tool_name i) (_schema_hash i)).
Proof.
  intros Hi Hs. unfold bind_effect_identity, _canonical_json, new_binding, require. rewrite (proj2 (Z.leb_le _ _)) by done.
  cbn [mbind result_bind]. rewrite document_encodable. cbn [mbind result_bind]. fold (identity_text i).
  rewrite effect_id_ok by apply hmac_hex_shape. cbn [is_ok mbind result_bind].
  destruct (of_names _ _ Hi) as (-> & -> & ->). cbn [mbind result_bind].
  rewrite (canonical_tool_idem _ _ (of_tool _ _ Hi)). cbn [mbind result_bind].
  rewrite (of_schema _ _ Hi), sha256_hex_shape. done.
Qed.

Lemma bind_inv secret q b : bind_request secret q = Ok b ->
  exists i, identity_of q i /\ _MIN_SECRET_BYTES <= len secret /\
    b = mkBinding (String.append "eff_v1_" (hmac_hex secret (identity_text i))) IDENTITY_VERSION
          (i_owner_id i) (i_project_id i) (i_run_id i) (i_tool_name i) (_schema_hash i).
Proof.
  unfold bind_request. destruct (new_identity q) as [i|] eqn:Hq; [|done]. cbn [mbind result_bind].
  apply new_identity_spec in Hq. intros Hb. exists i. split; [done|].
  assert (_MIN_SECRET_BYTES <= len secret) as Hs.
  { unfold bind_effect_identity, require in Hb. destruct (_ <=? _) eqn:H; [by apply Z.leb_le in H|done]. }
  split; [done|]. rewrite (bind_spec q) in Hb by done. congruence.
Qed.

(** An accepted identity always binds (with a secret of 32 bytes), to its own run and
    project and to an effect id and a schema digest the ledger's validation accepts. *)
Theorem bound_effect_is_reservable (q : effect_request) (i : EffectIdentityInput) (secret : string) :
  new_identity q = Ok i -> 32 <= len secret ->
  exists b, bind_effect_identity i secret = Ok b
    /\ _effect_id (b_effect_id b) = Ok (b_effect_id b) /\ _digest (b_schema_hash b) = Ok (b_schema_hash b)
    /\ b_owner_id b = q_owner_id q /\ b_project_id b = q_project_id q /\ b_run_id b = q_run_id q
    /\ canonical_tool (b_tool_name b) = Ok (b_tool_name b).
Proof.
  intros Hq Hs. apply new_identity_spec in Hq as Hi. eexists. split; [by apply (bind_spec q)|].
  cbn [b_effect_id b_schema_hash b_owner_id b_project_id b_run_id b_tool_name].
  split; [apply effect_id_ok, hmac_hex_shape|]. split.
  { unfold _digest. by rewrite (of_schema _ _ Hi), sha256_hex_shape. }
  split; [apply (of_owner _ _ Hi)|]. split; [apply (of_project _ _ Hi)|]. split; [apply (of_run _ _ Hi)|].
  apply (canonical_tool_idem _ _ (of_tool _ _ Hi)).
Qed.

(** The same effect, logically: the call id, the order of the resources, the spelling of the
    tool's name and the order of keys do not matter. *)
Record same_logical_effect (q q' : effect_request) : Prop := {
  same_owner : q_owner_id q = q_owner_id q';
  same_project : q_project_id q = q_project_id q';
  same_run : q_run_id q = q_run_id q';
  same_tool : canonical_tool (q_tool_name q) = canonical_tool (q_tool_name q');
  same_arguments : arguments_text q = arguments_text q';
  same_resources : q_resources q ≡ₚ q_resources q';
  same_schema : schema_text q = schema_text q'
}.

(** Two given texts are different and have one digest. *)
Definition collides (digest : string -> string) (a b : string) : Prop := a <> b /\ digest a = digest b.

Definition ascii_request (q : effect_request) : bool :=
  is_ascii (q_owner_id q) && is_ascii (q_project_id q) && is_ascii (q_run_id q) && is_ascii (q_tool_name q)
  && forallb (fun r => is_ascii (pattern r)) (q_resources q).

Lemma ascii_lower s : is_ascii s = true -> is_ascii (lower s) = true.
Proof.
  unfold is_ascii, lower. induction s as [|c s IH]; [done|]. cbn [string_forall string_map]. intros H. bool_to_prop.
  rewrite IH by done. rewrite andb_true_r.
  match goal with H : (code c <? 128)%N = true |- _ => revert H end.
  clear. destruct c as [[] [] [] [] [] [] [] []]; vm_compute; done.
Qed.

Lemma ascii_strip s : is_ascii s = true -> is_ascii (strip_spaces s) = true.
Proof.
  intros H. unfold strip_spaces, rstrip_char, is_ascii in *. rewrite string_forall_rev. apply lstrip_forall.
  rewrite string_forall_rev. by apply lstrip_forall.
Qed.

Lemma canonical_tool_ascii name t : canonical_tool name = Ok t -> is_ascii name = true -> is_ascii t = true.
Proof.
  unfold canonical_tool. intros H Ha. inv_result.
  match goal with H : canonical_tool_name _ = Ok _ |- _ => rename H into Hc end.
  match goal with H : _identifier _ _ = Ok _ |- _ => apply identifier_spec in H as (-> & _) end.
  unfold canonical_tool_name, _canonical_tool, _text in Hc.
  destruct (negb _); [done|]. destruct (string_eqb _ _); [done|]. cbn [fmap result_fmap mbind result_bind andb lift_err] in Hc.
  destruct (contains_char _ _); [done|]. injection Hc as <-. by apply ascii_lower, ascii_strip.
Qed.

Lemma identity_plain q i : identity_of q i -> ascii_request q = true -> plain (identity_document i) = true.
Proof.
  intros [Ho Hp Hr Ht Hrs Ha Hs _] H. unfold ascii_request in H. bool_to_prop.
  unfold identity_document. cbn [plain fmap list_fmap fst]. rewrite Ho, Hp, Hr, Ha, Hs.
  assert (is_ascii (i_tool_name i) = true) as -> by by eapply canonical_tool_ascii.
  rewrite !(hex64_ascii (sha256_hex _)) by apply sha256_hex_shape.
  repeat match goal with H : is_ascii _ = true |- _ => rewrite H; clear H end.
  rewrite bool_decide_eq_true_2 by (apply (bool_decide_eq_true_1 _); reflexivity).
  change (int_printable IDENTITY_VERSION) with true. cbn [andb].
  assert (plain (JArr (resource_document <$> i_resources i)) = true) as Harr; [|cbn [plain] in Harr; by rewrite Harr].
  rewrite Hrs. assert (forallb (fun r => is_ascii (pattern r)) (merge_sort resource_le (q_resources q)) = true) as Hall.
  { apply forallb_forall. intros r Hin. apply list_elem_of_In in Hin. rewrite merge_sort_Permutation in Hin.
    match goal with H : forallb _ _ = true |- _ => rewrite forallb_forall in H; apply H end. by apply list_elem_of_In. }
  revert Hall. generalize (merge_sort resource_le (q_resources q)) as l. induction l as [|r l IH]; [done|].
  cbn [forallb fmap list_fmap]. intros Hall. bool_to_prop. cbn [plain]. specialize (IH ltac:(done)). cbn [plain] in IH. rewrite IH.
  unfold resource_document. cbn [plain fmap list_fmap fst].
  rewrite bool_decide_eq_true_2 by (apply (bool_decide_eq_true_1 _); reflexivity).
  match goal with H : is_ascii (pattern r) = true |- _ => rewrite H end. by destruct (kind r).
Qed.

Lemma canon_resources l : canon (JArr (resource_document <$> l)) = JArr (resource_document <$> l).
Proof.
  rewrite canon_arr. f_equal. induction l as [|r l IH]; [done|]. cbn [fmap list_fmap] in *. rewrite IH. f_equal.
Qed.

Lemma identity_canon i : canon (identity_document i) = identity_document i.
Proof.
  pose proof (canon_resources (i_resources i)) as Hr. revert Hr. unfold identity_document.
  generalize (JArr (resource_document <$> i_resources i)) as rs. intros rs Hr. rewrite canon_obj.
  cbn [fmap list_fmap prod_map fst snd id]. rewrite Hr. reflexivity.
Qed.

Lemma resource_documents_inj (l l' : list ResourcePattern) : resource_document <$> l = resource_document <$> l' -> l = l'.
Proof.
  revert l'. induction l as [|[k p] l IH]; intros [|[k' p'] l']; [done..|]. intros [= Hk -> Hl]. f_equal; [|by apply IH].
  f_equal. by apply kind_value_inj.
Qed.

(** Equal messages bind equal things. *)
Lemma identity_text_inj q q' i i' : identity_of q i -> identity_of q' i' ->
  ascii_request q = true -> ascii_request q' = true -> identity_text i = identity_text i' ->
  i_owner_id i = i_owner_id i' /\ i_project_id i = i_project_id i' /\ i_run_id i = i_run_id i' /\ i_tool_name i = i_tool_name i'
  /\ _arguments_hash i = _arguments_hash i' /\ _schema_hash i = _schema_hash i' /\ i_resources i = i_resources i'.
Proof.
  intros Hi Hi' Ha Ha' H. apply dumps_inj in H; [|by eapply identity_plain..]. rewrite !identity_canon in H.
  unfold identity_document in H. injection H as -> -> -> Hr -> -> ->. by apply resource_documents_inj in Hr as ->.
Qed.

Lemma eff_id_inj h h' : String.append "eff_v1_" h = String.append "eff_v1_" h' -> h = h'.
Proof. apply string_app_inj. Qed.

Lemma bind_secret i secret b : bind_effect_identity i secret = Ok b -> _MIN_SECRET_BYTES <= len secret.
Proof. unfold bind_effect_identity, require. destruct (_ <=? _) eqn:H; [by apply Z.leb_le in H|done]. Qed.

Lemma same_identity_fields q q' i i' : identity_of q i -> identity_of q' i' -> same_logical_effect q q' ->
  i_owner_id i = i_owner_id i' /\ i_project_id i = i_project_id i' /\ i_run_id i = i_run_id i' /\ i_tool_name i = i_tool_name i'
  /\ _schema_hash i = _schema_hash i' /\ _arguments_hash i = _arguments_hash i' /\ i_resources i = i_resources i'.
Proof.
  intros [Ho Hp Hr Ht Hrs Ha Hs _] [Ho' Hp' Hr' Ht' Hrs' Ha' Hs' _] [].
  repeat split; [congruence..| ]. rewrite Hrs, Hrs'. by apply resources_sorted.
Qed.

Lemma same_identity_text q q' i i' : identity_of q i -> identity_of q' i' -> same_logical_effect q q' ->
  identity_text i = identity_text i'.
Proof.
  intros Hi Hi' Hs. destruct (same_identity_fields q q' i i' Hi Hi' Hs) as (H1 & H2 & H3 & H4 & H5 & H6 & H7).
  unfold identity_text, identity_document. congruence.
Qed.

(** C29. The effect id identifies the logical effect: the same effect binds to the same id
    whatever the call's id, the order of its resources, the order of keys and the spelling
    of the tool's name; and two requests with one id are the same effect, or the HMAC of
    their messages or the SHA-256 of their arguments or schemas collide. *)
Theorem effect_id_identifies (secret : string) (q q' : effect_request) (b b' : EffectBinding) :
  ascii_request q = true -> ascii_request q' = true ->
  bind_request secret q = Ok b -> bind_request secret q' = Ok b' ->
  (same_logical_effect q q' -> b = b') /\
  (b_effect_id b = b_effect_id b' ->
     same_logical_effect q q'
     \/ collides sha256_hex (arguments_text q) (arguments_text q')
     \/ collides sha256_hex (schema_text q) (schema_text q')
     \/ exists i i', new_identity q = Ok i /\ new_identity q' = Ok i'
          /\ collides (hmac_hex secret) (identity_text i) (identity_text i')).
Proof.
  intros Ha Ha' Hb Hb'. unfold bind_request in Hb, Hb'.
  destruct (new_identity q) as [i|] eqn:Hq; [|done]. destruct (new_identity q') as [i'|] eqn:Hq'; [|done].
  cbn [mbind result_bind] in Hb, Hb'. pose proof (new_identity_spec _ _ Hq) as Hi. pose proof (new_identity_spec _ _ Hq') as Hi'.
  pose proof (bind_secret _ _ _ Hb) as Hs. rewrite (bind_spec q) in Hb by done. rewrite (bind_spec q') in Hb' by done.
  injection Hb as <-. injection Hb' as <-. cbn [b_effect_id]. split.
  - intros Hsame. rewrite !(same_identity_text q q' i i') by done.
    destruct (same_identity_fields q q' i i' Hi Hi' Hsame) as (-> & -> & -> & -> & -> & _ & _). done.
  - intros Hid%eff_id_inj. destruct (decide (identity_text i = identity_text i')) as [Ht|Ht];
      [|do 3 right; by exists i, i'].
    destruct (identity_text_inj q q' i i') as (Ho & Hp & Hr & Htl & Hargs & Hsch & Hres); [done..|].
    destruct (decide (arguments_text q = arguments_text q')) as [Hat|Hat];
      [|right; left; split; [done|]; by rewrite <- (of_arguments _ _ Hi), <- (of_arguments _ _ Hi')].
    destruct (decide (schema_text q = schema_text q')) as [Hst|Hst];
      [|right; right; left; split; [done|]; by rewrite <- (of_schema _ _ Hi), <- (of_schema _ _ Hi')].
    left. split; [by rewrite <- (of_owner _ _ Hi), <- (of_owner _ _ Hi')|by rewrite <- (of_project _ _ Hi), <- (of_project _ _ Hi')
      |by rewrite <- (of_run _ _ Hi), <- (of_run _ _ Hi')|by rewrite (of_tool _ _ Hi), (of_tool _ _ Hi'), Htl|done| |done].
    rewrite <- (merge_sort_Permutation resource_le (q_resources q)), <- (merge_sort_Permutation resource_le (q_resources q')).
    by rewrite <- (of_resources _ _ Hi), <- (of_resources _ _ Hi'), Hres.
Qed.


(** ** Identities and tombstones *)

Lemma reserve_accepts now b st : _effect_id (b_effect_id b) = Ok (b_effect_id b) -> _digest (b_schema_hash b) = Ok (b_schema_hash b) ->
  exists r, (reserve_effect now b st).1 !! b_effect_id b = Some r
    /\ (reserve_effect now b st).2 = Ok (mkEffectReservation (b_effect_id b) (e_state r) (bool_decide (st !! b_effect_id b = None))).
Proof.
  intros Hid Hd. unfold reserve_effect, reserve_effect_at. rewrite Hid. cbn [mbind result_bind]. rewrite Hd. cbn [mbind result_bind].
  destruct (st !! b_effect_id b) as [r|] eqn:Hr; cbn [fst snd]; [by exists r|].
  exists (new_effect now b (b_schema_hash b)). by rewrite lookup_insert_eq.
Qed.

Lemma bound_valid secret q b : bind_request secret q = Ok b ->
  _effect_id (b_effect_id b) = Ok (b_effect_id b) /\ _digest (b_schema_hash b) = Ok (b_schema_hash b).
Proof.
  intros (i & Hi & _ & ->)%bind_inv. cbn [b_effect_id b_schema_hash]. split; [apply effect_id_ok, hmac_hex_shape|].
  unfold _digest. by rewrite (of_schema _ _ Hi), sha256_hex_shape.
Qed.

(** C30. A retry of a logical effect never runs it again: once a request has been reserved,
    after any history any request for the same logical effect, under whatever call id, is
    answered by the existing tombstone and not told to execute. *)
Theorem logical_effect_runs_once (secret : string) (q q' : effect_request) (b b' : EffectBinding) (now now' : Z) (st st2 : effects) :
  bind_request secret q = Ok b -> bind_request secret q' = Ok b' -> same_logical_effect q q' ->
  rtc effect_step (reserve_effect now b st).1 st2 ->
  exists state, (reserve_effect now' b' st2).2 = Ok (mkEffectReservation (b_effect_id b) state false).
Proof.
  intros Hb Hb' Hsame Hs. destruct (bound_valid _ _ _ Hb') as [Hid' Hd'].
  assert (b_effect_id b' = b_effect_id b) as He.
  { destruct (bind_inv _ _ _ Hb) as (i & Hi & _ & ->), (bind_inv _ _ _ Hb') as (i' & Hi' & _ & ->). cbn [b_effect_id].
    by rewrite (same_identity_text q q' i i'). }
  destruct (bound_valid _ _ _ Hb) as [Hid Hd]. destruct (reserve_accepts now b st Hid Hd) as (r & Hr & _).
  destruct (effects_evolve _ _ _ _ Hs Hr) as (r2 & Hr2 & _).
  destruct (reserve_accepts now' b' st2 Hid' Hd') as (r3 & _ & ->). rewrite He, Hr2. by exists (e_state r3).
Qed.

(** *** The executor's use of it *)

(** A JSON tree as the value a provider's call carries: no container occurs twice. *)
Fixpoint value_of (depth : nat) (v : json) : value :=
  match v with
  | JNull => VNone
  | JBool b => VBool b
  | JInt z => VInt z
  | JFloat repr => VFloat true repr
  | JStr s => VStr s
  | JArr l => VList depth (value_of (S depth) <$> l)
  | JObj kvs => VDict depth ((fun kv => (Some kv.1, value_of (S depth) kv.2)) <$> kvs)
  end.

Lemma json_of_value v : forall depth, json_of (value_of depth v) = v.
Proof.
  induction v as [| | | | |l IH|kvs IH] using json_nested_ind; intros depth; try done; cbn [value_of json_of]; f_equal.
  - rewrite <- list_fmap_compose. induction IH as [|x l Hx _ IHl]; [done|]. cbn. by rewrite Hx, IHl.
  - rewrite <- list_fmap_compose. induction IH as [|[k x] l Hx _ IHl]; [done|]. cbn in *. by rewrite Hx, IHl.
Qed.

Definition request_of (schema : ToolCall -> json) (s : scope) (c : ToolCall) (resources : list ResourcePattern) : effect_request :=
  mkEffectRequest (sc_owner s) (sc_project s) (sc_run s) (call_name c) (value_of 0 (JObj (arguments c))) resources
    (value_of 0 (schema c)) (Some (call_id c)).

(** The [bind_effect] of [EffectExecutor.execute]. *)
Definition bind_call (secret : string) (schema : ToolCall -> json) (s : scope) (c : ToolCall) (resources : list ResourcePattern)
  : result exec_exn EffectBinding :=
  lift_err (fun _ => EIdentityError) (bind_request secret (request_of schema s c resources)).

Lemma bind_call_binds secret schema s : binds_scope (bind_call secret schema s) s.
Proof.
  intros c rs b Hb. unfold bind_call in Hb. destruct (bind_request _ _) as [b'|] eqn:H; [|done]. injection Hb as ->.
  apply bind_inv in H as (i & Hi & _ & ->). cbn. by rewrite (of_owner _ _ Hi), (of_project _ _ Hi), (of_run _ _ Hi).
Qed.

(** ** A concrete effect *)

Definition identity_secret : string := "0123456789abcdef0123456789abcdef".

Definition demo_arguments (flip : bool) : value :=
  let items := [(Some "path", VStr "/srv/a"); (Some "tags", VList 1 [VStr "x"; VInt 2])]%string in
  VDict 0 (if flip then rev items else items).

Definition demo_resource (p : string) : ResourcePattern := mkPattern PATH p.

Definition demo_effect (id : string) (flip : bool) : effect_request :=
  let rs := [demo_resource "/srv/a"; demo_resource "/srv/b"] in
  mkEffectRequest "alice" "proj" "run-1" (if flip then " Write_File" else "write_file") (demo_arguments flip)
    (if flip then rev rs else rs) (VDict 0 [(Some "type", VStr "object")]) (Some id).

Definition bound_or_demo (r : result identity_error EffectBinding) : EffectBinding :=
  match r with Ok b => b | Err _ => demo_binding end.

Definition demo_bound : EffectBinding := Eval vm_compute in bound_or_demo (bind_request identity_secret (demo_effect "call-1" false)).

Lemma demo_bound_ok : bind_request identity_secret (demo_effect "call-1" false) = Ok demo_bound.
Proof. vm_compute. reflexivity. Qed.

Lemma demo_retry_bound : bind_request identity_secret (demo_effect "call-2" true) = Ok demo_bound.
Proof. vm_compute. reflexivity. Qed.

Lemma demo_same_effect : same_logical_effect (demo_effect "call-1" false) (demo_effect "call-2" true).
Proof. split; try (vm_compute; reflexivity). apply perm_swap. Qed.

Lemma effect_id_identifies_witness :
  (same_logical_effect (demo_effect "call-1" false) (demo_effect "call-2" true) -> demo_bound = demo_bound) /\
  (b_effect_id demo_bound = b_effect_id demo_bound ->
     same_logical_effect (demo_effect "call-1" false) (demo_effect "call-2" true)
     \/ collides sha256_hex (arguments_text (demo_effect "call-1" false)) (arguments_text (demo_effect "call-2" true))
     \/ collides sha256_hex (schema_text (demo_effect "call-1" false)) (schema_text (demo_effect "call-2" true))
     \/ exists i i', new_identity (demo_effect "call-1" false) = Ok i /\ new_identity (demo_effect "call-2" true) = Ok i'
          /\ collides (hmac_hex identity_secret) (identity_text i) (identity_text i')).
Proof.
  apply (effect_id_identifies identity_secret (demo_effect "call-1" false) (demo_effect "call-2" true) demo_bound demo_bound).
  - vm_compute; reflexivity.
  - vm_compute; reflexivity.
  - exact demo_bound_ok.
  - exact demo_retry_bound.
Defined.

Lemma bound_effect_is_reservable_witness : exists i b,
  new_identity (demo_effect "call-1" false) = Ok i /\ bind_effect_identity i identity_secret = Ok b.
Proof.
  destruct (new_identity (demo_effect "call-1" false)) as [i|] eqn:Hi.
  - destruct (bound_effect_is_reservable (demo_effect "call-1" false) i identity_secret Hi ltac:(vm_compute; discriminate)) as (b & Hb & _).
    by exists i, b.
  - exfalso. revert Hi. vm_compute. discriminate.
Defined.

Lemma logical_effect_runs_once_witness :
  exists state, (reserve_effect 2 demo_bound (reserve_effect 1 demo_bound ∅).1).2
                = Ok (mkEffectReservation (b_effect_id demo_bound) state false).
Proof.
  apply (logical_effect_runs_once identity_secret (demo_effect "call-1" false) (demo_effect "call-2" true) demo_bound demo_bound 1 2 ∅).
  - exact demo_bound_ok.
  - exact demo_retry_bound.
  - exact demo_same_effect.
  - apply rtc_refl.
Defined.
