(* ===== verification/Compliance.v ===== *)
(** * Content compliance ([security/compliance.py])

    [ComplianceChecker] finds forbidden topics and missing disclaimers;
    [MandatoryComplianceService] is the boundary that tools, payloads and responses pass.
    Text is ASCII (the sign before a disclaimer apart), on which the case-insensitive
    regular expression of a topic is a search in lower case. *)

From Stdlib Require Import ZArith Lia String Ascii.
From stdpp Require Import base gmap strings list sorting pretty.
From S2P Require Import Prelude Strings Json JsonText MonetaryLedger BudgetedProvider EffectIdentity.
Open Scope string_scope.

Record CompliancePolicy : Type := mkCompliancePolicy {
  max_response_length : Z;
  forbidden_topics : list string;
  required_disclaimers : list (string * string);
  content_categories : list string
}.

Definition _default_policy : CompliancePolicy := mkCompliancePolicy 10000
  ["bomb-making"; "hacking tutorial"; "illegal drugs synthesis"]
  [("medical", "This is not medical advice. Please consult a qualified healthcare professional.");
   ("legal", "This is not legal advice. Please consult a qualified attorney.");
   ("financial", "This is not financial advice. Please consult a qualified financial advisor.")]
  ["medical"; "legal"; "financial"].

Definition _CATEGORY_KEYWORDS : list (string * list string) :=
  [("medical", ["diagnosis"; "treatment"; "medication"; "symptom"; "prescription"; "dosage"; "medical advice"]);
   ("legal", ["legal advice"; "lawsuit"; "attorney"; "court ruling"; "legal opinion"; "liability"]);
   ("financial", ["investment advice"; "stock pick"; "financial advice"; "portfolio recommendation"])].

(** [p in s] *)
Fixpoint occurs (p s : string) : bool :=
  starts_with p s || match s with EmptyString => false | String _ s' => occurs p s' end.

(** [re.compile(re.escape(topic), re.IGNORECASE).search(text)] *)
Definition mentions (topic text : string) : bool := occurs (lower topic) (lower text).

(** [d.get(k, default)] on a dictionary given by its items. *)
Definition dict_get {A} (k : string) (d : list (string * A)) (default : A) : A :=
  match List.find (fun kv => string_eqb kv.1 k) d with Some kv => kv.2 | None => default end.

(** The violations of [check_input]. *)
Definition check_input (p : CompliancePolicy) (text : string) : list string :=
  (fun topic => "Forbidden topic detected: " ++ topic) <$> List.filter (fun topic => mentions topic text) (forbidden_topics p).

(** [text.rstrip()] *)
Definition rstrip (s : string) : string := string_rev (lstrip_white (string_rev s)).

(** Two newlines, the warning sign in UTF-8, a blank. *)
Definition NOTICE : string :=
  String "010" (String "010" (String "226" (String "154" (String "160" (String "239" (String "184" (String "143" " "))))))).

(** A category's step: the violations so far and the text. *)
Definition check_category (p : CompliancePolicy) (text : string) (acc : list string * string) (category : string) : list string * string :=
  let '(violations, remediated) := acc in
  if existsb (fun kw => occurs (lower kw) (lower text)) (dict_get category _CATEGORY_KEYWORDS []) then
    let disclaimer := dict_get category (required_disclaimers p) "" in
    if negb (string_eqb disclaimer "") && negb (occurs disclaimer remediated)
    then ((violations ++ [("Missing required " ++ category ++ " disclaimer")%string])%list, rstrip remediated ++ NOTICE ++ disclaimer)
    else acc
  else acc.

Definition cut (p : CompliancePolicy) (text : string) : list string * string :=
  if (max_response_length p <? len text)%Z
  then (["Response exceeds max length (" ++ pretty (len text) ++ " > " ++ pretty (max_response_length p) ++ ")"],
        String.substring 0 (Z.to_nat (max_response_length p)) text)
  else ([], text).

(** Violations and remediated text. *)
Definition check_output (p : CompliancePolicy) (text : string) : list string * string :=
  let '(violations, remediated) := cut p text in
  let violations := (violations ++ ((fun topic => ("Forbidden topic in output: " ++ topic)%string)
                       <$> List.filter (fun topic => mentions topic text) (forbidden_topics p)))%list in
  fold_left (check_category p text) (content_categories p) (violations, remediated).

Inductive compliance_error : Type :=
| ComplianceViolationError (direction : string) (violation_codes : list string)
| ComplianceSerialization.

#[export] Instance compliance_error_eq_dec : EqDecision compliance_error.
Proof. solve_decision. Defined.

Definition violation_code (item : string) : string :=
  if starts_with "forbidden" (lower item) then "forbidden_topic" else "policy_violation".

Definition enforce_input (p : CompliancePolicy) (text : string) : result compliance_error unit :=
  let violations := check_input p text in
  require (bool_decide (violations = [])) (ComplianceViolationError "input" (violation_code <$> violations)).

Definition WITHHELD : string := "[Response withheld by compliance policy]".

Definition enforce_output (p : CompliancePolicy) (text : string) : string :=
  let '(violations, remediated) := check_output p text in
  if bool_decide (List.filter (fun item => starts_with "Forbidden topic" item) violations = []) then remediated else WITHHELD.

(** [json.dumps] refuses an integer with too many digits. *)
Definition enforce_dangerous_tool (p : CompliancePolicy) (tool_name : string) (arguments : json) : result compliance_error unit :=
  _ ← require (encodable arguments) ComplianceSerialization;
  enforce_input p (dumps_ascii arguments).

Fixpoint enforce_payload (p : CompliancePolicy) (v : json) : json :=
  match v with
  | JStr s => JStr (enforce_output p s)
  | JArr l => JArr (enforce_payload p <$> l)
  | JObj kvs => JObj ((fun kv => (kv.1, enforce_payload p kv.2)) <$> kvs)
  | _ => v
  end.

(** ** Occurrences *)

Lemma occurs_spec p s : occurs p s = true <-> exists a b, s = a ++ p ++ b.
Proof.
  induction s as [|c s IH].
  - cbn [occurs]. rewrite orb_false_r, starts_with_spec. split.
    + intros [t Ht]. by exists "", t.
    + intros (a & b & H). destruct a; [by exists b|discriminate H].
  - cbn [occurs]. rewrite orb_true_iff, starts_with_spec, IH. split.
    + intros [[t ->]|(a & b & ->)]; [by exists "", t|by exists (String c a), b].
    + intros ([|d a] & b & H); [left; by exists b|]. right. rewrite string_app_cons in H. injection H as _ ->. by exists a, b.
Qed.

Lemma occurs_app p a b : occurs p (a ++ p ++ b) = true.
Proof. apply occurs_spec. by exists a, b. Qed.

Lemma lower_app a b : lower (a ++ b) = lower a ++ lower b.
Proof. unfold lower. induction a as [|c a IH]; [done|]. rewrite !string_app_cons. cbn [string_map]. by rewrite IH. Qed.

Lemma lower_split s : forall a b, lower s = a ++ b -> exists s1 s2, s = s1 ++ s2 /\ lower s1 = a /\ lower s2 = b.
Proof.
  induction s as [|c s IH]; intros a b H.
  - destruct a; [|discriminate H]. by exists "", "".
  - destruct a as [|d a]; [by exists "", (String c s)|]. unfold lower in H. cbn [string_map] in H. rewrite string_app_cons in H.
    injection H as Hc H. destruct (IH a b H) as (s1 & s2 & -> & <- & <-). exists (String c s1), s2. split; [done|].
    split; [|done]. unfold lower at 1. cbn [string_map]. by rewrite Hc.
Qed.

Lemma mentions_spec topic text : mentions topic text = true <-> exists a t b, text = a ++ t ++ b /\ lower t = lower topic.
Proof.
  unfold mentions. rewrite occurs_spec. split.
  - intros (a & b & H). apply lower_split in H as (s1 & s2 & -> & _ & H). apply lower_split in H as (s3 & s4 & -> & ? & _).
    by exists s1, s3, s4.
  - intros (a & t & b & -> & H). exists (lower a), (lower b). by rewrite !lower_app, H.
Qed.

Lemma mentions_left t a b : mentions t a = true -> mentions t (a ++ b) = true.
Proof. rewrite !mentions_spec. intros (x & u & y & -> & H). exists x, u, (y ++ b). by rewrite <- !string_app_assoc. Qed.

(** A character outside a pattern separates its occurrences. *)
Lemma occurs_apart p x : forall c y, contains_char c p = false -> occurs p (x ++ String c y) = true ->
  occurs p x = true \/ occurs p y = true.
Proof.
  intros c y Hc (a & b & H)%occurs_spec. revert a p Hc H. induction x as [|d x IH]; intros a p Hc H.
  - destruct a as [|e a].
    + destruct p as [|e p]; [by left|]. rewrite !string_app_cons in H. injection H as -> _.
      rewrite contains_char_cons in Hc. apply orb_false_iff in Hc as [Hc _]. by rewrite Ascii.eqb_refl in Hc.
    + rewrite !string_app_cons in H. injection H as _ H. right. apply occurs_spec. by exists a, b.
  - destruct a as [|e a].
    + enough (exists p', String d x = p ++ p') as [p' ->].
      { left. apply occurs_spec. by exists "", p'. }
      clear IH. revert d x H. induction p as [|e p IHp]; intros d x H; [by exists (String d x)|].
      rewrite !string_app_cons in H. injection H as -> H. rewrite contains_char_cons in Hc. apply orb_false_iff in Hc as [He Hc].
      destruct x as [|d' x].
      * destruct p as [|e' p]; [by exists ""|]. rewrite string_app_cons in H. injection H as -> _.
        rewrite contains_char_cons in Hc. apply orb_false_iff in Hc as [Hc _]. by rewrite Ascii.eqb_refl in Hc.
      * destruct (IHp Hc d' x H) as [p' Hp']. exists p'. rewrite string_app_cons. by f_equal.
    + rewrite !string_app_cons in H. injection H as -> H. destruct (IH a p Hc H) as [Ho|Ho]; [|by right].
      left. cbn [occurs]. by rewrite Ho, orb_true_r.
Qed.

Lemma substring_prefix_of n s : exists b, s = String.substring 0 n s ++ b.
Proof.
  revert n. induction s as [|c s IH]; intros [|n]; [by exists ""..|by exists (String c s)|].
  destruct (IH n) as [b Hb]. exists b. cbn [String.substring]. rewrite string_app_cons. by f_equal.
Qed.

Lemma lstrip_white_suffix s : exists a, s = a ++ lstrip_white s.
Proof.
  induction s as [|c s [a Ha]]; [by exists ""|]. cbn [lstrip_white]. destruct (is_white c); [|by exists ""].
  exists (String c a). rewrite string_app_cons. by f_equal.
Qed.

Lemma rstrip_prefix s : exists b, s = rstrip s ++ b.
Proof.
  destruct (lstrip_white_suffix (string_rev s)) as [a Ha]. exists (string_rev a). unfold rstrip.
  rewrite <- string_rev_app_distr, <- Ha. by rewrite string_rev_involutive.
Qed.

Lemma contains_lower t : contains_char "010" (lower t) = contains_char "010" t.
Proof.
  induction t as [|c t IH]; [done|]. change (lower (String c t)) with (String (lower_char c) (lower t)).
  rewrite !contains_char_cons, IH. f_equal. clear. destruct c as [[] [] [] [] [] [] [] []]; reflexivity.
Qed.

(** ** What leaves the service *)

(** A policy whose own texts mention no topic, and whose topics are one line each. *)
Definition sound_policy (p : CompliancePolicy) : bool :=
  forallb (fun topic => negb (contains_char "010" topic) && negb (mentions topic WITHHELD)
             && forallb (fun kd => negb (mentions topic (string_drop 1 NOTICE ++ kd.2))) (required_disclaimers p))
    (forbidden_topics p).

Lemma sound_spec p topic : sound_policy p = true -> topic ∈ forbidden_topics p ->
  contains_char "010" topic = false /\ mentions topic WITHHELD = false
  /\ forall k, mentions topic (string_drop 1 NOTICE ++ dict_get k (required_disclaimers p) "") = true ->
       dict_get k (required_disclaimers p) "" = "".
Proof.
  intros Hs Hin. unfold sound_policy in Hs. rewrite forallb_forall in Hs. apply list_elem_of_In in Hin.
  specialize (Hs _ Hin). bool_to_prop. split; [done|]. split; [done|].
  match goal with H : forallb _ _ = true |- _ => rename H into Hd end. intros k. unfold dict_get.
  destruct (List.find _ _) as [kv|] eqn:Hf; [|done]. apply List.find_some in Hf as [Hf _].
  rewrite forallb_forall in Hd. specialize (Hd _ Hf). apply negb_true_iff in Hd. intros Hm. by rewrite Hm in Hd.
Qed.

Lemma disclaimer_mentions p topic text k : sound_policy p = true -> topic ∈ forbidden_topics p ->
  dict_get k (required_disclaimers p) "" <> "" ->
  mentions topic text = false -> mentions topic (rstrip text ++ NOTICE ++ dict_get k (required_disclaimers p) "") = false.
Proof.
  intros Hs Hin Hd Ht. apply not_true_is_false. intros H. destruct (sound_spec p topic Hs Hin) as (Hn & _ & Hdis).
  unfold mentions in H. rewrite !lower_app in H.
  change (lower NOTICE) with (String "010" (lower (string_drop 1 NOTICE))) in H. rewrite string_app_cons in H.
  apply occurs_apart in H as [H|H]; [| |by rewrite contains_lower].
  - change (mentions topic (rstrip text) = true) in H. destruct (rstrip_prefix text) as [b Hb].
    apply (mentions_left _ _ b) in H. rewrite <- Hb in H. congruence.
  - rewrite <- lower_app in H. change (mentions topic (string_drop 1 NOTICE ++ dict_get k (required_disclaimers p) "") = true) in H.
    by apply Hdis in H.
Qed.

Lemma cut_mentions p topic text : mentions topic text = false -> mentions topic (cut p text).2 = false.
Proof.
  intros H. unfold cut. destruct (_ <? _)%Z; [|done]. cbn [snd]. apply not_true_is_false. intros Hm.
  destruct (substring_prefix_of (Z.to_nat (max_response_length p)) text) as [b Hb].
  apply (mentions_left _ _ b) in Hm. rewrite <- Hb in Hm. congruence.
Qed.

Lemma category_mentions p topic text acc category : sound_policy p = true -> topic ∈ forbidden_topics p ->
  mentions topic acc.2 = false -> mentions topic (check_category p text acc category).2 = false.
Proof.
  intros Hs Hin. destruct acc as [violations remediated]. cbn [snd]. unfold check_category. intros H.
  destruct (existsb _ _); [|done]. destruct (negb _ && negb _) eqn:Hc; [|done]. bool_to_prop.
  cbn [snd]. by apply disclaimer_mentions.
Qed.

(** Remediation only adds notices. *)
Lemma category_violations p text acc category : exists l, (check_category p text acc category).1 = (acc.1 ++ l)%list.
Proof.
  destruct acc as [violations remediated]. unfold check_category.
  destruct (existsb _ _); [destruct (negb _ && negb _)|]; cbn [fst]; [by eexists|exists []; by rewrite app_nil_r..].
Qed.

Lemma output_violations p text categories : forall acc, exists l,
  (fold_left (check_category p text) categories acc).1 = (acc.1 ++ l)%list.
Proof.
  induction categories as [|c l IH]; intros acc; cbn [fold_left]; [exists []; by rewrite app_nil_r|].
  destruct (IH (check_category p text acc c)) as [l1 ->]. destruct (category_violations p text acc c) as [l2 ->].
  exists (l2 ++ l1)%list. by rewrite app_assoc.
Qed.

Lemma filter_nil {A} (P : A -> bool) l x : List.filter P l = [] -> x ∈ l -> P x = false.
Proof.
  intros Hf Hx. apply not_true_is_false. intros Hp. assert (In x (List.filter P l)) as Hin by (apply filter_In; split; [by apply list_elem_of_In|done]).
  by rewrite Hf in Hin.
Qed.

Lemma fold_mentions p topic text categories : sound_policy p = true -> topic ∈ forbidden_topics p -> forall acc,
  mentions topic acc.2 = false -> mentions topic (fold_left (check_category p text) categories acc).2 = false.
Proof.
  intros Hs Hin. induction categories as [|c l IH]; intros acc H; cbn [fold_left]; [done|]. by apply IH, category_mentions.
Qed.

Lemma output_clean p text topic : sound_policy p = true -> topic ∈ forbidden_topics p ->
  mentions topic (enforce_output p text) = false.
Proof.
  intros Hs Hin. unfold enforce_output. destruct (check_output p text) as [violations remediated] eqn:Hc.
  case_bool_decide as Hv; [|by destruct (sound_spec p topic Hs Hin) as (_ & ? & _)]. unfold check_output in Hc. destruct (cut p text) as [v0 cutted] eqn:Hcut.
  assert (mentions topic text = false) as Ht.
  { apply not_true_is_false. intros Hm.
    destruct (output_violations p text (content_categories p)
      ((v0 ++ ((fun topic => ("Forbidden topic in output: " ++ topic)%string) <$> List.filter (fun topic => mentions topic text) (forbidden_topics p)))%list, cutted))
      as [l Hl]. rewrite Hc in Hl. cbn [fst] in Hl. subst violations.
    assert (starts_with "Forbidden topic" ("Forbidden topic in output: " ++ topic) = false) as Hsw; [|done].
    apply (filter_nil _ _ _ Hv). apply elem_of_app. left. apply elem_of_app. right. apply list_elem_of_fmap. exists topic.
    split; [done|]. apply list_elem_of_In, filter_In. split; [by apply list_elem_of_In|done]. }
  match type of Hc with fold_left _ _ ?acc = _ => pose proof (fold_mentions p topic text (content_categories p) Hs Hin acc) as Hg end.
  rewrite Hc in Hg. cbn [snd] in Hg. apply Hg. pose proof (cut_mentions p topic text Ht) as Hk. by rewrite Hcut in Hk.
Qed.

(** The strings a value shows: not its keys. *)
Fixpoint string_values (v : json) : list string :=
  match v with
  | JStr s => [s]
  | JArr l => l ≫= string_values
  | JObj kvs => kvs ≫= fun kv => string_values kv.2
  | _ => []
  end.

(** The same value with its string values taken out. *)
Fixpoint skeleton (v : json) : json :=
  match v with
  | JStr _ => JStr ""
  | JArr l => JArr (skeleton <$> l)
  | JObj kvs => JObj ((fun kv => (kv.1, skeleton kv.2)) <$> kvs)
  | _ => v
  end.

(** A payload that passed the mandatory compliance boundary keeps its structure, and no
    string value in it, at any depth, mentions a forbidden topic in any case: the text was
    clean, or it was replaced as a whole. *)
Theorem payload_mentions_no_topic (p : CompliancePolicy) (v : json) : sound_policy p = true ->
  skeleton (enforce_payload p v) = skeleton v
  /\ forall s topic, s ∈ string_values (enforce_payload p v) -> topic ∈ forbidden_topics p -> mentions topic s = false.
Proof.
  intros Hs. induction v as [| | | |s|l IH|kvs IH] using json_nested_ind; cbn [enforce_payload string_values skeleton];
    try (split; [done|]; intros s topic []%elem_of_nil).
  - split; [done|]. intros s' topic ->%list_elem_of_singleton Hin. by apply output_clean.
  - split; [f_equal; rewrite <- list_fmap_compose; apply list_fmap_ext; intros i x Hx%list_elem_of_lookup_2; rewrite Forall_forall in IH; by apply IH|].
    intros s topic (x & Hx & (y & -> & Hy)%list_elem_of_fmap)%list_elem_of_bind Hin. rewrite Forall_forall in IH.
    destruct (IH y Hy) as [_ Hc]. by apply (Hc s).
  - split; [f_equal; rewrite <- list_fmap_compose; apply list_fmap_ext; intros i kv Hkv%list_elem_of_lookup_2; rewrite Forall_forall in IH; cbn; by rewrite (proj1 (IH kv Hkv))|].
    intros s topic (x & Hx & (y & -> & Hy)%list_elem_of_fmap)%list_elem_of_bind Hin. rewrite Forall_forall in IH.
    destruct (IH y Hy) as [_ Hc]. by apply (Hc s).
Qed.

(** ** Arguments of dangerous tools *)

(** Keys and string values, the texts that a serialised value contains. *)
Fixpoint all_strings (v : json) : list string :=
  match v with
  | JStr s => [s]
  | JArr l => l ≫= all_strings
  | JObj kvs => kvs ≫= fun kv => kv.1 :: all_strings kv.2
  | _ => []
  end.

(** [s] stands in [t]. *)
Definition within (s t : string) : Prop := exists a b, t = a ++ s ++ b.

Lemma within_trans s t u : within s t -> within t u -> within s u.
Proof. intros (a & b & ->) (c & d & ->). exists (c ++ a), (b ++ d). by rewrite !string_app_assoc. Qed.

Lemma within_app_l s t u : within s t -> within s (u ++ t).
Proof. intros (a & b & ->). exists (u ++ a), b. by rewrite !string_app_assoc. Qed.

Lemma within_app_r s t u : within s t -> within s (t ++ u).
Proof. intros (a & b & ->). exists a, (b ++ u). by rewrite !string_app_assoc. Qed.

Lemma within_refl s : within s s.
Proof. exists "", "". by rewrite string_app_nil_r. Qed.

Lemma within_join x l : x ∈ l -> within x (join l).
Proof.
  induction l as [|y l IH]; intros Hin; [by apply elem_of_nil in Hin|].
  destruct (decide (l = [])) as [->|Hne].
  - apply list_elem_of_singleton in Hin as ->. apply within_refl.
  - rewrite join_cons by done. apply elem_of_cons in Hin as [->|Hin]; [apply within_app_r, within_refl|].
    by apply within_app_l, within_app_l, IH.
Qed.

Lemma dumps_shows v s : s ∈ all_strings v -> within (literal s) (dumps_ascii v).
Proof.
  unfold dumps_ascii. revert s. induction v as [| | | |s'|l IH|kvs IH] using json_nested_ind; intros s Hin; try by apply elem_of_nil in Hin.
  - apply list_elem_of_singleton in Hin as ->. apply within_refl.
  - cbn [all_strings] in Hin. apply list_elem_of_bind in Hin as (x & Hs & Hx). rewrite Forall_forall in IH.
    rewrite dumps_arr. apply within_app_l, within_app_r. eapply within_trans; [by apply (IH x)|]. apply within_join.
    by apply list_elem_of_fmap_2.
  - cbn [all_strings] in Hin. apply list_elem_of_bind in Hin as (kv & Hs & Hx). rewrite Forall_forall in IH.
    rewrite dumps_obj. apply within_app_l, within_app_r.
    assert (within (literal s) (literal kv.1 ++ ":" ++ dumps_with literal kv.2)) as Hw.
    { apply elem_of_cons in Hs as [->|Hs]; [apply within_app_r, within_refl|]. by apply within_app_l, within_app_l, (IH kv). }
    eapply within_trans; [exact Hw|]. apply within_join, list_elem_of_fmap. exists kv. split; [done|].
    by rewrite merge_sort_Permutation.
Qed.

(** Characters that JSON writes as they are, closed under case. *)
Definition word_char (c : ascii) : bool := is_alnum c || Ascii.eqb c " " || Ascii.eqb c "-".

Lemma word_char_lower c : word_char (lower_char c) = word_char c.
Proof. destruct c as [[] [] [] [] [] [] [] []]; reflexivity. Qed.

Lemma word_char_escape c : word_char c = true -> (code c <? 128)%N = true /\ escape_ascii_char c = String c "".
Proof. destruct c as [[] [] [] [] [] [] [] []]; first [discriminate 1|split; reflexivity]. Qed.

Lemma words_lower t : string_forall word_char (lower t) = string_forall word_char t.
Proof. induction t as [|c t IH]; [done|]. change (lower (String c t)) with (String (lower_char c) (lower t)). cbn. by rewrite word_char_lower, IH. Qed.

Lemma escape_ascii_app a b : is_ascii a = true -> escape_ascii (a ++ b) = escape_ascii a ++ escape_ascii b.
Proof.
  unfold is_ascii. induction a as [|c a IH]; [done|]. cbn [string_forall]. intros H. bool_to_prop.
  rewrite string_app_cons, !escape_ascii_cons, IH, string_app_assoc by done. done.
Qed.

Lemma escape_words t b : string_forall word_char t = true -> escape_ascii (t ++ b) = t ++ escape_ascii b.
Proof.
  induction t as [|c t IH]; [done|]. cbn [string_forall]. intros H. bool_to_prop.
  match goal with H : word_char c = true |- _ => apply word_char_escape in H as [Hc He] end.
  rewrite string_app_cons, escape_ascii_cons, He, IH by done. done.
Qed.

Lemma within_mentions topic s t : within s t -> mentions topic s = true -> mentions topic t = true.
Proof.
  intros (a & b & ->). rewrite !mentions_spec. intros (x & u & y & -> & H). exists (a ++ x), u, (y ++ b).
  by rewrite <- !string_app_assoc.
Qed.

Lemma literal_mentions topic s : is_ascii s = true -> string_forall word_char topic = true ->
  mentions topic s = true -> mentions topic (literal s) = true.
Proof.
  intros Ha Hw (x & u & y & -> & H)%mentions_spec. unfold literal. apply (within_mentions _ (escape_ascii (x ++ u ++ y))).
  { apply within_app_l, within_app_r, within_refl. }
  rewrite escape_ascii_app by (unfold is_ascii in *; rewrite string_forall_app in Ha; by apply andb_true_iff in Ha as [? _]).
  rewrite escape_words by by rewrite <- words_lower, H, words_lower.
  apply mentions_spec. by eexists _, u, _.
Qed.

(** C35. The mandatory check of a dangerous tool's arguments sees every ASCII text they carry,
    for topics made of letters, digits, blanks and hyphens, as those of the default policy
    are: when it lets ASCII arguments pass, no key and no string, at any depth, mentions a
    forbidden topic. The check searches the JSON text of the arguments, in which every other
    character may stand escaped; see [escaped_topics_pass]. *)
Theorem dangerous_arguments_are_clean (p : CompliancePolicy) (tool_name : string) (arguments : json) :
  forallb (string_forall word_char) (forbidden_topics p) = true ->
  forallb is_ascii (all_strings arguments) = true ->
  enforce_dangerous_tool p tool_name arguments = Ok tt ->
  forall s topic, s ∈ all_strings arguments -> topic ∈ forbidden_topics p -> mentions topic s = false.
Proof.
  intros Hw Ha He s topic Hs Ht. apply not_true_is_false. intros Hm. rewrite forallb_forall in Hw, Ha.
  unfold enforce_dangerous_tool, enforce_input, require in He. destruct (encodable arguments); [|done]. cbn [mbind result_bind] in He.
  case_bool_decide as Hv; [|done]. unfold check_input in Hv. apply fmap_nil_inv in Hv.
  apply (filter_nil _ _ topic Hv) in Ht as Hno. cbn beta in Hno. rewrite (within_mentions topic _ _ (dumps_shows _ _ Hs)) in Hno; [done|].
  apply literal_mentions; [apply Ha; by apply list_elem_of_In|apply Hw; by apply list_elem_of_In|done].
Qed.

(** ** Examples *)

Lemma default_policy_sound : sound_policy _default_policy = true.
Proof. vm_compute. reflexivity. Qed.

Definition demo_payload : json :=
  JObj [("answer", JArr [JStr "A Hacking Tutorial for beginners"; JInt 3]); ("note", JStr "ask about the dosage")].

Lemma payload_mentions_no_topic_witness :
  skeleton (enforce_payload _default_policy demo_payload) = skeleton demo_payload
  /\ forall s topic, s ∈ string_values (enforce_payload _default_policy demo_payload) ->
       topic ∈ forbidden_topics _default_policy -> mentions topic s = false.
Proof. apply (payload_mentions_no_topic _default_policy demo_payload). vm_compute. reflexivity. Defined.

Example demo_payload_enforced : enforce_payload _default_policy demo_payload =
  JObj [("answer", JArr [JStr WITHHELD; JInt 3]);
        ("note", JStr ("ask about the dosage" ++ NOTICE ++ "This is not medical advice. Please consult a qualified healthcare professional."))].
Proof. vm_compute. reflexivity. Qed.

Lemma dangerous_arguments_are_clean_witness : mentions "hacking tutorial" "/srv/app/notes.txt" = false.
Proof.
  apply (dangerous_arguments_are_clean _default_policy "write_file" (JObj [("path", JStr "/srv/app/notes.txt")])).
  - vm_compute. reflexivity.
  - vm_compute. reflexivity.
  - vm_compute. reflexivity.
  - right. left.
  - right. left.
Defined.

(** The text that is searched is JSON: a topic with a backslash, or with a letter outside
    ASCII, is written differently there, and passes though the argument contains it. *)
Definition accent : string := String "195" (String "169" EmptyString).

Definition escaped_policy (topic : string) : CompliancePolicy := mkCompliancePolicy 1000 [topic] [] [].

Example escaped_topics_pass :
  let passes topic := enforce_dangerous_tool (escaped_policy topic) "write_file" (JObj [("path", JStr topic)]) in
  passes ("sharing \\vault") = Ok tt /\ mentions ("sharing \\vault") ("sharing \\vault") = true
  /\ passes ("recette illicite pr" ++ accent ++ "cise") = Ok tt
  /\ mentions ("recette illicite pr" ++ accent ++ "cise") ("recette illicite pr" ++ accent ++ "cise") = true
  /\ passes "hacking tutorial" = Err (ComplianceViolationError "input" ["forbidden_topic"]).
Proof. vm_compute. split_and!; reflexivity. Qed.

(** The disclaimers are added after the text was cut to its limit, so what is returned as
    remediated can be longer than the limit it was cut to. *)
Definition short_policy : CompliancePolicy := mkCompliancePolicy 20 [] (required_disclaimers _default_policy) ["medical"].

Lemma remediation_exceeds_limit :
  let text := "the usual dosage is two a day" in
  (max_response_length short_policy < len (enforce_output short_policy text))%Z
  /\ enforce_output short_policy text = "the usual dosage is" ++ NOTICE ++ "This is not medical advice. Please consult a qualified healthcare professional.".
Proof. vm_compute. split; reflexivity. Qed.

(** Keys are not remediated: a topic in a key is disclosed. *)
Lemma payload_keys_pass :
  enforce_payload _default_policy (JObj [("hacking tutorial", JNull)]) = JObj [("hacking tutorial", JNull)].
Proof. reflexivity. Qed.
