(* ===== verification/ToolRegistry.v ===== *)
(** * The tool registry ([tools/registry.py])

    Registered tools with their metadata, the validation of their schemas and of the
    arguments of a call, the policy request of a call, and its execution through the
    permission, audit and timeout gates. Schemas and arguments are JSON values: a mapping
    is [JObj], a list or tuple [JArr]. The permission checker, the audit log and the
    handlers are collaborators that answer anything at any time. *)

From Stdlib Require Import ZArith Lia String Ascii.
From stdpp Require Import base gmap strings list sorting.
From S2P Require Import Prelude Strings Durable Json JsonText Sha256 Policy MonetaryLedger BudgetedProvider EffectLedger EffectExecutor EffectIdentity Compliance.
Open Scope string_scope.

Inductive registry_error : Type :=
| RValueError
| RTypeError
| PolicyMetadataError
| RComplianceError (e : compliance_error)
| RPermissionError
| RTimeoutError
| RHandlerError
| RCollaboratorError
| RCancelled.

#[export] Instance registry_error_eq_dec : EqDecision registry_error.
Proof. solve_decision. Defined.

Definition DEFAULT_TOOL_TIMEOUT : Z := 30.
Definition _SUPPORTED_ROOT_SCHEMA_KEYWORDS : list string := ["type"; "properties"; "required"; "additionalProperties"].
Definition _SUPPORTED_PROPERTY_SCHEMA_KEYWORDS : list string := ["type"; "enum"; "description"].
Definition _SUPPORTED_PROPERTY_TYPES : list string := ["string"; "integer"; "number"; "boolean"; "object"; "array"].
Definition _EFFECTFUL_RISKS : gset RiskClass := {[ WRITE; EXECUTE; EXTERNAL_SIDE_EFFECT ]}.

(** ** Schemas *)

(** [d.get(k)] *)
Definition get_key (k : string) (d : list (string * json)) : option json :=
  snd <$> List.find (fun kv => string_eqb kv.1 k) d.

Definition has_key (k : string) (d : list (string * json)) : bool := bool_decide (k ∈ d.*1).

(** A float is given by its [repr]. *)
Definition isfinite (repr : string) : bool := negb (bool_decide (repr ∈ ["nan"; "inf"; "-inf"])).

Definition _value_matches_type (v : json) (declared_type : string) : bool :=
  if string_eqb declared_type "string" then match v with JStr _ => true | _ => false end
  else if string_eqb declared_type "integer" then match v with JInt _ => true | _ => false end
  else if string_eqb declared_type "number" then match v with JInt _ => true | JFloat repr => isfinite repr | _ => false end
  else if string_eqb declared_type "boolean" then match v with JBool _ => true | _ => false end
  else if string_eqb declared_type "object" then match v with JObj _ => true | _ => false end
  else if string_eqb declared_type "array" then match v with JArr _ => true | _ => false end
  else false.

Definition strings_only (l : list json) : option (list string) :=
  mapM (fun v => match v with JStr s => Some s | _ => None end) l.

(** [schema.get("required", ())], checked. *)
Definition required_fields (schema : list (string * json)) : result registry_error (list string) :=
  match get_key "required" schema with
  | None => Ok []
  | Some (JArr l) => match strings_only l with Some names => Ok names | None => Err RTypeError end
  | Some _ => Err RTypeError
  end.

(** [schema.get("properties", {})], checked. *)
Definition declared_properties (schema : list (string * json)) : result registry_error (list (string * json)) :=
  match get_key "properties" schema with
  | None => Ok []
  | Some (JObj props) => Ok props
  | Some _ => Err RTypeError
  end.

(** Membership of the declared type in a set of strings: a list or dictionary has no hash. *)
Definition supported_type (v : option json) : result registry_error string :=
  match v with
  | Some (JStr t) => if bool_decide (t ∈ _SUPPORTED_PROPERTY_TYPES) then Ok t else Err RValueError
  | Some (JArr _) | Some (JObj _) => Err RTypeError
  | _ => Err RValueError
  end.

Definition check_enum (t : string) (v : option json) : result registry_error unit :=
  match v with
  | None => Ok tt
  | Some (JArr (x :: l)) => require (forallb (fun item => _value_matches_type item t) (x :: l)) RValueError
  | Some _ => Err RTypeError
  end.

Definition check_property (declaration : json) : result registry_error unit :=
  match declaration with
  | JObj d =>
      _ ← require (forallb (fun k => bool_decide (k ∈ _SUPPORTED_PROPERTY_SCHEMA_KEYWORDS)) d.*1) RValueError;
      t ← supported_type (get_key "type" d);
      check_enum t (get_key "enum" d)
  | _ => Err RTypeError
  end.

Fixpoint check_properties (props : list (string * json)) : result registry_error unit :=
  match props with
  | [] => Ok tt
  | (_, declaration) :: props' => _ ← check_property declaration; check_properties props'
  end.

Definition _validate_input_schema (schema : json) : result registry_error (list (string * json)) :=
  match schema with
  | JObj s =>
      _ ← require (forallb (fun k => bool_decide (k ∈ _SUPPORTED_ROOT_SCHEMA_KEYWORDS)) s.*1) RValueError;
      _ ← (match get_key "type" s with None | Some JNull => Ok tt | Some (JStr t) => require (string_eqb t "object") RValueError
           | Some _ => Err RValueError end);
      _ ← (match get_key "additionalProperties" s with None | Some JNull | Some (JBool _) => Ok tt | Some _ => Err RTypeError end);
      required ← required_fields s;
      _ ← require (bool_decide (NoDup required)) RValueError;
      props ← declared_properties s;
      _ ← require (bool_decide (props = []) || forallb (fun f => has_key f props) required) RValueError;
      _ ← check_properties props;
      Ok s
  | _ => Err RTypeError
  end.

(** ** Tools *)

(** What [inspect.signature] tells of a handler: its parameters, those that are positional
    only, and whether it takes any keyword. *)
Record Handler : Type := mkHandler {
  h_name : string;
  h_parameters : list string;
  h_positional_only : list string;
  h_var_keyword : bool
}.

(** A resolver returns its resources or raises. *)
Abbreviation ResourceResolver := (list (string * json) -> option (list ResourcePattern)).

Record ToolDefinition : Type := mkRegisteredTool {
  t_name : string;
  t_handler : Handler;
  t_description : string;
  t_required_permissions : list string;
  t_input_schema : list (string * json);
  t_timeout : Z;
  t_requires_approval : bool;
  t_risk_classes : gset RiskClass;
  t_resource_resolver : option ResourceResolver;
  t_effectful : bool;
  t_idempotency_key_parameter : option string;
  t_capability_id : string
}.

(** [str.isidentifier] *)
Definition isidentifier (s : string) : bool :=
  match s with
  | EmptyString => false
  | String c s' => (is_lower c || is_upper c || Ascii.eqb c "_") && string_forall (fun c => is_alnum c || Ascii.eqb c "_") s'
  end.

(** [[a-z0-9][a-z0-9._-]{0,n}] *)
Definition capability_text (n : nat) (s : string) : bool :=
  match s with
  | EmptyString => false
  | String c s' =>
      (is_lower c || is_digit c) && (String.length s' <=? n)%nat
      && string_forall (fun c => is_lower c || is_digit c || bool_decide (c ∈ ["."; "_"; "-"]%char)) s'
  end.

Definition default_capability (canonical : string) : string :=
  if capability_text 120 canonical then "native." ++ canonical
  else "native.tool_" ++ String.substring 0 16 (sha256_hex canonical).

(** The handler accepts the idempotency key by name. *)
Definition accepts_key (h : Handler) (parameter : string) : bool :=
  (bool_decide (parameter ∈ h_parameters h) && negb (bool_decide (parameter ∈ h_positional_only h))) || h_var_keyword h.

Definition check_idempotency (schema : list (string * json)) (h : Handler) (parameter : option string) : result registry_error unit :=
  match parameter with
  | None => Ok tt
  | Some p =>
      _ ← require (isidentifier p) RValueError;
      props ← declared_properties schema;
      required ← required_fields schema;
      _ ← require (negb (has_key p props || bool_decide (p ∈ required))) RValueError;
      require (accepts_key h p) RValueError
  end.

(** [ToolDefinition(..)] *)
Definition new_tool (name : string) (h : Handler) (description : string) (permissions : option (list string)) (schema : option json)
    (timeout : Z) (approval : bool) (risks : gset RiskClass) (resolver : option ResourceResolver) (effectful : bool)
    (parameter : option string) (capability : option string) : result registry_error ToolDefinition :=
  schema ← (match schema with None => Ok [] | Some s => _validate_input_schema s end);
  _ ← check_idempotency schema h parameter;
  canonical ← lift_err (fun _ => RValueError) (canonical_tool_name name);
  let capability_id := match capability with
                       | None | Some EmptyString => default_capability canonical
                       | Some c => c
                       end in
  _ ← require (capability_text 127 capability_id) RValueError;
  Ok (mkRegisteredTool canonical h description (default [] permissions) schema timeout approval risks resolver
        (effectful || bool_decide (risks ∩ _EFFECTFUL_RISKS <> ∅) || bool_decide (is_Some parameter)) parameter capability_id).

(** ** The registry *)

(** [_tools] is a dictionary in insertion order. *)
Record SecureToolRegistry : Type := mkRegistry {
  _tools : list (string * ToolDefinition);
  _default_timeout : Z;
  _has_permissions : bool;
  _has_audit : bool;
  _compliance : option CompliancePolicy;
  _disabled_capability_ids : gset string;
  _denied_permissions : gset string
}.

Definition new_registry (permissions audit : bool) (timeout : Z) (comp : option CompliancePolicy) (disabled denied : gset string)
  : SecureToolRegistry := mkRegistry [] timeout permissions audit comp disabled denied.

Definition with_tools (r : SecureToolRegistry) (tools : list (string * ToolDefinition)) : SecureToolRegistry :=
  mkRegistry tools (_default_timeout r) (_has_permissions r) (_has_audit r) (_compliance r) (_disabled_capability_ids r) (_denied_permissions r).

(** [self._tools.get(name)] *)
Definition tool_at (r : SecureToolRegistry) (name : string) : option ToolDefinition :=
  snd <$> List.find (fun kv => string_eqb kv.1 name) (_tools r).

(** [timeout or self._default_timeout] *)
Definition timeout_or (timeout : option Z) (default : Z) : Z :=
  match timeout with None => default | Some t => if (t =? 0)%Z then default else t end.

Definition register (name : string) (h : Handler) (description : string) (permissions : option (list string)) (schema : option json)
    (timeout : option Z) (approval : bool) (risks : gset RiskClass) (resolver : option ResourceResolver) (effectful : bool)
    (parameter : option string) (capability : option string) (r : SecureToolRegistry)
  : SecureToolRegistry * result registry_error unit :=
  match (canonical ← lift_err (fun _ => RValueError) (canonical_tool_name name);
         _ ← require (bool_decide (tool_at r canonical = None)) RValueError;
         tool ← new_tool canonical h description permissions schema (timeout_or timeout (_default_timeout r)) approval risks resolver
                  effectful parameter capability;
         Ok (canonical, tool)) with
  | Ok (canonical, tool) => (with_tools r (_tools r ++ [(canonical, tool)])%list, Ok tt)
  | Err e => (r, Err e)
  end.

Definition _is_visible (r : SecureToolRegistry) (t : ToolDefinition) : bool :=
  negb (bool_decide (t_capability_id t ∈ _disabled_capability_ids r))
  && negb (bool_decide (t_name t ∈ _disabled_capability_ids r))
  && bool_decide (list_to_set (t_required_permissions t) ∩ _denied_permissions r = ∅).

Definition apply_capability_policy (disabled denied : gset string) (r : SecureToolRegistry) : SecureToolRegistry :=
  mkRegistry (_tools r) (_default_timeout r) (_has_permissions r) (_has_audit r) (_compliance r)
    (_disabled_capability_ids r ∪ disabled) (_denied_permissions r ∪ denied).

(** The first tool with that capability id or name is deleted. *)
Fixpoint remove_first (capability_id : string) (l : list (string * ToolDefinition)) : list (string * ToolDefinition) * bool :=
  match l with
  | [] => ([], false)
  | (name, t) :: l' =>
      if string_eqb capability_id (t_capability_id t) || string_eqb capability_id (t_name t) then (l', true)
      else let '(l'', found) := remove_first capability_id l' in ((name, t) :: l'', found)
  end.

Definition remove_capability (capability_id : string) (r : SecureToolRegistry) : SecureToolRegistry * bool :=
  let '(tools, found) := remove_first capability_id (_tools r) in (with_tools r tools, found).

(** A tool that a call can reach. *)
Definition visible_tool (r : SecureToolRegistry) (name : string) : option ToolDefinition :=
  match tool_at r name with Some t => if _is_visible r t then Some t else None | None => None end.

(** ** Arguments *)

(** [type(value) is type(option) and value == option]: the options were frozen when the tool
    was registered, so an array is a tuple and an object a mapping proxy there, while the
    value is a list or a dictionary. Floats with one [repr] are equal, and so are both zeros. *)
Definition is_option (v option : json) : bool :=
  match v, option with
  | JNull, JNull => true
  | JBool a, JBool b => bool_decide (a = b)
  | JInt a, JInt b => (a =? b)%Z
  | JFloat a, JFloat b => (string_eqb a b && negb (string_eqb a "nan"))
                          || (bool_decide (a ∈ ["0.0"; "-0.0"]) && bool_decide (b ∈ ["0.0"; "-0.0"]))
  | JStr a, JStr b => string_eqb a b
  | _, _ => false
  end.

Definition declared_type (declaration : json) : string :=
  match declaration with JObj d => match get_key "type" d with Some (JStr t) => t | _ => "" end | _ => "" end.

Definition declared_enum (declaration : json) : option (list json) :=
  match declaration with JObj d => match get_key "enum" d with Some (JArr l) => Some l | _ => None end | _ => None end.

Fixpoint check_values (props : list (string * json)) (arguments : list (string * json)) : result registry_error unit :=
  match props with
  | [] => Ok tt
  | (field, declaration) :: props' =>
      _ ← (match get_key field arguments with
           | None => Ok tt
           | Some value =>
               _ ← require (_value_matches_type value (declared_type declaration)) RValueError;
               match declared_enum declaration with
               | None => Ok tt
               | Some enum => require (existsb (is_option value) enum) RValueError
               end
           end);
      check_values props' arguments
  end.

(** The declarations of a registered tool were checked: a failed lookup cannot happen. *)
Definition schema_required (t : ToolDefinition) : list string :=
  match required_fields (t_input_schema t) with Ok l => l | Err _ => [] end.
Definition schema_properties (t : ToolDefinition) : list (string * json) :=
  match declared_properties (t_input_schema t) with Ok l => l | Err _ => [] end.

(** [schema.get("additionalProperties") is True] *)
Definition open_schema (t : ToolDefinition) : bool :=
  match get_key "additionalProperties" (t_input_schema t) with Some (JBool b) => b | _ => false end.

Definition _validate_arguments (t : ToolDefinition) (arguments : list (string * json)) : result registry_error (list (string * json)) :=
  _ ← require (forallb (fun f => has_key f arguments) (schema_required t)) RValueError;
  _ ← require (open_schema t || forallb (fun k => bool_decide (k ∈ schema_required t) || has_key k (schema_properties t)) arguments.*1) RValueError;
  _ ← check_values (schema_properties t) arguments;
  Ok arguments.

(** ** Calls *)

Definition registry_name (c : ToolCall) : result registry_error string :=
  lift_err (fun _ => RValueError) (canonical_tool_name (call_name c)).

Definition complies (r : SecureToolRegistry) (name : string) (t : ToolDefinition) (arguments : list (string * json))
  : result registry_error unit :=
  match _compliance r with
  | Some p => if t_effectful t then lift_err RComplianceError (enforce_dangerous_tool p name (JObj arguments)) else Ok tt
  | None => Ok tt
  end.

Definition found (e : registry_error) (o : option ToolDefinition) : result registry_error ToolDefinition :=
  match o with Some t => Ok t | None => Err e end.

Definition resolve (t : ToolDefinition) (arguments : list (string * json)) : result registry_error (list ResourcePattern) :=
  match t_resource_resolver t with
  | None => Ok []
  | Some resolver =>
      match resolver arguments with
      | None => Err PolicyMetadataError
      | Some resolved =>
          _ ← require (negb (existsb (fun r => bool_decide (kind r = TOOL_KIND)) resolved)) PolicyMetadataError; Ok resolved
      end
  end.

Definition policy_request (r : SecureToolRegistry) (c : ToolCall) : result registry_error PolicyRequest :=
  name ← registry_name c;
  t ← found PolicyMetadataError (visible_tool r name);
  _ ← require (negb (bool_decide (t_risk_classes t = ∅))) PolicyMetadataError;
  arguments ← _validate_arguments t (arguments c);
  resources ← resolve t arguments;
  lift_err (fun _ => PolicyMetadataError) (new_request name resources (t_risk_classes t) (t_requires_approval t)).

Record ToolEffectSpec : Type := mkEffectSpec {
  s_effectful : bool;
  s_input_schema : list (string * json);
  s_resources : list ResourcePattern;
  s_idempotency_key_parameter : option string
}.

Definition effect_spec (r : SecureToolRegistry) (c : ToolCall) (approved : option (list ResourcePattern)) : result registry_error ToolEffectSpec :=
  name ← registry_name c;
  t ← found PolicyMetadataError (visible_tool r name);
  arguments ← _validate_arguments t (arguments c);
  resources ← (match approved with
               | None => request_resources <$> policy_request r (mkToolCall (call_id c) name arguments)
               | Some rs => Ok rs
               end);
  Ok (mkEffectSpec (t_effectful t) (t_input_schema t) resources (t_idempotency_key_parameter t)).

Definition enforce_effect_compliance (r : SecureToolRegistry) (c : ToolCall) : result registry_error unit :=
  name ← registry_name c;
  t ← found PolicyMetadataError (visible_tool r name);
  arguments ← _validate_arguments t (arguments c);
  complies r name t arguments.

(** ** Execution *)

Inductive registry_event : Type :=
| RPermission (tool permission : string) (allowed : bool)
| RAudited (action resource : string)
| RHandled (handler : Handler) (parameters : list (string * json)).

(** What became of the handler within its timeout. *)
Inductive handler_outcome : Type :=
| HReturned (output : pyval)
| HTimeout
| HPermissionError
| HRaised
| HCancelled.

Fixpoint max_identity (v : pyval) : nat :=
  match v with
  | PDict i items => fold_right (fun kv n => Nat.max (max_identity kv.2) n) i items
  | PList i items => fold_right (fun x n => Nat.max (max_identity x) n) i items
  | _ => O
  end.

(** [result if isinstance(result, dict) else {"result": result}] *)
Definition as_dict (v : pyval) : pyval :=
  match v with PDict _ _ => v | _ => PDict (S (max_identity v)) [("result", v)] end.

Section execution.
(** The collaborators, by the number of events before: the checker's answer or its failure,
    whether the audit log works, the handler's outcome. *)
Context (permission_answer : nat -> option bool) (audit_works : nat -> bool)
  (handle : nat -> Handler -> list (string * json) -> handler_outcome).

#[local] Abbreviation R := (M unit unit registry_event registry_error).

(** A collaborator's step: its event and its answer. *)
Definition collaborate {A} (step : nat -> registry_event * result registry_error A) : R A := fun w =>
  let '(ev, answer) := step (length (history w)) in
  (mkWorld (db w) (ticks w) (fields w) (history w ++ [ev])%list, answer).

Definition log (r : SecureToolRegistry) (action name : string) : R unit :=
  if _has_audit r then
    collaborate (A := unit) (fun n => (RAudited action name, if audit_works n then Ok tt else Err RCollaboratorError))
  else mret tt.

Fixpoint check_permissions (r : SecureToolRegistry) (name : string) (permissions : list string) : R unit :=
  match permissions with
  | [] => mret tt
  | permission :: rest =>
      mbind (fun allowed : bool =>
          if allowed then check_permissions r name rest
          else _ ← log r "permission_denied" name; raise RPermissionError)
        (collaborate (fun n => match permission_answer n with
                               | Some b => (RPermission name permission b, Ok b)
                               | None => (RPermission name permission false, Err RCollaboratorError)
                               end))
  end.

Definition _execute_registered (r : SecureToolRegistry) (name : string) (t : ToolDefinition) (parameters : list (string * json)) : R pyval :=
  _ ← (if _has_permissions r then check_permissions r name (t_required_permissions t) else mret tt);
  outcome ← collaborate (A := handler_outcome) (fun n => (RHandled (t_handler t) parameters, Ok (handle n (t_handler t) parameters)));
  match outcome with
  | HTimeout => _ ← log r "tool_timeout" name; raise RTimeoutError
  | HPermissionError => raise RPermissionError
  | HRaised => raise RHandlerError
  | HCancelled => raise RCancelled
  | HReturned output => _ ← log r "tool_executed" name; mret (as_dict output)
  end.

Definition execute (r : SecureToolRegistry) (c : ToolCall) : R pyval :=
  name ← of_result (registry_name c);
  t ← of_result (found RValueError (visible_tool r name));
  arguments ← of_result (_validate_arguments t (arguments c));
  _ ← of_result (complies r name t arguments);
  _execute_registered r name t arguments.

(** [handler_parameters[parameter] = effect_id] on the copied dictionary. *)
Definition with_key (t : ToolDefinition) (effect_id : string) (arguments : list (string * json)) : list (string * json) :=
  match t_idempotency_key_parameter t with
  | Some p => dict_insert p (JStr effect_id) arguments
  | None => arguments
  end.

Definition execute_effect (r : SecureToolRegistry) (c : ToolCall) (effect_id : string) : R pyval :=
  name ← of_result (registry_name c);
  t ← of_result (found RValueError (visible_tool r name));
  arguments ← of_result (_validate_arguments t (arguments c));
  _execute_registered r name t (with_key t effect_id arguments).
End execution.

(** ** Views *)

Definition visible_tools (r : SecureToolRegistry) : list ToolDefinition := List.filter (_is_visible r) (_tools r).*2.

Definition RISK_VALUES : list (RiskClass * string) :=
  [(READ, "read"); (WRITE, "write"); (EXECUTE, "execute"); (NETWORK, "network"); (SECRET, "secret"); (EXTERNAL_SIDE_EFFECT, "external_side_effect")].

Definition string_le (a b : string) : Prop := String.leb a b = true.

#[export] Instance string_le_dec : RelDecision string_le.
Proof. intros a b. unfold string_le. apply _. Defined.

(** [sorted(risk.value for risk in tool.risk_classes)] *)
Definition sorted_risks (t : ToolDefinition) : list string :=
  merge_sort string_le (snd <$> List.filter (fun rv => bool_decide (rv.1 ∈ t_risk_classes t)) RISK_VALUES).

Definition list_tools (r : SecureToolRegistry) : list json :=
  (fun t => JObj [("name", JStr (t_name t)); ("description", JStr (t_description t)); ("input_schema", JObj (t_input_schema t));
                  ("risk_classes", JArr (JStr <$> sorted_risks t)); ("requires_approval", JBool (t_requires_approval t))]) <$> visible_tools r.

(** [d.setdefault(k, v)] *)
Definition setdefault (k : string) (v : json) (d : list (string * json)) : list (string * json) :=
  if has_key k d then d else (d ++ [(k, v)])%list.

Definition definitions (r : SecureToolRegistry) : list BudgetedProvider.ToolDefinition :=
  (fun t => BudgetedProvider.mkTool (t_name t) (t_description t) (setdefault "properties" (JObj []) (setdefault "type" (JStr "object") (t_input_schema t))))
  <$> visible_tools r.

Definition get_tool (r : SecureToolRegistry) (name : string) : result registry_error (option ToolDefinition) :=
  name ← lift_err (fun _ => RValueError) (canonical_tool_name name); Ok (visible_tool r name).

Definition tool_requires_approval (r : SecureToolRegistry) (name : string) : result registry_error bool :=
  t ← get_tool r name; Ok (match t with Some t => t_requires_approval t | None => false end).

(** *** Workspace paths *)

Section workspace.
Context (idna_encode : string -> option string) (canonical_root : string).

(** [os.path.abspath(candidate)], which keeps exactly two leading slashes. *)
Definition abspath (candidate : string) : string :=
  if starts_with "//" candidate && negb (starts_with "///" candidate) then String slash (normpath_rooted candidate)
  else normpath_rooted candidate.

(** [resolved.relative_to(canonical_root)] does not raise. *)
Definition is_relative_to (resolved : string) : bool :=
  string_eqb resolved canonical_root || starts_with (if string_eqb canonical_root "/" then "/" else canonical_root ++ "/") resolved
     && negb (starts_with "//" resolved).

(** The resolver of [workspace_path_resolver(root)]. *)
Definition workspace_resolve (arguments : list (string * json)) : option (list ResourcePattern) :=
  match get_key "path" arguments with
  | Some (JStr path) =>
      if string_eqb path "" || contains_char backslash path then None
      else
        let candidate := if starts_with "/" path then path
                         else (if string_eqb canonical_root "/" then "/" else canonical_root ++ "/") ++ path in
        let resolved := abspath candidate in
        if is_relative_to resolved
        then match new_pattern idna_encode PATH resolved with Ok p => Some [p] | Err _ => None end
        else None
  | _ => None
  end.
End workspace.

(** ** Arguments and their declarations *)

(** What the schema asks of the arguments. *)
Record conforms (t : ToolDefinition) (arguments : list (string * json)) : Prop := {
  all_required : forall f, f ∈ schema_required t -> f ∈ arguments.*1;
  all_declared : open_schema t = true \/ forall f, f ∈ arguments.*1 -> f ∈ schema_required t \/ f ∈ (schema_properties t).*1;
  all_typed : forall f declaration v, (f, declaration) ∈ schema_properties t -> get_key f arguments = Some v ->
    _value_matches_type v (declared_type declaration) = true
    /\ forall enum, declared_enum declaration = Some enum -> exists option, option ∈ enum /\ is_option v option = true
}.

Lemma check_values_spec props arguments : check_values props arguments = Ok tt <->
  forall f declaration v, (f, declaration) ∈ props -> get_key f arguments = Some v ->
    _value_matches_type v (declared_type declaration) = true
    /\ forall enum, declared_enum declaration = Some enum -> exists option, option ∈ enum /\ is_option v option = true.
Proof.
  induction props as [|[f d] props IH]; cbn [check_values].
  { split; [|done]. intros _ f d v []%elem_of_nil. }
  assert (forall v enum, existsb (is_option v) enum = true <-> exists option, option ∈ enum /\ is_option v option = true) as Hex.
  { intros v enum. rewrite existsb_exists. by setoid_rewrite list_elem_of_In. }
  unfold require. split.
  - intros H. destruct (get_key f arguments) as [v|] eqn:Hv.
    + destruct (_value_matches_type v _) eqn:Hm; cbn [mbind result_bind] in H; [|done].
      assert (forall enum, declared_enum d = Some enum -> exists option, option ∈ enum /\ is_option v option = true) as He.
      { intros enum E. rewrite E in H. apply Hex. destruct (existsb _ _); [done|]. cbn [mbind result_bind] in H. done. }
      assert (check_values props arguments = Ok tt) as Hp.
      { destruct (declared_enum d); [destruct (existsb _ _)|]; cbn [mbind result_bind] in H; done. }
      intros f' d' v' [[= -> ->]|Hin]%elem_of_cons Hv'; [|by apply (proj1 IH Hp f')].
      rewrite Hv in Hv'. injection Hv' as <-. by split.
    + cbn [mbind result_bind] in H. intros f' d' v' [[= -> ->]|Hin]%elem_of_cons Hv'; [congruence|by apply (proj1 IH H f')].
  - intros H. assert (check_values props arguments = Ok tt) as Hp by (apply IH; intros f' d' v' Hin; apply H; by right).
    destruct (get_key f arguments) as [v|] eqn:Hv; [|exact Hp].
    destruct (H f d v) as [Hm He]; [by left|done|]. rewrite Hm. cbn [mbind result_bind].
    destruct (declared_enum d) as [enum|]; [|exact Hp]. rewrite (proj2 (Hex v enum)) by by apply He. exact Hp.
Qed.

Lemma has_key_spec k d : has_key k d = true <-> k ∈ d.*1.
Proof. unfold has_key. apply bool_decide_eq_true. Qed.

Lemma forallb_spec {A} (P : A -> bool) l : forallb P l = true <-> forall x, x ∈ l -> P x = true.
Proof. rewrite forallb_forall. by setoid_rewrite list_elem_of_In. Qed.

Lemma validate_spec_args t arguments r : _validate_arguments t arguments = Ok r <-> r = arguments /\ conforms t arguments.
Proof.
  unfold _validate_arguments, require. split.
  - destruct (forallb _ (schema_required t)) eqn:Hr; cbn [mbind result_bind]; [|done].
    destruct (open_schema t || _) eqn:Hd; cbn [mbind result_bind]; [|done].
    destruct (check_values _ _) as [[]|] eqn:Hc; cbn [mbind result_bind]; [|done]. intros [= <-]. split; [done|]. split.
    + intros f Hf. rewrite forallb_spec in Hr. by apply has_key_spec, Hr.
    + apply orb_true_iff in Hd as [Hd|Hd]; [by left|right]. intros f Hf. rewrite forallb_spec in Hd.
      specialize (Hd f Hf). apply orb_true_iff in Hd as [Hd|Hd]; [left; by apply bool_decide_eq_true in Hd|right; by apply has_key_spec].
    + by apply check_values_spec.
  - intros [-> [H1 H2 H3]]. rewrite (proj2 (forallb_spec _ (schema_required t))) by (intros f Hf; by apply has_key_spec, H1).
    cbn [mbind result_bind].
    assert (open_schema t || forallb (fun k => bool_decide (k ∈ schema_required t) || has_key k (schema_properties t)) arguments.*1 = true) as ->.
    { apply orb_true_iff. destruct H2 as [H2|H2]; [by left|right]. apply forallb_spec. intros f Hf.
      apply orb_true_iff. destruct (H2 f Hf) as [?|?]; [left; by apply bool_decide_eq_true|right; by apply has_key_spec]. }
    cbn [mbind result_bind]. apply check_values_spec in H3 as ->. done.
Qed.

(** ** Canonical names *)

Definition lstrip (s : string) : string := lstrip_char " " s.

Lemma lstrip_length s : (String.length (lstrip s) <= String.length s)%nat.
Proof.
  unfold lstrip. induction s as [|c s IH]; [done|]. cbn [lstrip_char]. destruct (Ascii.eqb c " "); cbn [String.length]; lia.
Qed.

Lemma lstrip_fixed c s : lstrip (String c s) = String c s <-> Ascii.eqb c " " = false.
Proof.
  unfold lstrip. cbn [lstrip_char]. destruct (Ascii.eqb c " ") eqn:Hc; [|by split]. split; [|done]. intros H.
  pose proof (lstrip_length s) as Hl. unfold lstrip in Hl. rewrite H in Hl. cbn in Hl. lia.
Qed.

Lemma lstrip_idem s : lstrip (lstrip s) = lstrip s.
Proof.
  induction s as [|c s IH]; [done|]. unfold lstrip at 2 3. cbn [lstrip_char]. destruct (Ascii.eqb c " ") eqn:Hc; [exact IH|].
  by apply lstrip_fixed.
Qed.

Lemma lstrip_lower s : lstrip (lower s) = lower (lstrip s).
Proof.
  unfold lstrip. induction s as [|c s IH]; [done|]. change (lower (String c s)) with (String (lower_char c) (lower s)).
  cbn [lstrip_char]. assert (Ascii.eqb (lower_char c) " " = Ascii.eqb c " ") as ->
    by (clear; destruct c as [[] [] [] [] [] [] [] []]; reflexivity).
  by destruct (Ascii.eqb c " ").
Qed.

Lemma rev_cons c s : string_rev (String c s) = string_rev s ++ String c "".
Proof. unfold string_rev. cbn [string_rev_app]. apply rev_app_spec. Qed.

Lemma rev_lower s : string_rev (lower s) = lower (string_rev s).
Proof.
  induction s as [|c s IH]; [done|]. change (lower (String c s)) with (String (lower_char c) (lower s)).
  by rewrite !rev_cons, lower_app, IH.
Qed.

Lemma strip_spaces_eq s : strip_spaces s = string_rev (lstrip (string_rev (lstrip s))).
Proof. reflexivity. Qed.

Lemma lstrip_of_prefix t b : lstrip (t ++ b) = t ++ b -> lstrip t = t.
Proof. destruct t as [|c t]; [done|]. rewrite string_app_cons, !lstrip_fixed. done. Qed.

Lemma lstrip_suffix s : exists a, s = a ++ lstrip s.
Proof.
  unfold lstrip. induction s as [|c s [a Ha]]; [by exists ""|]. cbn [lstrip_char]. destruct (Ascii.eqb c " "); [|by exists ""].
  exists (String c a). rewrite string_app_cons. by f_equal.
Qed.

Lemma strip_spaces_idem s : strip_spaces (strip_spaces s) = strip_spaces s.
Proof.
  rewrite !strip_spaces_eq. set (u := lstrip s). set (v := lstrip (string_rev u)).
  assert (lstrip (string_rev v) = string_rev v) as ->.
  { destruct (lstrip_suffix (string_rev u)) as [a Ha]. fold v in Ha.
    apply (lstrip_of_prefix _ (string_rev a)). rewrite <- string_rev_app_distr, <- Ha, string_rev_involutive. apply lstrip_idem. }
  rewrite string_rev_involutive. unfold v at 1. by rewrite lstrip_idem.
Qed.

Lemma strip_spaces_lower s : strip_spaces (lower s) = lower (strip_spaces s).
Proof. by rewrite !strip_spaces_eq, lstrip_lower, rev_lower, lstrip_lower, rev_lower. Qed.

Lemma clean_lower s : clean s = true -> clean (lower s) = true.
Proof.
  unfold clean. induction s as [|c s IH]; [done|]. change (lower (String c s)) with (String (lower_char c) (lower s)).
  cbn [string_forall]. intros H. bool_to_prop. rewrite IH by done. rewrite andb_true_r.
  match goal with H : is_control c = false |- _ => revert H end.
  clear. destruct c as [[] [] [] [] [] [] [] []]; vm_compute; done.
Qed.

Lemma clean_strip s : clean s = true -> clean (strip_spaces s) = true.
Proof.
  intros H. rewrite strip_spaces_eq. unfold clean, lstrip. rewrite string_forall_rev. apply lstrip_forall.
  rewrite string_forall_rev. by apply lstrip_forall.
Qed.

(** A canonical name is its own canonical name. *)
Lemma canonical_name_idem name c : canonical_tool_name name = Ok c -> canonical_tool_name c = Ok c.
Proof.
  unfold canonical_tool_name, _canonical_tool, _text. fold (clean name). destruct (clean name) eqn:Hc; cbn [negb]; [|done].
  destruct (string_eqb (strip_spaces name) "") eqn:He; cbn [fmap result_fmap mbind result_bind]; [done|].
  cbn [andb]. destruct (contains_char star (lower (strip_spaces name))) eqn:Hs; [done|]. intros [= <-].
  fold (clean (lower (strip_spaces name))). rewrite clean_lower by by apply clean_strip. cbn [negb].
  rewrite strip_spaces_lower, strip_spaces_idem.
  assert (string_eqb (lower (strip_spaces name)) "" = false) as ->.
  { apply string_eqb_neq in He. apply string_eqb_neq. by destruct (strip_spaces name). }
  cbn [fmap result_fmap mbind result_bind]. by rewrite lower_idem, Hs.
Qed.

(** ** The registry's invariant *)

(** A registered tool: its name is canonical, its schema was validated, a tool with an
    effectful risk or an idempotency key is effectful, and the key is hidden from the
    schema and accepted by the handler. *)
Record tool_ok (t : ToolDefinition) : Prop := {
  name_canonical : canonical_tool_name (t_name t) = Ok (t_name t);
  schema_valid : _validate_input_schema (JObj (t_input_schema t)) = Ok (t_input_schema t);
  risky_effectful : t_risk_classes t ∩ _EFFECTFUL_RISKS <> ∅ -> t_effectful t = true;
  key_hidden : forall p, t_idempotency_key_parameter t = Some p ->
    t_effectful t = true /\ p ∉ schema_required t /\ p ∉ (schema_properties t).*1 /\ accepts_key (t_handler t) p = true;
  capability_valid : capability_text 127 (t_capability_id t) = true
}.

Definition registry_ok (r : SecureToolRegistry) : Prop :=
  NoDup (_tools r).*1 /\ Forall (fun kt => kt.1 = t_name kt.2 /\ tool_ok kt.2) (_tools r).

Lemma schema_validated s r : _validate_input_schema s = Ok r -> s = JObj r.
Proof. destruct s; try done. cbn [_validate_input_schema]. intros H. inv_result. done. Qed.

Lemma new_tool_ok name h description permissions schema timeout approval risks resolver effectful parameter capability t :
  new_tool name h description permissions schema timeout approval risks resolver effectful parameter capability = Ok t ->
  tool_ok t /\ canonical_tool_name name = Ok (t_name t).
Proof.
  unfold new_tool. intros H.
  destruct (match schema with None => Ok [] | Some s => _validate_input_schema s end) as [s|] eqn:Hs; [|done].
  cbn [mbind result_bind] in H. destruct (check_idempotency s h parameter) as [[]|] eqn:Hi; [|done]. cbn [mbind result_bind] in H.
  destruct (canonical_tool_name name) as [canonical|] eqn:Hc; [|done]. cbn [lift_err mbind result_bind] in H.
  set (cap := match capability with None | Some EmptyString => default_capability canonical | Some c => c end) in H.
  unfold require in H. destruct (capability_text 127 cap) eqn:Hcap; [|done]. cbn [mbind result_bind] in H. injection H as <-.
  split; [|done]. split; cbn [t_name t_input_schema t_risk_classes t_effectful t_idempotency_key_parameter t_handler t_capability_id]; [| | | |done].
  - by apply canonical_name_idem in Hc.
  - destruct schema as [s'|]; [|injection Hs as <-; reflexivity]. pose proof (schema_validated _ _ Hs) as ->. done.
  - intros Hne. rewrite (bool_decide_eq_true_2 (_ <> ∅)) by done. by rewrite orb_true_r.
  - intros p ->. unfold check_idempotency, require in Hi. rewrite (bool_decide_eq_true_2 (is_Some _)) by eauto. rewrite !orb_true_r.
    split; [done|]. unfold schema_required, schema_properties. cbn [t_input_schema].
    destruct (isidentifier p); [|done]. cbn [mbind result_bind] in Hi.
    destruct (declared_properties s) as [props|]; [|done]. destruct (required_fields s) as [required|]; [|done]. cbn [mbind result_bind] in Hi.
    destruct (has_key p props || _) eqn:Hk; [done|]. cbn [negb mbind result_bind] in Hi. apply orb_false_iff in Hk as [Hk1 Hk2].
    split; [by apply bool_decide_eq_false in Hk2|]. split; [by apply bool_decide_eq_false in Hk1|]. by destruct (accepts_key h p).
Qed.

(** One change of the registry. *)
Inductive registry_step : SecureToolRegistry -> SecureToolRegistry -> Prop :=
| rstep_register name h description permissions schema timeout approval risks resolver effectful parameter capability r :
    registry_step r (register name h description permissions schema timeout approval risks resolver effectful parameter capability r).1
| rstep_policy disabled denied r : registry_step r (apply_capability_policy disabled denied r)
| rstep_remove id r : registry_step r (remove_capability id r).1.

Lemma tool_at_None r name : tool_at r name = None -> name ∉ (_tools r).*1.
Proof.
  unfold tool_at. destruct (List.find _ _) eqn:Hf; [done|]. intros _ (kt & -> & Hin)%list_elem_of_fmap.
  apply list_elem_of_In in Hin. apply (List.find_none _ _ Hf) in Hin. by rewrite string_eqb_refl in Hin.
Qed.

Lemma tool_at_Some r name t : tool_at r name = Some t -> (name, t) ∈ _tools r.
Proof.
  unfold tool_at. destruct (List.find _ _) as [[k t']|] eqn:Hf; [|done]. intros [= <-]. apply List.find_some in Hf as [Hf Hk].
  apply string_eqb_spec in Hk as <-. by apply list_elem_of_In.
Qed.

Lemma remove_first_sublist id l : sublist (remove_first id l).1 l.
Proof.
  induction l as [|[k t] l IH]; [done|]. cbn [remove_first]. destruct (_ || _); [by apply sublist_cons|].
  destruct (remove_first id l). by apply sublist_skip.
Qed.

Lemma register_cases name h description permissions schema timeout approval risks resolver effectful parameter capability r :
  let r' := (register name h description permissions schema timeout approval risks resolver effectful parameter capability r).1 in
  r' = r \/ exists t, r' = with_tools r (_tools r ++ [(t_name t, t)])%list /\ tool_ok t /\ t_name t ∉ (_tools r).*1.
Proof.
  unfold register. destruct (canonical_tool_name name) as [canonical|] eqn:Hc; [|by left]. cbn [lift_err mbind result_bind].
  unfold require. case_bool_decide as Ht; [|by left]. cbn [mbind result_bind].
  destruct (new_tool _ _ _ _ _ _ _ _ _ _ _ _) as [t|] eqn:Hn; [|by left]. cbn [mbind result_bind fst]. right.
  apply new_tool_ok in Hn as [Hok Hname]. apply canonical_name_idem in Hc. rewrite Hname in Hc. injection Hc as Hc.
  exists t. rewrite Hc. split; [done|]. split; [done|]. by apply tool_at_None.
Qed.

Lemma registry_step_ok r r' : registry_step r r' -> registry_ok r -> registry_ok r'.
Proof.
  intros Hs [Hn Hf]. destruct Hs as [name h description permissions schema timeout approval risks resolver effectful parameter capability r
                                    |disabled denied r|id r].
  - destruct (register_cases name h description permissions schema timeout approval risks resolver effectful parameter capability r)
      as [->|(t & -> & Hok & Hnew)]; [done|]. split; cbn [_tools with_tools].
    + rewrite fmap_app. apply NoDup_app. split; [done|]. split; [|apply NoDup_singleton].
      intros k Hk ->%list_elem_of_singleton. done.
    + apply Forall_app. split; [done|]. by apply Forall_singleton.
  - done.
  - pose proof (remove_first_sublist id (_tools r)) as Hsub. unfold remove_capability.
    destruct (remove_first id (_tools r)) as [l found]. cbn [fst] in *. split; cbn [_tools with_tools].
    + eapply sublist_NoDup; [exact Hn|by apply fmap_sublist].
    + rewrite Forall_forall in *. intros kt Hkt. apply Hf. by eapply elem_of_sublist.
Qed.

Lemma registry_steps_ok r r' : rtc registry_step r r' -> registry_ok r -> registry_ok r'.
Proof. induction 1 as [|r1 r2 r3 H _ IH]; [done|]. intros Hr. by apply IH, (registry_step_ok r1). Qed.

Lemma new_registry_ok permissions audit timeout comp disabled denied : registry_ok (new_registry permissions audit timeout comp disabled denied).
Proof. split; [apply NoDup_nil_2|by apply Forall_nil_2]. Qed.

(** C34. Whatever was registered, removed and restricted since a registry was created, every
    tool in it is stored once, under its own canonical name, with a validated schema; a
    tool with an effectful risk is effectful; an idempotency key is hidden from the schema
    and accepted by the handler. *)
Theorem registry_well_formed (permissions audit : bool) (timeout : Z) (comp : option CompliancePolicy) (disabled denied : gset string)
    (r : SecureToolRegistry) :
  rtc registry_step (new_registry permissions audit timeout comp disabled denied) r ->
  NoDup (_tools r).*1 /\ forall name t, tool_at r name = Some t -> name = t_name t /\ tool_ok t.
Proof.
  intros Hs. destruct (registry_steps_ok _ _ Hs (new_registry_ok _ _ _ _ _ _)) as [Hn Hf]. split; [done|].
  intros name t Ht%tool_at_Some. rewrite Forall_forall in Hf. apply (Hf (name, t) Ht).
Qed.

Lemma step_tightens r r' : registry_step r r' ->
  _disabled_capability_ids r ⊆ _disabled_capability_ids r' /\ _denied_permissions r ⊆ _denied_permissions r'.
Proof.
  intros [name h description permissions schema timeout approval risks resolver effectful parameter capability r0
         |disabled denied r0|id r0].
  - destruct (register_cases name h description permissions schema timeout approval risks resolver effectful parameter capability r0)
      as [->|(t & -> & _)]; done.
  - cbn. set_solver.
  - unfold remove_capability. by destruct (remove_first id (_tools r0)).
Qed.

Lemma steps_tighten r r' : rtc registry_step r r' ->
  _disabled_capability_ids r ⊆ _disabled_capability_ids r' /\ _denied_permissions r ⊆ _denied_permissions r'.
Proof.
  induction 1 as [|r1 r2 r3 H _ [IH1 IH2]]; [done|]. apply step_tightens in H as [H1 H2]. split; by etrans.
Qed.

Lemma visible_spec r name t : visible_tool r name = Some t -> tool_at r name = Some t /\ _is_visible r t = true.
Proof. unfold visible_tool. destruct (tool_at r name); [|done]. destruct (_is_visible r t0) eqn:Hv; [|done]. by intros [= <-]. Qed.

(** Capability policy only tightens: what a project disabled, by capability id, by name or
    by a permission it needs, no later registration, removal or policy makes reachable. *)
Theorem disabled_stays_unreachable (r r' : SecureToolRegistry) (name : string) (t : ToolDefinition) :
  rtc registry_step r r' -> visible_tool r' name = Some t ->
  t_capability_id t ∉ _disabled_capability_ids r /\ t_name t ∉ _disabled_capability_ids r
  /\ forall permission, permission ∈ t_required_permissions t -> permission ∉ _denied_permissions r.
Proof.
  intros Hs [_ Hv]%visible_spec. destruct (steps_tighten _ _ Hs) as [H1 H2]. unfold _is_visible in Hv. bool_to_prop.
  set_solver.
Qed.

(** ** What runs *)

Section gates.
Context (permission_answer : nat -> option bool) (audit_works : nat -> bool)
  (handle : nat -> Handler -> list (string * json) -> handler_outcome).
#[local] Abbreviation W := (world unit unit registry_event).

Definition is_handled (e : registry_event) : bool := match e with RHandled _ _ => true | _ => false end.

(** The events of a run, without any handler's. *)
Definition quiet (w w' : W) : Prop := exists evs, history w' = (history w ++ evs)%list /\ forallb (fun e => negb (is_handled e)) evs = true.

Lemma quiet_refl w : quiet w w.
Proof. exists []. by rewrite app_nil_r. Qed.

Lemma log_quiet r action name w : quiet w (log audit_works r action name w).1.
Proof.
  unfold log. destruct (_has_audit r); [|apply quiet_refl]. unfold collaborate. cbn [fst history].
  by exists [RAudited action name].
Qed.

Lemma permissions_spec r name permissions w :
  match check_permissions permission_answer audit_works r name permissions w with
  | (w', Ok _) => history w' = (history w ++ ((fun p => RPermission name p true) <$> permissions))%list
  | (w', Err _) => quiet w w'
  end.
Proof.
  revert w. induction permissions as [|p l IH]; intros w; cbn [check_permissions]; [cbn; by rewrite app_nil_r|].
  unfold mbind, M_bind, collaborate at 1. destruct (permission_answer (length (history w))) as [[|]|] eqn:Hp; cbn beta iota zeta.
  - set (w1 := mkWorld _ _ _ _). specialize (IH w1). destruct (check_permissions _ _ r name l w1) as [w2 [[]|e]].
    + rewrite IH. unfold w1. cbn [history fmap list_fmap]. by rewrite <- app_assoc.
    + destruct IH as (evs & He & Hq). exists (RPermission name p true :: evs). split; [|done].
      rewrite He. unfold w1. cbn [history]. by rewrite <- app_assoc.
  - set (w1 := mkWorld _ _ _ _). destruct (log_quiet r "permission_denied" name w1) as (evs & He & Hq).
    assert (quiet w (log audit_works r "permission_denied" name w1).1) as Hw.
    { exists (RPermission name p false :: evs). split; [|done]. rewrite He. unfold w1. cbn [history]. by rewrite <- app_assoc. }
    destruct (log audit_works r "permission_denied" name w1) as [w2 [[]|e]]; exact Hw.
  - exists [RPermission name p false]. done.
Qed.

(** The handler ran once, with these parameters, after these permissions were granted. *)
Definition handled (r : SecureToolRegistry) (t : ToolDefinition) (parameters : list (string * json)) (w w' : W) : Prop :=
  exists rest, history w' = (history w
      ++ (if _has_permissions r then (fun p => RPermission (t_name t) p true) <$> t_required_permissions t else [])
      ++ RHandled (t_handler t) parameters :: rest)%list
    /\ forallb (fun e => negb (is_handled e)) rest = true.

Lemma execute_registered_spec r t parameters w w' out :
  _execute_registered permission_answer audit_works handle r (t_name t) t parameters w = (w', out) ->
  handled r t parameters w w' \/ quiet w w' /\ exists e, out = Err e.
Proof.
  unfold _execute_registered, mbind, M_bind.
  set (check := if _has_permissions r then check_permissions _ _ r (t_name t) (t_required_permissions t) else mret tt).
  assert (match check w with
          | (w1, Ok _) => history w1 = (history w ++ (if _has_permissions r
              then (fun p => RPermission (t_name t) p true) <$> t_required_permissions t else []))%list
          | (w1, Err _) => quiet w w1
          end) as Hc.
  { unfold check. destruct (_has_permissions r); [apply permissions_spec|]. cbn. by rewrite app_nil_r. }
  destruct (check w) as [w1 [[]|e]]; [|intros [= <- <-]; right; by eauto].
  unfold collaborate. cbn beta iota zeta. set (w2 := mkWorld _ _ _ _). intros Hrun. left.
  assert (quiet w2 w') as (evs & He & Hq).
  { destruct (handle _ _ _) as [output| | | |]; try (injection Hrun as <- _; apply quiet_refl).
    - pose proof (log_quiet r "tool_executed" (t_name t) w2) as Hl.
      destruct (log _ _ _ _ w2) as [w3 [[]|e]]; injection Hrun as <- _; exact Hl.
    - pose proof (log_quiet r "tool_timeout" (t_name t) w2) as Hl.
      destruct (log _ _ _ _ w2) as [w3 [[]|e]]; injection Hrun as <- _; exact Hl. }
  exists evs. split; [|done]. rewrite He. unfold w2. cbn [history]. rewrite Hc. by rewrite <- !app_assoc.
Qed.

(** What a compliance service that is there has let pass. *)
Lemma complies_effectful r name t args : complies r name t args = Ok tt ->
  forall p, _compliance r = Some p -> t_effectful t = true -> enforce_dangerous_tool p name (JObj args) = Ok tt.
Proof.
  unfold complies. intros Hc p Hp Ht. rewrite Hp, Ht in Hc. by destruct (enforce_dangerous_tool p name (JObj args)) as [[]|].
Qed.

(** C32. A handler runs only through the gates that are there: if a call runs anything, it runs
    the visible tool of its canonical name, once, on arguments that conform to the tool's
    schema. When the registry has a permission checker, every permission the tool requires was
    granted before; without one, as in the registry that serves chats, no permission is asked.
    When the tool has effects and the registry a compliance service, that service let the
    arguments pass; the arguments of other tools are not shown to it. In every other case the
    call raises and runs nothing. *)
Theorem execution_is_gated (r : SecureToolRegistry) (c : ToolCall) (w w' : W) (out : result registry_error pyval) :
  registry_ok r -> execute permission_answer audit_works handle r c w = (w', out) ->
  (exists t, canonical_tool_name (call_name c) = Ok (t_name t) /\ visible_tool r (t_name t) = Some t
     /\ conforms t (arguments c)
     /\ (forall p, _compliance r = Some p -> t_effectful t = true -> enforce_dangerous_tool p (t_name t) (JObj (arguments c)) = Ok tt)
     /\ (exists granted rest, history w' = (history w ++ granted ++ RHandled (t_handler t) (arguments c) :: rest)%list
         /\ granted = (if _has_permissions r then (fun p => RPermission (t_name t) p true) <$> t_required_permissions t else [])
         /\ forallb (fun e => negb (is_handled e)) rest = true))
  \/ quiet w w' /\ exists e, out = Err e.
Proof.
  intros [_ Hr]. unfold execute, mbind, M_bind, of_result. destruct (registry_name c) as [name|e] eqn:Hn;
    [|intros [= <- <-]; right; split; [apply quiet_refl|by eauto]].
  destruct (visible_tool r name) as [t|] eqn:Hv; cbn [found]; [|intros [= <- <-]; right; split; [apply quiet_refl|by eauto]].
  destruct (_validate_arguments t (arguments c)) as [args|e] eqn:Ha; [|intros [= <- <-]; right; split; [apply quiet_refl|by eauto]].
  apply validate_spec_args in Ha as [-> Hconf].
  destruct (complies r name t (arguments c)) as [[]|e] eqn:Hcomp; [|intros [= <- <-]; right; split; [apply quiet_refl|by eauto]].
  assert (name = t_name t) as ->.
  { apply visible_spec in Hv as [Hv%tool_at_Some _]. rewrite Forall_forall in Hr. apply (Hr _ Hv). }
  intros [Hh|Hq]%execute_registered_spec; [left|by right]. destruct Hh as (rest & Hh & Hq). exists t. split_and!; try done;
    [|by apply complies_effectful|by eexists _, rest].
  unfold registry_name in Hn. destruct (canonical_tool_name (call_name c)); [|done]. by injection Hn as <-.
Qed.

(** The same for the durable executor's entry, which adds the effect's id to the arguments:
    the compliance check precedes the reservation there ([enforce_effect_compliance]). *)
Theorem effect_execution_is_gated (r : SecureToolRegistry) (c : ToolCall) (effect_id : string) (w w' : W) (out : result registry_error pyval) :
  registry_ok r -> execute_effect permission_answer audit_works handle r c effect_id w = (w', out) ->
  (exists t, visible_tool r (t_name t) = Some t /\ conforms t (arguments c) /\ handled r t (with_key t effect_id (arguments c)) w w')
  \/ quiet w w' /\ exists e, out = Err e.
Proof.
  intros [_ Hr]. unfold execute_effect, mbind, M_bind, of_result. destruct (registry_name c) as [name|e] eqn:Hn;
    [|intros [= <- <-]; right; split; [apply quiet_refl|by eauto]].
  destruct (visible_tool r name) as [t|] eqn:Hv; cbn [found]; [|intros [= <- <-]; right; split; [apply quiet_refl|by eauto]].
  destruct (_validate_arguments t (arguments c)) as [args|e] eqn:Ha; [|intros [= <- <-]; right; split; [apply quiet_refl|by eauto]].
  apply validate_spec_args in Ha as [-> Hconf]. assert (name = t_name t) as ->.
  { apply visible_spec in Hv as [Hv%tool_at_Some _]. rewrite Forall_forall in Hr. apply (Hr _ Hv). }
  intros [Hh|Hq]%execute_registered_spec; [left|by right]. by exists t.
Qed.
End gates.

(** ** Workspace containment *)

Lemma wildcard_stays v p : contains_char star v = true -> _canonical_path v true = Ok p -> contains_char star p = true.
Proof.
  intros Hs Hp. unfold _canonical_path in Hp. inv_result.
  match goal with H : _text _ _ = Ok _ |- _ => apply text_inv in H as (-> & _ & _) end.
  cbn [negb andb] in Hp. rewrite Hs in Hp. cbn [negb] in Hp.
  destruct (string_eqb _ "/**") eqn:Hall; [apply string_eqb_spec in Hall; rewrite Hall in Hp; by injection Hp as <-|].
  destruct (negb _ || _); [done|]. inv_result. destruct (string_eqb _ "/"); [done|]. by rewrite contains_char_app, orb_true_r.
Qed.

Lemma good_root_slash segs : Forall good_segment segs -> rooted segs = "/" -> segs = [].
Proof.
  intros Hg H. destruct segs as [|x l]; [done|]. exfalso. injection H as H.
  apply Forall_cons in Hg as [(Hne & _) _]. destruct x; [done|]. destruct l; discriminate H.
Qed.

Lemma rooted_single segs : Forall good_segment segs -> starts_with "//" (rooted segs) = false.
Proof.
  intros Hg. apply not_true_is_false. intros [t Ht]%starts_with_spec. injection Ht as Ht.
  pose proof (join_head_not_slash segs Hg) as Hj. rewrite Ht in Hj.
  pose proof (f_equal String.length Hj) as Hl. cbn [lstrip_char] in Hl.
  assert (forall s, (String.length (lstrip_char slash s) <= String.length s)%nat) as Hle.
  { clear. intros s. induction s as [|c s IH]; [done|]. cbn [lstrip_char]. destruct (Ascii.eqb c slash); cbn [String.length]; lia. }
  change ("/" ++ t) with (String slash t) in Hl. cbn [lstrip_char] in Hl. rewrite Ascii.eqb_refl in Hl.
  specialize (Hle t). cbn [String.length] in Hl. lia.
Qed.

(** Relative to a rooted path means an extension of its components. *)
Lemma relative_spec root cs : Forall good_segment root -> Forall good_segment cs ->
  is_relative_to (rooted root) (rooted cs) = true -> exists rest, cs = (root ++ rest)%list.
Proof.
  intros Hr Hc H. unfold is_relative_to in H. apply orb_true_iff in H as [H|H].
  - apply string_eqb_spec in H. exists []. rewrite app_nil_r.
    destruct (decide (cs = [])) as [->|Hcs]; [symmetry; by apply good_root_slash|].
    destruct (decide (root = [])) as [->|Hroot]; [by apply good_root_slash|].
    rewrite <- (good_split cs), <- (good_split root) by done. injection H as H. by rewrite H.
  - apply andb_true_iff in H as [H _]. destruct (string_eqb (rooted root) "/") eqn:He.
    + apply string_eqb_spec in He. apply good_root_slash in He as ->; [|done]. by exists cs.
    + apply string_eqb_neq in He. apply prefix_segments in H as (x & l & ->); [by eexists| |done..].
      by intros ->.
Qed.

(** C33. A workspace tool's policy identity never leaves its workspace: whatever path a call
    names, with [..], doubled slashes or an absolute path, a concrete resource the resolver
    returns extends the root's components, and none of its components is [..]. *)
Theorem workspace_path_contained (idna : string -> option string) (root : list string) (arguments : list (string * json))
    (resources : list ResourcePattern) :
  Forall good_segment root -> workspace_resolve idna (rooted root) arguments = Some resources ->
  exists p, resources = [p] /\ kind p = PATH /\
    (is_wildcard p = false -> exists rest, Forall good_segment (root ++ rest) /\ pattern p = rooted (root ++ rest)).
Proof.
  intros Hroot H. unfold workspace_resolve in H. destruct (get_key "path" arguments) as [[| | | |path| |]|]; try done.
  destruct (string_eqb path "" || contains_char backslash path) eqn:Hbad; [done|]. apply orb_false_iff in Hbad as [_ Hb].
  set (candidate := if starts_with "/" path then path else _) in H.
  assert (contains_char backslash candidate = false) as Hcb.
  { unfold candidate. destruct (starts_with "/" path); [done|]. rewrite contains_char_app, Hb, orb_false_r.
    destruct (string_eqb _ _); [done|]. by rewrite contains_char_app, rooted_no_backslash. }
  destruct (is_relative_to (rooted root) (abspath candidate)) eqn:Hrel; [|done].
  destruct (new_pattern idna PATH (abspath candidate)) as [p|] eqn:Hp; [|done]. injection H as <-. exists p.
  unfold new_pattern in Hp. cbn [_canonical_resource] in Hp. destruct (_canonical_path (abspath candidate) true) as [v|] eqn:Hv; [|done].
  injection Hp as <-. split; [done|]. split; [done|]. unfold is_wildcard. cbn [pattern]. intros Hw.
  destruct (contains_char star (abspath candidate)) eqn:Hs; [by rewrite (wildcard_stays _ _ Hs Hv) in Hw|].
  destruct (normpath_shape candidate Hcb) as (segs & Hn & Hg).
  assert (abspath candidate = rooted segs) as Ha.
  { unfold abspath in *. destruct (_ && _) eqn:E; [exfalso|done]. rewrite Hn in Hrel. unfold is_relative_to in Hrel.
    assert (starts_with "//" (String slash (rooted segs)) = true) as Htwo by (apply starts_with_spec; by exists (join_with "/" segs)).
    rewrite Htwo in Hrel. rewrite andb_false_r in Hrel.
    apply orb_true_iff in Hrel as [Hrel|Hrel].
    - apply string_eqb_spec in Hrel. pose proof (rooted_single root Hroot) as Hr. rewrite <- Hrel in Hr. congruence.
    - done. }
  rewrite Ha in *. destruct (relative_spec root segs) as [rest ->]; [done..|]. exists rest. split; [done|].
  unfold _canonical_path in Hv. inv_result. match goal with H : _text _ _ = Ok _ |- _ => apply text_inv in H as (-> & _ & _) end.
  rewrite Hs in Hv. cbn [negb andb] in Hv. rewrite normalize_rooted in Hv by done. by injection Hv as <-.
Qed.

(** Arguments are accepted exactly when they conform to the tool's schema, and then handed
    on unchanged: every required field is there, no field is undeclared unless the schema is
    open, and a declared field has its declared type and one of its options. *)
Theorem arguments_accepted_exactly (t : ToolDefinition) (arguments result : list (string * json)) :
  _validate_arguments t arguments = Ok result <-> result = arguments /\ conforms t arguments.
Proof. apply validate_spec_args. Qed.

(** ** Policy and effect see the same call *)

Lemma name_of_visible r name t : registry_ok r -> visible_tool r name = Some t -> name = t_name t /\ tool_ok t.
Proof. intros [_ Hr] [Hv%tool_at_Some _]%visible_spec. rewrite Forall_forall in Hr. apply (Hr _ Hv). Qed.

(** What the policy was asked about is what the effect executor binds: a call with a policy
    request has an effect specification, with the visible tool's effectfulness and, when no
    approved resources were kept, exactly the resources of that request. *)
Theorem policy_and_effect_agree (r : SecureToolRegistry) (c : ToolCall) (q : PolicyRequest) (approved : option (list ResourcePattern)) :
  registry_ok r -> policy_request r c = Ok q ->
  exists t spec, canonical_tool_name (call_name c) = Ok (t_name t) /\ visible_tool r (t_name t) = Some t /\ conforms t (arguments c)
    /\ request_tool q = t_name t /\ request_risks q = t_risk_classes t
    /\ effect_spec r c approved = Ok spec /\ s_effectful spec = t_effectful t
    /\ s_resources spec = default (request_resources q) approved.
Proof.
  intros Hok Hq. pose proof Hq as Hq0. unfold policy_request, registry_name in Hq.
  destruct (canonical_tool_name (call_name c)) as [name|] eqn:Hn; [|done]. cbn [lift_err mbind result_bind] in Hq.
  destruct (visible_tool r name) as [t|] eqn:Hv; [|done]. cbn [found mbind result_bind] in Hq.
  unfold require in Hq. destruct (negb (bool_decide (t_risk_classes t = ∅))) eqn:Hrisk; [|done]. cbn [mbind result_bind] in Hq.
  destruct (_validate_arguments t (arguments c)) as [args|] eqn:Ha; [|done]. cbn [mbind result_bind] in Hq.
  pose proof Ha as [-> Hconf]%validate_spec_args. destruct (resolve t (arguments c)) as [rs|] eqn:Hrs; [|done]. cbn [mbind result_bind] in Hq.
  destruct (name_of_visible r name t Hok Hv) as [-> Ht].
  assert (policy_request r (mkToolCall (call_id c) (t_name t) (arguments c)) = Ok q) as Hq'.
  { unfold policy_request, registry_name. cbn [call_name BudgetedProvider.arguments]. rewrite (name_canonical t Ht).
    cbn [lift_err mbind result_bind]. rewrite Hv. cbn [found mbind result_bind]. unfold require. rewrite Hrisk. cbn [mbind result_bind].
    rewrite Ha. cbn [mbind result_bind]. rewrite Hrs. exact Hq. }
  assert (request_tool q = t_name t /\ request_risks q = t_risk_classes t /\ request_resources q = rs) as (H1 & H2 & H3).
  { pose proof (name_canonical t Ht) as Hc. unfold canonical_tool_name in Hc. unfold new_request in Hq. rewrite Hc in Hq.
    cbn [mbind result_bind] in Hq. unfold require in Hq.
    destruct (existsb is_wildcard rs), (existsb _ rs); cbn [negb mbind result_bind lift_err] in Hq; try done. by injection Hq as <-. }
  exists t, (mkEffectSpec (t_effectful t) (t_input_schema t) (default (request_resources q) approved) (t_idempotency_key_parameter t)).
  split_and!; try done. unfold effect_spec, registry_name. rewrite Hn. cbn [lift_err mbind result_bind]. rewrite Hv. cbn [found mbind result_bind].
  rewrite Ha. cbn [mbind result_bind]. destruct approved as [rs'|]; [done|]. by rewrite Hq'.
Qed.

(** ** Options of arrays and objects

    A declared option that is an array or an object never equals a value: it was frozen into
    another type. A tool with such a parameter refuses every value for it. *)

Lemma frozen_option_refused t arguments f declaration v enum :
  (f, declaration) ∈ schema_properties t -> get_key f arguments = Some v ->
  declared_type declaration = "array" \/ declared_type declaration = "object" -> declared_enum declaration = Some enum ->
  ~ exists result, _validate_arguments t arguments = Ok result.
Proof.
  intros Hf Hv Ht He [result [-> Hc]%validate_spec_args]. destruct (all_typed t arguments Hc f declaration v Hf Hv) as [Hm Ho].
  destruct (Ho enum He) as (o & _ & Ho'). destruct Ht as [Ht|Ht]; rewrite Ht in Hm; by destruct v, o.
Qed.

(** ** A demonstration registry *)

Definition demo_handler : Handler := mkHandler "write_file" ["path"; "mode"] [] true.

Definition demo_schema : json :=
  JObj [("type", JStr "object");
        ("properties", JObj [("path", JObj [("type", JStr "string")]);
                             ("mode", JObj [("type", JStr "string"); ("enum", JArr [JStr "w"; JStr "a"])])]);
        ("required", JArr [JStr "path"])].

Definition demo_registry : SecureToolRegistry :=
  (register " Write_File" demo_handler "writes" (Some ["files"]) (Some demo_schema) None false {[ WRITE ]}
     (Some (workspace_resolve (fun _ => None) "/srv")) false (Some "effect_key") None
     (new_registry true true 30 (Some _default_policy) ∅ ∅)).1.

Definition demo_tool_call : ToolCall := mkToolCall "call-1" "write_file" [("path", JStr "notes/../a.txt"); ("mode", JStr "w")].

Lemma demo_registry_reachable : rtc registry_step (new_registry true true 30 (Some _default_policy) ∅ ∅) demo_registry.
Proof. apply rtc_once, rstep_register. Qed.

Lemma demo_registry_ok : registry_ok demo_registry.
Proof. apply (registry_steps_ok _ _ demo_registry_reachable), new_registry_ok. Qed.

Example demo_policy_request : exists q, policy_request demo_registry demo_tool_call = Ok q /\ request_tool q = "write_file"
  /\ pattern <$> request_resources q = ["/srv/a.txt"].
Proof. eexists. split; [vm_compute; reflexivity|]. split; reflexivity. Qed.

Definition demo_run := execute (fun _ => Some true) (fun _ => true) (fun _ _ _ => HReturned (PStr "done")) demo_registry demo_tool_call
  (mkWorld tt 0 tt []).

Example demo_run_events : history demo_run.1 =
  [RPermission "write_file" "files" true; RHandled demo_handler (arguments demo_tool_call); RAudited "tool_executed" "write_file"].
Proof. vm_compute. reflexivity. Qed.

(** A tool whose parameter lists its allowed axes accepts neither of them. *)
Example frozen_enum :
  let schema := JObj [("properties", JObj [("axes", JObj [("type", JStr "array"); ("enum", JArr [JArr [JInt 1; JInt 2]])])])] in
  let r := (register "plot" demo_handler "" None (Some schema) None false {[ READ ]} None false None None
              (new_registry false false 30 None ∅ ∅)).1 in
  is_Some (visible_tool r "plot")
  /\ policy_request r (mkToolCall "call-1" "plot" [("axes", JArr [JInt 1; JInt 2])]) = Err RValueError.
Proof. vm_compute. split; [by eexists|reflexivity]. Qed.

Lemma registry_well_formed_witness : NoDup (_tools demo_registry).*1
  /\ forall name t, tool_at demo_registry name = Some t -> name = t_name t /\ tool_ok t.
Proof. apply (registry_well_formed true true 30 (Some _default_policy) ∅ ∅ demo_registry), demo_registry_reachable. Defined.

Lemma disabled_stays_unreachable_witness : exists t, visible_tool demo_registry "write_file" = Some t /\
  t_capability_id t ∉ _disabled_capability_ids (new_registry true true 30 (Some _default_policy) ∅ ∅).
Proof.
  destruct (visible_tool demo_registry "write_file") as [t|] eqn:Hv.
  - exists t. split; [done|].
    exact (proj1 (disabled_stays_unreachable (new_registry true true 30 (Some _default_policy) ∅ ∅) demo_registry "write_file" t demo_registry_reachable Hv)).
  - exfalso. revert Hv. vm_compute. discriminate.
Defined.

Lemma execution_is_gated_witness :
  (exists t, canonical_tool_name (call_name demo_tool_call) = Ok (t_name t) /\ visible_tool demo_registry (t_name t) = Some t
     /\ conforms t (arguments demo_tool_call)
     /\ (forall p, _compliance demo_registry = Some p -> t_effectful t = true ->
           enforce_dangerous_tool p (t_name t) (JObj (arguments demo_tool_call)) = Ok tt)
     /\ (exists granted rest, history demo_run.1 = ([] ++ granted ++ RHandled (t_handler t) (arguments demo_tool_call) :: rest)%list
         /\ granted = (if _has_permissions demo_registry then (fun p => RPermission (t_name t) p true) <$> t_required_permissions t else [])
         /\ forallb (fun e => negb (is_handled e)) rest = true))
  \/ quiet (mkWorld tt 0 tt []) demo_run.1 /\ exists e, demo_run.2 = Err e.
Proof.
  apply (execution_is_gated (fun _ => Some true) (fun _ => true) (fun _ _ _ => HReturned (PStr "done")) demo_registry demo_tool_call
    (mkWorld tt 0 tt []) demo_run.1 demo_run.2 demo_registry_ok).
  reflexivity.
Defined.

Lemma workspace_path_contained_witness : exists p, [mkPattern PATH "/srv/a.txt"] = [p] /\ kind p = PATH /\
    (is_wildcard p = false -> exists rest, Forall good_segment (["srv"] ++ rest) /\ pattern p = rooted (["srv"] ++ rest)).
Proof.
  apply (workspace_path_contained (fun _ => None) ["srv"] [("path", JStr "notes/../a.txt")] [mkPattern PATH "/srv/a.txt"]).
  - apply Forall_singleton. repeat split; done.
  - vm_compute. reflexivity.
Defined.

Lemma policy_and_effect_agree_witness : exists q t spec, policy_request demo_registry demo_tool_call = Ok q
  /\ effect_spec demo_registry demo_tool_call None = Ok spec /\ s_effectful spec = t_effectful t
  /\ s_resources spec = default (request_resources q) None.
Proof.
  destruct (policy_request demo_registry demo_tool_call) as [q|] eqn:Hq; [|exfalso; revert Hq; vm_compute; discriminate].
  destruct (policy_and_effect_agree demo_registry demo_tool_call q None demo_registry_ok Hq) as (t & spec & _ & _ & _ & _ & _ & H1 & H2 & H3).
  exists q, t, spec. exact (conj eq_refl (conj H1 (conj H2 H3))).
Defined.
