(* ===== verification/ToolEffects.v ===== *)
(** * Effectful tools end to end ([runtime/effect_executor.py] over [tools/registry.py])

    [EffectExecutor] takes the registry's answers and the identity binding as arguments;
    here they are those of [ToolRegistry] and [EffectIdentity], so that a granted
    reservation says what was checked before it. *)

From Stdlib Require Import ZArith Lia String Ascii.
From stdpp Require Import base gmap strings list.
From S2P Require Import Prelude Strings Durable Json JsonText Sha256 Policy MonetaryLedger BudgetedProvider EffectLedger EffectExecutor EffectIdentity Compliance ToolRegistry.

(** [self._delegate.effect_spec(call, approved_resources=..)]: the resources of an effectful
    call, [None] for a call that has no effect. *)
Definition executor_spec (r : SecureToolRegistry) (c : ToolCall) (approved : option (list ResourcePattern))
  : result exec_exn (option (list ResourcePattern)) :=
  match effect_spec r c approved with
  | Ok spec => Ok (if s_effectful spec then Some (s_resources spec) else None)
  | Err _ => Err EToolError
  end.

(** [self._delegate.enforce_effect_compliance(call)] *)
Definition executor_complies (r : SecureToolRegistry) (c : ToolCall) : bool := is_ok (enforce_effect_compliance r c).

(** [spec.input_schema] *)
Definition executor_schema (r : SecureToolRegistry) (c : ToolCall) : json :=
  match effect_spec r c (Some []) with Ok spec => JObj (s_input_schema spec) | Err _ => JNull end.

(** [DurableEffectToolExecutor.execute] over a registry and an identity secret. *)
Definition execute_tool {DB} `{!EffectRepository DB} (forecast : nat -> weather DB) (r : SecureToolRegistry) (secret : string)
    (tool plain_tool : nat -> tool_outcome) (s : scope) (c : ToolCall) :=
  EffectExecutor.execute forecast sha256_hex (executor_spec r) (executor_complies r) (bind_call secret (executor_schema r) s)
    tool plain_tool s c.

Lemma effect_spec_inv r c approved spec : registry_ok r -> effect_spec r c approved = Ok spec ->
  exists t, canonical_tool_name (call_name c) = Ok (t_name t) /\ visible_tool r (t_name t) = Some t /\ conforms t (arguments c)
    /\ s_effectful spec = t_effectful t /\ s_input_schema spec = t_input_schema t /\
    match approved with
    | Some rs => s_resources spec = rs
    | None => exists q, policy_request r (mkToolCall (call_id c) (t_name t) (arguments c)) = Ok q /\ s_resources spec = request_resources q
    end.
Proof.
  intros Hok. unfold effect_spec, registry_name. destruct (canonical_tool_name (call_name c)) as [name|] eqn:Hn; [|done].
  cbn [lift_err mbind result_bind]. destruct (visible_tool r name) as [t|] eqn:Hv; [|done]. cbn [found mbind result_bind].
  destruct (_validate_arguments t (arguments c)) as [args|] eqn:Ha; [|done]. cbn [mbind result_bind].
  apply validate_spec_args in Ha as [-> Hconf]. destruct (name_of_visible r name t Hok Hv) as [-> Ht]. intros H. exists t.
  destruct approved as [rs|].
  - cbn [mbind result_bind] in H. injection H as <-. by split_and!.
  - destruct (policy_request r _) as [q|] eqn:Hq; [|done]. cbn [fmap result_fmap mbind result_bind] in H. injection H as <-.
    split_and!; try done. by exists q.
Qed.

Lemma compliance_inv r c t : registry_ok r -> canonical_tool_name (call_name c) = Ok (t_name t) -> visible_tool r (t_name t) = Some t ->
  executor_complies r c = true -> complies r (t_name t) t (arguments c) = Ok tt.
Proof.
  intros Hok Hn Hv. unfold executor_complies, enforce_effect_compliance, registry_name. rewrite Hn. cbn [lift_err mbind result_bind].
  rewrite Hv. cbn [found mbind result_bind]. destruct (_validate_arguments t (arguments c)) as [args|] eqn:Ha; [|done].
  apply validate_spec_args in Ha as [-> _]. cbn [mbind result_bind]. by destruct (complies r (t_name t) t (arguments c)) as [[]|].
Qed.

(** What stands behind a granted reservation. *)
Definition vetted (r : SecureToolRegistry) (secret : string) (s : scope) (c : ToolCall)
    (approved : option (list ResourcePattern)) (id : string) : Prop :=
  exists t resources b,
    canonical_tool_name (call_name c) = Ok (t_name t) /\ visible_tool r (t_name t) = Some t
    /\ t_effectful t = true /\ conforms t (arguments c) /\ complies r (t_name t) t (arguments c) = Ok tt
    /\ match approved with
       | Some rs => resources = rs
       | None => exists q, policy_request r (mkToolCall (call_id c) (t_name t) (arguments c)) = Ok q /\ resources = request_resources q
       end
    /\ bind_request secret (request_of (executor_schema r) s c resources) = Ok b /\ b_effect_id b = id.

Section end_to_end.
Context {DB : Type} `{EffectRepositoryLaws DB}.
Context (forecast : nat -> weather DB) (others_later : fair forecast).

Lemma granted_is_id (id id' : string) (evs : list (effect_event DB)) : exec_events id evs -> EGranted id' ∈ evs -> id' = id.
Proof.
  intros Hev Hin. destruct Hev; rewrite ?elem_of_cons, elem_of_nil in Hin; [done|..]; repeat destruct Hin as [[= ->]|Hin]; done.
Qed.

(** Only a bound call reserves. *)
Lemma execute_granted digest spec comp bind tool plain_tool s c (w : world DB _ (effect_event DB)) id :
  db_ok (db w) -> binds_scope bind s ->
  EGranted id ∈ drop (length (history w)) (history (EffectExecutor.execute forecast digest spec comp bind tool plain_tool s c w).1) ->
  exists key resources b, _call_key digest c = Ok key /\ spec c (fields w !! key) = Ok (Some resources) /\ comp c = true
    /\ bind c resources = Ok b /\ b_effect_id b = id.
Proof.
  intros Hok Hbind. unfold EffectExecutor.execute. unfold mbind at 1, M_bind at 1, of_result at 1.
  destruct (_call_key digest c) as [key|e] eqn:Hkey; [|rewrite drop_all; by intros []%elem_of_nil].
  unfold mbind at 1, M_bind at 1, pop_approved at 1. unfold mbind at 1, M_bind at 1, of_result at 1.
  set (w1 := mkWorld (db w) (ticks w) (delete key (fields w)) (history w)).
  assert (history w1 = history w) as Hw1 by done.
  destruct (spec c (fields w !! key)) as [[resources|]|e] eqn:Hspec; cbn beta iota; cycle 1.
  { cbn [fst history]. rewrite drop_all. by intros []%elem_of_nil. }
  { cbn [fst]. rewrite Hw1, drop_all. by intros []%elem_of_nil. }
  destruct (comp c) eqn:Hcomp; cbn [negb]; [|cbn [raise fst]; rewrite Hw1, drop_all; by intros []%elem_of_nil].
  unfold mbind at 1, M_bind at 1, of_result at 1.
  destruct (bind c resources) as [b|e] eqn:Hb; [|cbn [fst]; rewrite Hw1, drop_all; by intros []%elem_of_nil].
  destruct (execute_bound_spec forecast digest tool others_later s b w1) as (_ & evs & Hh & Hev & _); [done|by eapply Hbind|].
  rewrite Hh, Hw1, drop_app_length. intros Hin. exists key, resources, b. split_and!; try done.
  symmetry. by apply (granted_is_id _ _ evs).
Qed.

(** C31. No effect is reserved unchecked, end to end: a call that was granted a reservation
    names a visible, effectful tool, its arguments conform to the tool's schema and passed
    the compliance check, and the reservation's id is the identity of exactly this run,
    tool, schema and arguments with the resources the policy was asked about. *)
Theorem granted_effects_are_vetted (r : SecureToolRegistry) (secret : string) (tool plain_tool : nat -> tool_outcome) (s : scope)
    (c : ToolCall) (w : world DB (gmap (string * string * string) (list ResourcePattern)) (effect_event DB)) (id : string) :
  registry_ok r -> db_ok (db w) ->
  EGranted id ∈ drop (length (history w)) (history (execute_tool forecast r secret tool plain_tool s c w).1) ->
  exists key, _call_key sha256_hex c = Ok key /\ vetted r secret s c (fields w !! key) id.
Proof.
  intros Hr Hok Hin. apply execute_granted in Hin as (key & resources & b & Hkey & Hspec & Hcomp & Hb & Hid);
    [|done|apply bind_call_binds].
  exists key. split; [done|]. unfold executor_spec in Hspec. destruct (effect_spec r c (fields w !! key)) as [spec|] eqn:Hs; [|done].
  destruct (s_effectful spec) eqn:He; [|done]. injection Hspec as <-.
  destruct (effect_spec_inv r c _ spec Hr Hs) as (t & Hn & Hv & Hconf & Heff & _ & Hres).
  exists t, (s_resources spec), b. split_and!; try done; [congruence|by apply compliance_inv|].
  unfold bind_call in Hb. destruct (bind_request _ _) as [b'|]; [|done]. by injection Hb as ->.
Qed.
End end_to_end.

(** ** A call of the demonstration registry *)

Definition vetted_tool (_ : nat) : tool_outcome := ToolReturned (PDict 0 [("ok", PBool true)]%string).

Definition vetted_run := execute_tool (DB := effects) calm demo_registry identity_secret vetted_tool vetted_tool demo_scope demo_tool_call
  demo_executor_world.

Definition granted_ids (evs : list (effect_event effects)) : list string :=
  evs ≫= fun e => match e with EGranted id => [id] | _ => [] end.

Lemma granted_ids_elem id evs : id ∈ granted_ids evs -> EGranted id ∈ evs.
Proof.
  intros (e & Hid & He)%list_elem_of_bind. destruct e; [|by apply elem_of_nil in Hid].
  by apply list_elem_of_singleton in Hid as ->.
Qed.

Definition vetted_id : string := Eval vm_compute in default ""%string (head (granted_ids (history vetted_run.1))).

Lemma granted_effects_are_vetted_witness : exists key, _call_key sha256_hex demo_tool_call = Ok key
  /\ vetted demo_registry identity_secret demo_scope demo_tool_call (fields demo_executor_world !! key) vetted_id.
Proof.
  apply (granted_effects_are_vetted (DB := effects) calm calm_fair demo_registry identity_secret vetted_tool vetted_tool demo_scope
    demo_tool_call demo_executor_world vetted_id demo_registry_ok); [apply rtc_refl|].
  apply granted_ids_elem. fold vetted_run.
  assert (granted_ids (drop (length (history demo_executor_world)) (history vetted_run.1)) = [vetted_id]) as -> by (vm_compute; reflexivity).
  by left.
Defined.
