(* ===== verification/JobQueue.v ===== *)
(** * The durable job queue ([services/task_queue.py])

    One row per job, leased to one worker at a time. A claim takes the oldest
    claimable row and hands out a [ClaimedJob] stamped with the row's new lease
    generation; every report of a worker is one conditional update that names the
    claim, so a worker whose lease was lost changes nothing. Expired leases are put
    back or dead-lettered; an operator can cancel and retry.

    Times are integers in microseconds; leases and backoffs are whole seconds.
    Payloads and results pass the scan of [Disclosure] first. *)

From Stdlib Require Import ZArith Lia String Ascii.
From stdpp Require Import base gmap strings list fin_maps sorting relations.
From S2P Require Import Prelude Strings Sql Json JsonText Disclosure.
Open Scope Z_scope.

(** ** Data *)

Inductive JobStatus : Type := PENDING | RUNNING | SUCCEEDED | FAILED | DEAD_LETTER | CANCELLED.

#[export] Instance JobStatus_eq_dec : EqDecision JobStatus.
Proof. solve_decision. Defined.

(** [JSONDecodeError] and [MultipleResultsFound] come from the libraries. *)
Inductive job_error : Type := InvalidJob | JobConfigurationError | JSONDecodeError | MultipleResultsFound.

#[export] Instance job_error_eq_dec : EqDecision job_error.
Proof. solve_decision. Defined.

Record BackgroundJobRow : Type := mkJob {
  owner_id : string;
  project_id : string;
  kind : string;
  payload_json : string;
  status : JobStatus;
  attempts : Z;
  max_attempts : Z;
  lease_generation : Z;
  idempotency_key : option string;
  worker_id : option string;
  lease_expires_at : option Z;
  available_at : Z;
  created_at : Z;
  updated_at : Z;
  completed_at : option Z;
  result_json : option string;
  error_code : option string
}.

Abbreviation jobs := (gmap string BackgroundJobRow).

Record ClaimedJob : Type := mkClaim {
  c_job_id : string;
  c_owner_id : string;
  c_project_id : string;
  c_kind : string;
  c_payload : json;
  c_attempts : Z;
  c_max_attempts : Z;
  c_lease_generation : Z;
  c_worker_id : string
}.

(** The columns the updates write. *)
#[export] Instance set_status : SetField status := fun v r =>
  mkJob (owner_id r) (project_id r) (kind r) (payload_json r) v (attempts r) (max_attempts r) (lease_generation r) (idempotency_key r)
    (worker_id r) (lease_expires_at r) (available_at r) (created_at r) (updated_at r) (completed_at r) (result_json r) (error_code r).
#[export] Instance set_attempts : SetField attempts := fun v r =>
  mkJob (owner_id r) (project_id r) (kind r) (payload_json r) (status r) v (max_attempts r) (lease_generation r) (idempotency_key r)
    (worker_id r) (lease_expires_at r) (available_at r) (created_at r) (updated_at r) (completed_at r) (result_json r) (error_code r).
#[export] Instance set_lease_generation : SetField lease_generation := fun v r =>
  mkJob (owner_id r) (project_id r) (kind r) (payload_json r) (status r) (attempts r) (max_attempts r) v (idempotency_key r)
    (worker_id r) (lease_expires_at r) (available_at r) (created_at r) (updated_at r) (completed_at r) (result_json r) (error_code r).
#[export] Instance set_worker_id : SetField worker_id := fun v r =>
  mkJob (owner_id r) (project_id r) (kind r) (payload_json r) (status r) (attempts r) (max_attempts r) (lease_generation r) (idempotency_key r)
    v (lease_expires_at r) (available_at r) (created_at r) (updated_at r) (completed_at r) (result_json r) (error_code r).
#[export] Instance set_lease_expires_at : SetField lease_expires_at := fun v r =>
  mkJob (owner_id r) (project_id r) (kind r) (payload_json r) (status r) (attempts r) (max_attempts r) (lease_generation r) (idempotency_key r)
    (worker_id r) v (available_at r) (created_at r) (updated_at r) (completed_at r) (result_json r) (error_code r).
#[export] Instance set_available_at : SetField available_at := fun v r =>
  mkJob (owner_id r) (project_id r) (kind r) (payload_json r) (status r) (attempts r) (max_attempts r) (lease_generation r) (idempotency_key r)
    (worker_id r) (lease_expires_at r) v (created_at r) (updated_at r) (completed_at r) (result_json r) (error_code r).
#[export] Instance set_updated_at : SetField updated_at := fun v r =>
  mkJob (owner_id r) (project_id r) (kind r) (payload_json r) (status r) (attempts r) (max_attempts r) (lease_generation r) (idempotency_key r)
    (worker_id r) (lease_expires_at r) (available_at r) (created_at r) v (completed_at r) (result_json r) (error_code r).
#[export] Instance set_completed_at : SetField completed_at := fun v r =>
  mkJob (owner_id r) (project_id r) (kind r) (payload_json r) (status r) (attempts r) (max_attempts r) (lease_generation r) (idempotency_key r)
    (worker_id r) (lease_expires_at r) (available_at r) (created_at r) (updated_at r) v (result_json r) (error_code r).
#[export] Instance set_result_json : SetField result_json := fun v r =>
  mkJob (owner_id r) (project_id r) (kind r) (payload_json r) (status r) (attempts r) (max_attempts r) (lease_generation r) (idempotency_key r)
    (worker_id r) (lease_expires_at r) (available_at r) (created_at r) (updated_at r) (completed_at r) v (error_code r).
#[export] Instance set_error_code : SetField error_code := fun v r =>
  mkJob (owner_id r) (project_id r) (kind r) (payload_json r) (status r) (attempts r) (max_attempts r) (lease_generation r) (idempotency_key r)
    (worker_id r) (lease_expires_at r) (available_at r) (created_at r) (updated_at r) (completed_at r) (result_json r) v.

(** ** Validation *)

Definition MAX_PAYLOAD_BYTES : Z := 64 * 1024.
Definition MAX_RESULT_BYTES : Z := 64 * 1024.
Definition ALLOWED_JOB_KINDS : list string := ["echo"; "run_export"]%string.

(** [^[A-Za-z0-9][A-Za-z0-9._:-]{0,254}$] *)
Definition _SAFE_ID (s : string) : bool := safe_id s && (String.length s <=? 255)%nat.

(** [inspect(item, depth)] from a count of nodes: the count after it, or the error. *)
Fixpoint inspect (depth : Z) (item : json) (nodes : Z) : option Z :=
  let nodes := nodes + 1 in
  if (12 <? depth) || (100000 <? nodes) then None
  else match item with
  | JNull | JStr _ | JInt _ | JBool _ => Some nodes
  | JFloat repr => if bool_decide (repr ∈ ["nan"; "inf"; "-inf"]%string) then None else Some nodes
  | JArr l =>
      (fix go l nodes := match l with
                         | [] => Some nodes
                         | child :: l' => match inspect (depth + 1) child nodes with
                                          | Some nodes => go l' nodes
                                          | None => None
                                          end
                         end) l nodes
  | JObj kvs =>
      (fix go l nodes := match l with
                         | [] => Some nodes
                         | (_, child) :: l' => match inspect (depth + 1) child nodes with
                                               | Some nodes => go l' nodes
                                               | None => None
                                               end
                         end) kvs nodes
  end.

(** [json.dumps] raises [ValueError] for an integer beyond the digit limit. *)
Fixpoint ints_printable (v : json) : bool :=
  match v with
  | JInt z => int_printable z
  | JArr l => (fix go l := match l with [] => true | v :: l' => ints_printable v && go l' end) l
  | JObj kvs => (fix go l := match l with [] => true | (_, v) :: l' => ints_printable v && go l' end) kvs
  | _ => true
  end.

(** ** The queue *)

Record DurableJobQueue : Type := mkQueue { _lease_seconds : Z; _base_backoff : Z }.

Definition new_queue (lease_seconds base_backoff_seconds : Z) : result job_error DurableJobQueue :=
  _ ← require (negb ((lease_seconds <=? 0) || (base_backoff_seconds <? 0))) JobConfigurationError;
  Ok (mkQueue lease_seconds base_backoff_seconds).

(** [timedelta(seconds=n)] *)
Definition seconds (n : Z) : Z := n * 1000000.

Record JobView : Type := mkView {
  v_job_id : string;
  v_owner_id : string;
  v_project_id : string;
  v_kind : string;
  v_status : JobStatus;
  v_attempts : Z;
  v_max_attempts : Z;
  v_idempotency_key : option string;
  v_created_at : Z;
  v_updated_at : Z;
  v_completed_at : option Z;
  v_result : option json;
  v_error_code : option string
}.

Definition json_loads (text : string) : result job_error json :=
  match loads text with Some v => Ok v | None => Err JSONDecodeError end.

(** [json.loads(row.result_json) if row.result_json else None] *)
Definition load_result (text : option string) : result job_error (option json) :=
  match text with
  | None | Some ""%string => Ok None
  | Some t => v ← json_loads t; Ok (Some v)
  end.

Definition _view (job_id : string) (r : BackgroundJobRow) : result job_error JobView :=
  res ← load_result (result_json r);
  Ok (mkView job_id (owner_id r) (project_id r) (kind r) (status r) (attempts r) (max_attempts r)
        (idempotency_key r) (created_at r) (updated_at r) (completed_at r) res (error_code r)).

(** [scalar_one_or_none] *)
Definition scalar_one_or_none (P : string -> BackgroundJobRow -> bool) (t : jobs)
  : result job_error (option (string * BackgroundJobRow)) :=
  match one_or_none P t with Some row => Ok row | None => Err MultipleResultsFound end.

(** [_DISCLOSURE.scan] *)
Definition scan (value : json) : option (json * Z) :=
  r ← Disclosure.scan None value; Some (disclosed r, redaction_count r).

#[local] Opaque Disclosure.scan.

Section queue.
Context (q : DurableJobQueue).

Definition _safe_json (value : json) (maximum : Z) (redact : bool) : result job_error string :=
  match scan value with
  | None => Err InvalidJob
  | Some (value, redactions) =>
      _ ← require ((redactions =? 0) || redact) InvalidJob;
      match inspect 0 value 0 with
      | None => Err InvalidJob
      | Some _ =>
          if ints_printable value then
            let encoded := dumps_ascii value in
            if maximum <? Z.of_nat (String.length encoded) then Err InvalidJob else Ok encoded
          else Err InvalidJob
      end
  end.

(** What is accepted without redaction is encoded as it was given. *)
Lemma safe_json_unredacted value maximum text : _safe_json value maximum false = Ok text -> text = dumps_ascii value.
Proof.
  unfold _safe_json, scan. destruct (Disclosure.scan None value) as [r|] eqn:Hs; [|done]. cbn [mbind option_bind].
  unfold require. destruct (redaction_count r =? 0) eqn:Hz; cbn; [|done]. apply Z.eqb_eq in Hz.
  rewrite (clean_scan _ _ _ Hs Hz). destruct (inspect 0 value 0); [|done]. destruct (ints_printable value); [|done].
  destruct (_ <? _); [done|]. by intros [= <-].
Qed.

(** *** Creation *)

(** [set(payload) == {"run_id"}] with a safe string under it. *)
Definition run_export_payload (payload : list (string * json)) : bool :=
  match payload with
  | [(key, JStr run_id)] => string_eqb key "run_id" && _SAFE_ID run_id
  | _ => false
  end.

Definition validate_create (owner project k : string) (payload : list (string * json))
    (idem : option string) (maximum : Z) : result job_error string :=
  _ ← require (_SAFE_ID owner && _SAFE_ID project) InvalidJob;
  _ ← require (bool_decide (k ∈ ALLOWED_JOB_KINDS)) InvalidJob;
  _ ← require (negb (string_eqb k "run_export") || run_export_payload payload) InvalidJob;
  _ ← require ((1 <=? maximum) && (maximum <=? 10)) InvalidJob;
  _ ← require (match idem with None => true | Some key => _SAFE_ID key end) InvalidJob;
  _safe_json (JObj payload) MAX_PAYLOAD_BYTES false.

Definition same_key (owner project : string) (idem : option string) (r : BackgroundJobRow) : bool :=
  match idem with
  | None => false
  | Some key => bool_decide (owner_id r = owner /\ project_id r = project /\ idempotency_key r = Some key)
  end.

Definition existing_job (owner project : string) (idem : option string) (t : jobs)
  : result job_error (option (string * BackgroundJobRow)) :=
  scalar_one_or_none (fun _ => same_key owner project idem) t.

Definition existing_view (k payload_text : string) (maximum : Z) (existing : string * BackgroundJobRow)
  : result job_error JobView :=
  let r := existing.2 in
  _ ← require (bool_decide (kind r = k /\ payload_json r = payload_text /\ max_attempts r = maximum)) InvalidJob;
  _view existing.1 r.

Definition new_job (now : Z) (owner project k payload_text : string) (idem : option string) (maximum : Z)
  : BackgroundJobRow :=
  mkJob owner project k payload_text PENDING 0 maximum 0 idem None None now now now None None None.

(** The primary key and [uq_job_idempotency]. *)
Definition insert_conflict (fresh owner project : string) (idem : option string) (t : jobs) : bool :=
  bool_decide (is_Some (t !! fresh))
  || negb (Nat.eqb (rowcount (fun _ => same_key owner project idem) t) 0).

(** The existing job is read from [view]; the insertion meets the database [st]; after
    an [IntegrityError] the existing job is read again, from [reread]. *)
Definition create_at (now : Z) (fresh owner project k : string) (payload : list (string * json))
    (idem : option string) (maximum : Z) (view reread st : jobs) : jobs * result job_error JobView :=
  match validate_create owner project k payload idem maximum with
  | Err e => (st, Err e)
  | Ok payload_text =>
      match existing_job owner project idem view with
      | Err e => (st, Err e)
      | Ok (Some existing) => (st, existing_view k payload_text maximum existing)
      | Ok None =>
          if insert_conflict fresh owner project idem st then
            (st, match existing_job owner project idem reread with
                 | Err e => Err e
                 | Ok None => Err InvalidJob
                 | Ok (Some existing) => existing_view k payload_text maximum existing
                 end)
          else
            let r := new_job now owner project k payload_text idem maximum in
            (<[fresh := r]> st, _view fresh r)
      end
  end.

Definition create (now : Z) (fresh owner project k : string) (payload : list (string * json))
    (idem : option string) (maximum : Z) (st : jobs) : jobs * result job_error JobView :=
  create_at now fresh owner project k payload idem maximum st st st.

(** *** Reads *)

Definition get_job (owner project job_id : string) (st : jobs) : result job_error (option JobView) :=
  row ← scalar_one_or_none
          (fun k r => bool_decide (k = job_id) && bool_decide (owner_id r = owner /\ project_id r = project)) st;
  match row with
  | None => Ok None
  | Some (k, r) => v ← _view k r; Ok (Some v)
  end.

(** [created_at.desc()] *)
Definition newest_first (a b : string * BackgroundJobRow) : Prop := created_at b.2 <= created_at a.2.

#[local] Instance newest_first_dec : RelDecision newest_first.
Proof. intros a b. unfold newest_first. apply _. Defined.

Fixpoint views (rows : list (string * BackgroundJobRow)) : result job_error (list JobView) :=
  match rows with
  | [] => Ok []
  | (k, r) :: rows' => v ← _view k r; vs ← views rows'; Ok (v :: vs)
  end.

Definition list_jobs (owner : string) (project : option string) (limit offset : nat) (st : jobs)
  : result job_error (list JobView) :=
  let mine (_ : string) r :=
    bool_decide (owner_id r = owner)
    && match project with None => true | Some p => bool_decide (project_id r = p) end in
  views (take limit (drop offset (merge_sort newest_first (select_where mine st)))).

(** *** Claims *)

Definition claimable (now : Z) (_ : string) (r : BackgroundJobRow) : bool :=
  bool_decide (status r = PENDING) && (available_at r <=? now) && (attempts r <? max_attempts r).

(** [order_by(available_at, created_at)]; the database breaks ties. *)
Definition claim_le (a b : string * BackgroundJobRow) : Prop :=
  available_at a.2 < available_at b.2
  \/ (available_at a.2 = available_at b.2 /\ created_at a.2 <= created_at b.2).

#[export] Instance claim_le_dec : RelDecision claim_le.
Proof. intros a b. unfold claim_le. apply _. Defined.

(** The scalar subquery. *)
Definition candidate (now : Z) (t : jobs) : option string :=
  fst <$> head (merge_sort claim_le (select_where (claimable now) t)).

Definition is_candidate (c : option string) (k : string) (r : BackgroundJobRow) : bool :=
  bool_decide (c = Some k) && bool_decide (status r = PENDING).

Definition claim_row (now : Z) (worker : string) (r : BackgroundJobRow) : BackgroundJobRow :=
  r <| status := RUNNING |> <| worker_id := Some worker |> <| attempts := attempts r + 1 |>
    <| lease_generation := lease_generation r + 1 |>
    <| lease_expires_at := Some (now + seconds (_lease_seconds q)) |> <| updated_at := now |>.

Definition claimed_job (k worker : string) (r : BackgroundJobRow) : result job_error ClaimedJob :=
  payload ← json_loads (payload_json r);
  Ok (mkClaim k (owner_id r) (project_id r) (kind r) payload (attempts r) (max_attempts r) (lease_generation r) worker).

(** The subquery sees [view], the update meets [st]: the two differ when another
    transaction commits between them. An exception rolls the update back. *)
Definition claim_at (now : Z) (worker : string) (view st : jobs) : jobs * result job_error (option ClaimedJob) :=
  if negb (_SAFE_ID worker) then (st, Err InvalidJob) else
  let chosen := candidate now view in
  let st' := update_where (is_candidate chosen) (claim_row now worker) st in
  match scalar (is_candidate chosen) st with
  | None => (st', Ok None)
  | Some (k, _) =>
      match st' !! k with
      | None => (st', Ok None)
      | Some r =>
          match claimed_job k worker r with
          | Err e => (st, Err e)
          | Ok c => (st', Ok (Some c))
          end
      end
  end.

Definition claim (now : Z) (worker : string) (st : jobs) := claim_at now worker st st.

(** *** Reports of a worker *)

(** The condition the three reports share. *)
Definition fenced (now : Z) (c : ClaimedJob) (k : string) (r : BackgroundJobRow) : bool :=
  bool_decide (k = c_job_id c) && bool_decide (worker_id r = Some (c_worker_id c))
  && (attempts r =? c_attempts c) && (lease_generation r =? c_lease_generation c)
  && bool_decide (status r = RUNNING)
  && match lease_expires_at r with Some t => now <? t | None => false end.

(** [return bool(result.rowcount)] *)
Definition report (P : string -> BackgroundJobRow -> bool) (f : BackgroundJobRow -> BackgroundJobRow) (st : jobs)
  : jobs * result job_error bool :=
  (update_where P f st, Ok (negb (Nat.eqb (rowcount P st) 0))).

Definition heartbeat (now : Z) (c : ClaimedJob) (st : jobs) : jobs * result job_error bool :=
  report (fenced now c)
    (fun r => r <| lease_expires_at := Some (now + seconds (_lease_seconds q)) |> <| updated_at := now |>) st.

Definition succeed_row (now : Z) (encoded : string) (r : BackgroundJobRow) : BackgroundJobRow :=
  r <| status := SUCCEEDED |> <| result_json := Some encoded |> <| error_code := None |> <| worker_id := None |>
    <| lease_expires_at := None |> <| completed_at := Some now |> <| updated_at := now |>.

Definition succeed (now : Z) (c : ClaimedJob) (result_value : json) (st : jobs) : jobs * result job_error bool :=
  match _safe_json result_value MAX_RESULT_BYTES true with
  | Err e => (st, Err e)
  | Ok encoded => report (fenced now c) (succeed_row now encoded) st
  end.

(** Status, next start and completion of a failed attempt. Attempts are positive. *)
Definition failure_outcome (now : Z) (c : ClaimedJob) (retryable : bool) : JobStatus * Z * option Z :=
  if negb retryable then (FAILED, now, Some now)
  else if c_attempts c <? c_max_attempts c
  then (PENDING, now + seconds (_base_backoff q * 2 ^ (c_attempts c - 1)), None)
  else (DEAD_LETTER, now, Some now).

Definition fail_row (now : Z) (outcome : JobStatus * Z * option Z) (code : string) (r : BackgroundJobRow)
  : BackgroundJobRow :=
  let '(s, available, completed) := outcome in
  r <| status := s |> <| available_at := available |> <| completed_at := completed |>
    <| error_code := Some code |> <| worker_id := None |> <| lease_expires_at := None |> <| updated_at := now |>.

Definition fail (now : Z) (c : ClaimedJob) (code : string) (retryable : bool) (st : jobs)
  : jobs * result job_error bool :=
  if (64 <? String.length code)%nat || negb (_SAFE_ID code) then (st, Err InvalidJob)
  else report (fenced now c) (fail_row now (failure_outcome now c retryable) code) st.

(** *** Recovery and operators *)

Definition expired (now : Z) (r : BackgroundJobRow) : bool :=
  bool_decide (status r = RUNNING) && match lease_expires_at r with Some t => t <? now | None => false end.

Definition requeue_row (now : Z) (r : BackgroundJobRow) : BackgroundJobRow :=
  r <| status := PENDING |> <| worker_id := None |> <| lease_expires_at := None |> <| available_at := now |>
    <| updated_at := now |> <| error_code := Some "lease_expired"%string |>.

Definition bury_row (now : Z) (r : BackgroundJobRow) : BackgroundJobRow :=
  r <| status := DEAD_LETTER |> <| worker_id := None |> <| lease_expires_at := None |> <| completed_at := Some now |>
    <| updated_at := now |> <| error_code := Some "lease_expired"%string |>.

Definition retryable_row (now : Z) (_ : string) (r : BackgroundJobRow) : bool :=
  expired now r && (attempts r <? max_attempts r).

Definition exhausted_row (now : Z) (_ : string) (r : BackgroundJobRow) : bool :=
  expired now r && (max_attempts r <=? attempts r).

Definition recover_expired (now : Z) (st : jobs) : jobs * Z :=
  let st1 := update_where (retryable_row now) (requeue_row now) st in
  (update_where (exhausted_row now) (bury_row now) st1,
   Z.of_nat (rowcount (retryable_row now) st) + Z.of_nat (rowcount (exhausted_row now) st1)).

Definition owned (owner project job_id k : string) (r : BackgroundJobRow) : bool :=
  bool_decide (k = job_id) && bool_decide (owner_id r = owner /\ project_id r = project).

Definition cancellable_row (owner project job_id k : string) (r : BackgroundJobRow) : bool :=
  owned owner project job_id k r && bool_decide (status r ∈ [PENDING; RUNNING]).

Definition cancel_row (now : Z) (r : BackgroundJobRow) : BackgroundJobRow :=
  r <| status := CANCELLED |> <| worker_id := None |> <| lease_expires_at := None |> <| completed_at := Some now |>
    <| updated_at := now |> <| error_code := None |>.

Definition cancel (now : Z) (owner project job_id : string) (st : jobs) : jobs * result job_error bool :=
  report (cancellable_row owner project job_id) (cancel_row now) st.

Definition stopped_row (owner project job_id k : string) (r : BackgroundJobRow) : bool :=
  owned owner project job_id k r && (bool_decide (status r = DEAD_LETTER) || bool_decide (status r = FAILED)).

Definition retry_row (now : Z) (r : BackgroundJobRow) : BackgroundJobRow :=
  r <| status := PENDING |> <| attempts := 0 |> <| available_at := now |> <| completed_at := None |>
    <| error_code := None |> <| updated_at := now |>.

Definition retry (now : Z) (owner project job_id : string) (st : jobs) : jobs * result job_error bool :=
  report (stopped_row owner project job_id) (retry_row now) st.

(** ** Steps: one committed call; [issued] holds every claim ever handed out *)

Record queue_state : Type := mkState { table : jobs; issued : list ClaimedJob }.

Inductive job_step : queue_state -> queue_state -> Prop :=
| job_create now fresh o p k payload idem maximum view reread st cs :
    job_step (mkState st cs) (mkState (create_at now fresh o p k payload idem maximum view reread st).1 cs)
| job_claim now worker view st cs st' c : claim_at now worker view st = (st', Ok (Some c)) ->
    job_step (mkState st cs) (mkState st' (c :: cs))
| job_no_claim now worker view st cs st' r : claim_at now worker view st = (st', r) ->
    (forall c, r <> Ok (Some c)) -> job_step (mkState st cs) (mkState st' cs)
| job_heartbeat now c st cs : c ∈ cs -> job_step (mkState st cs) (mkState (heartbeat now c st).1 cs)
| job_succeed now c v st cs : c ∈ cs -> job_step (mkState st cs) (mkState (succeed now c v st).1 cs)
| job_fail now c code retryable st cs : c ∈ cs ->
    job_step (mkState st cs) (mkState (fail now c code retryable st).1 cs)
| job_recover now st cs : job_step (mkState st cs) (mkState (recover_expired now st).1 cs)
| job_cancel now o p k st cs : job_step (mkState st cs) (mkState (cancel now o p k st).1 cs)
| job_retry now o p k st cs : job_step (mkState st cs) (mkState (retry now o p k st).1 cs).

Definition queue_reachable (s : queue_state) : Prop := rtc job_step (mkState ∅ []) s.

(** ** What a step does to the rows *)

Inductive row_move (cs : list ClaimedJob) (k : string) (r : BackgroundJobRow) : BackgroundJobRow -> Prop :=
| move_heartbeat now c : c ∈ cs -> fenced now c k r = true ->
    row_move cs k r (r <| lease_expires_at := Some (now + seconds (_lease_seconds q)) |> <| updated_at := now |>)
| move_succeed now c encoded : c ∈ cs -> fenced now c k r = true -> row_move cs k r (succeed_row now encoded r)
| move_fail now c code retryable : c ∈ cs -> fenced now c k r = true ->
    row_move cs k r (fail_row now (failure_outcome now c retryable) code r)
| move_requeue now : expired now r = true -> attempts r < max_attempts r -> row_move cs k r (requeue_row now r)
| move_bury now : expired now r = true -> max_attempts r <= attempts r -> row_move cs k r (bury_row now r)
| move_cancel now : status r = PENDING \/ status r = RUNNING -> row_move cs k r (cancel_row now r)
| move_retry now : status r = DEAD_LETTER \/ status r = FAILED -> row_move cs k r (retry_row now r).

Inductive step_effect (s : queue_state) : queue_state -> Prop :=
| effect_none : step_effect s s
| effect_create now fresh o p k payload payload_text idem maximum :
    validate_create o p k payload idem maximum = Ok payload_text ->
    insert_conflict fresh o p idem (table s) = false ->
    step_effect s (mkState (<[fresh := new_job now o p k payload_text idem maximum]> (table s)) (issued s))
| effect_claim now worker k r c :
    table s !! k = Some r -> status r = PENDING ->
    claimed_job k worker (claim_row now worker r) = Ok c ->
    step_effect s (mkState (<[k := claim_row now worker r]> (table s)) (c :: issued s))
| effect_moves st' :
    (forall k, table s !! k = None -> st' !! k = None) ->
    (forall k r, table s !! k = Some r -> exists r', st' !! k = Some r' /\ (r' = r \/ row_move (issued s) k r r')) ->
    step_effect s (mkState st' (issued s)).

Lemma pins_candidate k : pins (is_candidate (Some k)) k.
Proof. intros k' r. unfold is_candidate. intros H. bool_to_prop. congruence. Qed.

Lemma claim_cases now worker view st :
  (exists e, claim_at now worker view st = (st, e) /\ (forall c, e <> Ok (Some c)))
  \/ (exists k r c, st !! k = Some r /\ status r = PENDING /\ candidate now view = Some k
      /\ claimed_job k worker (claim_row now worker r) = Ok c
      /\ claim_at now worker view st = (<[k := claim_row now worker r]> st, Ok (Some c))).
Proof.
  unfold claim_at. destruct (negb _); [left; eauto|]. destruct (candidate now view) as [k|].
  - rewrite (update_where_pinned _ _ _ _ (pins_candidate k)).
    destruct (scalar _ st) as [[k' r]|] eqn:Hs.
    + apply scalar_Some in Hs as [Hr HP]. pose proof (pins_candidate k _ _ HP) as ->. rewrite Hr, HP, lookup_insert_eq.
      unfold is_candidate in HP. bool_to_prop. destruct (claimed_job _ _ _) as [c|e] eqn:Hc.
      * right. by exists k, r, c.
      * left. exists (Err e). by split.
    + left. destruct (st !! k) as [r|] eqn:Hr; [rewrite (scalar_None _ _ _ _ Hs Hr)|]; eauto.
  - left. exists (Ok None). split; [|done].
    assert (scalar (is_candidate None) st = None) as ->.
    { destruct (scalar _ st) as [[k r]|] eqn:Hs; [|done]. by apply scalar_Some in Hs as [_ HP]. }
    f_equal. apply map_eq. intros k. rewrite lookup_update_where. by destruct (st !! k).
Qed.

(** An update of rows that move. *)
Lemma moves_of_update cs P f st :
  (forall k r, P k r = true -> row_move cs k r (f r)) ->
  step_effect (mkState st cs) (mkState (update_where P f st) cs).
Proof.
  intros HP. apply (effect_moves (mkState st cs)); cbn; intros k.
  - intros Hk. by rewrite lookup_update_where, Hk.
  - intros r Hk. rewrite lookup_update_where, Hk. cbn. eexists. split; [done|]. destruct (P k r) eqn:E; auto.
Qed.

Lemma recover_row now k r :
  let r1 := if retryable_row now k r then requeue_row now r else r in
  (if exhausted_row now k r1 then bury_row now r1 else r1)
  = if expired now r then (if attempts r <? max_attempts r then requeue_row now r else bury_row now r) else r.
Proof.
  unfold retryable_row, exhausted_row. cbv zeta. destruct (expired now r) eqn:He; cbn.
  - destruct (attempts r <? max_attempts r) eqn:Ha; [done|]. rewrite He. cbn. bool_to_prop.
    by rewrite (proj2 (Z.leb_le _ _)).
  - by rewrite He.
Qed.

Lemma lookup_recover now st k :
  (recover_expired now st).1 !! k
  = (fun r => if expired now r then (if attempts r <? max_attempts r then requeue_row now r else bury_row now r) else r)
      <$> st !! k.
Proof.
  unfold recover_expired. cbn. rewrite !lookup_update_where. destruct (st !! k) as [r|]; [|done]. cbn.
  f_equal. apply (recover_row now k r).
Qed.

Lemma job_step_effect s s' : job_step s s' -> step_effect s s'.
Proof.
  intros [now fresh o p k payload idem maximum view reread st cs|now worker view st cs st' c Hc
    |now worker view st cs st' r Hc Hno|now c st cs Hin|now c v st cs Hin|now c code retryable st cs Hin
    |now st cs|now o p k st cs|now o p k st cs].
  - unfold create_at. destruct (validate_create _ _ _ _ _ _) as [text|] eqn:Hv; [|apply effect_none].
    destruct (existing_job _ _ _ view) as [[?|]|]; [apply effect_none| |apply effect_none].
    destruct (insert_conflict _ _ _ _ _) eqn:Hi; [apply effect_none|].
    by eapply (effect_create (mkState st cs)).
  - destruct (claim_cases now worker view st) as [(e & He & Hne)|(k & r & c' & Hr & Hs & _ & Hcj & He)];
      rewrite He in Hc; simplify_eq; [by destruct (Hne c)|]. by apply (effect_claim (mkState st cs) _ _ k).
  - destruct (claim_cases now worker view st) as [(e & He & Hne)|(k & r0 & c' & Hr & Hs & _ & Hcj & He)];
      rewrite He in Hc; simplify_eq; [apply effect_none|by destruct (Hno c')].
  - apply moves_of_update. intros k r Hf. by apply move_heartbeat with c.
  - unfold succeed. destruct (_safe_json _ _ _) as [enc|]; [|apply effect_none].
    apply moves_of_update. intros k r Hf. by apply move_succeed with c.
  - unfold fail. destruct (_ || _); [apply effect_none|].
    apply moves_of_update. intros k r Hf. by apply move_fail.
  - apply (effect_moves (mkState st cs)); cbn [table issued]; intros k.
    + intros Hk. by rewrite lookup_recover, Hk.
    + intros r Hk. rewrite lookup_recover, Hk. cbn. eexists. split; [done|].
      destruct (expired now r) eqn:He; [|by left]. right.
      destruct (attempts r <? max_attempts r) eqn:Ha; bool_to_prop; [by apply move_requeue|by apply move_bury].
  - apply moves_of_update. intros k' r Hf. unfold cancellable_row in Hf. bool_to_prop. apply move_cancel.
    match goal with H : status _ ∈ _ |- _ => by rewrite !elem_of_cons, elem_of_nil in H; intuition end.
  - apply moves_of_update. intros k' r Hf. unfold stopped_row in Hf. apply andb_true_iff in Hf as [_ Hf].
    apply orb_true_iff in Hf. apply move_retry. by destruct Hf; bool_to_prop; [left|right].
Qed.

(** ** Invariants *)

(** The CHECK constraints of the table, and that a waiting job has an attempt left. *)
Definition job_row_ok (r : BackgroundJobRow) : Prop :=
  kind r ∈ ALLOWED_JOB_KINDS /\ 1 <= max_attempts r <= 10 /\ 0 <= attempts r <= max_attempts r
  /\ 0 <= lease_generation r
  /\ match status r with
     | PENDING => worker_id r = None /\ lease_expires_at r = None /\ completed_at r = None
         /\ attempts r < max_attempts r
     | RUNNING => is_Some (worker_id r) /\ is_Some (lease_expires_at r) /\ completed_at r = None /\ 1 <= attempts r
     | _ => worker_id r = None /\ lease_expires_at r = None /\ is_Some (completed_at r)
     end.

(** The claim [c] was handed out for the row [r], at some time. *)
Definition claim_of (r : BackgroundJobRow) (c : ClaimedJob) : Prop :=
  c_owner_id c = owner_id r /\ c_project_id c = project_id r /\ c_kind c = kind r
  /\ c_max_attempts c = max_attempts r /\ 1 <= c_lease_generation c <= lease_generation r
  /\ 1 <= c_attempts c <= c_max_attempts c /\ json_loads (payload_json r) = Ok (c_payload c).

(** The claim [c] is the one the row [r] runs under. *)
Definition held_by (k : string) (r : BackgroundJobRow) (c : ClaimedJob) : Prop :=
  c_job_id c = k /\ c_lease_generation c = lease_generation r /\ worker_id r = Some (c_worker_id c)
  /\ attempts r = c_attempts c.

Definition lease_key (c : ClaimedJob) : string * Z := (c_job_id c, c_lease_generation c).

Record queue_ok (s : queue_state) : Prop := {
  rows_ok : forall k r, table s !! k = Some r -> job_row_ok r;
  claims_ok : forall c, c ∈ issued s -> exists r, table s !! c_job_id c = Some r /\ claim_of r c;
  holder_ok : forall k r, table s !! k = Some r -> status r = RUNNING -> exists c, c ∈ issued s /\ held_by k r c;
  leases_distinct : NoDup (lease_key <$> issued s);
  keys_distinct : forall k k' r r' o p key, table s !! k = Some r -> table s !! k' = Some r' ->
    same_key o p (Some key) r = true -> same_key o p (Some key) r' = true -> k = k'
}.

Lemma fenced_spec now c k r : fenced now c k r = true ->
  held_by k r c /\ status r = RUNNING /\ exists t, lease_expires_at r = Some t /\ now < t.
Proof.
  unfold fenced, held_by. intros H. bool_to_prop.
  destruct (lease_expires_at r) as [t|]; bool_to_prop; [|done]. subst. split_and!; eauto.
Qed.

(** The columns no method changes, and the generation that only grows. *)
Definition same_job (r r' : BackgroundJobRow) : Prop :=
  owner_id r' = owner_id r /\ project_id r' = project_id r /\ kind r' = kind r /\ payload_json r' = payload_json r
  /\ max_attempts r' = max_attempts r /\ idempotency_key r' = idempotency_key r /\ created_at r' = created_at r.

Lemma move_same cs k r r' : row_move cs k r r' -> same_job r r' /\ lease_generation r' = lease_generation r.
Proof. intros []; unfold fail_row; try (destruct (failure_outcome _ _ _) as [[? ?] ?]); by repeat split. Qed.

Lemma claim_of_same r r' c : same_job r r' -> lease_generation r <= lease_generation r' -> claim_of r c -> claim_of r' c.
Proof.
  intros (Ho & Hp & Hk & Hpl & Hm & _) Hg (? & ? & ? & ? & ? & ? & ?). unfold claim_of.
  rewrite Ho, Hp, Hk, Hpl, Hm. repeat split; (done || lia).
Qed.

Lemma move_ok cs k r r' : (forall c, c ∈ cs -> c_job_id c = k -> claim_of r c) ->
  job_row_ok r -> row_move cs k r r' -> job_row_ok r'.
Proof.
  intros Hcs (Hkind & Hmax & Hatt & Hgen & Hst) Hmove. unfold job_row_ok.
  assert (forall now c, fenced now c k r = true -> c ∈ cs ->
    status r = RUNNING /\ attempts r = c_attempts c /\ c_max_attempts c = max_attempts r) as Hf.
  { intros now c Hf Hin. apply fenced_spec in Hf as ((Hj & _ & _ & Ha) & Hr & _).
    destruct (Hcs c Hin Hj) as (_ & _ & _ & Hm & _). done. }
  assert (forall now, expired now r = true -> status r = RUNNING) as Hexp.
  { intros now He. unfold expired in He. by bool_to_prop. }
  destruct Hmove as [now c Hin Hfc|now c enc Hin Hfc|now c code retryable Hin Hfc|now He Ha|now He Ha|now Hs|now Hs].
  - destruct (Hf _ _ Hfc Hin) as (Hs & _). cbn. rewrite Hs in *. destruct Hst as (? & _ & ? & ?).
    split_and!; eauto; lia.
  - cbn. split_and!; eauto; lia.
  - destruct (Hf _ _ Hfc Hin) as (Hs & Ha & Hm). unfold fail_row, failure_outcome.
    destruct (negb retryable); [|destruct (c_attempts c <? c_max_attempts c) eqn:Hlt]; cbn; bool_to_prop;
      split_and!; eauto; lia.
  - rewrite (Hexp now He) in Hst. destruct Hst as (_ & _ & Hc & _). cbn. split_and!; eauto; lia.
  - cbn. split_and!; eauto; lia.
  - cbn. split_and!; eauto; lia.
  - cbn. assert (worker_id r = None /\ lease_expires_at r = None) as [? ?].
    { destruct Hs as [Hs|Hs]; rewrite Hs in Hst; by destruct Hst as (? & ? & _). }
    split_and!; eauto; lia.
Qed.

Lemma conflict_free fresh o p idem st : insert_conflict fresh o p idem st = false ->
  st !! fresh = None /\ forall k r, st !! k = Some r -> same_key o p idem r = false.
Proof.
  unfold insert_conflict. intros H. bool_to_prop. split; [by apply eq_None_not_Some|].
  intros k r Hk. destruct (same_key o p idem r) eqn:Hs; [|done]. exfalso.
  match goal with H : Nat.eqb _ 0 = true |- _ => apply Nat.eqb_eq in H; rename H into Hrc end.
  unfold rowcount in Hrc. apply map_size_empty_inv in Hrc.
  assert (filter (fun kr : string * BackgroundJobRow => same_key o p idem kr.2 = true) st !! k = Some r) as Hf
    by by apply map_lookup_filter_Some.
  by rewrite Hrc, lookup_empty in Hf.
Qed.

Lemma claimed_job_fields k worker r c : claimed_job k worker r = Ok c ->
  c_job_id c = k /\ c_owner_id c = owner_id r /\ c_project_id c = project_id r /\ c_kind c = kind r
  /\ c_attempts c = attempts r /\ c_max_attempts c = max_attempts r /\ c_lease_generation c = lease_generation r
  /\ c_worker_id c = worker /\ json_loads (payload_json r) = Ok (c_payload c).
Proof. unfold claimed_job. intros H. destruct (json_loads _) as [v|]; cbn in H; inv_result. by split_and!. Qed.

Lemma same_job_key r r' o p idem : same_job r r' -> same_key o p idem r' = same_key o p idem r.
Proof. intros (Ho & Hp & _ & _ & _ & Hi & _). unfold same_key. by rewrite Ho, Hp, Hi. Qed.

Lemma move_running cs k r r' : row_move cs k r r' -> status r' = RUNNING ->
  exists c, c ∈ cs /\ held_by k r' c.
Proof.
  intros [now c Hin Hf|now c enc Hin Hf|now c code retryable Hin Hf| | | |]; cbn; try done.
  - intros _. apply fenced_spec in Hf as ((? & ? & ? & ?) & _). by exists c.
  - unfold fail_row, failure_outcome. destruct (negb retryable); [done|]. by destruct (_ <? _).
Qed.

Lemma queue_ok_moves s st' : queue_ok s ->
  (forall k, table s !! k = None -> st' !! k = None) ->
  (forall k r, table s !! k = Some r -> exists r', st' !! k = Some r' /\ (r' = r \/ row_move (issued s) k r r')) ->
  queue_ok (mkState st' (issued s)).
Proof.
  intros [Hrows Hclaims Hholder Hdistinct Hkeys] Hnone Hmoves.
  assert (forall k r', st' !! k = Some r' ->
    exists r, table s !! k = Some r /\ (r' = r \/ row_move (issued s) k r r') /\ same_job r r'
      /\ lease_generation r' = lease_generation r) as Hback.
  { intros k r' Hk'. destruct (table s !! k) as [r|] eqn:Hk; [|rewrite (Hnone _ Hk) in Hk'; done].
    destruct (Hmoves _ _ Hk) as (r2 & Hr2 & Hm). simplify_eq. exists r. split_and!; [done|done|..];
      destruct Hm as [->|Hm]; try (by apply move_same in Hm as [? ?]); done. }
  split; cbn [table issued].
  - intros k r' Hk'. destruct (Hback _ _ Hk') as (r & Hr & [->|Hm] & _); [by eapply Hrows|].
    eapply move_ok; [|by eapply Hrows|done]. intros c Hin Hj. destruct (Hclaims c Hin) as (r2 & Hr2 & ?). congruence.
  - intros c Hin. destruct (Hclaims c Hin) as (r & Hr & Hc). destruct (Hmoves _ _ Hr) as (r' & Hr' & _).
    exists r'. split; [done|]. destruct (Hback _ _ Hr') as (r2 & Hr2 & _ & Hs & Hg). simplify_eq.
    eapply claim_of_same; [done|lia|done].
  - intros k r' Hk' Hrun. destruct (Hback _ _ Hk') as (r & Hr & [->|Hm] & _); [by eapply Hholder|].
    by eapply move_running.
  - done.
  - intros k k' r r' o p key Hk Hk' Hs Hs'. destruct (Hback _ _ Hk) as (r1 & Hr1 & _ & Hj1 & _).
    destruct (Hback _ _ Hk') as (r2 & Hr2 & _ & Hj2 & _).
    rewrite (same_job_key _ _ _ _ _ Hj1) in Hs. rewrite (same_job_key _ _ _ _ _ Hj2) in Hs'. eauto.
Qed.

Lemma queue_ok_create s now fresh o p k payload text idem maximum : queue_ok s ->
  validate_create o p k payload idem maximum = Ok text ->
  insert_conflict fresh o p idem (table s) = false ->
  queue_ok (mkState (<[fresh := new_job now o p k text idem maximum]> (table s)) (issued s)).
Proof.
  intros [Hrows Hclaims Hholder Hdistinct Hkeys] Hv Hi. apply conflict_free in Hi as [Hfresh Hfree].
  unfold validate_create in Hv. inv_result. bool_to_prop.
  split; cbn [table issued].
  - intros k' r [[<- <-]|[_ Hk']]%lookup_insert_Some; [|by eapply Hrows].
    unfold job_row_ok. cbn. split_and!; (done || lia).
  - intros c Hin. destruct (Hclaims c Hin) as (r & Hr & Hc). exists r. split; [|done].
    rewrite lookup_insert_ne; [done|congruence].
  - intros k' r [[<- <-]|[_ Hk']]%lookup_insert_Some Hs; [done|by eapply Hholder].
  - done.
  - intros k1 k2 r1 r2 o' p' key Hk1 Hk2 Hs1 Hs2.
    assert (forall r, same_key o' p' (Some key) (new_job now o p k text idem maximum) = true ->
      same_key o' p' (Some key) r = true -> same_key o p idem r = true) as Hsame.
    { intros r. cbn. intros (<- & <- & ->)%bool_decide_eq_true. done. }
    apply lookup_insert_Some in Hk1 as [[<- <-]|[_ Hk1]], Hk2 as [[<- <-]|[_ Hk2]]; [done| | |by eapply Hkeys];
      [pose proof (Hfree _ _ Hk2)|pose proof (Hfree _ _ Hk1)];
      match goal with H : same_key o p idem ?r = false |- _ => rewrite (Hsame r) in H; done end.
Qed.

Lemma queue_ok_claim s now worker k r c : queue_ok s -> table s !! k = Some r -> status r = PENDING ->
  claimed_job k worker (claim_row now worker r) = Ok c ->
  queue_ok (mkState (<[k := claim_row now worker r]> (table s)) (c :: issued s)).
Proof.
  intros [Hrows Hclaims Hholder Hdistinct Hkeys] Hk Hs Hc.
  apply claimed_job_fields in Hc as (Hj & Ho & Hp & Hkd & Ha & Hm & Hg & Hw & Hpl). cbn in Ho, Hp, Hkd, Ha, Hm, Hg, Hpl.
  pose proof (Hrows _ _ Hk) as Hok. unfold job_row_ok in Hok. rewrite Hs in Hok.
  destruct Hok as (Hkind & Hmax & Hatt & Hgen & _ & _ & Hcomp & Hlt).
  assert (forall c', c' ∈ issued s -> c_job_id c' = k -> c_lease_generation c' <= lease_generation r) as Hold.
  { intros c' Hin Hj'. destruct (Hclaims c' Hin) as (r' & Hr' & _ & _ & _ & _ & ? & _). rewrite Hj' in Hr'.
    simplify_eq. lia. }
  split; cbn [table issued].
  - intros k' r' [[<- <-]|[_ Hk']]%lookup_insert_Some; [|by eapply Hrows].
    unfold job_row_ok. cbn. split_and!; eauto; lia.
  - intros c' [->|Hin]%elem_of_cons.
    + exists (claim_row now worker r). rewrite Hj, lookup_insert_eq. split; [done|]. unfold claim_of. cbn.
      split_and!; (done || lia).
    + destruct (Hclaims c' Hin) as (r' & Hr' & Hc'). destruct (decide (c_job_id c' = k)) as [He|Hne].
      * exists (claim_row now worker r). rewrite He, lookup_insert_eq. split; [done|]. rewrite He in Hr'. simplify_eq.
        apply (claim_of_same r); [by repeat split|cbn; lia|done].
      * exists r'. by rewrite lookup_insert_ne.
  - intros k' r' [[<- <-]|[_ Hk']]%lookup_insert_Some Hr.
    + exists c. split; [by left|]. unfold held_by. cbn. split_and!; congruence.
    + destruct (Hholder _ _ Hk' Hr) as (c' & Hin & Hh). exists c'. split; [by right|done].
  - constructor; [|done]. intros (c' & He & Hin)%list_elem_of_fmap. unfold lease_key in He. injection He as He1 He2.
    specialize (Hold c' Hin ltac:(congruence)). lia.
  - intros k1 k2 r1 r2 o' p' key Hk1 Hk2 Hs1 Hs2.
    assert (forall k0 r0, <[k := claim_row now worker r]> (table s) !! k0 = Some r0 ->
      exists r0', table s !! k0 = Some r0' /\ same_key o' p' (Some key) r0' = same_key o' p' (Some key) r0) as Hb.
    { intros k0 r0 [[<- <-]|[_ Hk0]]%lookup_insert_Some; eauto. }
    destruct (Hb _ _ Hk1) as (r1' & Hr1 & E1), (Hb _ _ Hk2) as (r2' & Hr2 & E2).
    eapply (Hkeys k1 k2 r1' r2'); [done|done|by rewrite E1|by rewrite E2].
Qed.

Lemma queue_reachable_ok s : queue_reachable s -> queue_ok s.
Proof.
  unfold queue_reachable. intros Hr. assert (queue_ok (mkState ∅ [])) as H0.
  { split; cbn; [done|by intros c ?%elem_of_nil|done|constructor|done]. }
  induction Hr as [|s1 s2 s3 Hstep _ IH]; [done|]. apply IH. clear IH.
  destruct (job_step_effect _ _ Hstep).
  - done.
  - by eapply queue_ok_create.
  - by apply queue_ok_claim.
  - by apply queue_ok_moves.
Qed.

Lemma reachable_step s s' : queue_reachable s -> job_step s s' -> queue_reachable s'.
Proof. apply rtc_r. Qed.

(** ** Reports of workers *)

Inductive worker_call : Type :=
| CallHeartbeat
| CallSucceed (result_value : json)
| CallFail (code : string) (retryable : bool).

Definition perform (now : Z) (c : ClaimedJob) (w : worker_call) (st : jobs) : jobs * result job_error bool :=
  match w with
  | CallHeartbeat => heartbeat now c st
  | CallSucceed v => succeed now c v st
  | CallFail code retryable => fail now c code retryable st
  end.

Lemma pins_fenced now c : pins (fenced now c) (c_job_id c).
Proof. intros k r H. unfold fenced in H. by bool_to_prop. Qed.

Lemma report_cases P f st k0 : pins P k0 ->
  report P f st = (st, Ok false)
  \/ exists r, st !! k0 = Some r /\ P k0 r = true /\ report P f st = (<[k0 := f r]> st, Ok true).
Proof.
  intros Hp. unfold report. rewrite (update_where_pinned _ _ _ _ Hp), (rowcount_pinned _ _ _ Hp).
  destruct (st !! k0) as [r|]; [|by left]. destruct (P k0 r) eqn:HP; [right|by left]. eauto.
Qed.

Lemma perform_cases now c w st :
  (exists e, perform now c w st = (st, e) /\ e <> Ok true)
  \/ exists r f, st !! c_job_id c = Some r /\ fenced now c (c_job_id c) r = true
      /\ perform now c w st = (<[c_job_id c := f r]> st, Ok true).
Proof.
  destruct w as [|v|code retryable]; cbn; unfold heartbeat, succeed, fail.
  - destruct (report_cases _ (fun r => r <| lease_expires_at := Some (now + seconds (_lease_seconds q)) |>
      <| updated_at := now |>) st _ (pins_fenced now c)) as [->|(r & Hr & HP & ->)]; [left|right]; eauto.
    by eexists r, (fun r => r <| lease_expires_at := Some (now + seconds (_lease_seconds q)) |> <| updated_at := now |>).
  - destruct (_safe_json _ _ _) as [enc|]; [|left; eauto].
    destruct (report_cases _ (succeed_row now enc) st _ (pins_fenced now c)) as [->|(r & Hr & HP & ->)]; [left|right]; eauto.
  - destruct (_ || _); [left; eauto|].
    destruct (report_cases _ (fail_row now (failure_outcome now c retryable) code) st _ (pins_fenced now c))
      as [->|(r & Hr & HP & ->)]; [left|right]; eauto.
Qed.

(** The claims of a job are ordered by generation, the holder's last. *)
Lemma held_is_latest s k r c : queue_ok s -> table s !! k = Some r -> c ∈ issued s -> held_by k r c ->
  forall c', c' ∈ issued s -> c_job_id c' = k -> c' = c \/ c_lease_generation c' < c_lease_generation c.
Proof.
  intros Hok Hk Hin (Hj & Hg & _ & _) c' Hin' Hj'.
  destruct (claims_ok _ Hok c' Hin') as (r' & Hr' & _ & _ & _ & _ & Hle & _). rewrite Hj' in Hr'. simplify_eq.
  destruct (decide (c_lease_generation c' = c_lease_generation c)) as [He|Hne]; [left|right; lia].
  pose proof (leases_distinct _ Hok) as Hnd.
  apply list_elem_of_lookup in Hin as [i Hi], Hin' as [j Hj].
  assert (i = j) as ->; [|congruence].
  apply (NoDup_lookup _ i j (lease_key c) Hnd); rewrite list_lookup_fmap.
  - by rewrite Hi.
  - rewrite Hj. cbn. unfold lease_key. congruence.
Qed.

(** ** Histories *)

Definition job_final (s : JobStatus) : bool := bool_decide (s ∈ [SUCCEEDED; CANCELLED]).

(** One step of a row that is already there. *)
Lemma step_row s s' k r : queue_ok s -> job_step s s' -> table s !! k = Some r ->
  exists r', table s' !! k = Some r' /\ same_job r r' /\ lease_generation r <= lease_generation r'
    /\ (job_final (status r) = true -> r' = r)
    /\ (lease_generation r' = lease_generation r -> status r' = RUNNING ->
        status r = RUNNING /\ worker_id r' = worker_id r /\ attempts r' = attempts r).
Proof.
  intros Hok Hstep Hk. destruct (job_step_effect _ _ Hstep) as [|now fresh o p kd pl text idem m Hv Hi|now worker k' r' c Hk' Hs Hc|st' _ Hm]; cbn.
  - exists r. split_and!; eauto; [by repeat split|lia].
  - apply conflict_free in Hi as [Hf _]. exists r. rewrite lookup_insert_ne by congruence.
    split_and!; eauto; [by repeat split|lia].
  - destruct (decide (k = k')) as [->|Hne].
    + rewrite Hk' in Hk. injection Hk as ->. exists (claim_row now worker r). rewrite lookup_insert_eq. cbn.
      split_and!; [done|by repeat split|lia| |lia]. by rewrite Hs.
    + exists r. rewrite lookup_insert_ne by done. split_and!; eauto; [by repeat split|lia].
  - destruct (Hm _ _ Hk) as (r' & Hr' & [->|Hmv]).
    { exists r. split_and!; eauto; [by repeat split|lia]. }
    exists r'. destruct (move_same _ _ _ _ Hmv) as [Hsame Hgen]. split_and!; [done|done|lia| |].
    + intros Hfin. exfalso. unfold job_final in Hfin. bool_to_prop. rewrite !elem_of_cons, elem_of_nil in Hfin.
      destruct Hmv as [? ? _ Hf|? ? ? _ Hf|? ? ? ? _ Hf|? He _|? He _|? Hs|? Hs];
        try (apply fenced_spec in Hf as (_ & Hs & _)); try (unfold expired in He; bool_to_prop); intuition congruence.
    + intros _ Hrun. destruct Hmv as [? ? _ Hf|? ? ? _ Hf|? ? code retryable _ Hf| | | |]; try done.
      exfalso. revert Hrun. unfold fail_row, failure_outcome. destruct (negb retryable); [done|]. by destruct (_ <? _).
Qed.

Lemma history_row s s' k r : queue_reachable s -> rtc job_step s s' -> table s !! k = Some r ->
  exists r', table s' !! k = Some r' /\ same_job r r' /\ lease_generation r <= lease_generation r'
    /\ (job_final (status r) = true -> r' = r)
    /\ (lease_generation r' = lease_generation r -> status r' = RUNNING ->
        status r = RUNNING /\ worker_id r' = worker_id r /\ attempts r' = attempts r).
Proof.
  intros Hreach Hs. revert r Hreach. induction Hs as [s|s1 s2 s3 H12 _ IH]; intros r Hreach Hk.
  { exists r. split_and!; eauto; [by repeat split|lia]. }
  destruct (step_row _ _ _ _ (queue_reachable_ok _ Hreach) H12 Hk) as (r1 & Hk1 & Hs1 & Hg1 & Hf1 & Hr1).
  destruct (IH r1 (reachable_step _ _ Hreach H12) Hk1) as (r2 & Hk2 & Hs2 & Hg2 & Hf2 & Hr2).
  exists r2. split_and!; [done| |lia| |].
  - destruct Hs1 as (?&?&?&?&?&?&?), Hs2 as (?&?&?&?&?&?&?). repeat split; congruence.
  - intros Hfin. specialize (Hf1 Hfin) as ->. by apply Hf2.
  - intros Hge Hrun. destruct (Hr2 ltac:(lia) Hrun) as (Hrun1 & Hw & Ha).
    destruct (Hr1 ltac:(lia) Hrun1) as (Hrun0 & Hw0 & Ha0). split_and!; [done|congruence|congruence].
Qed.

(** ** Order of claims *)

#[local] Instance claim_le_total : Total claim_le.
Proof. intros a b. unfold claim_le. lia. Qed.

#[local] Instance claim_le_trans : Transitive claim_le.
Proof. intros a b c. unfold claim_le. lia. Qed.

Lemma candidate_spec now st :
  match candidate now st with
  | None => forall k r, st !! k = Some r -> claimable now k r = false
  | Some k => exists r, st !! k = Some r /\ claimable now k r = true
      /\ forall k' r', st !! k' = Some r' -> claimable now k' r' = true -> claim_le (k, r) (k', r')
  end.
Proof.
  unfold candidate, select_where. set (rows := map_to_list _).
  assert (forall k r, (k, r) ∈ rows <-> st !! k = Some r /\ claimable now k r = true) as Hin.
  { intros k r. subst rows. by rewrite elem_of_map_to_list, map_lookup_filter_Some. }
  pose proof (merge_sort_Permutation claim_le rows) as Hperm.
  pose proof (StronglySorted_merge_sort claim_le rows) as Hsorted.
  destruct (merge_sort claim_le rows) as [|[k r] l]; cbn.
  - intros k r Hk. destruct (claimable now k r) eqn:Hc; [|done].
    assert ((k, r) ∈ rows) as Hx by by apply Hin. rewrite <- Hperm in Hx. by apply elem_of_nil in Hx.
  - assert ((k, r) ∈ rows) as Hx by (rewrite <- Hperm; left). apply Hin in Hx as [Hk Hc].
    exists r. split_and!; [done|done|]. intros k' r' Hk' Hc'.
    assert ((k', r') ∈ rows) as Hx by by apply Hin. rewrite <- Hperm in Hx.
    apply elem_of_cons in Hx as [He|Hx]; [injection He as -> ->; destruct (total claim_le (k, r) (k, r)); done|].
    apply StronglySorted_inv in Hsorted as [_ Hall]. rewrite Forall_forall in Hall. by apply Hall.
Qed.

(** ** Creation *)

(** The row that answers for an idempotency key. *)
Definition answers (o p k : string) (idem : option string) (text : string) (maximum : Z) (st : jobs) (job_id : string)
  : Prop :=
  exists r, st !! job_id = Some r /\ same_key o p idem r = true /\ kind r = k /\ payload_json r = text
    /\ max_attempts r = maximum.

Lemma view_job_id k r v : _view k r = Ok v -> v_job_id v = k.
Proof. unfold _view. intros H. destruct (load_result _); by inv_result. Qed.

Lemma existing_view_ok k text maximum e v : existing_view k text maximum e = Ok v ->
  kind e.2 = k /\ payload_json e.2 = text /\ max_attempts e.2 = maximum /\ _view e.1 e.2 = Ok v.
Proof.
  unfold existing_view. intros H. unfold require in H. destruct (bool_decide _) eqn:Hb; [|discriminate H].
  by bool_to_prop; intuition.
Qed.

Lemma existing_job_unique s o p key job_id r : queue_ok s -> table s !! job_id = Some r ->
  same_key o p (Some key) r = true -> existing_job o p (Some key) (table s) = Ok (Some (job_id, r)).
Proof.
  intros Hok Hr Hs. unfold existing_job, scalar_one_or_none.
  rewrite (one_or_none_unique _ _ job_id r); [done| |done|done].
  intros k r' Hk Hs'. by eapply (keys_distinct _ Hok).
Qed.

Lemma create_answers now fresh o p k payload key maximum st st' v :
  create now fresh o p k payload (Some key) maximum st = (st', Ok v) ->
  exists text, validate_create o p k payload (Some key) maximum = Ok text
    /\ answers o p k (Some key) text maximum st' (v_job_id v).
Proof.
  unfold create, create_at. destruct (validate_create _ _ _ _ _ _) as [text|]; [|done]. intros H. exists text.
  split; [done|]. destruct (existing_job _ _ _ st) as [[e|]|] eqn:He; [| |done].
  - injection H as <- Hv. apply existing_view_ok in Hv as (? & ? & ? & Hv). apply view_job_id in Hv.
    unfold existing_job, scalar_one_or_none in He. destruct (one_or_none _ _) as [row|] eqn:Ho; [|done].
    injection He as ->. destruct e as [job r]. apply one_or_none_Some in Ho as [Hr Hs]. rewrite Hv. by exists r.
  - destruct (insert_conflict _ _ _ _ _); [done|].
    injection H as <- <-. cbn [v_job_id]. eexists. rewrite lookup_insert_eq. split; [done|]. cbn.
    by rewrite bool_decide_eq_true_2.
Qed.

End queue.

#[local] Transparent Disclosure.scan.

(** ** A queue for the examples *)

Definition demo_queue : DurableJobQueue := mkQueue 30 2.
Definition demo_payload : list (string * json) := [("run_id", JStr "run-1")]%string.
Definition demo_create (now : Z) (fresh : string) (st : jobs) :=
  create now fresh "alice" "proj" "run_export" demo_payload (Some "key-1"%string) 2 st.
Definition demo_created : jobs := (demo_create 5 "job-1" ∅).1.

Definition demo_claim (worker : string) (attempt generation : Z) : ClaimedJob :=
  mkClaim "job-1" "alice" "proj" "run_export" (JObj demo_payload) attempt 2 generation worker.

(** Claimed by w1, expired, claimed by w2. *)
Definition demo_claimed : jobs := (claim demo_queue 10 "w1" demo_created).1.
Definition demo_requeued : jobs := (recover_expired 40000000 demo_claimed).1.
Definition demo_reclaimed : jobs := (claim demo_queue 40000000 "w2" demo_requeued).1.
Definition demo_state : queue_state :=
  mkState demo_reclaimed [demo_claim "w2" 2 2; demo_claim "w1" 1 1].

Abbreviation demo_step := (job_step demo_queue).
Abbreviation demo_reachable := (queue_reachable demo_queue).

Lemma demo_created_reachable : demo_reachable (mkState demo_created []).
Proof.
  apply (rtc_once (mkState ∅ [])).
  exact (job_create _ 5 "job-1" "alice" "proj" "run_export" demo_payload (Some "key-1"%string) 2 ∅ ∅ ∅ []).
Qed.

Lemma demo_claim_1 : claim demo_queue 10 "w1" demo_created = (demo_claimed, Ok (Some (demo_claim "w1" 1 1))).
Proof. vm_compute. reflexivity. Qed.

Lemma demo_claim_2 :
  claim demo_queue 40000000 "w2" demo_requeued = (demo_reclaimed, Ok (Some (demo_claim "w2" 2 2))).
Proof. vm_compute. reflexivity. Qed.

Lemma demo_claimed_reachable : demo_reachable (mkState demo_claimed [demo_claim "w1" 1 1]).
Proof.
  eapply reachable_step; [apply demo_created_reachable|]. eapply job_claim. apply demo_claim_1.
Qed.

Lemma demo_history : rtc demo_step (mkState demo_claimed [demo_claim "w1" 1 1]) demo_state.
Proof.
  apply rtc_l with (mkState demo_requeued [demo_claim "w1" 1 1]); [apply job_recover|].
  apply rtc_once. eapply job_claim. apply demo_claim_2.
Qed.

Lemma demo_state_reachable : demo_reachable demo_state.
Proof. unfold queue_reachable. etrans; [apply demo_claimed_reachable|apply demo_history]. Qed.

(** ** Properties *)

Section properties.
Context (q : DurableJobQueue).

(** C14. A report of a worker, be it a heartbeat, a success or a failure, is accepted
    only while the worker's claim is the current one: the job runs under it, its lease
    has not expired, and every other claim ever issued for the job has a smaller lease
    generation. A report that is not accepted changes nothing. *)
Theorem accepted_report_is_current (s : queue_state) (now : Z) (c : ClaimedJob) (w : worker_call) :
  queue_reachable q s -> c ∈ issued s ->
  match perform q now c w (table s) with
  | (st', Ok true) =>
      (forall k, k <> c_job_id c -> st' !! k = table s !! k) /\
      (exists r t, table s !! c_job_id c = Some r /\ status r = RUNNING /\ worker_id r = Some (c_worker_id c)
        /\ lease_generation r = c_lease_generation c /\ lease_expires_at r = Some t /\ now < t) /\
      (forall c', c' ∈ issued s -> c_job_id c' = c_job_id c ->
        c' = c \/ c_lease_generation c' < c_lease_generation c)
  | (st', _) => st' = table s
  end.
Proof.
  intros Hr Hin. apply queue_reachable_ok in Hr.
  destruct (perform_cases q now c w (table s)) as [(e & -> & Hne)|(r & f & Hk & Hf & ->)].
  { by destruct e as [[]|]. }
  pose proof (fenced_spec _ _ _ _ Hf) as (Hh & Hs & t & Ht & Hlt). pose proof Hh as (_ & Hg & Hw & _).
  split_and!; [by intros k Hne; rewrite lookup_insert_ne by done|by exists r, t|by eapply held_is_latest].
Qed.

(** Every row of a reachable queue meets the table's CHECK constraints, whatever
    the transactions read and however the workers report: attempts never exceed the
    bound, a running row has a worker and a lease, a finished one has a completion
    time and neither; a waiting row still has an attempt left. No two rows share an
    idempotency key in a scope, and no two claims share a job and a lease generation. *)
Theorem job_rows_well_formed (s : queue_state) : queue_reachable q s ->
  (forall k r, table s !! k = Some r -> job_row_ok r)
  /\ (forall k k' r r' o p key, table s !! k = Some r -> table s !! k' = Some r' ->
        same_key o p (Some key) r = true -> same_key o p (Some key) r' = true -> k = k')
  /\ NoDup (lease_key <$> issued s).
Proof. intros Hr. by destruct (queue_reachable_ok _ _ Hr). Qed.

(** The life of a job: its row is never lost and keeps its identity, its lease
    generation never decreases, a succeeded or cancelled row is never written again,
    and a job that runs under the generation it had before has been running under the
    same claim all along: it never restarts without a new generation. *)
Theorem job_lifecycle (s s' : queue_state) (k : string) (r : BackgroundJobRow) :
  queue_reachable q s -> rtc (job_step q) s s' -> table s !! k = Some r ->
  exists r', table s' !! k = Some r' /\ same_job r r' /\ lease_generation r <= lease_generation r'
    /\ (job_final (status r) = true -> r' = r)
    /\ (lease_generation r' = lease_generation r -> status r' = RUNNING ->
        status r = RUNNING /\ worker_id r' = worker_id r /\ attempts r' = attempts r).
Proof. apply history_row. Qed.

(** No job gets stuck: a waiting job can be claimed from its start time on; a
    running job whose lease has expired is put back for an immediate claim by
    [recover_expired], or dead-lettered when its attempts are used up; a failed or
    dead-lettered job can be claimed at once after its owner's [retry]. *)
Theorem job_never_stuck (s : queue_state) (now : Z) (k : string) (r : BackgroundJobRow) :
  queue_reachable q s -> table s !! k = Some r ->
  match status r with
  | PENDING => available_at r <= now -> claimable now k r = true
  | RUNNING => exists t, lease_expires_at r = Some t /\
      (t < now -> exists r', (recover_expired now (table s)).1 !! k = Some r' /\
        (if attempts r <? max_attempts r then claimable now k r' = true
         else status r' = DEAD_LETTER /\ completed_at r' = Some now))
  | FAILED | DEAD_LETTER => exists st' r', retry now (owner_id r) (project_id r) k (table s) = (st', Ok true) /\
      st' !! k = Some r' /\ claimable now k r' = true
  | SUCCEEDED | CANCELLED => True
  end.
Proof.
  intros Hr Hk. apply queue_reachable_ok in Hr. destruct (rows_ok _ Hr _ _ Hk) as (_ & Hmax & _ & _ & Hst).
  assert (forall r', status r' = PENDING -> available_at r' <= now -> attempts r' < max_attempts r' ->
    claimable now k r' = true) as Hcl.
  { intros r' Hs Ha Hlt. unfold claimable. rewrite bool_decide_eq_true_2 by done.
    by rewrite (proj2 (Z.leb_le _ _) Ha), (proj2 (Z.ltb_lt _ _) Hlt). }
  assert (status r = FAILED \/ status r = DEAD_LETTER -> exists st' r',
    retry now (owner_id r) (project_id r) k (table s) = (st', Ok true) /\
    st' !! k = Some r' /\ claimable now k r' = true) as Hretry.
  { intros Hs. assert (stopped_row (owner_id r) (project_id r) k k r = true) as HP.
    { unfold stopped_row, owned. rewrite !bool_decide_eq_true_2 by done.
      destruct Hs as [-> | ->]; [by rewrite orb_true_r|done]. }
    assert (pins (stopped_row (owner_id r) (project_id r) k) k) as Hpin.
    { intros k' r' H. unfold stopped_row, owned in H. by bool_to_prop. }
    exists (<[k := retry_row now r]> (table s)), (retry_row now r). rewrite lookup_insert_eq. split_and!; [|done|].
    - unfold retry, report. by rewrite (update_where_pinned _ _ _ _ Hpin), (pinned_row _ _ _ _ Hpin Hk HP), Hk, HP.
    - apply Hcl; cbn; (done || lia). }
  destruct (status r) eqn:Hs; [| |done|by auto..|done].
  - intros Ha. by apply Hcl; intuition.
  - destruct Hst as (_ & [t Ht] & _ & _). exists t. split; [done|]. intros Hlt.
    rewrite lookup_recover, Hk. cbn. eexists. split; [done|].
    unfold expired. rewrite Hs, Ht, (proj2 (Z.ltb_lt _ _) Hlt). cbn.
    destruct (attempts r <? max_attempts r) eqn:Ha; [|done]. bool_to_prop. apply Hcl; cbn; (done || lia).
Qed.

(** [claim] on every branch: it refuses an unsafe worker id; it finds nothing
    exactly when no job is claimable; otherwise it leases a claimable job that no
    claimable job precedes in the order of start and creation times, or, when the
    job's payload does not decode, it raises and changes nothing. *)
Theorem claim_decides (now : Z) (worker : string) (st : jobs) :
  match claim q now worker st with
  | (st', Err InvalidJob) => _SAFE_ID worker = false /\ st' = st
  | (st', Ok None) => st' = st /\ forall k r, st !! k = Some r -> claimable now k r = false
  | (st', Ok (Some c)) => exists r, st !! c_job_id c = Some r /\ claimable now (c_job_id c) r = true
      /\ (forall k' r', st !! k' = Some r' -> claimable now k' r' = true -> claim_le (c_job_id c, r) (k', r'))
      /\ st' = <[c_job_id c := claim_row q now worker r]> st
      /\ c_worker_id c = worker /\ c_attempts c = attempts r + 1 /\ c_lease_generation c = lease_generation r + 1
      /\ json_loads (payload_json r) = Ok (c_payload c)
  | (st', Err e) => e = JSONDecodeError /\ st' = st
      /\ exists k r, st !! k = Some r /\ claimable now k r = true /\ loads (payload_json r) = None
  end.
Proof.
  unfold claim, claim_at. destruct (_SAFE_ID worker) eqn:Hw; [|done]. cbn [negb].
  pose proof (candidate_spec now st) as Hc. destruct (candidate now st) as [k|].
  - destruct Hc as (r & Hk & Hcl & Hmin). rewrite (update_where_pinned _ _ _ _ (pins_candidate k)), Hk.
    assert (is_candidate (Some k) k r = true) as HP.
    { unfold is_candidate. unfold claimable in Hcl. bool_to_prop. by rewrite !bool_decide_eq_true_2. }
    rewrite HP, (scalar_pinned _ _ _ _ (pins_candidate k) Hk HP), lookup_insert_eq.
    destruct (claimed_job k worker _) as [c|e] eqn:Hcj.
    + apply claimed_job_fields in Hcj as (<- & _ & _ & _ & Ha & _ & Hg & Hwk & Hp). exists r. by split_and!.
    + unfold claimed_job, json_loads in Hcj. cbn in Hcj. destruct (loads (payload_json r)) eqn:Hl; [done|].
      cbn in Hcj. injection Hcj as <-. split_and!; eauto.
  - assert (scalar (is_candidate None) st = None) as ->.
    { destruct (scalar _ st) as [[k r]|] eqn:Hs; [|done]. by apply scalar_Some in Hs as [_ HP]. }
    split; [|done]. apply map_eq. intros k. rewrite lookup_update_where. by destruct (st !! k).
Qed.

(** C15. A job carries its payload through the table: whoever claims a job gets, at
    any later time, the value its creator submitted, with the keys of its objects in
    order. *)
Theorem claimed_payload_is_submitted (s s' : queue_state) (now : Z) (fresh o p k : string)
    (payload : list (string * json)) (idem : option string) (maximum : Z) (c : ClaimedJob) :
  queue_reachable q s -> plain (JObj payload) = true ->
  table s !! fresh = None -> is_Some ((create now fresh o p k payload idem maximum (table s)).1 !! fresh) ->
  rtc (job_step q) (mkState (create now fresh o p k payload idem maximum (table s)).1 (issued s)) s' ->
  c ∈ issued s' -> c_job_id c = fresh -> c_payload c = canon (JObj payload).
Proof.
  intros Hr Hp Hnone [r Hk] Hs Hin Hj. subst fresh.
  assert (queue_reachable q (mkState (create now (c_job_id c) o p k payload idem maximum (table s)).1 (issued s))) as Hr1.
  { eapply reachable_step; [exact Hr|]. destruct s as [st cs]. apply job_create. }
  assert (payload_json r = dumps_ascii (JObj payload)) as Htext.
  { unfold create, create_at in Hk. destruct (validate_create _ _ _ _ _ _) as [text|] eqn:Hv; [|cbn in Hk; congruence].
    destruct (existing_job _ _ _ _) as [[?|]|]; [cbn in Hk; congruence| |cbn in Hk; congruence].
    destruct (insert_conflict _ _ _ _ _); [cbn in Hk; congruence|]. cbn in Hk. rewrite lookup_insert_eq in Hk.
    injection Hk as <-. cbn. unfold validate_create in Hv. inv_result.
    match goal with H : _safe_json _ _ _ = Ok _ |- _ => revert H end. apply safe_json_unredacted. }
  destruct (history_row _ _ _ _ _ Hr1 Hs Hk) as (r' & Hk' & (_ & _ & _ & Hpl & _) & _).
  assert (queue_reachable q s') as Hr2 by (unfold queue_reachable in *; by etrans).
  destruct (claims_ok _ (queue_reachable_ok _ _ Hr2) c Hin) as (r2 & Hr2' & _ & _ & _ & _ & _ & _ & Hl).
  simplify_eq. unfold json_loads in Hl. rewrite Hpl, Htext, loads_dumps in Hl by done. by injection Hl as <-.
Qed.

(** Creation is idempotent per key: once a creation under a key has returned, any
    later creation under the same key and scope changes nothing; it answers with the
    same job when kind, payload and attempts agree, and refuses otherwise. *)
Theorem create_idempotent (s s' : queue_state) (now now' : Z) (fresh fresh' o p k k' key : string)
    (payload payload' : list (string * json)) (maximum maximum' : Z) (st1 : jobs) (v : JobView) :
  queue_reachable q s -> create now fresh o p k payload (Some key) maximum (table s) = (st1, Ok v) ->
  rtc (job_step q) (mkState st1 (issued s)) s' ->
  exists r', table s' !! v_job_id v = Some r' /\
  create now' fresh' o p k' payload' (Some key) maximum' (table s')
  = (table s',
     match validate_create o p k' payload' (Some key) maximum' with
     | Err e => Err e
     | Ok text => if bool_decide (k' = k /\ Ok text = validate_create o p k payload (Some key) maximum
                                  /\ maximum' = maximum)
                  then _view (v_job_id v) r' else Err InvalidJob
     end).
Proof.
  intros Hr Hc Hs. destruct (create_answers _ _ _ _ _ _ _ _ _ _ _ Hc) as (text & Hv & r & Hk & Hkey & Hkind & Htext & Hmax).
  assert (queue_reachable q (mkState st1 (issued s))) as Hr1.
  { eapply reachable_step; [exact Hr|]. destruct s as [st cs]. cbn in Hc.
    replace st1 with (create now fresh o p k payload (Some key) maximum st).1 by by rewrite Hc. apply job_create. }
  destruct (history_row _ _ _ _ _ Hr1 Hs Hk) as (r' & Hk' & Hsame & _).
  pose proof (same_job_key _ _ o p (Some key) Hsame) as Hkey'. rewrite Hkey in Hkey'.
  destruct Hsame as (_ & _ & Hkd & Hpl & Hm & _).
  assert (queue_reachable q s') as Hr2 by (unfold queue_reachable in *; by etrans).
  exists r'. split; [done|]. unfold create at 1, create_at. rewrite Hv.
  destruct (validate_create o p k' payload' (Some key) maximum') as [text'|e]; [|done].
  rewrite (existing_job_unique _ _ _ _ _ _ (queue_reachable_ok _ _ Hr2) Hk' Hkey'). f_equal. unfold existing_view. cbn [fst snd].
  rewrite Hkd, Hpl, Hm, Hkind, Htext, Hmax. unfold require.
  rewrite (bool_decide_ext _ (k' = k /\ Ok (E:=job_error) text' = Ok text /\ maximum' = maximum)) by intuition congruence.
  by destruct (bool_decide _).
Qed.
End properties.

(** ** Witnesses *)

(** The first worker reports late, after its job went to the second. *)
Lemma accepted_report_is_current_witness :
  (perform demo_queue 40000001 (demo_claim "w2" 2 2) (CallSucceed JNull) (table demo_state)).2 = Ok true
  /\ (perform demo_queue 40000001 (demo_claim "w1" 1 1) (CallSucceed JNull) (table demo_state)).1
     = table demo_state.
Proof.
  split; [vm_compute; reflexivity|].
  assert ((perform demo_queue 40000001 (demo_claim "w1" 1 1) (CallSucceed JNull) (table demo_state)).2
    = Ok false) as Hno by (vm_compute; reflexivity).
  pose proof (accepted_report_is_current demo_queue demo_state 40000001 (demo_claim "w1" 1 1)
    (CallSucceed JNull) demo_state_reachable ltac:(right; left)) as H.
  destruct (perform _ _ _ _ _) as [st' [[]|]]; [discriminate Hno|exact H|discriminate Hno].
Defined.

Lemma job_rows_well_formed_witness : exists r, table demo_state !! "job-1"%string = Some r /\ job_row_ok r.
Proof.
  destruct (job_rows_well_formed demo_queue demo_state demo_state_reachable) as (Hrows & _).
  destruct (table demo_state !! "job-1"%string) as [r|] eqn:Hk; [|vm_compute in Hk; discriminate Hk].
  exists r. split; [reflexivity|exact (Hrows _ _ Hk)].
Defined.

Lemma job_lifecycle_witness : exists r r', demo_claimed !! "job-1"%string = Some r
  /\ demo_reclaimed !! "job-1"%string = Some r' /\ same_job r r' /\ lease_generation r <= lease_generation r'.
Proof.
  destruct (demo_claimed !! "job-1"%string) as [r|] eqn:Hk; [|vm_compute in Hk; discriminate Hk].
  destruct (job_lifecycle demo_queue (mkState demo_claimed [demo_claim "w1" 1 1]) demo_state "job-1" r
    demo_claimed_reachable demo_history Hk) as (r' & Hr' & Hs & Hg & _).
  exists r, r'. split; [reflexivity|]. split; [exact Hr'|]. split; [exact Hs|exact Hg].
Defined.

Lemma job_never_stuck_witness : exists r, demo_claimed !! "job-1"%string = Some r /\ status r = RUNNING
  /\ exists r', (recover_expired 40000000 demo_claimed).1 !! "job-1"%string = Some r'
     /\ claimable 40000000 "job-1" r' = true.
Proof.
  destruct (demo_claimed !! "job-1"%string) as [r|] eqn:Hk; [|vm_compute in Hk; discriminate Hk].
  exists r. split; [reflexivity|].
  pose proof (job_never_stuck demo_queue (mkState demo_claimed [demo_claim "w1" 1 1]) 40000000 "job-1" r
    demo_claimed_reachable Hk) as H.
  vm_compute in Hk. injection Hk as <-. split; [reflexivity|]. destruct H as (t & Ht & Hrec).
  cbn in Ht. injection Ht as <-. exact (Hrec ltac:(reflexivity)).
Defined.

Lemma claimed_payload_is_submitted_witness : c_payload (demo_claim "w2" 2 2) = canon (JObj demo_payload).
Proof.
  apply (claimed_payload_is_submitted demo_queue (mkState ∅ []) demo_state 5 "job-1" "alice" "proj"
    "run_export" demo_payload (Some "key-1"%string) 2).
  - apply rtc_refl.
  - vm_compute; reflexivity.
  - reflexivity.
  - vm_compute. eauto.
  - apply rtc_l with (mkState demo_claimed [demo_claim "w1" 1 1]); [|apply demo_history].
    eapply job_claim. apply demo_claim_1.
  - left.
  - reflexivity.
Defined.

(** The same request again, two claims later, and a different one under its key. *)
Lemma create_idempotent_witness :
  exists v, (demo_create 50000000 "job-2" (table demo_state)) = (table demo_state, Ok v) /\ v_job_id v = "job-1"%string.
Proof.
  destruct (demo_create 5 "job-1" ∅) as [st1 [v|e]] eqn:Hc; [|vm_compute in Hc; discriminate Hc].
  assert (st1 = demo_created) as E by (unfold demo_created; rewrite Hc; reflexivity).
  destruct (create_idempotent demo_queue (mkState ∅ []) demo_state 5 50000000 "job-1" "job-2" "alice" "proj"
    "run_export" "run_export" "key-1" demo_payload demo_payload 2 2 st1 v) as (r' & Hr' & H).
  - apply rtc_refl.
  - exact Hc.
  - rewrite E. apply rtc_l with (mkState demo_claimed [demo_claim "w1" 1 1]); [|apply demo_history].
    eapply job_claim. apply demo_claim_1.
  - assert (v_job_id v = "job-1"%string) as Hid by (vm_compute in Hc; injection Hc as _ <-; reflexivity).
    rewrite Hid in *. unfold demo_create. rewrite H. vm_compute in Hr'. injection Hr' as <-.
    eexists. split; [vm_compute; reflexivity|reflexivity].
Defined.
