(* ===== verification/CircuitBreaker.v ===== *)
(** * The circuit breaker ([security/circuit_breaker.py])

    A call of the breaker is admitted in one atomic section and settled in another;
    other calls, their settlements and resets run in between. An admission is the
    tuple of locals the call keeps meanwhile. Times are integers on the monotonic
    clock; the identity of an [object()] token is a counter. *)

From Stdlib Require Import ZArith Lia String Ascii.
From stdpp Require Import base gmap strings list relations.
From S2P Require Import Prelude.
Open Scope Z_scope.

(** ** Data *)

Inductive CircuitState : Type := CLOSED | OPEN | HALF_OPEN.

#[export] Instance CircuitState_eq_dec : EqDecision CircuitState.
Proof. solve_decision. Defined.

Inductive breaker_error : Type :=
| BreakerValueError
| CircuitBreakerOpenError (recovery_time : Z)
| ProviderUnavailableError
| UnsupportedProviderCapability
| DelegateError
| BreakerCancelled
| BreakerBaseException.

#[export] Instance breaker_error_eq_dec : EqDecision breaker_error.
Proof. solve_decision. Defined.

Record CircuitBreaker : Type := mkBreaker {
  failure_threshold : Z;
  recovery_timeout : Z;
  _state : CircuitState;
  _failure_count : Z;
  _last_failure_time : Z;
  _success_count : Z;
  _total_calls : Z;
  _probe_in_flight : bool;
  _epoch : Z;
  _generation : Z;
  _probe_token : option nat;
  objects : nat
}.

#[export] Instance set_state : SetField _state := fun v b =>
  mkBreaker (failure_threshold b) (recovery_timeout b) v (_failure_count b) (_last_failure_time b)
    (_success_count b) (_total_calls b) (_probe_in_flight b) (_epoch b) (_generation b) (_probe_token b) (objects b).
#[export] Instance set_failures : SetField _failure_count := fun v b =>
  mkBreaker (failure_threshold b) (recovery_timeout b) (_state b) v (_last_failure_time b)
    (_success_count b) (_total_calls b) (_probe_in_flight b) (_epoch b) (_generation b) (_probe_token b) (objects b).
#[export] Instance set_last_failure : SetField _last_failure_time := fun v b =>
  mkBreaker (failure_threshold b) (recovery_timeout b) (_state b) (_failure_count b) v
    (_success_count b) (_total_calls b) (_probe_in_flight b) (_epoch b) (_generation b) (_probe_token b) (objects b).
#[export] Instance set_successes : SetField _success_count := fun v b =>
  mkBreaker (failure_threshold b) (recovery_timeout b) (_state b) (_failure_count b) (_last_failure_time b)
    v (_total_calls b) (_probe_in_flight b) (_epoch b) (_generation b) (_probe_token b) (objects b).
#[export] Instance set_total : SetField _total_calls := fun v b =>
  mkBreaker (failure_threshold b) (recovery_timeout b) (_state b) (_failure_count b) (_last_failure_time b)
    (_success_count b) v (_probe_in_flight b) (_epoch b) (_generation b) (_probe_token b) (objects b).
#[export] Instance set_in_flight : SetField _probe_in_flight := fun v b =>
  mkBreaker (failure_threshold b) (recovery_timeout b) (_state b) (_failure_count b) (_last_failure_time b)
    (_success_count b) (_total_calls b) v (_epoch b) (_generation b) (_probe_token b) (objects b).
#[export] Instance set_epoch : SetField _epoch := fun v b =>
  mkBreaker (failure_threshold b) (recovery_timeout b) (_state b) (_failure_count b) (_last_failure_time b)
    (_success_count b) (_total_calls b) (_probe_in_flight b) v (_generation b) (_probe_token b) (objects b).
#[export] Instance set_generation : SetField _generation := fun v b =>
  mkBreaker (failure_threshold b) (recovery_timeout b) (_state b) (_failure_count b) (_last_failure_time b)
    (_success_count b) (_total_calls b) (_probe_in_flight b) (_epoch b) v (_probe_token b) (objects b).
#[export] Instance set_token : SetField _probe_token := fun v b =>
  mkBreaker (failure_threshold b) (recovery_timeout b) (_state b) (_failure_count b) (_last_failure_time b)
    (_success_count b) (_total_calls b) (_probe_in_flight b) (_epoch b) (_generation b) v (objects b).
#[export] Instance set_objects : SetField objects := fun v b =>
  mkBreaker (failure_threshold b) (recovery_timeout b) (_state b) (_failure_count b) (_last_failure_time b)
    (_success_count b) (_total_calls b) (_probe_in_flight b) (_epoch b) (_generation b) (_probe_token b) v.

Definition new_breaker (threshold timeout : Z) : result breaker_error CircuitBreaker :=
  _ ← require (1 <=? threshold) BreakerValueError;
  _ ← require (0 <? timeout) BreakerValueError;
  Ok (mkBreaker threshold timeout CLOSED 0 0 0 0 false 0 0 None O).

(** The locals of an admitted call. *)
Record admission : Type := mkAdmission {
  probe_token : option nat;
  admission_epoch : Z;
  admission_generation : Z
}.

Definition is_probe (a : admission) : bool := match probe_token a with Some _ => true | None => false end.

(** How [func] ended. *)
Inductive call_outcome : Type :=
| Succeeded
| CallCancelled
| CallUnsupported
| CallFailed
| CallBaseException.

(** ** Operations *)

(** The [state] property, at the time [now]. *)
Definition state (now : Z) (b : CircuitBreaker) : CircuitState :=
  if bool_decide (_state b = OPEN) && (recovery_timeout b <=? now - _last_failure_time b)
  then HALF_OPEN else _state b.

(** The first section of [call]; [later] is its second reading of the clock. *)
Definition admit_call (now later : Z) (b : CircuitBreaker) : CircuitBreaker * result breaker_error admission :=
  let current := state now b in
  if bool_decide (current = OPEN) || (bool_decide (current = HALF_OPEN) && _probe_in_flight b) then
    let remaining := recovery_timeout b - (later - _last_failure_time b) in
    (b, Err (CircuitBreakerOpenError (Z.max 0 remaining)))
  else if bool_decide (current = HALF_OPEN) then
    let token := objects b in
    let b := b <| _state := HALF_OPEN |> <| _probe_in_flight := true |> <| _epoch := _epoch b + 1 |>
               <| objects := S token |> <| _probe_token := Some token |> in
    (b <| _total_calls := _total_calls b + 1 |>, Ok (mkAdmission (Some token) (_epoch b) (_generation b)))
  else
    (b <| _total_calls := _total_calls b + 1 |>, Ok (mkAdmission None (_epoch b) (_generation b))).

(** [is_probe and self._probe_token is probe_token] *)
Definition owns_probe (a : admission) (b : CircuitBreaker) : bool :=
  is_probe a && bool_decide (_probe_token b = probe_token a).

Definition _abandon_probe (now : Z) (a : admission) (b : CircuitBreaker) : CircuitBreaker :=
  if bool_decide (_probe_token b = probe_token a) then
    b <| _probe_in_flight := false |> <| _probe_token := None |> <| _state := OPEN |>
      <| _last_failure_time := now |> <| _epoch := _epoch b + 1 |> <| _generation := _generation b + 1 |>
  else b.

Definition record_failure (now : Z) (a : admission) (b : CircuitBreaker) : CircuitBreaker :=
  if owns_probe a b then
    b <| _failure_count := _failure_count b + 1 |> <| _last_failure_time := now |> <| _probe_in_flight := false |>
      <| _probe_token := None |> <| _state := OPEN |> <| _epoch := _epoch b + 1 |>
      <| _generation := _generation b + 1 |>
  else if negb (is_probe a) && (_epoch b =? admission_epoch a) then
    let b := b <| _failure_count := _failure_count b + 1 |> <| _last_failure_time := now |>
               <| _generation := _generation b + 1 |> in
    if failure_threshold b <=? _failure_count b
    then b <| _state := OPEN |> <| _epoch := _epoch b + 1 |> else b
  else b.

Definition record_success (a : admission) (b : CircuitBreaker) : CircuitBreaker :=
  if owns_probe a b then
    b <| _state := CLOSED |> <| _probe_in_flight := false |> <| _probe_token := None |> <| _failure_count := 0 |>
      <| _success_count := _success_count b + 1 |> <| _epoch := _epoch b + 1 |> <| _generation := _generation b + 1 |>
  else if negb (is_probe a) && bool_decide (_state b = CLOSED) && (_epoch b =? admission_epoch a)
          && (_generation b =? admission_generation a) then
    b <| _failure_count := 0 |> <| _success_count := _success_count b + 1 |>
  else b.

(** The rest of [call], at the time [now]. *)
Definition settle (now : Z) (a : admission) (o : call_outcome) (b : CircuitBreaker)
  : CircuitBreaker * result breaker_error unit :=
  let abandoned := if is_probe a then _abandon_probe now a b else b in
  match o with
  | Succeeded => (record_success a b, Ok tt)
  | CallCancelled => (abandoned, Err BreakerCancelled)
  | CallUnsupported => (abandoned, Err UnsupportedProviderCapability)
  | CallFailed => (record_failure now a b, Err DelegateError)
  | CallBaseException => (abandoned, Err BreakerBaseException)
  end.

Definition reset (b : CircuitBreaker) : CircuitBreaker :=
  b <| _state := CLOSED |> <| _failure_count := 0 |> <| _success_count := 0 |> <| _probe_in_flight := false |>
    <| _probe_token := None |> <| _epoch := _epoch b + 1 |> <| _generation := _generation b + 1 |>.

(** [call] when nothing runs between its sections. *)
Definition call (now later settled : Z) (o : call_outcome) (b : CircuitBreaker)
  : CircuitBreaker * result breaker_error unit :=
  match admit_call now later b with
  | (b, Err e) => (b, Err e)
  | (b, Ok a) => settle settled a o b
  end.

(** [CircuitBreakingProvider.complete]: the errors it lets through. [contract] and
    [format] tell which of the exclusive arguments were given. *)
Definition provider_error (e : breaker_error) : breaker_error :=
  match e with
  | CircuitBreakerOpenError _ | DelegateError => ProviderUnavailableError
  | e => e
  end.

Definition provider_complete (contract format : bool) (now later settled : Z) (o : call_outcome) (b : CircuitBreaker)
  : CircuitBreaker * result breaker_error unit :=
  if contract && format then (b, Err BreakerValueError)
  else match call now later settled o b with
       | (b, Ok r) => (b, Ok r)
       | (b, Err e) => (b, Err (provider_error e))
       end.

(** [get_stats], the name and the constants apart. *)
Definition get_stats (now : Z) (b : CircuitBreaker) : CircuitState * Z * Z * Z :=
  (state now b, _failure_count b, _success_count b, _total_calls b).

(** ** Concurrent calls *)

(** The breaker and the calls between their two sections. *)
Record breaker_run : Type := mkRun { breaker : CircuitBreaker; in_flight : list admission }.

Inductive breaker_step : breaker_run -> breaker_run -> Prop :=
| step_admit now later b b' a l : admit_call now later b = (b', Ok a) ->
    breaker_step (mkRun b l) (mkRun b' (a :: l))
| step_settle now a o b l1 l2 :
    breaker_step (mkRun b (l1 ++ a :: l2)) (mkRun (settle now a o b).1 (l1 ++ l2))
| step_reset b l : breaker_step (mkRun b l) (mkRun (reset b) l).

Definition breaker_reachable (s : breaker_run) : Prop :=
  exists threshold timeout b, new_breaker threshold timeout = Ok b /\ rtc breaker_step (mkRun b []) s.

(** *** Invariants *)

Record breaker_ok (s : breaker_run) : Prop := {
  ok_threshold : 1 <= failure_threshold (breaker s) /\ 0 < recovery_timeout (breaker s);
  ok_probe : match _probe_token (breaker s) with
             | Some t => _state (breaker s) = HALF_OPEN /\ _probe_in_flight (breaker s) = true
                         /\ exists a, a ∈ in_flight s /\ probe_token a = Some t
             | None => _state (breaker s) <> HALF_OPEN /\ _probe_in_flight (breaker s) = false
             end;
  ok_objects : forall a t, a ∈ in_flight s -> probe_token a = Some t -> (t < objects (breaker s))%nat;
  ok_tokens : NoDup (omap probe_token (in_flight s));
  ok_count : 0 <= _failure_count (breaker s)
             /\ (_state (breaker s) = CLOSED -> _failure_count (breaker s) < failure_threshold (breaker s));
  ok_epochs : forall a, a ∈ in_flight s -> admission_epoch a <= _epoch (breaker s)
             /\ (is_probe a = false -> admission_epoch a = _epoch (breaker s) -> _state (breaker s) = CLOSED)
}.

(** What an admission can be. *)
Lemma admit_cases now later b :
  match admit_call now later b with
  | (b', Err e) => b' = b /\ (state now b = OPEN \/ (state now b = HALF_OPEN /\ _probe_in_flight b = true))
      /\ e = CircuitBreakerOpenError (Z.max 0 (recovery_timeout b - (later - _last_failure_time b)))
  | (b', Ok a) =>
      (state now b = CLOSED /\ a = mkAdmission None (_epoch b) (_generation b)
        /\ b' = b <| _total_calls := _total_calls b + 1 |>)
      \/ (state now b = HALF_OPEN /\ _probe_in_flight b = false
          /\ a = mkAdmission (Some (objects b)) (_epoch b + 1) (_generation b)
          /\ b' = b <| _state := HALF_OPEN |> <| _probe_in_flight := true |> <| _epoch := _epoch b + 1 |>
                    <| objects := S (objects b) |> <| _probe_token := Some (objects b) |>
                    <| _total_calls := _total_calls b + 1 |>)
  end.
Proof.
  unfold admit_call. cbv zeta. destruct (state now b) eqn:Hs; cbn.
  - by left.
  - split_and!; auto.
  - destruct (_probe_in_flight b) eqn:Hp; cbn; [split_and!; auto|]. by right.
Qed.

(** How a settlement changes the breaker. *)
Inductive settlement (a : admission) (b : CircuitBreaker) : CircuitBreaker -> Prop :=
| settle_ignored : owns_probe a b = false -> settlement a b b
| settle_probe b' : owns_probe a b = true -> (_state b' = CLOSED /\ _failure_count b' = 0 \/ _state b' = OPEN
      /\ (_failure_count b' = _failure_count b \/ _failure_count b' = _failure_count b + 1)) ->
    _probe_in_flight b' = false -> _probe_token b' = None -> _epoch b' = _epoch b + 1 ->
    failure_threshold b' = failure_threshold b -> recovery_timeout b' = recovery_timeout b ->
    objects b' = objects b -> settlement a b b'
| settle_counted b' : is_probe a = false -> _epoch b = admission_epoch a ->
    (_state b' = _state b /\ _epoch b' = _epoch b /\
       ((_state b = CLOSED /\ _failure_count b' = 0)
        \/ (_failure_count b' = _failure_count b + 1 /\ _failure_count b' < failure_threshold b))
     \/ _state b' = OPEN /\ _epoch b' = _epoch b + 1 /\ _failure_count b' = _failure_count b + 1) ->
    _probe_in_flight b' = _probe_in_flight b -> _probe_token b' = _probe_token b ->
    failure_threshold b' = failure_threshold b -> recovery_timeout b' = recovery_timeout b ->
    objects b' = objects b -> settlement a b b'.

Lemma owns_probe_spec a b : owns_probe a b = true <-> exists t, probe_token a = Some t /\ _probe_token b = Some t.
Proof.
  unfold owns_probe, is_probe. destruct (probe_token a) as [t|]; cbn.
  - rewrite bool_decide_eq_true. split; [eauto|by intros (? & [= <-] & ?)].
  - split; [done|by intros (? & ? & _)].
Qed.

Lemma abandon_settles now a b : settlement a b (if is_probe a then _abandon_probe now a b else b).
Proof.
  unfold _abandon_probe. destruct (is_probe a) eqn:Hp; [|apply settle_ignored; unfold owns_probe; by rewrite Hp].
  destruct (bool_decide _) eqn:Ho; [|apply settle_ignored; unfold owns_probe; by rewrite Hp, Ho].
  apply settle_probe; cbn; auto. unfold owns_probe. by rewrite Hp, Ho.
Qed.

Lemma settle_settles now a o b : settlement a b (settle now a o b).1.
Proof.
  destruct o; cbn [settle fst]; try apply abandon_settles.
  - unfold record_success. destruct (owns_probe a b) eqn:Ho; [by apply settle_probe; cbn; auto|].
    destruct (_ && _) eqn:Hc; [|by apply settle_ignored]. bool_to_prop. apply settle_counted; cbn; auto. left. auto.
  - unfold record_failure. destruct (owns_probe a b) eqn:Ho; [by apply settle_probe; cbn; auto|].
    destruct (negb (is_probe a) && _) eqn:Hc; [|by apply settle_ignored]. bool_to_prop. cbv zeta. cbn.
    destruct (_ <=? _) eqn:Ht; bool_to_prop; apply settle_counted; cbn; auto. left. split_and!; auto.
Qed.

Lemma nodup_middle {A} (l1 l2 : list A) x : NoDup (l1 ++ x :: l2) -> NoDup (l1 ++ l2) /\ x ∉ l1 ++ l2.
Proof.
  intros H. rewrite <- Permutation_middle in H. apply NoDup_cons in H as [Hn H]. done.
Qed.

Lemma omap_tokens l1 a l2 : omap probe_token (l1 ++ a :: l2)
  = (omap probe_token l1 ++ match probe_token a with Some t => t :: omap probe_token l2 | None => omap probe_token l2 end)%list.
Proof. rewrite omap_app. cbn. by destruct (probe_token a). Qed.

Lemma breaker_ok_settle now a o b l1 l2 :
  breaker_ok (mkRun b (l1 ++ a :: l2)) -> breaker_ok (mkRun (settle now a o b).1 (l1 ++ l2)).
Proof.
  intros [Hth Hpr Hob Htk Hct Hep]. cbn [breaker in_flight] in *.
  assert (forall x, x ∈ l1 ++ l2 -> x ∈ l1 ++ a :: l2) as Hsub.
  { intros x. rewrite !elem_of_app, elem_of_cons. tauto. }
  assert (a ∈ l1 ++ a :: l2) as Ha by (rewrite elem_of_app, elem_of_cons; tauto).
  destruct (Hep a Ha) as [Hea Hcl]. rewrite omap_tokens in Htk.
  assert (NoDup (omap probe_token (l1 ++ l2))) as Htk'.
  { rewrite omap_app. destruct (probe_token a); [by apply nodup_middle in Htk as [? _]|done]. }
  assert (forall t, probe_token a <> Some t -> (exists x, x ∈ l1 ++ a :: l2 /\ probe_token x = Some t) ->
    exists x, x ∈ l1 ++ l2 /\ probe_token x = Some t) as Hother.
  { intros t Hne (x & Hx & Ht). exists x. split; [|done]. rewrite elem_of_app in *. rewrite elem_of_cons in Hx.
    destruct Hx as [?|[->|?]]; [by left|done|by right]. }
  pose proof (settle_settles now a o b) as Hset. destruct (settle now a o b) as [b' r]. cbn [fst] in *.
  destruct Hset as [Hno|b' Ho Hs Hf Ht He Hth' Hto' Hob'|b' Hnp He Hs Hf Ht Hth' Hto' Hob'];
    split; cbn [breaker in_flight]; rewrite ?Hth', ?Hto', ?Hob'; try done; try (by eauto).
  - destruct (_probe_token b) as [t|] eqn:Ht; [|done]. destruct Hpr as (? & ? & Hx). split_and!; [done|done|].
    apply Hother; [|done]. intros Hat. rewrite (proj2 (owns_probe_spec a b)) in Hno by eauto. done.
  - rewrite Ht. split; [|done]. destruct Hs as [[-> _]|[-> _]]; done.
  - destruct Hs as [[_ ->]|[-> [-> | ->]]]; split; (done || lia).
  - intros x Hx. destruct (Hep x (Hsub x Hx)) as [? _]. rewrite He. split; [lia|]. intros _ E. lia.
  - rewrite Ht, Hf. destruct (_probe_token b) as [t|] eqn:Htb.
    + destruct Hpr as (Hhalf & ? & Hx). exfalso. rewrite (Hcl Hnp) in Hhalf by lia. done.
    + destruct Hpr as [? ?]. split; [|done]. destruct Hs as [(-> & _)|(-> & _)]; done.
  - destruct Hs as [(Hst & _ & [[_ ->]|[-> Hlt]])|(Hst & _ & ->)]; (split; [lia|intros E]);
      [lia|lia|by rewrite Hst in E].
  - intros x Hx. destruct (Hep x (Hsub x Hx)) as [? Hc]. destruct Hs as [(Hst & He' & _)|(Hst & He' & _)]; rewrite He', Hst.
    + split; [done|]. intros Hp Hx'. by apply Hc.
    + split; [lia|]. intros _ E. lia.
Qed.

Lemma breaker_ok_admit now later b b' a l :
  breaker_ok (mkRun b l) -> admit_call now later b = (b', Ok a) -> breaker_ok (mkRun b' (a :: l)).
Proof.
  intros [Hth Hpr Hob Htk Hct Hep] Had. cbn [breaker in_flight] in *.
  pose proof (admit_cases now later b) as Hc. rewrite Had in Hc.
  destruct Hc as [(Hs & -> & ->)|(Hs & Hp & -> & ->)].
  - assert (_state b = CLOSED) as Hcl by (unfold state in Hs; by destruct (_ && _)).
    split; cbn; try done.
    + destruct (_probe_token b) as [t|]; [|done]. destruct Hpr as (? & ? & x & Hx & ?). split_and!; [done|done|].
      exists x. split; [by right|done].
    + intros x t [->|Hx]%elem_of_cons; [done|by apply Hob].
    + intros x [->|Hx]%elem_of_cons; [by cbn|by apply Hep].
  - assert (_probe_token b = None /\ _state b = OPEN) as [Htn Hop].
    { destruct (_probe_token b); [destruct Hpr as (_ & Hpt & _); congruence|]. split; [done|]. destruct Hpr as [Hh _].
      unfold state in Hs. destruct (bool_decide (_state b = OPEN)) eqn:Ho; [by bool_to_prop|]. cbn in Hs. done. }
    split; cbn; try done.
    + split_and!; [done|done|]. eexists. split; [by left|done].
    + intros x t [->|Hx]%elem_of_cons Ht; [injection Ht as <-; lia|]. specialize (Hob x t Hx Ht). lia.
    + constructor; [|done]. intros (x & Hx & Ht)%list_elem_of_omap. specialize (Hob _ _ Hx Ht). lia.
    + split; [lia|done].
    + intros x [->|Hx]%elem_of_cons; cbn; [by split; [lia|]|]. destruct (Hep x Hx) as [? _]. split; [lia|]. intros _ E. lia.
Qed.

Lemma breaker_ok_step s s' : breaker_ok s -> breaker_step s s' -> breaker_ok s'.
Proof.
  intros Hok Hstep. revert Hok. destruct Hstep as [now later b b' a l Had|now a o b l1 l2|b l]; intros Hok.
  - by eapply breaker_ok_admit.
  - by apply breaker_ok_settle.
  - destruct Hok as [Hth Hpr Hob Htk Hct Hep]. cbn [breaker in_flight] in *. split; cbn; try done.
    + split; [lia|]. intros _. lia.
    + intros x Hx. destruct (Hep x Hx) as [? _]. split; [lia|]. intros _ E. lia.
Qed.

Lemma breaker_reachable_ok s : breaker_reachable s -> breaker_ok s.
Proof.
  intros (th & tm & b & Hb & Hs). assert (breaker_ok (mkRun b [])) as H0.
  { unfold new_breaker in Hb. inv_result. bool_to_prop. split; cbn; try done; try (by constructor).
    - by intros x t ?%elem_of_nil.
    - split; [done|]. intros _. lia.
    - by intros x ?%elem_of_nil. }
  clear Hb. induction Hs as [|s1 s2 s3 H12 _ IH]; [done|]. apply IH. by eapply breaker_ok_step.
Qed.

(** *** Probes, epochs and consecutive failures *)

Lemma one_token (l : list admission) t : NoDup (omap probe_token l) ->
  (exists a, a ∈ l /\ probe_token a = Some t) ->
  length (filter (fun a => probe_token a = Some t) l) = 1%nat.
Proof.
  assert (forall l, (forall a, a ∈ l -> probe_token a <> Some t) ->
    filter (fun a => probe_token a = Some t) l = []) as Hnone.
  { intros l0 Hl0. induction l0 as [|x l0 IH]; [done|]. rewrite filter_cons_False by (apply Hl0; left).
    apply IH. intros a Ha. apply Hl0. by right. }
  induction l as [|x l IH]; intros Hnd (a & Ha & Hat); [by apply elem_of_nil in Ha|].
  cbn in Hnd. destruct (decide (probe_token x = Some t)) as [Hx|Hx].
  - rewrite filter_cons_True by done. rewrite Hx in Hnd. apply NoDup_cons in Hnd as [Hn _]. cbn.
    rewrite Hnone; [done|]. intros y Hy Hyt. apply Hn, list_elem_of_omap. eauto.
  - rewrite filter_cons_False by done. apply IH.
    + destruct (probe_token x); [by apply NoDup_cons in Hnd as [_ ?]|done].
    + apply elem_of_cons in Ha as [->|Ha]; [done|eauto].
Qed.

Lemma step_epoch s s' : breaker_ok s -> breaker_step s s' ->
  _epoch (breaker s) <= _epoch (breaker s')
  /\ (_state (breaker s') = _state (breaker s) \/ _epoch (breaker s) < _epoch (breaker s')).
Proof.
  intros Hok Hstep. destruct Hstep as [now later b b' a l Had|now a o b l1 l2|b l]; cbn.
  - pose proof (admit_cases now later b) as Hc. rewrite Had in Hc.
    destruct Hc as [(_ & _ & ->)|(_ & _ & _ & ->)]; cbn; split; [lia|auto|lia|right; lia].
  - destruct (settle_settles now a o b) as [_|b' _ _ _ _ He _ _ _|b' _ _ Hs _ _ _ _ _]; [split; [lia|by left]| |].
    + split; [|right]; lia.
    + destruct Hs as [(-> & -> & _)|(_ & -> & _)]; split; [lia|by left|lia|right; lia].
  - split; [|right]; lia.
Qed.

Lemma history_epoch s s' : breaker_ok s -> rtc breaker_step s s' ->
  _epoch (breaker s) <= _epoch (breaker s')
  /\ (_state (breaker s') = _state (breaker s) \/ _epoch (breaker s) < _epoch (breaker s')).
Proof.
  intros Hok Hs. induction Hs as [s|s1 s2 s3 H12 _ IH]; [split; [lia|by left]|].
  destruct (step_epoch _ _ Hok H12) as [Hle Hor]. destruct (IH (breaker_ok_step _ _ Hok H12)) as [Hle' Hor'].
  split; [lia|]. destruct Hor as [E|?]; [|right; lia]. destruct Hor' as [E'|?]; [left; congruence|right; lia].
Qed.

(** [func] fails at each of these times, one call after the other. *)
Definition failing_calls (times : list Z) (b : CircuitBreaker) : CircuitBreaker :=
  fold_left (fun b t => (call t t t CallFailed b).1) times b.

Lemma failing_call t b : _state b = CLOSED ->
  let b' := (call t t t CallFailed b).1 in
  _failure_count b' = _failure_count b + 1 /\ _last_failure_time b' = t
  /\ failure_threshold b' = failure_threshold b /\ recovery_timeout b' = recovery_timeout b
  /\ _state b' = if failure_threshold b <=? _failure_count b + 1 then OPEN else CLOSED.
Proof.
  intros Hs. unfold call.
  assert (admit_call t t b = (b <| _total_calls := _total_calls b + 1 |>, Ok (mkAdmission None (_epoch b) (_generation b)))) as ->
    by (unfold admit_call, state; by rewrite Hs).
  cbn. unfold record_failure, owns_probe. cbn. rewrite Z.eqb_refl. cbn. destruct (_ <=? _); cbn; split_and!; (done || by rewrite Hs).
Qed.

Lemma failing_calls_count times b : _state b = CLOSED ->
  _failure_count b + Z.of_nat (length times) < failure_threshold b ->
  let b' := failing_calls times b in
  _state b' = CLOSED /\ _failure_count b' = _failure_count b + Z.of_nat (length times)
  /\ failure_threshold b' = failure_threshold b /\ recovery_timeout b' = recovery_timeout b.
Proof.
  revert b. induction times as [|t times IH]; intros b Hs Hlt; cbn [length] in *; [split_and!; (done || cbn; lia)|].
  destruct (failing_call t b Hs) as (Hc & _ & Hth & Htm & Hst).
  assert ((failure_threshold b <=? _failure_count b + 1) = false) as Hn by (apply Z.leb_gt; lia).
  rewrite Hn in Hst. destruct (IH _ Hst) as (H1 & H2 & H3 & H4); [lia|].
  cbn [failing_calls fold_left]. unfold failing_calls in *. split_and!; [done|lia|congruence|congruence].
Qed.

(** ** A breaker for the examples *)

Definition demo_breaker : CircuitBreaker := mkBreaker 2 30 CLOSED 0 0 0 0 false 0 0 None O.

(** Two calls run; one fails twice over, the breaker opens, a probe starts. *)
Definition demo_old_call : admission := mkAdmission None 0 0.
Definition demo_before : breaker_run := Eval vm_compute in
  mkRun (demo_breaker <| _total_calls := 3 |>) [demo_old_call; demo_old_call; demo_old_call].
Definition demo_after : breaker_run := Eval vm_compute in
  mkRun (settle 2 demo_old_call CallFailed (settle 1 demo_old_call CallFailed (breaker demo_before)).1).1 [demo_old_call].
Definition demo_probe : admission := mkAdmission (Some O) 2 2.
Definition demo_probing : breaker_run := Eval vm_compute in mkRun (admit_call 40 40 (breaker demo_after)).1 [demo_probe; demo_old_call].

Lemma demo_before_reachable : breaker_reachable demo_before.
Proof.
  exists 2, 30, demo_breaker. split; [done|].
  eapply rtc_l; [eapply (step_admit 0 0); reflexivity|]. eapply rtc_l; [eapply (step_admit 0 0); reflexivity|].
  apply rtc_once. eapply (step_admit 0 0). reflexivity.
Qed.

Lemma demo_after_history : rtc breaker_step demo_before demo_after.
Proof.
  eapply rtc_l; [exact (step_settle 1 demo_old_call CallFailed (breaker demo_before) [] [demo_old_call; demo_old_call])|].
  apply rtc_once. exact (step_settle 2 demo_old_call CallFailed _ [] [demo_old_call]).
Qed.

Lemma demo_probing_reachable : breaker_reachable demo_probing.
Proof.
  destruct demo_before_reachable as (th & tm & b & Hb & Hs). exists th, tm, b. split; [done|].
  etrans; [exact Hs|]. etrans; [apply demo_after_history|]. apply rtc_once.
  apply (step_admit 40 40 (breaker demo_after) (breaker demo_probing) demo_probe [demo_old_call]).
  vm_compute. reflexivity.
Qed.

(** ** Properties *)

(** The half-open breaker lets a single probe through: among the calls in flight
    exactly one owns the probe while the breaker is half open, none otherwise, and
    every other call is refused until that probe is settled. *)
Theorem probe_is_exclusive (s : breaker_run) : breaker_reachable s ->
  length (filter (fun a => owns_probe a (breaker s) = true) (in_flight s))
    = (if bool_decide (_state (breaker s) = HALF_OPEN) then 1 else 0)%nat
  /\ (_state (breaker s) = HALF_OPEN -> forall now later, exists remaining,
        admit_call now later (breaker s) = (breaker s, Err (CircuitBreakerOpenError remaining))).
Proof.
  intros Hr. apply breaker_reachable_ok in Hr. pose proof (ok_probe _ Hr) as Hp.
  assert (forall l : list admission, filter (fun a => owns_probe a (breaker s) = true) l
    = filter (fun a => probe_token a = _probe_token (breaker s) /\ is_Some (probe_token a)) l) as Hf.
  { intros l. apply list_filter_iff. intros a. rewrite owns_probe_spec. split.
    - intros (t & -> & ->). eauto.
    - intros [Heq [t Ht]]. exists t. by rewrite <- Heq. }
  rewrite Hf. clear Hf. destruct (_probe_token (breaker s)) as [t|].
  - destruct Hp as (Hs & Hfl & Hex). rewrite bool_decide_eq_true_2 by done. split.
    + rewrite <- (one_token (in_flight s) t (ok_tokens _ Hr) Hex). f_equal. apply list_filter_iff.
      intros a. split; [by intros [? _]|]. intros Ht. split; [done|eauto].
    + intros _ now later. pose proof (admit_cases now later (breaker s)) as Hc.
      assert (state now (breaker s) = HALF_OPEN) as Hst by (unfold state; by rewrite Hs).
      destruct (admit_call _ _ _) as [b' [a|e]].
      * destruct Hc as [(? & _)|(_ & ? & _)]; congruence.
      * destruct Hc as (-> & _ & ->). eauto.
  - destruct Hp as [Hs _]. rewrite bool_decide_eq_false_2 by done. split; [|done].
    generalize (in_flight s). intros l. induction l as [|x l IH]; [done|]. rewrite filter_cons_False; [done|].
    intros [E [t Ht]]. congruence.
Qed.

(** The breaker is never wedged: closed, it admits; open, it refuses exactly until
    its timeout has passed since the last failure and then admits a probe; half open,
    some call in flight closes it by succeeding and reopens it, from that moment, by
    ending in any other way, cancellation included. *)
Theorem breaker_recovers (s : breaker_run) (now later : Z) : breaker_reachable s ->
  let b := breaker s in
  match _state b with
  | CLOSED => (admit_call now later b).2 = Ok (mkAdmission None (_epoch b) (_generation b))
  | OPEN =>
      if recovery_timeout b <=? now - _last_failure_time b
      then _state (admit_call now later b).1 = HALF_OPEN
        /\ exists a, (admit_call now later b).2 = Ok a /\ owns_probe a (admit_call now later b).1 = true
      else admit_call now later b
        = (b, Err (CircuitBreakerOpenError (Z.max 0 (recovery_timeout b - (later - _last_failure_time b)))))
  | HALF_OPEN => exists a, a ∈ in_flight s /\ forall settled o,
      match o with
      | Succeeded => _state (settle settled a o b).1 = CLOSED /\ _failure_count (settle settled a o b).1 = 0
      | _ => _state (settle settled a o b).1 = OPEN /\ _last_failure_time (settle settled a o b).1 = settled
      end
  end.
Proof.
  intros Hr b. apply breaker_reachable_ok in Hr. pose proof (ok_probe _ Hr) as Hp. fold b in Hp.
  destruct (_state b) eqn:Hs.
  - unfold admit_call, state. by rewrite Hs.
  - destruct (_probe_token b) as [t|]; [by destruct Hp|]. destruct Hp as [_ Hf].
    unfold admit_call, state. rewrite Hs. cbn. destruct (_ <=? _); cbn; [|done]. rewrite Hf. cbn. split; [done|].
    eexists. split; [done|]. apply owns_probe_spec. cbn. eauto.
  - destruct (_probe_token b) as [t|] eqn:Ht; [|by destruct Hp]. destruct Hp as (_ & _ & a & Ha & Hat).
    exists a. split; [done|]. intros settled o.
    assert (owns_probe a b = true) as Ho by (apply owns_probe_spec; eauto).
    destruct o; cbn; unfold record_success, record_failure, _abandon_probe; rewrite ?Ho;
      unfold is_probe; rewrite ?Hat, ?Ht, ?bool_decide_eq_true_2 by done; done.
Qed.

(** A call that was admitted before the breaker changed its state has no say any
    more: when it ends, in whatever way, the breaker stays as it is. *)
Theorem stale_outcome_ignored (s s' : breaker_run) (a : admission) (now : Z) (o : call_outcome) :
  breaker_reachable s -> rtc breaker_step s s' -> a ∈ in_flight s -> is_probe a = false ->
  _state (breaker s') <> _state (breaker s) -> (settle now a o (breaker s')).1 = breaker s'.
Proof.
  intros Hr Hs Ha Hp Hne. apply breaker_reachable_ok in Hr. destruct (ok_epochs _ Hr a Ha) as [Hle _].
  destruct (history_epoch _ _ Hr Hs) as [_ [?|Hlt]]; [done|].
  assert ((_epoch (breaker s') =? admission_epoch a) = false) as He by (apply Z.eqb_neq; lia).
  destruct o; cbn; unfold record_success, record_failure, owns_probe; rewrite ?Hp, ?He; cbn;
    rewrite ?andb_false_r; done.
Qed.

(** Starting closed, the breaker stays closed through one consecutive failure less
    than its threshold and opens at the next; it then refuses every call until its
    timeout has passed since that failure. *)
Theorem trips_at_threshold (threshold timeout : Z) (b : CircuitBreaker) (times : list Z) (t : Z) :
  new_breaker threshold timeout = Ok b -> Z.of_nat (length times) + 1 = threshold ->
  _state (failing_calls times b) = CLOSED /\
  let b' := failing_calls (times ++ [t]) b in
  _state b' = OPEN /\ forall now later o, now - t < timeout ->
    exists e, call now later later o b' = (b', Err e).
Proof.
  intros Hb Hl. unfold new_breaker in Hb. inv_result. bool_to_prop.
  match goal with |- context [failing_calls times ?b] => set (b0 := b) end.
  destruct (failing_calls_count times b0 eq_refl) as (H1 & H2 & H3 & H4); [cbn; lia|].
  split; [done|].
  assert (failing_calls (times ++ [t]) b0 = (call t t t CallFailed (failing_calls times b0)).1) as ->
    by (unfold failing_calls; by rewrite fold_left_app).
  destruct (failing_call t _ H1) as (_ & Hlast & _ & Htm & Hst).
  assert ((failure_threshold (failing_calls times b0) <=? _failure_count (failing_calls times b0) + 1) = true) as Hth.
  { rewrite H2, H3. apply Z.leb_le. cbn in *. lia. }
  rewrite Hth in Hst. cbv zeta. split; [done|]. intros now later o Hlt.
  unfold call at 1. unfold admit_call, state. rewrite Hst, Hlast, Htm, H4. cbn [bool_decide].
  assert ((recovery_timeout b0 <=? now - t) = false) as -> by (apply Z.leb_gt; cbn; lia).
  cbn. eauto.
Qed.

(** ** Witnesses *)

Lemma probe_is_exclusive_witness : _state (breaker demo_probing) = HALF_OPEN /\ exists remaining,
  admit_call 100 100 (breaker demo_probing) = (breaker demo_probing, Err (CircuitBreakerOpenError remaining)).
Proof.
  destruct (probe_is_exclusive demo_probing demo_probing_reachable) as [_ H].
  split; [reflexivity|]. exact (H eq_refl 100 100).
Defined.

Lemma breaker_recovers_witness : exists a, a ∈ in_flight demo_probing
  /\ _state (settle 50 a Succeeded (breaker demo_probing)).1 = CLOSED.
Proof.
  destruct (breaker_recovers demo_probing 50 50 demo_probing_reachable) as (a & Ha & H).
  exists a. split; [exact Ha|exact (proj1 (H 50 Succeeded))].
Defined.

(** The third call fails after the first two opened the breaker. *)
Lemma stale_outcome_ignored_witness : (settle 3 demo_old_call CallFailed (breaker demo_after)).1 = breaker demo_after.
Proof.
  apply (stale_outcome_ignored demo_before demo_after).
  - apply demo_before_reachable.
  - apply demo_after_history.
  - left.
  - reflexivity.
  - vm_compute. discriminate.
Defined.

Lemma trips_at_threshold_witness : exists b, new_breaker 2 30 = Ok b /\ _state (failing_calls [1; 2] b) = OPEN.
Proof.
  eexists. split; [reflexivity|].
  destruct (trips_at_threshold 2 30 demo_breaker [1] 2 eq_refl eq_refl) as [_ [H _]]. exact H.
Defined.
