(* ===== verification/RateLimiter.v ===== *)
(** * The sliding-window rate limiter ([security/rate_limiter.py])

    One bucket of admission times per hashed identifier, in the process or in Redis.
    In Redis a bucket is a sorted set with an expiry, changed by a Lua script or, on
    servers without one, by a WATCH/MULTI transaction that starts over when another
    client touched the key. Local times are integers in microseconds, Redis times in
    milliseconds, as the source reads them. *)

From Stdlib Require Import ZArith Lia String Ascii.
From stdpp Require Import base gmap strings list fin_maps sorting.
From S2P Require Import Prelude.
Open Scope Z_scope.

Record RateLimitResult : Type := mkLimit {
  allowed : bool;
  current : Z;
  limit : Z;
  remaining : Z;
  retry_after : option Z
}.

Inductive limiter_error : Type := LimiterValueError | RedisError.

#[export] Instance limiter_error_eq_dec : EqDecision limiter_error.
Proof. solve_decision. Defined.

Record RateLimiter : Type := mkLimiter {
  _max_requests : Z;
  _window : Z;
  _prefix : string
}.

Definition new_limiter (max_requests window_seconds : Z) (key_prefix : string) : result limiter_error RateLimiter :=
  _ ← require (1 <=? max_requests) LimiterValueError;
  _ ← require (1 <=? window_seconds) LimiterValueError;
  _ ← require (negb (string_eqb key_prefix "")) LimiterValueError;
  Ok (mkLimiter max_requests window_seconds key_prefix).

Definition microseconds (s : Z) : Z := s * 1000000.

(** ** Local buckets *)

(** [_check_local] on the bucket: the entries it stores and its answer. *)
Definition check_bucket (window lim now : Z) (stored : list Z) : list Z * RateLimitResult :=
  let entries := filter (fun stamp => now - microseconds window < stamp) stored in
  let ok := Z.of_nat (length entries) <? lim in
  let entries := if ok then (entries ++ [now])%list else entries in
  let retry :=
    if ok then None
    else Some (Z.max 1 (ceil_div (match entries with e :: _ => e | [] => 0 end + microseconds window - now) 1000000)) in
  (entries, mkLimit ok (Z.of_nat (length entries)) lim (Z.max 0 (lim - Z.of_nat (length entries))) retry).

(** ** Redis buckets *)

Record bucket : Type := mkBucket { scores : gmap string Z; expires : option Z }.

(** What a command finds at the server's time [clock]: an expired key is gone. *)
Definition live (clock : Z) (b : bucket) : gmap string Z :=
  match expires b with
  | Some t => if t <=? clock then ∅ else scores b
  | None => scores b
  end.

(** [ZREMRANGEBYSCORE key -inf max] *)
Definition remove_until (max : Z) (s : gmap string Z) : gmap string Z := filter (fun e => max < e.2) s.

(** The score of [ZRANGE key 0 0 WITHSCORES]. *)
Definition oldest (s : gmap string Z) : option Z :=
  map_fold (fun _ x acc => Some (match acc with None => x | Some y => Z.min x y end)) None s.

Abbreviation reply := (Z * Z * Z * Z)%type.

(** [_LUA] *)
Definition lua (clock now window lim : Z) (member : string) (b : bucket) : bucket * reply :=
  let s := remove_until (now - window) (live clock b) in
  let count := Z.of_nat (size s) in
  if count <? lim
  then (mkBucket (<[member := now]> s) (Some (clock + window)), (1, count + 1, lim - count - 1, 0))
  else
    let retry := match oldest s with Some o => Z.max 1 (o + window - now) | None => window end in
    (mkBucket s (if decide (s = ∅) then None else Some (clock + window)), (0, count, 0, retry)).

(** One round of [_check_redis_transaction] that commits. *)
Definition transaction (clock now window lim : Z) (member : string) (b : bucket) : bucket * reply :=
  let active := filter (fun e => now - window < e.2) (live clock b) in
  let count := Z.of_nat (size active) in
  let ok := count <? lim in
  let retry_ms := if ok then 0 else Z.max 1 (match oldest active with Some o => o | None => 0 end + window - now) in
  let s := remove_until (now - window) (live clock b) in
  let s := if ok then <[member := now]> s else s in
  let current := count + (if ok then 1 else 0) in
  (mkBucket s (if decide (s = ∅) then None else Some (clock + window)),
   (if ok then 1 else 0, current, Z.max 0 (lim - current), retry_ms)).

(** The loop: every bucket of [conflicts] was seen by a round that another client
    made fail, the last round sees [b] and commits. *)
Fixpoint _check_redis_transaction (conflicts : list bucket) (clock now window lim : Z) (member : string) (b : bucket)
  : bucket * reply :=
  match conflicts with
  | [] => transaction clock now window lim member b
  | _ :: conflicts' => _check_redis_transaction conflicts' clock now window lim member b
  end.

Definition _redis_result (values : reply) (lim : Z) : RateLimitResult :=
  let '(ok, current, remaining, retry_ms) := values in
  mkLimit (negb (ok =? 0)) current lim remaining (if ok =? 0 then Some (Z.max 1 (ceil_div retry_ms 1000)) else None).

(** Servers run the script, lack it, or fail. *)
Inductive server : Type := Scripting | NoScripting (conflicts : list bucket) | Failing.

Definition _check_redis (sv : server) (clock now window lim : Z) (member : string) (b : bucket)
  : bucket * result limiter_error RateLimitResult :=
  match sv with
  | Failing => (b, Err RedisError)
  | Scripting =>
      let '(b, values) := lua clock now (window * 1000) lim member b in (b, Ok (_redis_result values lim))
  | NoScripting conflicts =>
      let '(b, values) := _check_redis_transaction conflicts clock now (window * 1000) lim member b in
      (b, Ok (_redis_result values lim))
  end.

(** ** The limiter *)

Section limiter.
Context (sha256_hex : string -> string) (rl : RateLimiter).

Definition _key (identifier : string) : string := (_prefix rl ++ ":" ++ sha256_hex identifier)%string.

Definition _check_local (now : Z) (identifier : string) (lim : Z) (store : gmap string (list Z))
  : gmap string (list Z) * RateLimitResult :=
  let key := _key identifier in
  let '(entries, r) := check_bucket (_window rl) lim now (default [] (store !! key)) in
  (<[key := entries]> store, r).

(** [check] without Redis. *)
Definition check (now : Z) (identifier : string) (max_requests : option Z) (store : gmap string (list Z))
  : gmap string (list Z) * result limiter_error RateLimitResult :=
  let lim := default (_max_requests rl) max_requests in
  if lim <? 1 then (store, Err LimiterValueError)
  else let '(store, r) := _check_local now identifier lim store in (store, Ok r).

(** [check] with Redis, whose keys hold buckets. *)
Definition check_shared (sv : server) (clock now : Z) (identifier member : string) (max_requests : option Z)
    (keys : gmap string bucket) : gmap string bucket * result limiter_error RateLimitResult :=
  let lim := default (_max_requests rl) max_requests in
  if lim <? 1 then (keys, Err LimiterValueError)
  else
    let key := _key identifier in
    let '(b, r) := _check_redis sv clock now (_window rl) lim member (default (mkBucket ∅ None) (keys !! key)) in
    (match r with Ok _ => <[key := b]> keys | Err _ => keys end, r).
End limiter.

(** ** Runs of one bucket *)

(** A check at a time with a limit, on the stored entries and the admissions so far. *)
Definition run_step (window : Z) (st : list Z * list Z) (c : Z * Z) : list Z * list Z :=
  let '(entries, r) := check_bucket window c.2 c.1 st.1 in
  (entries, if allowed r then (st.2 ++ [c.1])%list else st.2).

Definition run (window : Z) (checks : list (Z * Z)) : list Z * list Z := fold_left (run_step window) checks ([], []).

(** Admissions in the window that ends at [t]. *)
Definition in_window (window t : Z) (admitted : list Z) : list Z :=
  filter (fun s => t - microseconds window < s <= t) admitted.

(** Checks happen in the order of the clock. *)
Definition ordered (checks : list (Z * Z)) : Prop := StronglySorted Z.le checks.*1.

Lemma check_bucket_spec window lim now stored :
  let entries := filter (fun s => now - microseconds window < s) stored in
  let '(stored', r) := check_bucket window lim now stored in
  limit r = lim /\
  if Z.of_nat (length entries) <? lim
  then allowed r = true /\ stored' = (entries ++ [now])%list /\ retry_after r = None
  else allowed r = false /\ stored' = entries
       /\ retry_after r = Some (Z.max 1 (ceil_div (match entries with e :: _ => e | [] => 0 end
                                                   + microseconds window - now) 1000000)).
Proof. unfold check_bucket. cbv zeta. by destruct (_ <? _). Qed.

(** What is stored of the admissions, and how many any window holds. *)
Record run_ok (window cap last : Z) (st : list Z * list Z) : Prop := {
  stored_ok : st.1 = filter (fun s => last - microseconds window < s) st.2;
  past_ok : forall s, s ∈ st.2 -> s <= last;
  order_ok : StronglySorted Z.le st.2;
  window_ok : forall t, Z.of_nat (length (in_window window t st.2)) <= cap
}.

Lemma filter_filter_later window last now (l : list Z) : last <= now ->
  filter (fun s => now - microseconds window < s) (filter (fun s => last - microseconds window < s) l)
  = filter (fun s => now - microseconds window < s) l.
Proof. intros Hle. rewrite list_filter_filter. apply list_filter_iff. intros s. lia. Qed.

Lemma filter_imp_length (P Q : Z -> Prop) `{!forall x, Decision (P x), !forall x, Decision (Q x)} l :
  (forall x, x ∈ l -> P x -> Q x) -> (length (filter P l) <= length (filter Q l))%nat.
Proof.
  induction l as [|x l IH]; intros Himp; [done|]. rewrite !filter_cons.
  assert (length (filter P l) <= length (filter Q l))%nat by (apply IH; intros y Hy; apply Himp; by right).
  destruct (decide (P x)) as [Hp|Hp], (decide (Q x)) as [Hq|Hq]; cbn; try lia.
  destruct Hq. apply Himp; [left|done].
Qed.

Lemma run_ok_step window cap last st now lim : 1 <= window -> run_ok window cap last st -> last <= now -> lim <= cap ->
  run_ok window cap now (run_step window st (now, lim)).
Proof.
  intros Hw [Hst Hpast Hord Hwin] Hle Hlim. unfold run_step. cbn [fst snd].
  pose proof (check_bucket_spec window lim now st.1) as Hspec. rewrite Hst, filter_filter_later in Hspec by done.
  rewrite Hst. destruct (check_bucket _ _ _ _) as [stored' r]. destruct Hspec as [_ Hspec].
  set (entries := filter (fun s => now - microseconds window < s) st.2) in *.
  destruct (_ <? _) eqn:Hlt; bool_to_prop; [destruct Hspec as (-> & -> & _)|destruct Hspec as (-> & -> & _)].
  - split; cbn [fst snd].
    + rewrite filter_app, (filter_cons_True _ now); [done|]. unfold microseconds. lia.
    + intros s [Hs|Hs%list_elem_of_singleton]%elem_of_app; [specialize (Hpast s Hs)|]; lia.
    + apply StronglySorted_app. split_and!; [|done|by repeat constructor].
      intros x y Hx ->%list_elem_of_singleton. specialize (Hpast x Hx). lia.
    + intros t. unfold in_window. rewrite filter_app, length_app. destruct (decide (t < now)) as [Ht|Ht].
      * rewrite (filter_cons_False _ now) by lia. cbn. specialize (Hwin t). unfold in_window in Hwin. lia.
      * assert (length (filter (fun s => t - microseconds window < s <= t)%Z st.2) <= length entries)%nat
          by (apply filter_imp_length; intros; lia).
        pose proof (length_filter (fun s => t - microseconds window < s <= t) [now]). cbn in *. lia.
  - split; cbn [fst snd]; [done| |done|done]. intros s Hs. specialize (Hpast s Hs). lia.
Qed.

Lemma run_ok_checks window cap checks last st : 1 <= window -> run_ok window cap last st ->
  Forall (fun c => last <= c.1 /\ c.2 <= cap) checks -> ordered checks ->
  exists last', run_ok window cap last' (fold_left (run_step window) checks st)
    /\ (last' = last \/ last' ∈ checks.*1).
Proof.
  intros Hw. revert last st. induction checks as [|[now lim] checks IH]; intros last st Hok Hall Hord; [by exists last; auto|].
  apply Forall_cons in Hall as [[Hle Hlim] Hall]. unfold ordered in Hord. cbn in Hord.
  apply StronglySorted_inv in Hord as [Hord Hnow].
  destruct (IH now _ (run_ok_step _ _ _ _ _ _ Hw Hok Hle Hlim)) as (last' & Hok' & Hin); [|done|].
  - rewrite Forall_forall in Hall. rewrite Forall_forall in Hnow. apply Forall_forall. intros [n l] Hc. cbn. destruct (Hall _ Hc) as [_ ?]. split; [|done].
    apply Hnow. apply list_elem_of_fmap. by exists (n, l).
  - exists last'. split; [done|]. right. cbn. destruct Hin as [->|Hin]; [left|by right].
Qed.

Lemma run_ok_run window cap first checks : 1 <= window -> 0 <= cap -> Forall (fun c => first <= c.1 /\ c.2 <= cap) checks ->
  ordered checks -> exists last, run_ok window cap last (run window checks) /\ (last = first \/ last ∈ checks.*1).
Proof.
  intros Hw Hcap Hall Hord. apply run_ok_checks; [done| |done|done].
  split; cbn; [done|by intros s ?%elem_of_nil|constructor|]. intros t. unfold in_window. cbn. lia.
Qed.

Lemma oldest_spec s : match oldest s with
  | None => s = ∅
  | Some o => (exists k, s !! k = Some o) /\ forall k x, s !! k = Some x -> o <= x
  end.
Proof.
  unfold oldest. apply (map_fold_weak_ind (fun r s => match r with
    | None => s = ∅ | Some o => (exists k, s !! k = Some o) /\ forall k x, s !! k = Some x -> o <= x end)); [done|].
  intros k x m r Hk IH. destruct r as [y|].
  - destruct IH as [[k' Hk'] Hle]. split.
    + destruct (Z.min_spec x y) as [[_ ->]|[_ ->]]; [exists k; by rewrite lookup_insert_eq|].
      exists k'. rewrite lookup_insert_ne; [done|congruence].
    + intros k2 x2 [[<- <-]|[_ Hk2]]%lookup_insert_Some; [lia|]. specialize (Hle _ _ Hk2). lia.
  - subst m. split; [exists k; by rewrite lookup_insert_eq|].
    intros k2 x2 [[<- <-]|[_ Hk2]]%lookup_insert_Some; [lia|done].
Qed.

(** ** Properties *)

(** Six checks against two per ten seconds: two pass, one is refused, one window later
    two more pass. *)
Definition demo_checks : list (Z * Z) :=
  [(0, 2); (1000000, 2); (2000000, 2); (10000000, 2); (11000000, 2); (11500000, 2)].

(** C16. No window ever holds more admissions than the largest limit asked for: of all
    requests a local bucket admits, at most [cap] fall into any interval of the length
    of the window, wherever it ends. *)
Theorem window_never_exceeded (window cap first : Z) (checks : list (Z * Z)) (t : Z) :
  1 <= window -> 0 <= cap -> Forall (fun c => first <= c.1 /\ c.2 <= cap) checks -> ordered checks ->
  Z.of_nat (length (in_window window t (run window checks).2)) <= cap.
Proof.
  intros Hw Hcap Hall Hord. destruct (run_ok_run window cap first checks Hw Hcap Hall Hord) as (last & Hok & _).
  apply (window_ok _ _ _ _ Hok).
Qed.

Lemma window_never_exceeded_witness :
  (run 10 demo_checks).2 = [0; 1000000; 10000000; 11000000]
  /\ Z.of_nat (length (in_window 10 10500000 (run 10 demo_checks).2)) <= 2.
Proof.
  split; [vm_compute; reflexivity|]. apply (window_never_exceeded 10 2 0).
  - lia.
  - lia.
  - repeat constructor; cbn; lia.
  - unfold ordered. repeat constructor; cbn; lia.
Defined.

(** [retry_after] is honest: a refused caller is told between one second and the
    length of the window, and when that time has passed without other checks its
    bucket admits again. *)
Theorem retry_after_suffices (window lim first now now' : Z) (checks : list (Z * Z)) (retry : Z) :
  1 <= window -> 1 <= lim -> Forall (fun c => first <= c.1 /\ c.2 = lim) checks -> ordered checks ->
  Forall (fun c => c.1 <= now) checks -> first <= now ->
  let '(entries, r) := check_bucket window lim now (run window checks).1 in
  retry_after r = Some retry ->
  allowed r = false /\ 1 <= retry <= window
  /\ (now + microseconds retry <= now' -> allowed (check_bucket window lim now' entries).2 = true).
Proof.
  intros Hw Hlim Hall Hord Hnow Hfn.
  destruct (run_ok_run window lim first checks Hw) as (last & Hok & Hlast); [lia| |done|].
  { eapply Forall_impl; [exact Hall|]. intros c [? ?]. cbn beta. lia. }
  assert (last <= now) as Hle.
  { destruct Hlast as [->|Hin]; [done|]. apply list_elem_of_fmap in Hin as ([n l] & -> & Hin).
    rewrite Forall_forall in Hnow. by apply Hnow in Hin. }
  pose proof (check_bucket_spec window lim now (run window checks).1) as Hspec.
  destruct Hok as [Hst Hpast Hsort Hwin]. rewrite Hst, filter_filter_later in Hspec by done. rewrite Hst.
  destruct (check_bucket _ _ _ _) as [entries r]. destruct Hspec as [_ Hspec].
  set (kept := filter (fun s => now - microseconds window < s) (run window checks).2) in *.
  destruct (Z.of_nat (length kept) <? lim) eqn:Hlt; bool_to_prop; destruct Hspec as (Ha & -> & ->); [done|].
  intros Hr. injection Hr as Hr. split; [done|].
  assert (Z.of_nat (length kept) <= lim) as Hlen.
  { specialize (Hwin now). unfold in_window in Hwin.
    assert (length kept <= length (filter (fun s => now - microseconds window < s <= now)%Z (run window checks).2))%nat; [|lia].
    apply filter_imp_length. intros s Hs ?. specialize (Hpast s Hs). lia. }
  assert (forall s, s ∈ kept -> now - microseconds window < s <= now) as Hkept.
  { intros s Hs. apply list_elem_of_filter in Hs as [? Hs]. specialize (Hpast s Hs). lia. }
  destruct kept as [|e kept'] eqn:Ek; [cbn in *; lia|].
  pose proof (Hkept e ltac:(left)) as He.
  pose proof (ceil_div_spec (e + microseconds window - now) 1000000 ltac:(lia)) as Hc.
  unfold microseconds in *. split; [nia|]. intros Hlater.
  pose proof (check_bucket_spec window lim now' (e :: kept')) as Hspec'.
  destruct (check_bucket window lim now' (e :: kept')) as [entries' r']. destruct Hspec' as [_ Hspec'].
  rewrite filter_cons_False in Hspec' by (unfold microseconds; nia).
  pose proof (length_filter (fun s => now' - microseconds window < s) kept') as Hlf. cbn [length] in Hlen.
  destruct (_ <? lim) eqn:Hlt'; bool_to_prop; [by destruct Hspec'|lia].
Qed.

Lemma retry_after_suffices_witness :
  (check_bucket 10 2 2000000 (run 10 [(0, 2); (1000000, 2)]).1).2 = mkLimit false 2 2 0 (Some 8)
  /\ allowed (check_bucket 10 2 10000000 (run 10 [(0, 2); (1000000, 2)]).1).2 = true.
Proof.
  split; [vm_compute; reflexivity|].
  pose proof (retry_after_suffices 10 2 0 2000000 10000000 [(0, 2); (1000000, 2)] 8 ltac:(lia) ltac:(lia)
    ltac:(repeat constructor; cbn; lia) ltac:(unfold ordered; repeat constructor; cbn; lia)
    ltac:(repeat constructor; cbn; lia) ltac:(lia)) as H.
  vm_compute in H. vm_compute. exact (proj2 (proj2 (H eq_refl)) ltac:(discriminate)).
Defined.

(** The two Redis paths agree: however often other clients make it start over, the
    transaction leaves the bucket as the script does and gives the same answer. *)
Theorem script_and_transaction_agree (conflicts : list bucket) (clock now window lim : Z) (member : string) (b : bucket) :
  1 <= lim ->
  _check_redis (NoScripting conflicts) clock now window lim member b
  = _check_redis Scripting clock now window lim member b.
Proof.
  intros Hlim. unfold _check_redis.
  assert (_check_redis_transaction conflicts clock now (window * 1000) lim member b
    = lua clock now (window * 1000) lim member b) as ->; [|done].
  induction conflicts as [|c conflicts IH]; [|exact IH]. cbn [_check_redis_transaction].
  unfold transaction, lua. fold (remove_until (now - window * 1000) (live clock b)).
  set (s := remove_until _ _). pose proof (oldest_spec s) as Ho. cbv zeta.
  destruct (Z.of_nat (size s) <? lim) eqn:Hlt; bool_to_prop.
  - rewrite decide_False by apply insert_non_empty.
    by rewrite Z.max_r, (Z.sub_add_distr lim) by lia.
  - destruct (oldest s) as [o|]; [|subst s; rewrite Ho, map_size_empty in Hlt; cbn in Hlt; lia].
    by rewrite Z.add_0_r, Z.max_l by lia.
Qed.

Lemma script_and_transaction_agree_witness :
  _check_redis (NoScripting [mkBucket ∅ None]) 5 5 10 1 "m" (mkBucket {["k"%string := 1]} (Some 9))
  = (mkBucket {["k"%string := 1]} (Some 10005), Ok (mkLimit false 1 1 0 (Some 10))).
Proof.
  rewrite (script_and_transaction_agree [mkBucket ∅ None] 5 5 10 1 "m" (mkBucket {["k"%string := 1]} (Some 9)) ltac:(lia)).
  vm_compute. reflexivity.
Defined.
