(* ===== verification/Approvals.v ===== *)
(** * Durable approvals ([security/approval_repository.py])

    One row per approval request, bound to an owner, a run, a tool call, a tool and
    the digest of its arguments. A request waits until its owner decides it, its run
    is cancelled or its time is up; every transition is a conditional update of rows
    still pending, and reads persist expiry first. Rows are never deleted.

    Times are integers. Text is ASCII, where NFC is the identity and the control
    category is code points below 32 and 127; without control characters, [str.strip]
    strips spaces. *)

From Stdlib Require Import ZArith Lia String Ascii.
From stdpp Require Import base gmap strings list fin_maps fin_sets relations.
From S2P Require Import Prelude Strings Sql Json JsonText Policy.
Open Scope Z_scope.

(** ** Data *)

Inductive ApprovalStatus : Type := PENDING | APPROVED | DENIED | EXPIRED | CANCELLED.

#[export] Instance ApprovalStatus_eq_dec : EqDecision ApprovalStatus.
Proof. solve_decision. Defined.

Inductive approval_error : Type := ApprovalValueError | ApprovalMultipleResults.

#[export] Instance approval_error_eq_dec : EqDecision approval_error.
Proof. solve_decision. Defined.

Record ApprovalRecord : Type := mkApproval {
  id : string;
  user_id : string;
  conversation_id : string;
  run_id : string;
  tool_call_id : string;
  tool_name : string;
  arguments_hash : string;
  risk_set : gset RiskClass;
  rule_id_matched : option string;
  status : ApprovalStatus;
  decision_reason : option string;
  created_at : Z;
  expires_at : Z;
  decided_at : option Z
}.

(** A row, without its key. *)
Record ApprovalRequestRow : Type := mkRow {
  r_user_id : string;
  r_conversation_id : string;
  r_run_id : string;
  r_tool_call_id : string;
  r_tool_name : string;
  r_arguments_hash : string;
  r_risk_classes : string;
  r_matched_rule_id : option string;
  r_status : ApprovalStatus;
  r_decision_reason : option string;
  r_created_at : Z;
  r_expires_at : Z;
  r_decided_at : option Z
}.

Abbreviation approvals := (gmap string ApprovalRequestRow).

(** ** Validation *)

Definition _identifier (value : string) : bool :=
  string_eqb (strip_spaces value) value && negb (string_eqb value "")
  && (String.length value <=? 255)%nat && string_forall (fun c => negb (is_control c)) value.

(** Hexadecimal groups of 8, 4, 4, 4 and 12 lower-case digits. *)
Definition _uuid (value : string) : bool :=
  match split_on "-" value with
  | [a; b; c; d; e] =>
      bool_decide (String.length <$> [a; b; c; d; e] = [8; 4; 4; 4; 12]%nat)
      && forallb (string_forall is_hex_lower) [a; b; c; d; e]
  | _ => false
  end.

Definition _reason (value : option string) : bool :=
  match value with None => true | Some v => lower_code v end.

Definition risk_value (r : RiskClass) : string :=
  match r with
  | READ => "read" | WRITE => "write" | EXECUTE => "execute" | NETWORK => "network" | SECRET => "secret"
  | EXTERNAL_SIDE_EFFECT => "external_side_effect"
  end.

(** All risk classes in the order of their values. *)
Definition sorted_risks : list RiskClass := [EXECUTE; EXTERNAL_SIDE_EFFECT; NETWORK; READ; SECRET; WRITE].

Definition risk_of_value (value : string) : option RiskClass :=
  List.find (fun r => string_eqb (risk_value r) value) sorted_risks.

(** [json.dumps(sorted(risk.value for risk in risks))], with the default separators. *)
Definition risk_text (risks : gset RiskClass) : string :=
  ("[" ++ String.concat ", " ((fun r => literal (risk_value r)) <$> filter (fun r => r ∈ risks) sorted_risks) ++ "]")%string.

(** [_risks] on decoded values. *)
Fixpoint risks_of_values (values : list json) : option (gset RiskClass) :=
  match values with
  | [] => Some ∅
  | JStr v :: values' =>
      match risk_of_value v, risks_of_values values' with
      | Some r, Some rs => Some ({[ r ]} ∪ rs)
      | _, _ => None
      end
  | _ => None
  end.

Definition risks_of_text (text : string) : option (gset RiskClass) :=
  match loads text with
  | Some (JArr values) => risks_of_values values
  | _ => None
  end.

(** [ApprovalRecord.__post_init__], which changes nothing it accepts. *)
Definition post_init (r : ApprovalRecord) : result approval_error ApprovalRecord :=
  _ ← require (_uuid (id r)) ApprovalValueError;
  _ ← require (_identifier (user_id r) && _identifier (conversation_id r) && _identifier (run_id r)
               && _identifier (tool_call_id r)) ApprovalValueError;
  _ ← require (bool_decide (canonical_tool_name (tool_name r) = Ok (tool_name r))) ApprovalValueError;
  _ ← require (_identifier (tool_name r)) ApprovalValueError;
  _ ← require (is_hex64 (arguments_hash r)) ApprovalValueError;
  _ ← require (negb (bool_decide (risk_set r = ∅))) ApprovalValueError;
  _ ← require (match rule_id_matched r with None => true | Some m => _identifier m end) ApprovalValueError;
  _ ← require (_reason (decision_reason r)) ApprovalValueError;
  _ ← require (created_at r <? expires_at r) ApprovalValueError;
  _ ← require (if decide (status r = PENDING)
               then bool_decide (decision_reason r = None /\ decided_at r = None)
               else bool_decide (is_Some (decided_at r))) ApprovalValueError;
  Ok r.

(** The row of a record and back. *)
Definition row_of (r : ApprovalRecord) : ApprovalRequestRow :=
  mkRow (user_id r) (conversation_id r) (run_id r) (tool_call_id r) (tool_name r) (arguments_hash r)
    (risk_text (risk_set r)) (rule_id_matched r) (status r) None (created_at r) (expires_at r) None.

Definition _record (key : string) (row : ApprovalRequestRow) : result approval_error ApprovalRecord :=
  match risks_of_text (r_risk_classes row) with
  | None => Err ApprovalValueError
  | Some risks =>
      post_init (mkApproval key (r_user_id row) (r_conversation_id row) (r_run_id row) (r_tool_call_id row)
        (r_tool_name row) (r_arguments_hash row) risks (r_matched_rule_id row) (r_status row)
        (r_decision_reason row) (r_created_at row) (r_expires_at row) (r_decided_at row))
  end.

(** ** Transitions *)

Definition decide_row (current : Z) (s : ApprovalStatus) (why : string) (r : ApprovalRequestRow) : ApprovalRequestRow :=
  mkRow (r_user_id r) (r_conversation_id r) (r_run_id r) (r_tool_call_id r) (r_tool_name r) (r_arguments_hash r)
    (r_risk_classes r) (r_matched_rule_id r) s (Some why) (r_created_at r) (r_expires_at r) (Some current).

Definition pending (r : ApprovalRequestRow) : bool := bool_decide (r_status r = PENDING).
Definition due (current : Z) (r : ApprovalRequestRow) : bool := pending r && (r_expires_at r <=? current).
Definition live (current : Z) (r : ApprovalRequestRow) : bool := pending r && (current <? r_expires_at r).

(** The update that persists expiry for the rows a condition selects. *)
Definition expire_where (P : string -> ApprovalRequestRow -> bool) (current : Z) (st : approvals) : approvals :=
  update_where (fun k r => P k r && due current r) (decide_row current EXPIRED "approval_expired") st.

(** The unique constraint and the primary key. *)
Definition taken (key user run call : string) (st : approvals) : bool :=
  bool_decide (is_Some (st !! key))
  || negb (Nat.eqb (rowcount (fun _ r => bool_decide (r_user_id r = user /\ r_run_id r = run
                                                      /\ r_tool_call_id r = call)) st) 0).

Definition reserve_approval (now : Z) (fresh user conv run call tool hash : string) (risks : gset RiskClass)
    (rule : option string) (ttl : Z) (st : approvals) : approvals * result approval_error ApprovalRecord :=
  if ttl <=? 0 then (st, Err ApprovalValueError)
  else match post_init (mkApproval fresh user conv run call tool hash risks rule PENDING None now (now + ttl) None) with
  | Err e => (st, Err e)
  | Ok record =>
      if taken fresh user run call st then (st, Err ApprovalValueError)
      else (<[fresh := row_of record]> st, Ok record)
  end.

(** [scalar_one_or_none] of the rows a condition selects, as a record. *)
Definition load_one (P : string -> ApprovalRequestRow -> bool) (st : approvals)
  : result approval_error (option ApprovalRecord) :=
  match one_or_none P st with
  | None => Err ApprovalMultipleResults
  | Some None => Ok None
  | Some (Some (k, r)) => rec ← _record k r; Ok (Some rec)
  end.

Definition owned (key user k : string) (r : ApprovalRequestRow) : bool :=
  bool_decide (k = key /\ r_user_id r = user).

(** An exception before the commit rolls the expiry back. *)
Definition get_owner (current : Z) (key user : string) (st : approvals)
  : approvals * result approval_error (option ApprovalRecord) :=
  if negb (_uuid key && _identifier user) then (st, Err ApprovalValueError)
  else let st' := expire_where (owned key user) current st in
       match load_one (owned key user) st' with
       | Err e => (st, Err e)
       | Ok record => (st', Ok record)
       end.

Definition get_status (current : Z) (key user : string) (st : approvals)
  : approvals * result approval_error (option ApprovalStatus) :=
  match get_owner current key user st with
  | (st', Ok record) => (st', Ok (status <$> record))
  | (st', Err e) => (st', Err e)
  end.

Definition of_call (user call : string) (_ : string) (r : ApprovalRequestRow) : bool :=
  bool_decide (r_user_id r = user /\ r_tool_call_id r = call).

Definition live_of_call (current : Z) (user call k : string) (r : ApprovalRequestRow) : bool :=
  of_call user call k r && live current r.

Definition find_pending_by_tool_call (current : Z) (user call : string) (st : approvals)
  : approvals * result approval_error (option ApprovalRecord) :=
  if negb (_identifier user && _identifier call) then (st, Err ApprovalValueError)
  else let st' := expire_where (of_call user call) current st in
       match select_where (live_of_call current user call) st' with
       | [(k, r)] => match _record k r with
                     | Err e => (st, Err e)
                     | Ok record => (st', Ok (Some record))
                     end
       | _ => (st', Ok None)
       end.

(** The exact binding of a request. *)
Record Binding : Type := mkBinding {
  b_user : string;
  b_conversation : string;
  b_run : string;
  b_call : string;
  b_tool : string;
  b_hash : string
}.

Definition binding_ok (b : Binding) : bool :=
  _identifier (b_user b) && _identifier (b_conversation b) && _identifier (b_run b) && _identifier (b_call b)
  && _identifier (b_tool b).

Definition bound_to (b : Binding) (_ : string) (r : ApprovalRequestRow) : bool :=
  bool_decide (r_user_id r = b_user b /\ r_conversation_id r = b_conversation b /\ r_run_id r = b_run b
    /\ r_tool_call_id r = b_call b /\ r_tool_name r = b_tool b /\ r_arguments_hash r = b_hash b).

(** The commit comes before the record is built, but after the row is read. *)
Definition get_exact_binding (current : Z) (b : Binding) (st : approvals)
  : approvals * result approval_error (option ApprovalRecord) :=
  if negb (binding_ok b) then (st, Err ApprovalValueError)
  else let st' := expire_where (bound_to b) current st in
       match one_or_none (bound_to b) st' with
       | None => (st, Err ApprovalMultipleResults)
       | Some None => (st', Ok None)
       | Some (Some (k, r)) => (st', rec ← _record k r; Ok (Some rec))
       end.

(** *** Decisions *)

Definition is_decision (s : ApprovalStatus) : bool := bool_decide (s ∈ [APPROVED; DENIED]).

Definition of_run_call (user run call : string) (_ : string) (r : ApprovalRequestRow) : bool :=
  bool_decide (r_user_id r = user /\ r_run_id r = run /\ r_tool_call_id r = call).

Definition decide_exact_for_owner (current : Z) (user run call : string) (s : ApprovalStatus) (why : string)
    (st : approvals) : approvals * result approval_error bool :=
  if negb (_identifier user && _identifier run && _identifier call && is_decision s && lower_code why)
  then (st, Err ApprovalValueError)
  else
    let st1 := expire_where (of_run_call user run call) current st in
    let hit k r := of_run_call user run call k r && live current r in
    (update_where hit (decide_row current s why) st1, Ok (Nat.eqb (rowcount hit st1) 1)).

Definition decide_unique_for_owner (current : Z) (user call : string) (s : ApprovalStatus) (why : string)
    (st : approvals) : approvals * result approval_error bool :=
  if negb (_identifier user && _identifier call && is_decision s && lower_code why)
  then (st, Err ApprovalValueError)
  else
    let st1 := expire_where (of_call user call) current st in
    match select_where (live_of_call current user call) st1 with
    | [(key, _)] =>
        let hit k r := bool_decide (k = key) && live current r in
        (update_where hit (decide_row current s why) st1, Ok (Nat.eqb (rowcount hit st1) 1))
    | _ => (st1, Ok false)
    end.

Definition decide_for_owner (current : Z) (key user : string) (s : ApprovalStatus) (why : string)
    (st : approvals) : approvals * result approval_error bool :=
  if negb (_uuid key && _identifier user && is_decision s && lower_code why) then (st, Err ApprovalValueError)
  else
    let hit k r := owned key user k r && live current r in
    (update_where hit (decide_row current s why) st, Ok (Nat.eqb (rowcount hit st) 1)).

(** *** Cancellation and expiry *)

Definition cancel_one (current : Z) (b : Binding) (st : approvals) : approvals * result approval_error bool :=
  if negb (binding_ok b) then (st, Err ApprovalValueError)
  else let hit k r := bound_to b k r && pending r in
       (update_where hit (decide_row current CANCELLED "approval_cancelled") st, Ok (Nat.eqb (rowcount hit st) 1)).

Definition cancel_run (current : Z) (user run : string) (st : approvals) : approvals * result approval_error Z :=
  if negb (_identifier user && _identifier run) then (st, Err ApprovalValueError)
  else let hit (_ : string) r := bool_decide (r_user_id r = user /\ r_run_id r = run) && pending r in
       (update_where hit (decide_row current CANCELLED "run_cancelled") st, Ok (Z.of_nat (rowcount hit st))).

Definition expire_due (current : Z) (st : approvals) : approvals * Z :=
  (expire_where (fun _ _ => true) current st, Z.of_nat (rowcount (fun _ r => due current r) st)).

(** The count is a second transaction, on [reread]. *)
Definition pending_count (current : Z) (reread : approvals -> approvals) (st : approvals) : approvals * Z :=
  let st' := (expire_due current st).1 in
  (st', Z.of_nat (rowcount (fun _ r => pending r) (reread st'))).

(** ** Calls: the methods of [ApprovalRepository] that may write, with their clock.
    [get_status] writes what [get_owner] does, [pending_count] what [expire_due] does. *)

Inductive approval_call : Type :=
| CallReserve (now : Z) (fresh user conv run call tool hash : string) (risks : gset RiskClass)
    (rule : option string) (ttl : Z)
| CallGetOwner (now : Z) (key user : string)
| CallFind (now : Z) (user call : string)
| CallBinding (now : Z) (b : Binding)
| CallDecideExact (now : Z) (user run call : string) (s : ApprovalStatus) (why : string)
| CallDecideUnique (now : Z) (user call : string) (s : ApprovalStatus) (why : string)
| CallDecide (now : Z) (key user : string) (s : ApprovalStatus) (why : string)
| CallCancelOne (now : Z) (b : Binding)
| CallCancelRun (now : Z) (user run : string)
| CallExpireDue (now : Z).

Definition perform (c : approval_call) (st : approvals) : approvals :=
  match c with
  | CallReserve now fresh user conv run call tool hash risks rule ttl =>
      (reserve_approval now fresh user conv run call tool hash risks rule ttl st).1
  | CallGetOwner now key user => (get_owner now key user st).1
  | CallFind now user call => (find_pending_by_tool_call now user call st).1
  | CallBinding now b => (get_exact_binding now b st).1
  | CallDecideExact now user run call s why => (decide_exact_for_owner now user run call s why st).1
  | CallDecideUnique now user call s why => (decide_unique_for_owner now user call s why st).1
  | CallDecide now key user s why => (decide_for_owner now key user s why st).1
  | CallCancelOne now b => (cancel_one now b st).1
  | CallCancelRun now user run => (cancel_run now user run st).1
  | CallExpireDue now => (expire_due now st).1
  end.

Definition approval_step (st st' : approvals) : Prop := exists c, st' = perform c st.
Definition approvals_reachable (st : approvals) : Prop := rtc approval_step ∅ st.

(** ** Records read back *)

Definition record_valid (r : ApprovalRecord) : bool :=
  is_ok (post_init r).

Lemma post_init_spec r : post_init r = if record_valid r then Ok r else Err ApprovalValueError.
Proof.
  unfold record_valid, post_init, require, mbind, result_bind.
  repeat (match goal with |- context [if ?b then Ok () else Err _] => destruct b end; cbn; [|done]). done.
Qed.

Lemma post_init_Ok r r' : post_init r = Ok r' <-> r' = r /\ record_valid r = true.
Proof. rewrite post_init_spec. destruct (record_valid r); naive_solver. Qed.

Lemma risk_value_inv r : risk_of_value (risk_value r) = Some r.
Proof. by destruct r. Qed.

Lemma risks_of_list (l : list RiskClass) :
  risks_of_values ((fun r => JStr (risk_value r)) <$> l) = Some (list_to_set l).
Proof. induction l as [|r l IH]; [done|]. rewrite fmap_cons. cbn [risks_of_values]. by rewrite risk_value_inv, IH. Qed.

Lemma risk_text_loads risks : loads (risk_text risks) =
  Some (JArr ((fun r => JStr (risk_value r)) <$> (filter (fun r => r ∈ risks) sorted_risks : list RiskClass))).
Proof.
  unfold risk_text, sorted_risks. rewrite !filter_cons, filter_nil.
  repeat match goal with |- context [decide ?P] => destruct (decide P) end; vm_compute; reflexivity.
Qed.

(** The text of the risks column reads back as the set it was written from. *)
Lemma risks_of_risk_text risks : risks_of_text (risk_text risks) = Some risks.
Proof.
  unfold risks_of_text. rewrite risk_text_loads, risks_of_list. f_equal. apply set_eq. intros r.
  rewrite elem_of_list_to_set, list_elem_of_filter.
  assert (r ∈ sorted_risks) by (destruct r; unfold sorted_risks; set_solver). tauto.
Qed.

Lemma record_of_row r : record_valid r = true -> status r = PENDING -> _record (id r) (row_of r) = Ok r.
Proof.
  intros Hv Hs. unfold _record, row_of; cbn. rewrite risks_of_risk_text, post_init_spec.
  assert (decision_reason r = None /\ decided_at r = None) as [Hd Ht].
  { unfold record_valid, post_init, require in Hv. rewrite decide_True in Hv by done.
    destruct (bool_decide (decision_reason r = None /\ decided_at r = None)) eqn:Hb.
    - by apply bool_decide_eq_true in Hb.
    - exfalso. revert Hv. unfold mbind, result_bind.
      repeat (match goal with |- context [if ?b then Ok () else Err _] => destruct b end; cbn; try done). }
  destruct r; cbn in *. subst. by rewrite Hv.
Qed.

(** ** What a call does to the rows *)

Definition binding_of (r : ApprovalRequestRow) : Binding :=
  mkBinding (r_user_id r) (r_conversation_id r) (r_run_id r) (r_tool_call_id r) (r_tool_name r) (r_arguments_hash r).

(** The request [r] at key [k] is the one live request of its owner for its tool call. *)
Definition sole_live (st : approvals) (now : Z) (k : string) (r : ApprovalRequestRow) : Prop :=
  forall k' r', st !! k' = Some r' -> r_user_id r' = r_user_id r -> r_tool_call_id r' = r_tool_call_id r ->
    live now r' = true -> k' = k.

(** The call decides the request [r] at key [k], on behalf of its owner. *)
Inductive decided_by (st : approvals) (k : string) (r : ApprovalRequestRow) (now : Z) (s : ApprovalStatus)
    (why : string) : approval_call -> Prop :=
| by_binding : decided_by st k r now s why (CallDecideExact now (r_user_id r) (r_run_id r) (r_tool_call_id r) s why)
| by_sole_call : sole_live st now k r ->
    decided_by st k r now s why (CallDecideUnique now (r_user_id r) (r_tool_call_id r) s why)
| by_id : decided_by st k r now s why (CallDecide now k (r_user_id r) s why).

Inductive cancelled_by (r : ApprovalRequestRow) (now : Z) : string -> approval_call -> Prop :=
| by_request : cancelled_by r now "approval_cancelled" (CallCancelOne now (binding_of r))
| by_run : cancelled_by r now "run_cancelled" (CallCancelRun now (r_user_id r) (r_run_id r)).

Inductive row_move (st : approvals) (c : approval_call) (k : string) (r : ApprovalRequestRow)
    : ApprovalRequestRow -> Prop :=
| move_expire now : due now r = true -> row_move st c k r (decide_row now EXPIRED "approval_expired" r)
| move_decide now s why : live now r = true -> is_decision s = true -> lower_code why = true ->
    decided_by st k r now s why c -> row_move st c k r (decide_row now s why r)
| move_cancel now why : pending r = true -> cancelled_by r now why c ->
    row_move st c k r (decide_row now CANCELLED why r).

(** Every row stays or moves once, and none appears. *)
Definition moves (c : approval_call) (st st' : approvals) : Prop :=
  forall k, match st !! k with
            | Some r => exists r', st' !! k = Some r' /\ (r' = r \/ row_move st c k r r')
            | None => st' !! k = None
            end.

Lemma pending_spec r : pending r = true <-> r_status r = PENDING.
Proof. unfold pending. apply bool_decide_eq_true. Qed.

Lemma due_spec now r : due now r = true <-> r_status r = PENDING /\ r_expires_at r <= now.
Proof. unfold due. by rewrite andb_true_iff, pending_spec, Z.leb_le. Qed.

Lemma live_spec now r : live now r = true <-> r_status r = PENDING /\ now < r_expires_at r.
Proof. unfold live. by rewrite andb_true_iff, pending_spec, Z.ltb_lt. Qed.

Lemma is_decision_spec s : is_decision s = true <-> s = APPROVED \/ s = DENIED.
Proof. destruct s; vm_compute; intuition discriminate. Qed.

Lemma live_not_due now r : live now r = true -> due now r = false.
Proof. intros [Hs Hl]%live_spec. unfold due. rewrite (proj2 (Z.leb_gt _ _) Hl). apply andb_false_r. Qed.

Lemma not_pending_still now r : r_status r <> PENDING -> due now r = false /\ live now r = false /\ pending r = false.
Proof. intros Hs. unfold due, live, pending. by rewrite bool_decide_eq_false_2. Qed.

Lemma moves_refl c st : moves c st st.
Proof. intros k. destruct (st !! k); eauto. Qed.

Lemma moves_update (P : string -> ApprovalRequestRow -> bool) f c st :
  (forall k r, st !! k = Some r -> P k r = true -> row_move st c k r (f r)) -> moves c st (update_where P f st).
Proof.
  intros Hf k. rewrite lookup_update_where. destruct (st !! k) as [r|] eqn:Hk; [|done]. cbn.
  destruct (P k r) eqn:HP; eauto.
Qed.

Lemma moves_expire P c now st : moves c st (expire_where P now st).
Proof. apply moves_update. intros k r _ [_ Hd]%andb_true_iff. by constructor. Qed.

(** An expiry, then an update of live rows. *)
Lemma moves_expire_then P (Q : string -> ApprovalRequestRow -> bool) f c now st :
  (forall k r, st !! k = Some r -> Q k r = true -> row_move st c k r (f r)) ->
  (forall k r, Q k r = true -> live now r = true) -> moves c st (update_where Q f (expire_where P now st)).
Proof.
  intros Hf Hp k. rewrite lookup_update_where. unfold expire_where. rewrite lookup_update_where.
  destruct (st !! k) as [r|] eqn:Hk; [|done]. cbn.
  destruct (P k r && due now r) eqn:Hd; cbn.
  - apply andb_true_iff in Hd as [_ Hd].
    destruct (Q k (decide_row _ _ _ r)) eqn:HQ; [by apply Hp, live_spec in HQ as [? _]|].
    eexists; split; [done|]. right. by constructor.
  - destruct (Q k r) eqn:HQ; eauto.
Qed.

(** Live rows are what they were before an expiry. *)
Lemma expire_keeps_live P now st k r : st !! k = Some r -> live now r = true -> expire_where P now st !! k = Some r.
Proof.
  intros Hk Hl. unfold expire_where. by rewrite lookup_update_where, Hk; cbn; rewrite (live_not_due _ _ Hl), andb_false_r.
Qed.

Lemma expire_live_inv P now st k r : expire_where P now st !! k = Some r -> live now r = true -> st !! k = Some r.
Proof.
  unfold expire_where. rewrite lookup_update_where. destruct (st !! k) as [r0|]; [|done]. cbn.
  destruct (_ && _); intros [= <-]; [|done]. by intros [? _]%live_spec.
Qed.

Definition is_reserve (c : approval_call) : bool := match c with CallReserve _ _ _ _ _ _ _ _ _ _ _ => true | _ => false end.

Lemma moves_decide_unique now user call s why st :
  moves (CallDecideUnique now user call s why) st (decide_unique_for_owner now user call s why st).1.
Proof.
  unfold decide_unique_for_owner. destruct (negb _) eqn:Hv; [apply moves_refl|]. bool_to_prop.
  destruct (select_where (live_of_call now user call) (expire_where (of_call user call) now st)) as [|[key r0] [|? ?]] eqn:Hsel; [apply moves_expire| |apply moves_expire]. cbn [fst].
  apply moves_expire_then; [|by intros k r [_ ?]%andb_true_iff].
  intros k r Hk [Heq Hl]%andb_true_iff. bool_to_prop. subst key.
  assert (forall k' r', st !! k' = Some r' -> live_of_call now user call k' r' = true -> k' = k) as Hsole.
  { intros k' r' Hk' Hl'. assert ((k', r') ∈ select_where (live_of_call now user call)
      (expire_where (of_call user call) now st)) as Hin.
    { apply select_where_elem. split; [|done]. apply expire_keeps_live; [done|]. by apply andb_true_iff in Hl' as [_ ?]. }
    rewrite Hsel in Hin. apply list_elem_of_singleton in Hin. congruence. }
  assert ((k, r0) ∈ select_where (live_of_call now user call) (expire_where (of_call user call) now st)) as Hin
    by (rewrite Hsel; left).
  apply select_where_elem in Hin as [Hk0 [Hof Hl0]%andb_true_iff].
  apply expire_live_inv in Hk0; [|done]. assert (r0 = r) as -> by congruence.
  unfold of_call in Hof. apply bool_decide_eq_true in Hof as [<- <-].
  constructor; [done..|]. apply by_sole_call. intros k' r' Hk' Hu Hc Hl'. apply (Hsole k' r' Hk').
  unfold live_of_call, of_call. by rewrite bool_decide_eq_true_2.
Qed.

Lemma perform_moves c st : is_reserve c = false -> moves c st (perform c st).
Proof.
  destruct c as [| now key user | now user call | now b | now user run call s why | now user call s why
    | now key user s why | now b | now user run | now]; cbn [is_reserve perform]; intros Hr; [done|..].
  - unfold get_owner. destruct (negb _); [apply moves_refl|].
    destruct (load_one _ _); [apply moves_expire|apply moves_refl].
  - unfold find_pending_by_tool_call. destruct (negb _); [apply moves_refl|].
    destruct (select_where (live_of_call now user call) (expire_where (of_call user call) now st)) as [|[k r] [|? ?]]; [apply moves_expire| |apply moves_expire].
    destruct (_record k r); [apply moves_expire|apply moves_refl].
  - unfold get_exact_binding. destruct (negb _); [apply moves_refl|].
    destruct (one_or_none _ _) as [[[k r]|]|]; [apply moves_expire..|apply moves_refl].
  - unfold decide_exact_for_owner. destruct (negb _) eqn:Hv; [apply moves_refl|]. bool_to_prop. cbn [fst].
    apply moves_expire_then; [|by intros k r [_ ?]%andb_true_iff].
    intros k r Hk [Hof Hl]%andb_true_iff. unfold of_run_call in Hof.
    apply bool_decide_eq_true in Hof as (<- & <- & <-). by repeat constructor.
  - apply moves_decide_unique.
  - unfold decide_for_owner. destruct (negb _) eqn:Hv; [apply moves_refl|]. bool_to_prop. cbn [fst].
    apply moves_update. intros k r Hk [Hof Hl]%andb_true_iff. unfold owned in Hof.
    apply bool_decide_eq_true in Hof as (<- & <-). by repeat constructor.
  - unfold cancel_one. destruct (negb _); [apply moves_refl|]. cbn [fst].
    apply moves_update. intros k r Hk [Hof Hp]%andb_true_iff. unfold bound_to in Hof.
    apply bool_decide_eq_true in Hof as (Hu & Hc & Hr' & Ht & Hn & Hh). constructor; [done|].
    assert (b = binding_of r) as -> by (destruct b; unfold binding_of; cbn in *; congruence). constructor.
  - unfold cancel_run. destruct (negb _); [apply moves_refl|]. cbn [fst].
    apply moves_update. intros k r Hk [Hof Hp]%andb_true_iff.
    apply bool_decide_eq_true in Hof as (<- & <-). by repeat constructor.
  - apply moves_expire.
Qed.

(** ** Rows of reachable tables *)

(** The decision columns fit the status and the row's deadline. *)
Definition decision_ok (s : ApprovalStatus) (why : option string) (at_ : option Z) (expires : Z) : Prop :=
  match s, why, at_ with
  | PENDING, None, None => True
  | APPROVED, Some _, Some t | DENIED, Some _, Some t => t < expires
  | EXPIRED, Some why, Some t => why = "approval_expired"%string /\ expires <= t
  | CANCELLED, Some why, Some _ => why = "approval_cancelled"%string \/ why = "run_cancelled"%string
  | _, _, _ => False
  end.

Definition approval_row_ok (k : string) (r : ApprovalRequestRow) : Prop :=
  (exists rec, _record k r = Ok rec)
  /\ decision_ok (r_status r) (r_decision_reason r) (r_decided_at r) (r_expires_at r).

Definition same_call (r r' : ApprovalRequestRow) : Prop :=
  r_user_id r = r_user_id r' /\ r_run_id r = r_run_id r' /\ r_tool_call_id r = r_tool_call_id r'.

Record approvals_ok (st : approvals) : Prop := {
  approval_rows : forall k r, st !! k = Some r -> approval_row_ok k r;
  approval_unique : forall k k' r r', st !! k = Some r -> st !! k' = Some r' -> same_call r r' -> k = k'
}.

(** All a decision leaves of a request, and all it adds. *)
Inductive decided (r : ApprovalRequestRow) : ApprovalRequestRow -> Prop :=
| decided_intro now s why : r_status r = PENDING -> s <> PENDING -> lower_code why = true ->
    decision_ok s (Some why) (Some now) (r_expires_at r) -> decided r (decide_row now s why r).

Lemma row_move_decided st c k r r' : row_move st c k r r' -> decided r r'.
Proof.
  intros [now [Hs Hd]%due_spec | now s why [Hs Hl]%live_spec Hdec Hw _ | now why Hp%pending_spec Hc].
  - by constructor.
  - apply is_decision_spec in Hdec as [-> | ->]; by constructor.
  - destruct Hc; constructor; cbn; auto.
Qed.

Lemma record_valid_decide key u cv rn tc tn h risks rule s0 d0 c e t0 s why t :
  record_valid (mkApproval key u cv rn tc tn h risks rule s0 d0 c e t0) = true ->
  s <> PENDING -> lower_code why = true ->
  record_valid (mkApproval key u cv rn tc tn h risks rule s (Some why) c e (Some t)) = true.
Proof.
  unfold record_valid, post_init, require, mbind, result_bind; cbn. intros Hv Hs Hw. revert Hv. rewrite Hw.
  rewrite (decide_False (P := s = PENDING)) by done.
  repeat (match goal with |- context [if ?b then Ok () else Err _] =>
    lazymatch b with true => fail | _ => destruct b end end; cbn; try done).
Qed.

Lemma decided_reads_back k r r' rec : decided r r' -> _record k r = Ok rec -> exists rec', _record k r' = Ok rec'.
Proof.
  intros [now s why Hp Hs Hw _]. unfold _record. cbn. destruct (risks_of_text _) as [risks|]; [|done].
  intros [_ Hv]%post_init_Ok. eexists. apply post_init_Ok. split; [done|]. by eapply record_valid_decide.
Qed.

Lemma decided_row_ok k r r' : decided r r' -> approval_row_ok k r -> approval_row_ok k r'.
Proof.
  intros Hd [[rec Hrec] _]. split; [by eapply decided_reads_back|]. by destruct Hd.
Qed.

(** A reservation inserts one new row or changes nothing. *)
Lemma reserve_cases now fresh user conv run call tool hash risks rule ttl st :
  (exists e, reserve_approval now fresh user conv run call tool hash risks rule ttl st = (st, Err e))
  \/ (exists rec, let st' := <[fresh := row_of rec]> st in
      reserve_approval now fresh user conv run call tool hash risks rule ttl st = (st', Ok rec)
      /\ rec = mkApproval fresh user conv run call tool hash risks rule PENDING None now (now + ttl) None
      /\ record_valid rec = true /\ st !! fresh = None
      /\ (forall k r, st !! k = Some r -> same_call (row_of rec) r -> False)).
Proof.
  unfold reserve_approval. destruct (ttl <=? 0) eqn:Httl; [eauto|].
  destruct (post_init _) as [rec|e] eqn:Hpost; [|eauto]. apply post_init_Ok in Hpost as [-> Hv].
  destruct (taken _ _ _ _ _) eqn:Ht; [eauto|]. right. eexists. split; [done|]. split; [done|]. split; [done|].
  unfold taken in Ht. apply orb_false_iff in Ht as [Hfree Hn]. apply bool_decide_eq_false in Hfree.
  apply negb_false_iff, Nat.eqb_eq in Hn. split; [by destruct (st !! fresh) as [r|]; [exfalso; eauto|]|].
  intros k r Hk (Hu & Hr & Hc). cbn in *. apply (rowcount_zero _ _ Hn k r) in Hk.
  apply bool_decide_eq_false in Hk. by apply Hk.
Qed.

Lemma decided_same_call r r' : decided r r' -> same_call r r'.
Proof. by intros []. Qed.

Lemma approval_moves_ok c st st' : moves c st st' -> approvals_ok st -> approvals_ok st'.
Proof.
  intros Hm [Hrows Huniq].
  assert (forall k r', st' !! k = Some r' -> exists r, st !! k = Some r /\ (r' = r \/ decided r r')) as Hback.
  { intros k r' Hk'. specialize (Hm k). destruct (st !! k) as [r|]; [|congruence].
    destruct Hm as (r1 & Hr1 & Hor). assert (r1 = r') as -> by congruence. exists r. split; [done|].
    destruct Hor as [->|Hmv]; [by left|right]. by eapply row_move_decided. }
  split.
  - intros k r' (r & Hk & [->|Hd])%Hback; [by eapply Hrows|]. eapply decided_row_ok; [done|by eapply Hrows].
  - intros k k' r1 r2 (r & Hk & Ho)%Hback (r' & Hk' & Ho')%Hback (Hu & Hr & Hc).
    apply (Huniq k k' r r' Hk Hk').
    destruct Ho as [->|Hd%decided_same_call], Ho' as [->|Hd'%decided_same_call];
      unfold same_call in *; intuition congruence.
Qed.

Lemma perform_ok c st : approvals_ok st -> approvals_ok (perform c st).
Proof.
  intros Hok. destruct (is_reserve c) eqn:Hc; [|by eapply approval_moves_ok; [apply perform_moves|]].
  destruct c as [now fresh user conv run call tool hash risks rule ttl| | | | | | | | |]; try done. cbn [perform].
  destruct (reserve_cases now fresh user conv run call tool hash risks rule ttl st)
    as [[e ->]|(rec & -> & Hrec & Hv & Hfree & Hnew)]; [done|]. cbn [fst].
  destruct Hok as [Hrows Huniq]. split.
  - intros k r [[<- <-]|[_ Hk]]%lookup_insert_Some; [|by apply Hrows].
    assert (id rec = fresh /\ status rec = PENDING) as [<- Hs] by (by subst rec).
    split; [eexists; by apply record_of_row|]. cbn. by rewrite Hs.
  - intros k k' r r' [[<- <-]|[Hne Hk]]%lookup_insert_Some [[<- <-]|[Hne' Hk']]%lookup_insert_Some Hsame; [done| | |].
    + by destruct (Hnew _ _ Hk' Hsame).
    + destruct (Hnew _ _ Hk). destruct Hsame as (? & ? & ?). by repeat split.
    + by eapply Huniq.
Qed.

Lemma approvals_reachable_ok st : approvals_reachable st -> approvals_ok st.
Proof.
  unfold approvals_reachable. intros Hr. remember ∅ as st0 eqn:H0.
  assert (approvals_ok st0) as Hok by (subst; by split; [intros ? ?|intros ? ? ? ?]; rewrite lookup_empty).
  clear H0. induction Hr as [|? ? ? [c ->] _ IH]; [done|]. by apply IH, perform_ok.
Qed.

(** A row over a history: it stays, or is decided once. *)
Lemma perform_row c st k r : st !! k = Some r -> exists r', perform c st !! k = Some r' /\ (r' = r \/ decided r r').
Proof.
  intros Hk. destruct (is_reserve c) eqn:Hc.
  - destruct c as [now fresh user conv run call tool hash risks rule ttl| | | | | | | | |]; try done. cbn [perform].
    destruct (reserve_cases now fresh user conv run call tool hash risks rule ttl st)
      as [[e ->]|(rec & -> & _ & _ & Hfree & _)]; [by eauto|]. cbn [fst].
    exists r. rewrite lookup_insert_ne by congruence. by eauto.
  - pose proof (perform_moves c st Hc k) as Hm. rewrite Hk in Hm. destruct Hm as (r' & Hr' & Hor).
    exists r'. split; [done|]. destruct Hor as [->|Hmv]; [by left|right]. by eapply row_move_decided.
Qed.

Lemma approval_history st st' k r : rtc approval_step st st' -> st !! k = Some r ->
  exists r', st' !! k = Some r' /\ (r' = r \/ decided r r').
Proof.
  intros Hr. revert r. induction Hr as [|st st1 st' [c ->] _ IH]; intros r Hk; [by eauto|].
  destruct (perform_row c st k r Hk) as (r1 & Hk1 & Ho). destruct (IH r1 Hk1) as (r2 & Hk2 & Ho2).
  exists r2. split; [done|]. destruct Ho as [->|Hd]; [done|]. destruct Ho2 as [->|Hd2]; [by right|].
  exfalso. destruct Hd as [? ? ? ? Hs ? ?]. destruct Hd2 as [? ? ? Hp ? ? ?]. by apply Hs.
Qed.

(** ** Reading and deciding *)

Lemma record_valid_inv r : record_valid r = true ->
  _uuid (id r) = true /\ _identifier (user_id r) = true /\ _identifier (conversation_id r) = true
  /\ _identifier (run_id r) = true /\ _identifier (tool_call_id r) = true
  /\ canonical_tool_name (tool_name r) = Ok (tool_name r) /\ _identifier (tool_name r) = true
  /\ is_hex64 (arguments_hash r) = true /\ created_at r < expires_at r.
Proof.
  unfold record_valid, post_init, require, mbind, result_bind.
  repeat (match goal with |- context [if ?b then Ok () else Err _] => destruct b eqn:? end; cbn; [|done]).
  intros _. bool_to_prop. done.
Qed.

Lemma record_inv k r rec : _record k r = Ok rec ->
  record_valid rec = true /\ id rec = k /\ binding_of r = mkBinding (user_id rec) (conversation_id rec) (run_id rec)
    (tool_call_id rec) (tool_name rec) (arguments_hash rec)
  /\ risks_of_text (r_risk_classes r) = Some (risk_set rec) /\ r_matched_rule_id r = rule_id_matched rec
  /\ r_status r = status rec /\ r_decision_reason r = decision_reason rec /\ r_created_at r = created_at rec
  /\ r_expires_at r = expires_at rec /\ r_decided_at r = decided_at rec.
Proof.
  unfold _record. destruct (risks_of_text _) as [risks|] eqn:Hrisks; [|done].
  intros [-> Hv]%post_init_Ok. split; [done|]. cbn. by repeat split.
Qed.

Lemma live_or_due now r : r_status r = PENDING -> live now r = negb (due now r).
Proof.
  intros Hs. unfold live, due, pending. rewrite bool_decide_eq_true_2 by done. cbn.
  by rewrite Z.ltb_antisym.
Qed.

(** The row a read by key sees. *)
Definition after_expiry (now : Z) (r : ApprovalRequestRow) : ApprovalRequestRow :=
  if due now r then decide_row now EXPIRED "approval_expired" r else r.

Lemma expire_where_at (P : string -> ApprovalRequestRow -> bool) now st k r :
  (forall k' r', st !! k' = Some r' -> P k' r' = true -> k' = k) -> st !! k = Some r -> P k r = true ->
  expire_where P now st = <[k := after_expiry now r]> st.
Proof.
  intros Hu Hk HP. unfold expire_where. rewrite (update_where_at _ _ _ k r); [|by intros k' r' Hk' [? _]%andb_true_iff; eauto|done].
  rewrite HP. cbn. unfold after_expiry. destruct (due now r); [done|]. by rewrite insert_id.
Qed.

Lemma after_expiry_decided now r : after_expiry now r = r \/ decided r (after_expiry now r).
Proof.
  unfold after_expiry. destruct (due now r) eqn:Hd; [|by left].
  right. by eapply (row_move_decided ∅ (CallExpireDue now) ""), move_expire.
Qed.

Lemma after_expiry_reads_back now k r : approval_row_ok k r -> exists rec, _record k (after_expiry now r) = Ok rec.
Proof.
  intros [[rec Hrec] _]. destruct (after_expiry_decided now r) as [->|Hd]; [by eauto|].
  by eapply decided_reads_back.
Qed.

Lemma after_expiry_pending now r : r_status (after_expiry now r) = PENDING ->
  after_expiry now r = r /\ now < r_expires_at r.
Proof.
  unfold after_expiry. destruct (due now r) eqn:Hd; [done|]. intros Hs. split; [done|].
  pose proof (live_or_due now r Hs) as Hl. rewrite Hd in Hl. by apply live_spec in Hl as [_ ?].
Qed.

Lemma get_owner_at now key user st r :
  approval_row_ok key r -> st !! key = Some r -> r_user_id r = user -> _uuid key = true -> _identifier user = true ->
  exists rec, get_owner now key user st = (<[key := after_expiry now r]> st, Ok (Some rec))
    /\ _record key (after_expiry now r) = Ok rec.
Proof.
  intros Hok Hk Hu Hkey Huser. destruct (after_expiry_reads_back now key r Hok) as [rec Hrec]. exists rec. split; [|done].
  unfold get_owner. rewrite Hkey, Huser. cbn.
  assert (forall k' r', owned key user k' r' = true -> k' = key) as Hpin.
  { intros k' r' Ho. unfold owned in Ho. by apply bool_decide_eq_true in Ho as [-> _]. }
  rewrite (expire_where_at _ _ _ key r); [|by eauto|done|by apply bool_decide_eq_true_2].
  unfold load_one. rewrite (one_or_none_unique _ _ key (after_expiry now r)); cbn; [by rewrite Hrec|by eauto| |].
  - apply lookup_insert_eq.
  - unfold owned. apply bool_decide_eq_true_2. split; [done|]. unfold after_expiry. by destruct (due now r).
Qed.

(** What a reader finds of a reservation, after a decision or an expiry. *)
Lemma reads_reserved now r2 rec rec' fresh_at fresh user conv run call tool hash risks rule ttl :
  record_valid rec = true -> status rec = PENDING ->
  rec = mkApproval fresh user conv run call tool hash risks rule PENDING None fresh_at (fresh_at + ttl) None ->
  (r2 = row_of rec \/ decided (row_of rec) r2) -> _record fresh (after_expiry now r2) = Ok rec' ->
  id rec' = fresh /\ user_id rec' = user /\ conversation_id rec' = conv /\ run_id rec' = run
  /\ tool_call_id rec' = call /\ tool_name rec' = tool /\ arguments_hash rec' = hash /\ risk_set rec' = risks
  /\ rule_id_matched rec' = rule /\ expires_at rec' = fresh_at + ttl
  /\ (status rec' = PENDING -> rec' = rec /\ now < expires_at rec).
Proof.
  intros Hv Hst -> Ho Hrec'. destruct (record_inv _ _ _ Hrec') as (_ & Hid & Hb & Hrisks & Hrule & Hs & _ & _ & Hexp & _).
  set (rec := mkApproval _ _ _ _ _ _ _ _ _ _ _ _ _ _) in *.
  assert (binding_of (after_expiry now r2) = binding_of (row_of rec)
    /\ r_risk_classes (after_expiry now r2) = risk_text risks
    /\ r_matched_rule_id (after_expiry now r2) = rule /\ r_expires_at (after_expiry now r2) = fresh_at + ttl)
    as (Hb' & Hrisks' & Hrule' & Hexp').
  { destruct (after_expiry_decided now r2) as [->|[]], Ho as [->|[]]; done. }
  rewrite Hb' in Hb. rewrite Hrisks', risks_of_risk_text in Hrisks. unfold binding_of in Hb. cbn in Hb.
  injection Hb as <- <- <- <- <- <-. injection Hrisks as <-.
  split; [done|]. repeat (split; [congruence|]). intros Hpend. rewrite <- Hs in Hpend.
  destruct (after_expiry_pending now r2 Hpend) as [He Hl]. rewrite He in *.
  destruct Ho as [-> | Hd]; [|by exfalso; revert Hpend; destruct Hd].
  pose proof (record_of_row rec Hv Hst) as Hrow. cbn in Hrow. split; [congruence|exact Hl].
Qed.

Lemma get_owner_none now key user st :
  _uuid key = true -> _identifier user = true -> (forall r, st !! key = Some r -> r_user_id r <> user) ->
  get_owner now key user st = (st, Ok None).
Proof.
  intros Hkey Huser Hno. unfold get_owner. rewrite Hkey, Huser. cbn.
  assert (forall k r, st !! k = Some r -> owned key user k r = false) as Hnone.
  { intros k r Hk. unfold owned. apply bool_decide_eq_false_2. intros [-> Hu]. by apply (Hno r). }
  unfold expire_where. rewrite update_where_id.
  - unfold load_one. by rewrite one_or_none_nothing.
  - intros k r Hk. cbn. by rewrite (Hnone k r Hk).
Qed.

(** ** Properties *)

(** The life of an approval request: whatever the repository does, its row is
    never lost, keeps its owner, its exact binding, its risks, rule and deadline, and is
    decided at most once; a row approved or denied was so before its deadline, an
    expired one not before. *)
Theorem approval_lifecycle (st st' : approvals) (k : string) (r : ApprovalRequestRow) :
  approvals_reachable st -> rtc approval_step st st' -> st !! k = Some r ->
  exists r', st' !! k = Some r' /\ binding_of r' = binding_of r /\ r_risk_classes r' = r_risk_classes r
    /\ r_matched_rule_id r' = r_matched_rule_id r /\ r_created_at r' = r_created_at r /\ r_expires_at r' = r_expires_at r
    /\ (r_status r <> PENDING \/ r_status r' = PENDING -> r' = r)
    /\ decision_ok (r_status r') (r_decision_reason r') (r_decided_at r') (r_expires_at r').
Proof.
  intros Hreach Hr Hk. destruct (approval_history _ _ _ _ Hr Hk) as (r' & Hk' & Ho). exists r'. split; [done|].
  assert (approvals_reachable st') as Hreach' by (unfold approvals_reachable in *; by etrans).
  destruct (approval_rows _ (approvals_reachable_ok _ Hreach') _ _ Hk') as [_ Hdec].
  destruct Ho as [->|[now s why Hp Hs _ Hd]]; do 5 (split; [done|]); (split; [|done]); [done|]. by intros [?|?].
Qed.

(** C17. Nothing is approved without its owner: a row that a call leaves approved was
    approved before, or was pending, before its deadline, and the call is a decision in
    the name of its owner that names the request by its id, by its run and tool call, or
    by its tool call when no other live request of the owner has the same. *)
Theorem approval_needs_owner_decision (c : approval_call) (st : approvals) (k : string) (r' : ApprovalRequestRow) :
  perform c st !! k = Some r' -> r_status r' = APPROVED ->
  exists r, st !! k = Some r /\
    (r' = r \/ exists now why, r' = decide_row now APPROVED why r /\ r_status r = PENDING /\ now < r_expires_at r
                 /\ decided_by st k r now APPROVED why c).
Proof.
  intros Hk' Ha. destruct (is_reserve c) eqn:Hc.
  - destruct c as [now fresh user conv run call tool hash risks rule ttl| | | | | | | | |]; try done. cbn [perform] in Hk'.
    destruct (reserve_cases now fresh user conv run call tool hash risks rule ttl st)
      as [[e He]|(rec & He & Hrec & _)]; rewrite He in Hk'; cbn [fst] in Hk'; [by eauto|].
    apply lookup_insert_Some in Hk' as [[<- <-]|[_ Hk]]; [by subst rec|by eauto].
  - pose proof (perform_moves c st Hc k) as Hm. destruct (st !! k) as [r|]; [|congruence].
    destruct Hm as (r1 & Hr1 & Ho). assert (r1 = r') as -> by congruence. exists r. split; [done|].
    destruct Ho as [->|Hmv]; [by left|right]. revert Ha.
    destruct Hmv as [now Hd | now s why Hl Hdec Hw Hby | now why Hp Hby]; [done| |done].
    apply live_spec in Hl as [Hs Hl]. cbn. intros ->. by exists now, why.
Qed.

(** What a decision by run and tool call does on every branch: invalid arguments
    raise; with no such request of this owner, or a decided one, nothing changes; a
    request at or past its deadline expires; otherwise it is decided, and only then is
    the answer true. *)
Theorem decide_exact_decides (st : approvals) (now : Z) (user run call : string) (s : ApprovalStatus) (why : string) :
  approvals_reachable st ->
  let valid := _identifier user && _identifier run && _identifier call && is_decision s && lower_code why in
  let answer := decide_exact_for_owner now user run call s why st in
  (valid = false -> answer = (st, Err ApprovalValueError))
  /\ (valid = true -> (forall k r, st !! k = Some r -> of_run_call user run call k r = false) -> answer = (st, Ok false))
  /\ (valid = true -> forall k r, st !! k = Some r -> of_run_call user run call k r = true ->
       answer = if live now r then (<[k := decide_row now s why r]> st, Ok true)
                else if due now r then (<[k := decide_row now EXPIRED "approval_expired" r]> st, Ok false)
                else (st, Ok false)).
Proof.
  intros Hr valid answer. subst answer. unfold decide_exact_for_owner. fold valid.
  split; [by intros ->|]. split.
  - intros -> Hno. cbn. unfold expire_where. rewrite (update_where_id _ _ st), update_where_id, rowcount_none; [done|..];
      intros k r Hk; cbn; by rewrite (Hno k r Hk).
  - intros -> k r Hk Hof. cbn.
    assert (forall k' r', st !! k' = Some r' -> of_run_call user run call k' r' = true -> k' = k) as Hu.
    { intros k' r' Hk' Hof'. apply (approval_unique _ (approvals_reachable_ok _ Hr) k' k r' r Hk' Hk).
      unfold of_run_call in *. apply bool_decide_eq_true in Hof, Hof'. unfold same_call. intuition congruence. }
    rewrite (expire_where_at _ _ _ k r) by done.
    assert (forall k' r', <[k := after_expiry now r]> st !! k' = Some r' ->
      of_run_call user run call k' r' && live now r' = true -> k' = k) as Hu'.
    { intros k' r' [[-> _]|[_ Hk']]%lookup_insert_Some [Ho _]%andb_true_iff; [done|by eauto]. }
    rewrite (update_where_at _ _ _ k (after_expiry now r) Hu') by apply lookup_insert_eq.
    rewrite (rowcount_at _ _ k (after_expiry now r) Hu') by apply lookup_insert_eq.
    unfold after_expiry. destruct (due now r) eqn:Hd; cbn.
    + rewrite andb_false_r. destruct (live now r) eqn:Hl; [by rewrite (live_not_due _ _ Hl) in Hd|done].
    + rewrite Hof. cbn. destruct (live now r); cbn; [by rewrite insert_insert_eq|by rewrite insert_id].
Qed.

(** A reserved request can be read back by its owner alone, at any later time and
    after any history: the record returned has what was reserved, is the reservation
    itself while it is pending, and then its deadline has not passed. *)
Theorem reservation_reads_back (st st1 st2 : approvals) (now fresh_at : Z)
    (fresh user conv run call tool hash : string) (risks : gset RiskClass) (rule : option string) (ttl : Z)
    (rec : ApprovalRecord) :
  approvals_reachable st ->
  reserve_approval fresh_at fresh user conv run call tool hash risks rule ttl st = (st1, Ok rec) ->
  rtc approval_step st1 st2 ->
  (exists rec', (get_owner now fresh user st2).2 = Ok (Some rec')
     /\ id rec' = fresh /\ user_id rec' = user /\ conversation_id rec' = conv /\ run_id rec' = run
     /\ tool_call_id rec' = call /\ tool_name rec' = tool /\ arguments_hash rec' = hash /\ risk_set rec' = risks
     /\ rule_id_matched rec' = rule /\ expires_at rec' = fresh_at + ttl
     /\ (status rec' = PENDING -> rec' = rec /\ now < expires_at rec))
  /\ (forall other, _identifier other = true -> other <> user -> get_owner now fresh other st2 = (st2, Ok None)).
Proof.
  intros Hreach Hres Hr.
  assert (approvals_reachable st2) as Hreach2.
  { unfold approvals_reachable in *. etrans; [exact Hreach|]. eapply rtc_l; [|exact Hr].
    exists (CallReserve fresh_at fresh user conv run call tool hash risks rule ttl). cbn. by rewrite Hres. }
  destruct (reserve_cases fresh_at fresh user conv run call tool hash risks rule ttl st)
    as [[e He]|(rec0 & He & Hrec0 & Hv & _ & _)]; [congruence|].
  assert (rec0 = rec /\ st1 = <[fresh := row_of rec]> st) as [-> ->] by (rewrite Hres in He; injection He; intros; by subst).
  destruct (record_valid_inv _ Hv) as (Huuid & Huser & _).
  assert (id rec = fresh /\ user_id rec = user /\ status rec = PENDING) as (Hid & Hus & Hst) by by subst rec.
  rewrite Hid in Huuid. rewrite Hus in Huser.
  destruct (approval_history _ _ fresh (row_of rec) Hr (lookup_insert_eq _ _ _)) as (r2 & Hk2 & Ho).
  split; [|intros other Hother Hne].
  - destruct (get_owner_at now fresh user st2 r2) as (rec' & -> & Hrec'); [|done| |done..|].
    { by apply (approval_rows _ (approvals_reachable_ok _ Hreach2)). }
    { by destruct Ho as [->|[]]. }
    exists rec'. split; [done|]. eapply reads_reserved; [exact Hv|exact Hst|exact Hrec0|exact Ho|exact Hrec'].
  - apply get_owner_none; [done..|]. intros r Hk. assert (r = r2) as -> by congruence.
    assert (r_user_id r2 = user) by (by destruct Ho as [->|[]]). congruence.
Qed.

(** ** Witnesses *)

Definition demo_uuid : string := "00000000-0000-4000-8000-000000000001".
Definition demo_hash : string := "0123456789abcdef0123456789abcdef0123456789abcdef0123456789abcdef".

Definition demo_reserve (st : approvals) : approvals * result approval_error ApprovalRecord :=
  reserve_approval 100 demo_uuid "alice" "conv-1" "run-1" "call-1" "write_file" demo_hash {[ WRITE; EXECUTE ]} None 30 st.

Definition demo_waiting : approvals := Eval vm_compute in (demo_reserve ∅).1.
Definition demo_record : ApprovalRecord := mkApproval demo_uuid "alice" "conv-1" "run-1" "call-1" "write_file" demo_hash
  {[ WRITE; EXECUTE ]} None PENDING None 100 130 None.
Definition demo_approval : approval_call := CallDecideExact 110 "alice" "run-1" "call-1" APPROVED "user_approved".
Definition demo_approved : approvals := Eval vm_compute in perform demo_approval demo_waiting.

Example demo_reserve_runs : demo_reserve ∅ = (demo_waiting, Ok demo_record).
Proof. vm_compute. reflexivity. Qed.

Example demo_late_decision :
  (decide_exact_for_owner 130 "alice" "run-1" "call-1" APPROVED "user_approved" demo_waiting).2 = Ok false.
Proof. vm_compute. reflexivity. Qed.

Example demo_foreign_decision :
  decide_exact_for_owner 110 "mallory" "run-1" "call-1" APPROVED "user_approved" demo_waiting = (demo_waiting, Ok false).
Proof. vm_compute. reflexivity. Qed.

Lemma demo_waiting_reachable : approvals_reachable demo_waiting.
Proof.
  apply rtc_once. exists (CallReserve 100 demo_uuid "alice" "conv-1" "run-1" "call-1" "write_file" demo_hash
    {[ WRITE; EXECUTE ]} None 30). vm_compute. reflexivity.
Qed.

Lemma demo_step : approval_step demo_waiting demo_approved.
Proof. exists demo_approval. vm_compute. reflexivity. Qed.

Lemma approval_lifecycle_witness : exists r r', demo_waiting !! demo_uuid = Some r /\ r_status r = PENDING
  /\ demo_approved !! demo_uuid = Some r' /\ binding_of r' = binding_of r /\ r_status r' = APPROVED.
Proof.
  destruct (demo_waiting !! demo_uuid) as [r|] eqn:Hk; [|vm_compute in Hk; discriminate Hk].
  destruct (approval_lifecycle demo_waiting demo_approved demo_uuid r demo_waiting_reachable (rtc_once _ _ demo_step) Hk)
    as (r' & Hk' & Hb & _).
  exists r, r'. split; [reflexivity|]. vm_compute in Hk. injection Hk as <-. split; [reflexivity|].
  split; [exact Hk'|]. split; [exact Hb|]. vm_compute in Hk'. by injection Hk' as <-.
Defined.

Lemma approval_needs_owner_decision_witness : exists r', demo_approved !! demo_uuid = Some r' /\ r_status r' = APPROVED
  /\ exists r, demo_waiting !! demo_uuid = Some r
     /\ (r' = r \/ exists now why, r' = decide_row now APPROVED why r /\ r_status r = PENDING /\ now < r_expires_at r
           /\ decided_by demo_waiting demo_uuid r now APPROVED why demo_approval).
Proof.
  destruct (demo_approved !! demo_uuid) as [r'|] eqn:Hk; [|vm_compute in Hk; discriminate Hk].
  assert (r_status r' = APPROVED) as Ha by (vm_compute in Hk; by injection Hk as <-).
  exists r'. split; [reflexivity|]. split; [exact Ha|].
  apply (approval_needs_owner_decision demo_approval demo_waiting demo_uuid r'); [|exact Ha].
  rewrite <- Hk. vm_compute. reflexivity.
Defined.

Lemma decide_exact_decides_witness : exists r, demo_waiting !! demo_uuid = Some r /\
  decide_exact_for_owner 110 "alice" "run-1" "call-1" DENIED "user_denied" demo_waiting
  = (<[demo_uuid := decide_row 110 DENIED "user_denied" r]> demo_waiting, Ok true).
Proof.
  destruct (demo_waiting !! demo_uuid) as [r|] eqn:Hk; [|vm_compute in Hk; discriminate Hk].
  destruct (decide_exact_decides demo_waiting 110 "alice" "run-1" "call-1" DENIED "user_denied" demo_waiting_reachable)
    as (_ & _ & H).
  exists r. split; [reflexivity|]. rewrite (H eq_refl demo_uuid r Hk); vm_compute in Hk; injection Hk as <-; reflexivity.
Defined.

Lemma reservation_reads_back_witness : exists rec', (get_owner 120 demo_uuid "alice" demo_approved).2 = Ok (Some rec')
  /\ tool_name rec' = "write_file"%string /\ risk_set rec' = {[ WRITE; EXECUTE ]} /\ status rec' = APPROVED.
Proof.
  destruct (reservation_reads_back ∅ demo_waiting demo_approved 120 100 demo_uuid "alice" "conv-1" "run-1" "call-1"
    "write_file" demo_hash {[ WRITE; EXECUTE ]} None 30 demo_record (rtc_refl _ _) demo_reserve_runs
    (rtc_once _ _ demo_step)) as [(rec' & Hget & _ & _ & _ & _ & _ & Ht & _ & Hr & _) _].
  exists rec'. split; [exact Hget|]. split; [exact Ht|]. split; [exact Hr|].
  vm_compute in Hget. by injection Hget as <-.
Defined.
