(* ===== verification/LiveApprovals.v ===== *)
(** * Waiting for approvals ([security/live_approvals.py])

    Two brokers connect a run that waits for a human with the request that decides.
    [ApprovalBroker] keeps futures in memory: its objects live on a heap, where the
    waiter keeps a reference to the reservation it found; every section under the lock
    is one step, because it contains no await. [DurableApprovalBroker] polls the table
    of [Approvals] while other processes change it, until the row is decided or its
    deadline passes; it is a program of [Durable]. *)

From Stdlib Require Import ZArith Lia String Ascii.
From stdpp Require Import base gmap strings list fin_maps relations.
From S2P Require Import Prelude Strings Sql Durable Policy Authorization Approvals.
Open Scope Z_scope.

(** The identity of a run, [RunContext], as far as approvals use it. *)
Record run_context : Type := mkContext {
  c_user : string;
  c_conversation : string;
  c_run : string
}.

Record ApprovalKey : Type := mkKey {
  k_user : string;
  k_conversation : string;
  k_run : string;
  k_call : string
}.

#[export] Instance ApprovalKey_eq_dec : EqDecision ApprovalKey.
Proof. solve_decision. Defined.

(** [asyncio.Future[bool]] *)
Inductive future : Type := Waiting | Decided (approved : bool) | Abandoned.

#[export] Instance future_eq_dec : EqDecision future.
Proof. solve_decision. Defined.

(** [_PendingApproval]; its future is the one part that changes. *)
Record _PendingApproval : Type := mkPending {
  p_key : ApprovalKey;
  p_tool : string;
  p_hash : string;
  p_future : future
}.

Definition set_future (f : future) (p : _PendingApproval) : _PendingApproval :=
  mkPending (p_key p) (p_tool p) (p_hash p) f.

(** [ApprovalBroker]: the dict in insertion order, from keys to objects, and the heap. *)
Record ApprovalBroker : Type := mkBroker {
  _pending : list (ApprovalKey * nat);
  heap : list _PendingApproval
}.

Inductive broker_error : Type := BrokerRuntimeError | BrokerCancelled.

Definition new_broker : ApprovalBroker := mkBroker [] [].

(** ** The broker in memory *)

Definition _key (c : run_context) (q : AuthorizationRequest) : ApprovalKey :=
  mkKey (c_user c) (c_conversation c) (c_run c) (q_call_id q).

Definition find_pending (key : ApprovalKey) (b : ApprovalBroker) : option nat :=
  snd <$> List.find (fun x => bool_decide (x.1 = key)) (_pending b).

Definition drop_pending (key : ApprovalKey) (b : ApprovalBroker) : ApprovalBroker :=
  mkBroker (filter (fun x => x.1 <> key) (_pending b)) (heap b).

Definition resolve (i : nat) (f : future) (b : ApprovalBroker) : ApprovalBroker :=
  mkBroker (_pending b) (alter (set_future f) i (heap b)).

Definition future_done (b : ApprovalBroker) (i : nat) : bool :=
  match heap b !! i with Some p => negb (bool_decide (p_future p = Waiting)) | None => true end.

(** [if not item.future.done(): item.future.cancel()] *)
Definition cancel_future (i : nat) (b : ApprovalBroker) : ApprovalBroker :=
  if future_done b i then b else resolve i Abandoned b.

Definition reserve (c : run_context) (q : AuthorizationRequest) (b : ApprovalBroker) : ApprovalBroker * result broker_error unit :=
  let key := _key c q in
  match find_pending key b with
  | Some _ => (b, Err BrokerRuntimeError)
  | None => (mkBroker (_pending b ++ [(key, length (heap b))]) (heap b ++ [mkPending key (q_tool q) (q_hash q) Waiting]), Ok tt)
  end.

(** The reservation of a request, if its tool and digest match. *)
Definition matching (c : run_context) (q : AuthorizationRequest) (b : ApprovalBroker) : option nat :=
  match find_pending (_key c q) b with
  | Some i => match heap b !! i with
              | Some p => if string_eqb (p_tool p) (q_tool q) && string_eqb (p_hash p) (q_hash q) then Some i else None
              | None => None
              end
  | None => None
  end.

(** [wait_for_decision], first part: the object whose future is awaited. *)
Definition begin_wait (c : run_context) (q : AuthorizationRequest) (b : ApprovalBroker) : result broker_error nat :=
  match matching c q b with Some i => Ok i | None => Err BrokerRuntimeError end.

(** Its [finally] block: the reservation is removed if it is still this object. *)
Definition release_wait (c : run_context) (q : AuthorizationRequest) (i : nat) (b : ApprovalBroker) : ApprovalBroker :=
  if bool_decide (find_pending (_key c q) b = Some i) then drop_pending (_key c q) b else b.

(** The answer of an awaited future; [None] while there is none. *)
Definition answer_of (q : AuthorizationRequest) (f : future) : option (result broker_error AuthorizationOutcome) :=
  match f with
  | Waiting => None
  | Decided approved => Some (Ok (mkAuthOutcome approved (q_call_id q) (q_tool q) (q_hash q)
                                    (if approved then "user_approved" else "user_denied")))
  | Abandoned => Some (Err BrokerCancelled)
  end.

(** Second part: once the future is done, or the waiter is cancelled. *)
Definition end_wait (c : run_context) (q : AuthorizationRequest) (i : nat) (b : ApprovalBroker)
  : ApprovalBroker * option (result broker_error AuthorizationOutcome) :=
  match p_future <$> heap b !! i with
  | Some f => match answer_of q f with
              | Some r => (release_wait c q i b, Some r)
              | None => (b, None)
              end
  | None => (b, None)
  end.

Definition cancel (c : run_context) (q : AuthorizationRequest) (b : ApprovalBroker) : ApprovalBroker :=
  match matching c q b with
  | Some i => cancel_future i (drop_pending (_key c q) b)
  | None => b
  end.

(** The first undecided reservation of the owner's run and tool call. *)
Definition decidable (user run call : string) (b : ApprovalBroker) (x : ApprovalKey * nat) : bool :=
  bool_decide (k_user x.1 = user /\ k_run x.1 = run /\ k_call x.1 = call) && negb (future_done b x.2).

Definition decide_for_owner (user run call : string) (approved : bool) (b : ApprovalBroker) : ApprovalBroker * bool :=
  match List.find (decidable user run call b) (_pending b) with
  | None => (b, false)
  | Some x => (resolve x.2 (Decided approved) b, true)
  end.

Definition of_context (c : run_context) (k : ApprovalKey) : bool :=
  bool_decide (k_user k = c_user c /\ k_conversation k = c_conversation c /\ k_run k = c_run c).

(** [item.key] is the key the item was stored under. *)
Definition cancel_run (c : run_context) (b : ApprovalBroker) : ApprovalBroker :=
  fold_left (fun b x => cancel_future x.2 (drop_pending x.1 b))
    (filter (fun x => of_context c x.1 = true) (_pending b)) b.

Definition pending_count (b : ApprovalBroker) : Z := Z.of_nat (length (_pending b)).

(** ** Histories of the broker *)

Inductive broker_call : Type :=
| BReserve (c : run_context) (q : AuthorizationRequest)
| BFinish (c : run_context) (q : AuthorizationRequest) (i : nat)
| BInterrupt (c : run_context) (q : AuthorizationRequest) (i : nat)
| BCancel (c : run_context) (q : AuthorizationRequest)
| BDecide (user run call : string) (approved : bool)
| BCancelRun (c : run_context).

Definition broker_perform (x : broker_call) (b : ApprovalBroker) : ApprovalBroker :=
  match x with
  | BReserve c q => (reserve c q b).1
  | BFinish c q i => (end_wait c q i b).1
  | BInterrupt c q i => release_wait c q i b
  | BCancel c q => cancel c q b
  | BDecide user run call approved => (decide_for_owner user run call approved b).1
  | BCancelRun c => cancel_run c b
  end.

Definition broker_after (l : list broker_call) : ApprovalBroker := fold_left (fun b x => broker_perform x b) l new_broker.

(** Objects a dict entry points to carry the key of the entry. *)
Definition entries_ok (b : ApprovalBroker) : Prop :=
  forall key i, (key, i) ∈ _pending b -> exists p, heap b !! i = Some p /\ p_key p = key.

(** What one step does to an object. *)
Definition object_step (x : broker_call) (p p' : _PendingApproval) : Prop :=
  p' = p \/ p_future p = Waiting /\
    (p' = set_future Abandoned p
     \/ exists a, p' = set_future (Decided a) p /\ x = BDecide (k_user (p_key p)) (k_run (p_key p)) (k_call (p_key p)) a).

(** A broker whose dict only lost entries, and whose heap moved by such steps. *)
Record broker_step (x : broker_call) (b b' : ApprovalBroker) : Prop := {
  step_entries : _pending b' ⊆ _pending b;
  step_objects : forall i p, heap b !! i = Some p -> exists p', heap b' !! i = Some p' /\ object_step x p p';
  step_length : length (heap b') = length (heap b)
}.

Lemma broker_step_refl x b : broker_step x b b.
Proof. split; [done| |done]. intros i p Hp. exists p. split; [done|by left]. Qed.

Lemma drop_step x key b : broker_step x b (drop_pending key b).
Proof.
  split; [| |done].
  - intros y Hy. cbn in Hy. by apply list_elem_of_filter in Hy as [_ ?].
  - intros i p Hp. exists p. split; [done|by left].
Qed.

Lemma resolve_step x i f b : (forall p, heap b !! i = Some p -> object_step x p (set_future f p)) -> broker_step x b (resolve i f b).
Proof.
  intros Hf. split; [done| |by cbn; rewrite length_alter].
  intros j p Hp. cbn. destruct (decide (i = j)) as [<-|Hne].
  - rewrite list_lookup_alter_eq, Hp. cbn. eexists. split; [done|]. by apply Hf.
  - rewrite list_lookup_alter_ne by done. exists p. split; [done|by left].
Qed.

Lemma future_not_done b i p : heap b !! i = Some p -> future_done b i = false <-> p_future p = Waiting.
Proof. unfold future_done. intros ->. rewrite negb_false_iff. apply bool_decide_eq_true. Qed.

Lemma cancel_future_step x i b : broker_step x b (cancel_future i b).
Proof.
  unfold cancel_future. destruct (future_done b i) eqn:Hd; [apply broker_step_refl|]. apply resolve_step.
  intros p Hp. right. split; [by apply (future_not_done b i p Hp)|]. by left.
Qed.

Lemma set_future_key f p : p_key (set_future f p) = p_key p.
Proof. done. Qed.

Lemma step_keeps_entries x b b' : broker_step x b b' -> entries_ok b -> entries_ok b'.
Proof.
  intros [He Ho _] Hb key i Hin. destruct (Hb key i (He _ Hin)) as (p & Hp & Hk). destruct (Ho i p Hp) as (p' & Hp' & Hs).
  exists p'. split; [done|]. destruct Hs as [->|(_ & [->|(a & -> & _)])]; done.
Qed.

(** Cancelling futures and dropping entries never decides anything. *)
Definition quiet_call (x : broker_call) : bool := match x with BDecide _ _ _ _ => false | _ => true end.

Lemma object_step_trans x p1 p2 p3 : quiet_call x = true -> object_step x p1 p2 -> object_step x p2 p3 -> object_step x p1 p3.
Proof.
  intros Hx [->|(Hw & [->|(a & _ & ->)])]; [done| |done]. intros [->|(Hw2 & _)]; [by right; split; [|left]|done].
Qed.

Lemma broker_step_trans x b1 b2 b3 : quiet_call x = true -> broker_step x b1 b2 -> broker_step x b2 b3 -> broker_step x b1 b3.
Proof.
  intros Hx [E1 O1 L1] [E2 O2 L2]. split; [by etrans| |congruence].
  intros i p Hp. destruct (O1 i p Hp) as (p2 & Hp2 & S1). destruct (O2 i p2 Hp2) as (p3 & Hp3 & S2).
  exists p3. split; [done|by eapply object_step_trans].
Qed.

Lemma cancel_run_step x c b : quiet_call x = true -> broker_step x b (cancel_run c b).
Proof.
  intros Hx. unfold cancel_run. generalize (filter (fun y => of_context c y.1 = true) (_pending b)) as l. intros l. revert b.
  induction l as [|y l IH]; intros b; cbn [fold_left]; [apply broker_step_refl|].
  eapply broker_step_trans; [done| |apply IH]. eapply broker_step_trans; [done|apply drop_step|apply cancel_future_step].
Qed.

Lemma find_elem {A} (P : A -> bool) l x : List.find P l = Some x -> x ∈ l /\ P x = true.
Proof. intros [Hin HP]%find_some. split; [by apply list_elem_of_In|done]. Qed.

Lemma decide_step user run call a b : entries_ok b ->
  broker_step (BDecide user run call a) b (decide_for_owner user run call a b).1.
Proof.
  intros Hb. unfold decide_for_owner. destruct (List.find _ _) as [[key i]|] eqn:Hf; [|apply broker_step_refl].
  apply find_elem in Hf as [Hin Hd]. unfold decidable in Hd. apply andb_true_iff in Hd as [Hk Hd].
  apply bool_decide_eq_true in Hk as (Hu & Hr & Hc). apply negb_true_iff in Hd. cbn [fst snd] in *.
  apply resolve_step. intros p Hp. right. destruct (Hb key i Hin) as (p0 & Hp0 & Hkey). assert (p0 = p) as -> by congruence.
  split; [by apply (future_not_done b i p Hp)|]. right. exists a. split; [done|]. by rewrite Hkey, Hu, Hr, Hc.
Qed.

Definition is_breserve (x : broker_call) : bool := match x with BReserve _ _ => true | _ => false end.

Lemma broker_perform_step x b : entries_ok b -> is_breserve x = false -> broker_step x b (broker_perform x b).
Proof.
  intros Hb Hx. destruct x as [c q|c q i|c q i|c q|user run call a|c]; try done; cbn [broker_perform].
  - unfold end_wait. destruct (p_future <$> _) as [f|]; [|apply broker_step_refl].
    destruct (answer_of q f); [|apply broker_step_refl]. cbn. unfold release_wait.
    destruct (bool_decide _); [apply drop_step|apply broker_step_refl].
  - unfold release_wait. destruct (bool_decide _); [apply drop_step|apply broker_step_refl].
  - unfold cancel. destruct (matching c q b); [|apply broker_step_refl].
    eapply broker_step_trans; [done|apply drop_step|apply cancel_future_step].
  - by apply decide_step.
  - by apply cancel_run_step.
Qed.

Lemma find_pending_None key b i : find_pending key b = None -> (key, i) ∈ _pending b -> False.
Proof.
  unfold find_pending. intros Hf Hin. apply fmap_None in Hf. apply list_elem_of_In in Hin.
  pose proof (find_none _ _ Hf _ Hin) as Hn. cbn in Hn. by rewrite bool_decide_eq_true_2 in Hn.
Qed.

Lemma broker_reserve_spec c q b : reserve c q b = (b, Err BrokerRuntimeError)
  \/ reserve c q b = (mkBroker (_pending b ++ [(_key c q, length (heap b))])
                        (heap b ++ [mkPending (_key c q) (q_tool q) (q_hash q) Waiting]), Ok tt).
Proof. unfold reserve. destruct (find_pending _ _); auto. Qed.

Lemma perform_entries x b : entries_ok b -> entries_ok (broker_perform x b).
Proof.
  intros Hb. destruct (is_breserve x) eqn:Hx; [|by eapply step_keeps_entries; [apply broker_perform_step|]].
  destruct x as [c q| | | | |]; try done. cbn [broker_perform]. destruct (broker_reserve_spec c q b) as [->| ->]; [done|]. cbn [fst].
  intros key i Hin. cbn in Hin. apply elem_of_app in Hin as [Hin|Hin].
  - destruct (Hb key i Hin) as (p & Hp & Hk). exists p. split; [|done]. cbn. by apply lookup_app_l_Some.
  - apply list_elem_of_singleton in Hin as [= -> ->]. eexists. cbn. by rewrite lookup_app_r, Nat.sub_diag by lia.
Qed.

(** Objects over one step, new ones included. *)
Lemma perform_object x b i p' : entries_ok b -> heap (broker_perform x b) !! i = Some p' ->
  (exists p, heap b !! i = Some p /\ object_step x p p') \/ p_future p' = Waiting.
Proof.
  intros Hb Hp'. destruct (is_breserve x) eqn:Hx.
  - destruct x as [c q| | | | |]; try done. cbn [broker_perform] in Hp'. destruct (broker_reserve_spec c q b) as [E|E]; rewrite E in Hp'; cbn in Hp'.
    + left. exists p'. split; [done|by left].
    + apply lookup_app_Some in Hp' as [Hp'|[_ Hp']]; [left; exists p'; split; [done|by left]|].
      right. by apply list_lookup_singleton_Some in Hp' as [_ <-].
  - destruct (broker_perform_step x b Hb Hx) as [_ Ho Hl]. left.
    assert (is_Some (heap b !! i)) as [p Hp] by (apply lookup_lt_is_Some; rewrite <- Hl; by eapply lookup_lt_Some).
    destruct (Ho i p Hp) as (p2 & Hp2 & Hs). exists p. split; [done|]. by assert (p2 = p') as -> by congruence.
Qed.

Lemma broker_after_snoc l x : broker_after (l ++ [x]) = broker_perform x (broker_after l).
Proof. unfold broker_after. by rewrite fold_left_app. Qed.

Lemma broker_after_entries l : entries_ok (broker_after l).
Proof.
  induction l as [|x l IH] using rev_ind; [by intros ? ? ?%elem_of_nil|]. rewrite broker_after_snoc. by apply perform_entries.
Qed.

(** A decided object was decided once, by a call that names its key, while it waited. *)
Lemma decided_by_call l : forall i p a, heap (broker_after l) !! i = Some p -> p_future p = Decided a ->
  exists l1 l2, l = l1 ++ BDecide (k_user (p_key p)) (k_run (p_key p)) (k_call (p_key p)) a :: l2
    /\ heap (broker_after l1) !! i = Some (set_future Waiting p).
Proof.
  induction l as [|x l IH] using rev_ind; intros i p a Hp Ha; [done|]. rewrite broker_after_snoc in Hp.
  destruct (perform_object x (broker_after l) i p (broker_after_entries l) Hp) as [(p0 & Hp0 & Hs)|Hw]; [|congruence].
  destruct Hs as [->|(Hw & [->|(a' & -> & ->)])]; [|done|].
  - destruct (IH i p0 a Hp0 Ha) as (l1 & l2 & -> & Hh). exists l1, (l2 ++ [x]). by rewrite <- app_assoc.
  - injection Ha as ->. exists l, []. split; [done|]. rewrite Hp0. f_equal. destruct p0; cbn in *. by subst.
Qed.

Lemma heap_binding l1 l2 i p : heap (broker_after l1) !! i = Some p ->
  exists f, heap (broker_after (l1 ++ l2)) !! i = Some (set_future f p).
Proof.
  revert p. induction l2 as [|x l2 IH] using rev_ind; intros p Hp.
  - rewrite app_nil_r. exists (p_future p). rewrite Hp. by destruct p.
  - rewrite app_assoc, broker_after_snoc. destruct (IH p Hp) as [f Hf].
    pose proof (broker_after_entries (l1 ++ l2)) as Hb. destruct (is_breserve x) eqn:Hx.
    + destruct x as [c q| | | | |]; try done. cbn [broker_perform]. exists f.
      destruct (broker_reserve_spec c q (broker_after (l1 ++ l2))) as [-> | ->]; [done|]. cbn. by apply lookup_app_l_Some.
    + destruct (broker_perform_step x _ Hb Hx) as [_ Ho _]. destruct (Ho i _ Hf) as (p' & Hp' & Hs). rewrite Hp'.
      destruct Hs as [->|(_ & [->|(a & -> & _)])]; by eexists.
Qed.

(** An answer of the broker in memory is its owner's: when a waiter that found a
    reservation for its request gets an outcome, the outcome is bound to that request, and
    an earlier call of [decide_for_owner] in the name of the run's owner, for that run and
    tool call, gave exactly this answer while that reservation - with the request's tool
    and argument digest - was undecided. *)
Theorem broker_answer_is_owners (l1 l2 : list broker_call) (c : run_context) (q : AuthorizationRequest) (i : nat)
    (b : ApprovalBroker) (o : AuthorizationOutcome) :
  begin_wait c q (broker_after l1) = Ok i -> end_wait c q i (broker_after (l1 ++ l2)) = (b, Some (Ok o)) ->
  binds o q = true /\
  exists before after, l1 ++ l2 = before ++ BDecide (c_user c) (c_run c) (q_call_id q) (o_approved o) :: after
    /\ heap (broker_after before) !! i = Some (mkPending (_key c q) (q_tool q) (q_hash q) Waiting).
Proof.
  unfold begin_wait, matching. destruct (find_pending _ _) as [j|] eqn:Hf; [|done].
  destruct (heap (broker_after l1) !! j) as [p|] eqn:Hp; [|done]. destruct (_ && _) eqn:Hm; [|done]. intros [= ->].
  apply andb_true_iff in Hm as [Ht%string_eqb_spec Hh%string_eqb_spec].
  assert (p_key p = _key c q) as Hk.
  { unfold find_pending in Hf. apply fmap_Some in Hf as ([key j] & Hf & ->). apply find_elem in Hf as [Hin Hb].
    cbn in Hb. apply bool_decide_eq_true in Hb as ->. cbn in Hp. destruct (broker_after_entries l1 _ _ Hin) as (p' & Hp' & Hk). congruence. }
  destruct (heap_binding l1 l2 i p Hp) as [f Hp2]. unfold end_wait. rewrite Hp2. cbn.
  destruct f as [|a|]; cbn; [done| |done]. intros [= _ <-]. split; [by apply binds_spec|].
  destruct (decided_by_call (l1 ++ l2) i _ a Hp2 eq_refl) as (before & after & Hl & Hw). exists before, after. cbn in Hl, Hw.
  rewrite Hk in Hl. split; [exact Hl|]. rewrite Hw. unfold set_future; cbn. by rewrite Hk, Ht, Hh.
Qed.

(** ** The durable broker *)

(** The table of approvals as a store that other processes change. *)
#[export] Program Instance approvals_store : Store approvals :=
  { db_ok := approvals_reachable; db_later := rtc approval_step }.
Next Obligation. unfold approvals_reachable. intros st st' H1 H2. by etrans. Qed.

Module DurableApproval.

Inductive lexn : Type :=
| LApproval (e : approval_error)
| LValue
| LRuntime
| LDatabase
| LCancelled
| LOutOfFuel.

#[export] Instance lexn_await : AwaitErrors lexn := { database_error := LDatabase; cancelled_error := LCancelled }.

#[local] Abbreviation W := (world approvals unit unit).
#[local] Abbreviation Mx := (M approvals unit unit lexn).

(** The wall clock of this process and the clock of its event loop are functions of the
    moment; [wake] is the moment a sleep ends. *)
Section broker.
Context (forecast : nat -> weather approvals) (wall loop_time : nat -> Z) (wake : nat -> Z -> nat).
Context (ttl poll_interval : Z).

Definition context_binding (c : run_context) (q : AuthorizationRequest) : Binding :=
  mkBinding (c_user c) (c_conversation c) (c_run c) (q_call_id q) (q_tool q) (q_hash q).

Definition reserve (fresh : string) (c : run_context) (q : AuthorizationRequest) : Mx unit := fun w =>
  cancellable forecast (_ ← call forecast LApproval (fun _ st =>
    reserve_approval (wall (ticks w)) fresh (c_user c) (c_conversation c) (c_run c) (q_call_id q) (q_tool q) (q_hash q)
      (q_risks q) (q_rule q) ttl st); mret tt) w.

(** [_get], with the clock's time unless one is given *)
Definition _get (c : run_context) (q : AuthorizationRequest) (now : option Z) : Mx (option ApprovalRecord) := fun w =>
  cancellable forecast (call forecast LApproval (fun _ st =>
    get_exact_binding (default (wall (ticks w)) now) (context_binding c q) st)) w.

Definition cancel (c : run_context) (q : AuthorizationRequest) : Mx unit := fun w =>
  cancellable forecast (_ ← call forecast LApproval (fun _ st => cancel_one (wall (ticks w)) (context_binding c q) st); mret tt) w.

(** [asyncio.sleep(delay)], while other processes commit *)
Definition sleep (delay : Z) : Mx unit := cancellable forecast (fun w =>
  (mkWorld (w_others (forecast (ticks w)) (db w)) (wake (ticks w) delay) (fields w) (history w), Ok tt)).

Definition now_of (f : nat -> Z) : Mx Z := fun w => (w, Ok (f (ticks w))).

(** The polling loop of [wait_for_decision]; [None] is a row that is gone. *)
Fixpoint wait_loop (fuel : nat) (c : run_context) (q : AuthorizationRequest) (deadline : Z) (record : ApprovalRecord)
  : Mx (option ApprovalRecord) :=
  match fuel with
  | O => raise LOutOfFuel
  | S fuel' =>
      if decide (status record = PENDING) then
        t ← now_of loop_time;
        let delay := poll_interval `min` (0 `max` (deadline - t)) in
        if delay <=? 0 then _get c q (Some (expires_at record))
        else
          _ ← sleep delay;
          found ← _get c q None;
          match found with
          | None => raise LRuntime
          | Some record' => wait_loop fuel' c q deadline record'
          end
      else mret (Some record)
  end.

Definition outcome_reason (record : ApprovalRecord) : bool * string :=
  match status record with
  | APPROVED => (true, "user_approved"%string)
  | DENIED => (false, "user_denied"%string)
  | _ => (false, match decision_reason record with
                 | Some why => if string_eqb why "" then "approval_unavailable"%string else why
                 | None => "approval_unavailable"%string
                 end)
  end.

Definition wait_for_decision (c : run_context) (q : AuthorizationRequest) : Mx AuthorizationOutcome :=
  record ← try_with
    (found ← _get c q None;
     match found with
     | None => raise LRuntime
     | Some record =>
         now ← now_of wall;
         let remaining := 0 `max` (expires_at record - now) in
         t ← now_of loop_time;
         wait_loop (S (Z.to_nat remaining)) c q (t + remaining) record
     end)
    (fun e => match e with LCancelled => _ ← cancel c q; raise LCancelled | _ => raise e end);
  match record with
  | None => raise LRuntime
  | Some record =>
      let '(approved, reason) := outcome_reason record in
      of_result (lift_err (fun _ => LValue) (new_outcome approved (q_call_id q) (q_tool q) (q_hash q) reason))
  end.

Definition decide_for_owner (user run call : string) (approved : bool) : Mx bool := fun w =>
  cancellable forecast (Durable.call forecast LApproval (fun _ st =>
    decide_exact_for_owner (wall (ticks w)) user run call (if approved then APPROVED else DENIED)
      (if approved then "user_approved" else "user_denied") st)) w.

Definition cancel_run (c : run_context) : Mx unit := fun w =>
  cancellable forecast (_ ← call forecast LApproval (fun _ st => Approvals.cancel_run (wall (ticks w)) (c_user c) (c_run c) st);
                        mret tt) w.

(** ** What a poll sees *)

Hypothesis others_later : fair forecast.
Hypothesis clock_monotone : forall n, loop_time n <= loop_time (S n).
Hypothesis sleep_lasts : forall n d, 0 < d -> loop_time n + d <= loop_time (wake n d).

(** The row of a binding, as a record tells it. *)
Definition tells (b : Binding) (st : approvals) (record : ApprovalRecord) : Prop :=
  exists k r, st !! k = Some r /\ binding_of r = b /\ r_status r = status record
    /\ r_decided_at r = decided_at record /\ r_expires_at r = expires_at record.

Lemma bound_to_spec b k r : bound_to b k r = true <-> binding_of r = b.
Proof. unfold bound_to, binding_of. rewrite bool_decide_eq_true. destruct b; cbn. split; [by intros (-> & -> & -> & -> & -> & ->)|by intros [= -> -> -> -> -> ->]]. Qed.

Lemma get_tells now b st record : (get_exact_binding now b st).2 = Ok (Some record) ->
  tells b (get_exact_binding now b st).1 record.
Proof.
  unfold get_exact_binding. destruct (negb _); [done|]. destruct (one_or_none _ _) as [[[k r]|]|] eqn:Ho; [|done..].
  cbn. apply one_or_none_Some in Ho as [Hk Hb%bound_to_spec]. intros Hr.
  destruct (_record k r) as [rec|] eqn:Hrec; [|done]. cbn in Hr. injection Hr as <-.
  destruct (record_inv _ _ _ Hrec) as (_ & _ & _ & _ & _ & Hs & _ & _ & He & Hd). exists k, r. done.
Qed.

Lemma get_step now b st : rtc approval_step st (get_exact_binding now b st).1.
Proof. apply rtc_once. by exists (CallBinding now b). Qed.

(** The same binding later: its row has the same deadline. *)
Lemma tells_later b st st' record : tells b st record -> rtc approval_step st st' ->
  exists k r, st' !! k = Some r /\ binding_of r = b /\ r_expires_at r = expires_at record.
Proof.
  intros (k & r & Hk & Hb & _ & _ & He) Hr. destruct (approval_history _ _ k r Hr Hk) as (r' & Hk' & Ho).
  exists k, r'. split; [done|]. destruct Ho as [->|[]]; done.
Qed.

(** Reading at the deadline leaves no pending row behind. *)
Lemma get_at_deadline b st record record' : approvals_reachable st ->
  (exists k r, st !! k = Some r /\ binding_of r = b /\ r_expires_at r = expires_at record) ->
  (get_exact_binding (expires_at record) b st).2 = Ok (Some record') -> status record' <> PENDING.
Proof.
  intros Hreach (k & r & Hk & Hb & He) Hget Hp. destruct (get_tells _ _ _ _ Hget) as (k' & r' & Hk' & Hb' & Hs' & _).
  revert Hget Hk'. unfold get_exact_binding. destruct (negb _); [done|].
  assert (forall k2 r2, st !! k2 = Some r2 -> bound_to b k2 r2 = true -> k2 = k) as Hu.
  { intros k2 r2 Hk2 Hb2%bound_to_spec. apply (approval_unique _ (approvals_reachable_ok _ Hreach) k2 k r2 r Hk2 Hk).
    rewrite <- Hb in Hb2. injection Hb2 as H1 H2 H3 H4 H5 H6. done. }
  rewrite (expire_where_at _ _ _ k r Hu Hk) by by apply bound_to_spec.
  destruct (one_or_none _ _) as [[[k2 r2]|]|] eqn:Ho; [|done..]. apply one_or_none_Some in Ho as [Hk2 Hb2%bound_to_spec].
  cbn. intros _ Hk'. assert (k' = k) as ->.
  { destruct (decide (k' = k)) as [->|Hne]; [done|]. rewrite lookup_insert_ne in Hk' by done. apply (Hu k' r' Hk'). by apply bound_to_spec. }
  rewrite lookup_insert_eq in Hk'. injection Hk' as <-. rewrite Hp in Hs'.
  destruct (after_expiry_pending _ _ Hs') as [_ Hl]. lia.
Qed.

(** *** Polling *)

Lemma call_ticks {A} (op : Z -> approvals -> approvals * result approval_error A) (w : W) :
  let r := call (E := lexn) forecast LApproval op w in
  ticks r.1 = S (ticks w) /\ r.2 <> Err LOutOfFuel.
Proof. unfold call. destruct (w_fault _); [|done|]; by destruct (op _ _) as [d []]. Qed.

(** A poll: either it fails, or it read some later table, whose row it tells. *)
Lemma wp_read c q now (Q : result lexn (option ApprovalRecord) -> W -> Prop) w : approvals_reachable (db w) ->
  (forall e w', e <> LOutOfFuel -> approvals_reachable (db w') -> Q (Err e) w') ->
  (forall found w' st t, approvals_reachable st -> rtc approval_step (db w) st -> ticks w' = S (ticks w) ->
     (now = None \/ now = Some t) -> get_exact_binding t (context_binding c q) st = (db w', Ok found) -> Q (Ok found) w') ->
  wp (_get c q now) Q w.
Proof.
  intros Hok Herr HQ. unfold _get, wp, cancellable.
  set (op := fun (_ : Z) st => get_exact_binding (default (wall (ticks w)) now) (context_binding c q) st).
  pose proof (wp_call forecast others_later LApproval op
    (fun r w' => after w w' /\ (forall a, r = Ok a -> exists t st, db_ok st /\ db_later (db w) st /\ (op t st).2 = Ok a /\ db w' = (op t st).1))
    w Hok) as Hc.
  destruct (call_ticks op w) as [Ht Hfuel]. unfold wp in Hc.
  destruct Hc as ([Hok' Hlater] & Hr); [by intros t st _; apply get_step|by intros r w' Ha _ Hr; split|].
  destruct (call _ _ _ w) as [w' r]. cbn [fst snd] in *. destruct (w_cancelled _); [by apply Herr|].
  destruct r as [found|e]; [|apply Herr; [congruence|done]].
  destruct (Hr found eq_refl) as (t & st & Hst & Hl & Hop & Hdb). apply (HQ found w' st (default (wall (ticks w)) now)); try done.
  - destruct now; [by right|by left].
  - unfold op in Hop, Hdb. rewrite Hdb, <- Hop. by destruct (get_exact_binding _ _ st).
Qed.

Definition settled (c : run_context) (q : AuthorizationRequest) (st : approvals) (record : ApprovalRecord) : Prop :=
  tells (context_binding c q) st record /\ status record <> PENDING.

Lemma wp_wait_loop c q deadline fuel : forall record w, approvals_reachable (db w) -> tells (context_binding c q) (db w) record ->
  deadline - loop_time (ticks w) < Z.of_nat fuel -> (0 < fuel)%nat ->
  wp (wait_loop fuel c q deadline record) (fun r w' => r <> Err LOutOfFuel /\ approvals_reachable (db w')
    /\ forall record', r = Ok (Some record') -> settled c q (db w') record') w.
Proof.
  induction fuel as [|fuel IH]; intros record w Hok Ht Hfuel Hpos; [lia|]. cbn [wait_loop].
  destruct (decide (status record = PENDING)) as [Hp|Hp].
  2:{ apply wp_ret. split; [done|]. split; [done|]. by intros record' [= <-]. }
  apply wp_bind. unfold wp at 1, now_of. cbn [fst snd]. set (t := loop_time (ticks w)). destruct (_ <=? 0) eqn:Hd.
  - apply wp_read; [done| |].
    + intros e w' He Hok'. split; [congruence|]. by split.
    + intros found w' st now Hst Hl Htk Hnow Hget. destruct Hnow as [|[= <-]]; [done|].
      assert (db w' = (get_exact_binding (expires_at record) (context_binding c q) st).1) as Hdb by by rewrite Hget.
      split; [done|]. split.
      * rewrite Hdb. unfold approvals_reachable in *. etrans; [exact Hst|apply get_step].
      * intros record' [= ->]. split.
        -- rewrite Hdb. apply get_tells. by rewrite Hget.
        -- eapply (get_at_deadline (context_binding c q) st record); [done|by eapply tells_later|by rewrite Hget].
  - apply Z.leb_gt in Hd. apply wp_bind. unfold sleep. apply wp_cancellable.
    unfold wp at 1. cbn [fst snd]. set (w1 := mkWorld (w_others _ _) _ _ _). assert (db_later (db w) (db w1)) as Hl1 by (apply others_later; exact Hok).
    assert (approvals_reachable (db w1)) as Hok1 by exact (db_later_ok (db w) (db w1) Hok Hl1).
    split; [|done].
    apply wp_bind. apply wp_read; [done| |].
    + intros e w' He Hok'. split; [congruence|]. by split.
    + intros found w' st now Hst Hl Htk _ Hget.
      assert (db w' = (get_exact_binding now (context_binding c q) st).1) as Hdb by by rewrite Hget.
      assert (approvals_reachable (db w')) as Hok' by (rewrite Hdb; unfold approvals_reachable in *; etrans; [exact Hst|apply get_step]).
      destruct found as [record'|]; [|by apply wp_raise].
      pose proof (sleep_lasts (ticks w) (poll_interval `min` (0 `max` (deadline - t))) Hd) as Hs.
      pose proof (clock_monotone (ticks w1)) as Hm. apply IH; [done| | |].
      * rewrite Hdb. apply get_tells. by rewrite Hget.
      * rewrite Htk. change (ticks w1) with (wake (ticks w) (poll_interval `min` (0 `max` (deadline - t)))) in *. lia.
      * fold t in Hs. unfold t in *. lia.
Qed.

Lemma cancel_in_time c q w : (cancel c q w).2 <> Err LOutOfFuel.
Proof.
  unfold cancel, cancellable. set (op := fun (_ : Z) st => cancel_one _ _ st). pose proof (call_ticks op w) as [_ Hne].
  unfold mbind, M_bind. destruct (call _ _ _ w) as [w' [b|e]]; cbn in *; (destruct (w_cancelled _); [discriminate|]); [done|].
  intros [= ->]. by apply Hne.
Qed.

Lemma wp_wait_for_decision c q w : approvals_reachable (db w) ->
  wp (wait_for_decision c q) (fun r w' => r <> Err LOutOfFuel /\ forall o, r = Ok o ->
    exists record, settled c q (db w') record /\ approvals_reachable (db w')
      /\ new_outcome (outcome_reason record).1 (q_call_id q) (q_tool q) (q_hash q) (outcome_reason record).2 = Ok o) w.
Proof.
  intros Hok. unfold wait_for_decision. apply wp_bind, wp_try, wp_bind. apply wp_read; [done| |].
  - intros e w' He Hok'. destruct e; try (split; [done|done]). apply wp_bind. unfold wp at 1.
    pose proof (cancel_in_time c q w') as Hc. destruct (cancel c q w') as [w2 [[]|e2]]; cbn [fst snd] in *; split; congruence.
  - intros found w' st t Hst Hl Htk _ Hget.
    assert (db w' = (get_exact_binding t (context_binding c q) st).1) as Hdb by by rewrite Hget.
    assert (approvals_reachable (db w')) as Hok' by (rewrite Hdb; unfold approvals_reachable in *; etrans; [exact Hst|apply get_step]).
    destruct found as [record|]; [|by split].
    apply wp_bind. unfold wp at 1, now_of. cbn [fst snd]. apply wp_bind. unfold wp at 1. cbn [fst snd].
    eapply wp_mono; [apply wp_wait_loop; [done| |lia|lia]|].
    { rewrite Hdb. apply get_tells. by rewrite Hget. }
    intros r w2 (Hne & Hok2 & Hs). destruct r as [[record'|]|e].
    + specialize (Hs record' eq_refl). destruct (outcome_reason record') as [approved reason] eqn:Hr. apply wp_of_result.
      split; [by destruct (new_outcome _ _ _ _ _)|]. intros o Ho. exists record'. split; [done|]. split; [done|]. rewrite Hr. cbn.
      destruct (new_outcome _ _ _ _ _) as [o'|]; [|done]. cbn in Ho. congruence.
    + by split.
    + destruct e; try (split; [congruence|done]). apply wp_bind. unfold wp at 1.
      pose proof (cancel_in_time c q w2) as Hc. destruct (cancel c q w2) as [w3 [[]|e2]]; cbn [fst snd] in *; split; congruence.
Qed.

Lemma new_outcome_Ok approved i t h why o : new_outcome approved i t h why = Ok o -> o = mkAuthOutcome approved i t h why.
Proof. unfold new_outcome. intros H. inv_result. repeat match goal with H : _ = Ok _ |- _ => revert H end. intros; inv_result. done. Qed.

Lemma outcome_approves record : (outcome_reason record).1 = true <-> status record = APPROVED.
Proof. unfold outcome_reason. by destruct (status record). Qed.
(** *** Elapsed time *)

Section time.
Context (latency slack : Z).
Hypothesis calls_quick : forall n, loop_time (S n) <= loop_time n + latency.
Hypothesis sleeps_short : forall n d, 0 < d -> loop_time (wake n d) <= loop_time n + d + slack.

Lemma latency_nonneg : 0 <= latency.
Proof using clock_monotone calls_quick. pose proof (clock_monotone 0). pose proof (calls_quick 0). lia. Qed.

Lemma get_ticks c q now (w : W) : ticks (_get c q now w).1 = S (ticks w).
Proof.
  unfold _get, cancellable. set (op := fun (_ : Z) st => get_exact_binding _ _ st). pose proof (call_ticks op w) as [Ht _].
  destruct (call _ _ _ w) as [w' r]. exact Ht.
Qed.

Lemma cancel_ticks c q (w : W) : ticks (cancel c q w).1 = S (ticks w).
Proof.
  unfold cancel, cancellable. set (op := fun (_ : Z) st => cancel_one _ _ st). pose proof (call_ticks op w) as [Ht _].
  unfold mbind, M_bind. by destruct (call _ _ _ w) as [w' [b|e]].
Qed.

(** A sleep never reaches past the deadline by more than its slack, and one read follows. *)
Lemma loop_in_time c q deadline fuel : forall record (w : W), loop_time (ticks w) <= deadline + slack + latency ->
  loop_time (ticks (wait_loop fuel c q deadline record w).1) <= deadline + slack + 2 * latency.
Proof using clock_monotone calls_quick sleeps_short.
  pose proof latency_nonneg as Hl. induction fuel as [|fuel IH]; intros record w Hw; cbn [wait_loop]; [cbn; lia|].
  destruct (decide (status record = PENDING)); [|cbn; lia].
  unfold mbind at 1, M_bind at 1, now_of. cbn beta iota zeta. set (t := loop_time (ticks w)) in *. set (delay := poll_interval `min` _).
  destruct (Z.leb_spec delay 0) as [Hd|Hd]; [rewrite get_ticks; specialize (calls_quick (ticks w)); fold t in calls_quick; lia|].
  assert (loop_time (wake (ticks w) delay) <= deadline + slack) as Hs.
  { specialize (sleeps_short (ticks w) delay Hd). unfold t, delay in *. lia. }
  unfold mbind at 1, M_bind at 1, sleep, cancellable. destruct (w_cancelled _); cbn [fst snd ticks]; [lia|].
  set (w1 := mkWorld _ (wake _ _) _ _). unfold mbind, M_bind. pose proof (get_ticks c q None w1) as Ht. specialize (calls_quick (wake (ticks w) delay)).
  destruct (_get c q None w1) as [w2 [[record'|]|err]]; cbn [fst snd] in *; [|cbn; rewrite Ht; cbn; lia|rewrite Ht; cbn; lia].
  apply IH. rewrite Ht. cbn. lia.
Qed.

(** The record of a first read has the deadline of the row. *)
Lemma get_expires c q now (w : W) k row record : approvals_reachable (db w) -> db w !! k = Some row ->
  binding_of row = context_binding c q -> (_get c q now w).2 = Ok (Some record) -> expires_at record = r_expires_at row.
Proof using others_later.
  intros Hok Hk Hb. enough (wp (_get c q now) (fun r _ => r = Ok (Some record) -> expires_at record = r_expires_at row) w) as H by exact H.
  apply wp_read; [done|done|]. intros found w' st t Hst Hl _ _ Hget [= ->].
  destruct (approval_history _ _ k row Hl Hk) as (row' & Hk' & Ho).
  assert (db w' = (get_exact_binding t (context_binding c q) st).1) as Hdb by by rewrite Hget.
  assert (rtc approval_step st (db w')) as Hl' by (rewrite Hdb; apply get_step).
  destruct (approval_history _ _ k row' Hl' Hk') as (row2 & Hk2 & Ho2).
  assert (approvals_reachable (db w')) as Hok' by (unfold approvals_reachable in *; by etrans).
  assert (tells (context_binding c q) (db w') record) as (k3 & r3 & Hk3 & Hb3 & _ & _ & He3) by (rewrite Hdb; apply get_tells; by rewrite Hget).
  assert (binding_of row2 = context_binding c q /\ r_expires_at row2 = r_expires_at row) as [Hb2 He2].
  { assert (binding_of row' = binding_of row /\ r_expires_at row' = r_expires_at row) as [? ?] by by destruct Ho as [->|[]].
    assert (binding_of row2 = binding_of row' /\ r_expires_at row2 = r_expires_at row') as [? ?] by by destruct Ho2 as [->|[]]. split; congruence. }
  assert (k3 = k) as ->.
  { apply (approval_unique _ (approvals_reachable_ok _ Hok') k3 k r3 row2 Hk3 Hk2). rewrite <- Hb2 in Hb3. by injection Hb3 as H1 H2 H3 H4 H5 H6. }
  congruence.
Qed.

Lemma bind_ticks {A B} (m : Mx A) (f : A -> Mx B) (w : W) : (forall a w', ticks (f a w').1 = ticks w') -> ticks ((m ≫= f) w).1 = ticks (m w).1.
Proof. intros Hf. unfold mbind, M_bind. destruct (m w) as [w' [a|err]]; [apply Hf|done]. Qed.

Lemma wait_in_time c q (w : W) k row : approvals_reachable (db w) -> db w !! k = Some row -> binding_of row = context_binding c q ->
  loop_time (ticks (wait_for_decision c q w).1)
  <= loop_time (ticks w) + 0 `max` (r_expires_at row - wall (S (ticks w))) + slack + 4 * latency.
Proof using others_later clock_monotone calls_quick sleeps_short sleep_lasts.
  intros Hok Hk Hb. pose proof latency_nonneg as Hl. assert (0 <= slack) as Hslack.
  { pose proof (sleep_lasts 0 1). pose proof (sleeps_short 0 1). lia. }
  set (limit := loop_time (ticks w) + _ + slack + 4 * latency). unfold wait_for_decision.
  rewrite bind_ticks by by (intros [record|] w'; [destruct (outcome_reason record)|]).
  unfold try_with, mbind at 1, M_bind at 1. pose proof (get_ticks c q None w) as Ht. pose proof (get_expires c q None w k row) as He.
  destruct (_get c q None w) as [w1 [[record|]|e]]; cbn [fst snd] in *.
  - specialize (He record Hok Hk Hb eq_refl). unfold mbind, M_bind, now_of. cbn beta iota zeta. rewrite He, Ht.
    set (left := 0 `max` _) in *. pose proof (calls_quick (ticks w)) as Hc.
    pose proof (loop_in_time c q (loop_time (S (ticks w)) + left) (S (Z.to_nat left)) record w1) as Hloop. rewrite Ht in Hloop. specialize (Hloop ltac:(lia)).
    destruct (wait_loop _ _ _ _ _ w1) as [w2 [found|e]]; cbn [fst] in *; [lia|].
    destruct e; try (cbn; lia). pose proof (cancel_ticks c q w2) as Hct. pose proof (calls_quick (ticks w2)).
    destruct (cancel c q w2) as [w3 [[]|e2]]; cbn in *; rewrite Hct; lia.
  - cbn. rewrite Ht. specialize (calls_quick (ticks w)). lia.
  - pose proof (calls_quick (ticks w)). destruct e; try (cbn; rewrite Ht; lia). unfold mbind, M_bind. pose proof (cancel_ticks c q w1) as Hct.
    pose proof (calls_quick (ticks w1)). rewrite Ht in *. destruct (cancel c q w1) as [w3 [[]|e2]]; cbn in *; rewrite Hct; lia.
Qed.
End time.
End broker.

(** C18. What a waiting run is told is what the table says: when the durable broker
    returns an outcome, it is bound to the request, the row with exactly the run's owner,
    conversation and run and the request's tool call, tool and digest is decided, and the
    outcome approves if and only if that row is approved - which happened before its
    deadline. This holds with other processes changing the table, faults of the database
    and any clock. *)
Theorem waiting_reports_the_decision (forecast : nat -> weather approvals) (wall loop_time : nat -> Z) (wake : nat -> Z -> nat)
    (poll : Z) (c : run_context) (q : AuthorizationRequest) (w : world approvals unit unit) (o : AuthorizationOutcome) :
  fair forecast -> (forall n, loop_time n <= loop_time (S n)) ->
  (forall n d, 0 < d -> loop_time n + d <= loop_time (wake n d)) -> approvals_reachable (db w) ->
  let r := wait_for_decision forecast wall loop_time wake poll c q w in
  r.2 = Ok o ->
  binds o q = true /\
  exists k row, db r.1 !! k = Some row /\ binding_of row = context_binding c q /\ r_status row <> PENDING
    /\ (o_approved o = true <-> r_status row = APPROVED)
    /\ (o_approved o = true -> exists t, r_decided_at row = Some t /\ t < r_expires_at row).
Proof.
  intros Hf Hm Hs Hok r Ho.
  destruct (wp_wait_for_decision forecast wall loop_time wake poll Hf Hm Hs c q w Hok) as [_ H]. fold r in H.
  destruct (H o Ho) as (record & [(k & row & Hk & Hb & Hst & Hd & He) Hne] & Hok' & ->%new_outcome_Ok).
  split; [by apply binds_spec|]. exists k, row. cbn. rewrite Hst, outcome_approves. repeat (split; [done|]).
  intros Ha. destruct (approval_rows _ (approvals_reachable_ok _ Hok') k row Hk) as [_ Hdec].
  rewrite Hst, Ha in Hdec. unfold decision_ok in Hdec. destruct (r_decision_reason row), (r_decided_at row) as [t|]; try done.
  by exists t.
Qed.

(** C19. Waiting ends, within the time its request had left: the polling loop never uses up
    its fuel, one unit more than that time, because every sleep lasts at least one unit; and
    if a call of the database takes at most [latency] and a sleep at most [slack] longer
    than asked, the answer is there no later than the row's deadline, plus one [slack] and
    four [latency]. *)
Theorem waiting_ends (forecast : nat -> weather approvals) (wall loop_time : nat -> Z) (wake : nat -> Z -> nat)
    (poll : Z) (c : run_context) (q : AuthorizationRequest) (w : world approvals unit unit) :
  fair forecast -> (forall n, loop_time n <= loop_time (S n)) ->
  (forall n d, 0 < d -> loop_time n + d <= loop_time (wake n d)) -> approvals_reachable (db w) ->
  let r := wait_for_decision forecast wall loop_time wake poll c q w in
  r.2 <> Err LOutOfFuel
  /\ forall latency slack k row,
       (forall n, loop_time (S n) <= loop_time n + latency) -> (forall n d, 0 < d -> loop_time (wake n d) <= loop_time n + d + slack) ->
       db w !! k = Some row -> binding_of row = context_binding c q ->
       loop_time (ticks r.1) <= loop_time (ticks w) + 0 `max` (r_expires_at row - wall (S (ticks w))) + slack + 4 * latency.
Proof.
  intros Hf Hm Hs Hok r. split; [by destruct (wp_wait_for_decision forecast wall loop_time wake poll Hf Hm Hs c q w Hok)|].
  intros latency slack k row Hq Hn. by apply (wait_in_time forecast wall loop_time wake poll Hf Hm Hs latency slack Hq Hn).
Qed.
End DurableApproval.

(** ** Witnesses *)

Definition demo_context : run_context := mkContext "alice" "conv-1" "run-1".
Definition demo_question : AuthorizationRequest := mkAuthRequest "call-1" "write_file" demo_hash {[ WRITE; EXECUTE ]} None.

Definition demo_decided : list broker_call := [BDecide "alice" "run-1" "call-1" true].

Lemma broker_answer_is_owners_witness : exists b o,
  end_wait demo_context demo_question 0 (broker_after ([BReserve demo_context demo_question] ++ demo_decided)) = (b, Some (Ok o))
  /\ o_approved o = true /\ binds o demo_question = true.
Proof.
  eexists _, _. split; [vm_compute; reflexivity|]. split; [reflexivity|].
  refine (proj1 (broker_answer_is_owners [BReserve demo_context demo_question] demo_decided demo_context demo_question 0 _ _ _ _));
    vm_compute; reflexivity.
Defined.

(** Another process approves during the second sleep. *)
Definition approval_weather (n : nat) : weather approvals :=
  mkWeather (fun st => if (n =? 106)%nat then perform (CallDecideExact 107 "alice" "run-1" "call-1" APPROVED "user_approved") st else st)
    Clean false.

Lemma approval_weather_fair : fair approval_weather.
Proof.
  intros n st _. unfold approval_weather. cbn. destruct (n =? 106)%nat; [|done].
  apply rtc_once. by exists (CallDecideExact 107 "alice" "run-1" "call-1" APPROVED "user_approved").
Qed.

Definition demo_sleep (n : nat) (d : Z) : nat := (n + Z.to_nat d)%nat.

Lemma demo_sleep_lasts : forall n d, 0 < d -> Z.of_nat n + d <= Z.of_nat (demo_sleep n d).
Proof. intros n d Hd. unfold demo_sleep. lia. Qed.

Definition demo_wait :=
  DurableApproval.wait_for_decision approval_weather Z.of_nat Z.of_nat demo_sleep 4 demo_context demo_question
    (mkWorld demo_waiting 100 tt []).

Lemma waiting_reports_the_decision_witness : exists o k row, demo_wait.2 = Ok o /\ o_approved o = true
  /\ db demo_wait.1 !! k = Some row /\ binding_of row = DurableApproval.context_binding demo_context demo_question
  /\ r_status row = APPROVED.
Proof.
  assert (exists o, demo_wait.2 = Ok o /\ o_approved o = true) as (o & Ho & Ha) by (eexists; split; vm_compute; reflexivity).
  destruct (DurableApproval.waiting_reports_the_decision approval_weather Z.of_nat Z.of_nat demo_sleep 4 demo_context demo_question
    (mkWorld demo_waiting 100 tt []) o approval_weather_fair ltac:(intros; lia) demo_sleep_lasts demo_waiting_reachable Ho)
    as (_ & k & row & Hk & Hb & _ & Hiff & _).
  exists o, k, row. split; [exact Ho|]. split; [exact Ha|]. split; [exact Hk|]. split; [exact Hb|]. by apply Hiff.
Defined.

(** The row was reserved at 100 for 30 seconds. *)
Lemma waiting_ends_witness : demo_wait.2 <> Err DurableApproval.LOutOfFuel /\ Z.of_nat (ticks demo_wait.1) <= 134.
Proof.
  destruct (DurableApproval.waiting_ends approval_weather Z.of_nat Z.of_nat demo_sleep 4 demo_context demo_question
    (mkWorld demo_waiting 100 tt []) approval_weather_fair ltac:(intros; lia) demo_sleep_lasts demo_waiting_reachable) as [Hne Ht].
  split; [exact Hne|]. destruct (demo_waiting !! demo_uuid) as [row|] eqn:Hk; [|vm_compute in Hk; discriminate Hk].
  assert (binding_of row = DurableApproval.context_binding demo_context demo_question /\ r_expires_at row = 130) as [Hb He]
    by (vm_compute in Hk; injection Hk as <-; split; reflexivity).
  specialize (Ht 1 0 demo_uuid row ltac:(intros; lia) ltac:(intros; unfold demo_sleep; lia) Hk Hb). rewrite He in Ht. exact Ht.
Defined.
