(* ===== verification/RunLedger.v ===== *)
(** * The run ledger ([services/run_ledger.py])

    Every run has a row that allocates the sequence numbers of its events, and events
    are only ever appended, under the owner's row and while the run is running; the
    event that stops a run also ends the row. Runs can be forked from a checkpoint into
    a new conversation, whose first run inherits the lineage, and whole runs that have
    ended are pruned.

    Tables are finite maps; messages are a list in the order of their ids. Times are
    integers in microseconds; a float column holds an exact rational. Statements are those
    of the SQLite and PostgreSQL dialects. [uuid5] and the iteration order of a frozen set
    are arguments, fresh uuids come with the call. *)

From Stdlib Require Import ZArith QArith Lia String Ascii.
From stdpp Require Import base gmap strings list fin_maps sorting relations pretty.
From S2P Require Import Prelude Strings Sql Json JsonText Disclosure Redaction.
Open Scope Z_scope.
#[local] Set Warnings "-notation-overridden".

(** ** Rows *)

Inductive RunStatus : Type := running | completed | failed | cancelled.

#[export] Instance RunStatus_eq_dec : EqDecision RunStatus.
Proof. solve_decision. Defined.

(** What [ensure_run] is told, and never changes. *)
Record RunIdentity : Type := mkIdentity {
  user_id : string;
  project_id : string;
  conversation_id : string;
  correlation_id : string;
  provider : string;
  model : string
}.

#[export] Instance RunIdentity_eq_dec : EqDecision RunIdentity.
Proof. solve_decision. Defined.

Record RunRow : Type := mkRun {
  identity : RunIdentity;
  parent_run_id : option string;
  fork_source_sequence : option Z;
  schema_version : Z;
  status : RunStatus;
  started_at : Z;
  completed_at : option Z;
  stop_reason : option string;
  answer_summary : option string;
  input_tokens : Z;
  output_tokens : Z;
  total_tokens : Z;
  cost_usd : option Q;
  latency_ms : option Q;
  iterations : Z;
  next_sequence : Z
}.

Record RuntimeEventRow : Type := mkEvent {
  e_user : string;
  e_project : string;
  e_conversation : string;
  e_correlation : string;
  event_at : Z;
  kind : string;
  e_schema : Z;
  iteration : Z;
  payload : string
}.

Record RunCheckpointRow : Type := mkCheckpoint {
  cp_user : string;
  cp_project : string;
  cp_run : string;
  cp_sequence : Z;
  conversation_snapshot : string;
  policy_profile : string;
  selected_memory_ids : string;
  cp_created : Z
}.

Record ForkDraftRow : Type := mkDraft {
  d_checkpoint : string;
  d_user : string;
  d_project : string;
  source_run_id : string;
  source_sequence : Z;
  target_conversation_id : string;
  d_created : Z
}.

Record ConversationRow : Type := mkConversation {
  title : string;
  c_user : string;
  c_created : Z;
  c_updated : Z
}.

Record MessageRow : Type := mkMessage {
  m_conversation : string;
  role : string;
  content : string;
  m_created : Z
}.

(** Events are kept under their run and sequence, which the table has unique. *)
Record ledger : Type := mkLedger {
  runs : gmap string RunRow;
  events : gmap (string * Z) RuntimeEventRow;
  checkpoints : gmap string RunCheckpointRow;
  drafts : gmap string ForkDraftRow;
  conversations : gmap string ConversationRow;
  messages : list MessageRow
}.

Definition empty : ledger := mkLedger ∅ ∅ ∅ ∅ ∅ [].

Inductive ledger_error : Type :=
| LedgerValueError (message : string)
| LedgerDataError
| LedgerRuntimeError
| IntegrityError
| LedgerMultipleResults.

#[export] Instance ledger_error_eq_dec : EqDecision ledger_error.
Proof. solve_decision. Defined.

Definition set_runs (f : gmap string RunRow -> gmap string RunRow) (st : ledger) : ledger :=
  mkLedger (f (runs st)) (events st) (checkpoints st) (drafts st) (conversations st) (messages st).

Definition set_events (f : gmap (string * Z) RuntimeEventRow -> gmap (string * Z) RuntimeEventRow) (st : ledger) : ledger :=
  mkLedger (runs st) (f (events st)) (checkpoints st) (drafts st) (conversations st) (messages st).

Definition set_drafts (f : gmap string ForkDraftRow -> gmap string ForkDraftRow) (st : ledger) : ledger :=
  mkLedger (runs st) (events st) (checkpoints st) (f (drafts st)) (conversations st) (messages st).

(** ** Safe payloads *)

Definition SCHEMA_VERSION : Z := 1.
Definition MAX_PAGE : Z := 200.
Definition RUN_STOPPED : string := "run_stopped".

Definition _SAFE_FIELDS : list (string * list string) := [
  ("run_started", ["safe"]);
  ("iteration_started", []);
  ("model_response", ["provider_stop_reason"; "actual_provider"; "actual_model"; "cache_read_input_tokens";
     "cache_write_input_tokens"]);
  ("budget_blocked", ["code"; "stop_reason"]);
  ("provider_capability_rejected", ["code"; "missing_capabilities"]);
  ("structured_output_rejected", ["code"]);
  ("model_progress", []);
  ("text_delta", []);
  ("tool_call_requested", ["id"; "name"; "arguments_hash"]);
  ("policy_decided", ["id"; "name"; "arguments_hash"; "risk_classes"; "matched_rule_id"; "action"; "reason_code"]);
  ("tool_call_completed", ["id"; "name"; "arguments_hash"; "output_hash"; "output_size"; "status"]);
  ("tool_progress", ["id"; "name"; "status"; "offset"; "total"]);
  ("approval_required", ["id"; "name"; "arguments_hash"; "risk_classes"; "matched_rule_id"]);
  ("approval_decided", ["id"; "name"; "arguments_hash"; "approved"; "reason_code"]);
  ("tool_denied", ["id"; "name"; "arguments_hash"; "action"; "reason_code"; "status"]);
  ("evidence_retrieved", ["evidence_ids"; "document_ids"; "chunk_ids"; "content_hashes"; "scores"; "evidence_count";
     "web_evidence_count"; "web_search_source"; "web_filtered_count"; "ranked_evidence"]);
  ("claim_verified", ["claim_hashes"; "unsupported_hashes"; "cited_evidence_ids"; "supported_count"; "unsupported_count"]);
  ("grounded_answer", ["answer_hash"; "citation_ids"; "supported_count"; "unsupported_count"]);
  ("orchestration_routed", ["requested_mode"; "resolved_mode"; "reason_code"; "router_version"; "degraded"]);
  ("delegation_requested", ["child_id"; "parent_run_id"; "user_id"; "project_id"; "policy_id"; "claim_ids";
     "claim_hashes"; "evidence_ids"; "content_hashes"; "claim_count"; "evidence_count"; "status"; "reason_code";
     "input_tokens"; "output_tokens"; "profile_id"; "specialist_kind"; "tool_count"]);
  ("delegation_completed", ["child_id"; "parent_run_id"; "claim_ids"; "claim_hashes"; "evidence_ids"; "content_hashes";
     "claim_count"; "evidence_count"; "supported_count"; "rejected_count"; "escalated_count"; "status"; "reason_code";
     "reason_codes"; "input_tokens"; "output_tokens"; "total_tokens"; "profile_id"; "specialist_kind"; "iterations";
     "tool_count"]);
  ("reflection_started", ["rubric_id"; "rubric_version"; "draft_hash"; "max_revisions"]);
  ("reflection_verdict", ["rubric_id"; "rubric_version"; "draft_hash"; "critique_hash"; "verdict"; "issue_codes";
     "evidence_refs"; "confidence"]);
  ("reflection_completed", ["rubric_id"; "rubric_version"; "draft_hash"; "selected_hash"; "outcome"; "calls"; "revisions";
     "input_tokens"; "output_tokens"; "cost_microusd"]);
  ("run_stopped", ["reason"; "error"; "cache_read_input_tokens"; "cache_write_input_tokens"; "persistence_duration_ms";
     "workflow_duration_ms"])]%string.

(** [d.get(key)] *)
Fixpoint get_item {A} (key : string) (d : list (string * A)) : option A :=
  match d with
  | [] => None
  | (k, v) :: d' => if string_eqb k key then Some v else get_item key d'
  end.

Definition allowed_fields (k : string) : option (list string) := get_item k _SAFE_FIELDS.

(** [bool(v)] *)
Definition truthy (v : json) : bool :=
  match v with
  | JNull => false
  | JBool b => b
  | JInt z => negb (z =? 0)
  | JFloat t => negb (bool_decide (t ∈ ["0.0"; "-0.0"]%string))
  | JStr s => negb (string_eqb s "")
  | JArr l => match l with [] => false | _ => true end
  | JObj kvs => match kvs with [] => false | _ => true end
  end.

(** [repr] of a string, for ASCII text. *)
Definition repr_char (quote c : ascii) : string :=
  let n := nat_of_ascii c in
  if Ascii.eqb c quote then String "\" (String c "")
  else if (n =? 92)%nat then "\\"
  else if (n =? 10)%nat then "\n"
  else if (n =? 13)%nat then "\r"
  else if (n =? 9)%nat then "\t"
  else if (n <? 32)%nat || (n =? 127)%nat then "\x" ++ String (hex_digit (n / 16)) (String (hex_digit (n mod 16)) "")
  else String c "".

Fixpoint repr_chars (quote : ascii) (s : string) : string :=
  match s with EmptyString => "" | String c s' => repr_char quote c ++ repr_chars quote s' end.

Definition DOUBLE_QUOTE : ascii := ascii_of_nat 34.

Definition repr_string (s : string) : string :=
  let quote := if contains_char "'" s && negb (contains_char DOUBLE_QUOTE s) then DOUBLE_QUOTE else "'"%char in
  String quote (repr_chars quote s) ++ String quote "".

Fixpoint repr_json (v : json) : string :=
  match v with
  | JNull => "None"
  | JBool b => if b then "True" else "False"
  | JInt z => pretty z
  | JFloat t => t
  | JStr s => repr_string s
  | JArr l => "[" ++ join_with ", " ((fix go l := match l with [] => [] | x :: l' => repr_json x :: go l' end) l) ++ "]"
  | JObj kvs =>
      "{" ++ join_with ", " ((fix go l := match l with
        | [] => [] | (k, x) :: l' => (repr_string k ++ ": " ++ repr_json x)%string :: go l' end) kvs) ++ "}"
  end.

(** [str(v)] *)
Definition str_json (v : json) : string := match v with JStr s => s | _ => repr_json v end.

(** [s[:n]] *)
Definition truncate (n : Z) (s : string) : string := String.substring 0 (Z.to_nat n) s.

(** No [nan] and no infinity, which [allow_nan=False] refuses. *)
Fixpoint finite_json (v : json) : bool :=
  match v with
  | JFloat t => finite_repr t
  | JArr l => (fix go l := match l with [] => true | x :: l' => finite_json x && go l' end) l
  | JObj kvs => (fix go l := match l with [] => true | (_, x) :: l' => finite_json x && go l' end) kvs
  | _ => true
  end.

(** What the repository is built with, the order in which it meets a set's elements, and when
    the database checks a foreign key declared [ON DELETE RESTRICT]: SQLite at once, for every
    deleted row, PostgreSQL when the statement ends. *)
Record environment : Type := mkEnvironment {
  nlp : option (string -> list (string * string * nat * nat));
  set_order : list string -> list string;
  uuid5 : string -> string;
  restrict_immediate : bool
}.

Section repository.
Variable env : environment.

Definition redact_str (s : string) : string := red_text (redact_text (nlp env) s).

Definition project (fields : list string) (data : list (string * json)) : list (string * json) :=
  omap (fun key => (fun v => (key, v)) <$> get_item key data) (set_order env fields).

Definition hide_error (kv : string * json) : string * json :=
  if string_eqb kv.1 "error" then (kv.1, JBool (truthy kv.2)) else kv.

Definition safe_event_payload (k : string) (data : list (string * json)) : result ledger_error (list (string * json)) :=
  match allowed_fields k with
  | None => Err (LedgerValueError "unsupported runtime event kind")
  | Some fields =>
      match redact_value (nlp env) (JObj (hide_error <$> project fields data)) with
      | JObj safe => Ok safe
      | _ => Err (LedgerValueError "event payload must be an object")
      end
  end.

(** ** Opening runs *)

Definition new_run (now : Z) (who : RunIdentity) (parent : option string) : RunRow :=
  mkRun who parent None SCHEMA_VERSION running now None None None 0 0 0 None None 0 1.

Definition draft_for (who : RunIdentity) (_ : string) (d : ForkDraftRow) : bool :=
  bool_decide (d_user d = user_id who /\ d_project d = project_id who
               /\ target_conversation_id d = conversation_id who).

Definition set_lineage (d : ForkDraftRow) (r : RunRow) : RunRow :=
  mkRun (identity r) (Some (source_run_id d)) (Some (source_sequence d)) (schema_version r) (status r) (started_at r)
    (completed_at r) (stop_reason r) (answer_summary r) (input_tokens r) (output_tokens r) (total_tokens r)
    (cost_usd r) (latency_ms r) (iterations r) (next_sequence r).

Definition owned_run (run user k : string) (r : RunRow) : bool :=
  bool_decide (k = run /\ user_id (identity r) = user).

(** [parent_run_id] refers to a run. *)
Definition parent_exists (parent : string) (t : gmap string RunRow) : bool := bool_decide (is_Some (t !! parent)).

Definition ensure_run (now : Z) (run : string) (who : RunIdentity) (st : ledger) : ledger * result ledger_error unit :=
  match runs st !! run with
  | Some _ => (st, Ok tt)
  | None =>
      let st1 := set_runs (insert run (new_run now who None)) st in
      match one_or_none (draft_for who) (drafts st1) with
      | None => (st, Err LedgerMultipleResults)
      | Some None => (st1, Ok tt)
      | Some (Some (_, d)) =>
          if parent_exists (source_run_id d) (runs st1)
          then (set_drafts (filter (fun kd => draft_for who kd.1 kd.2 = false))
                  (set_runs (update_where (owned_run run (user_id who)) (set_lineage d)) st1), Ok tt)
          else (st, Err IntegrityError)
      end
  end.

(** The child is looked up in [view] first; the insertion meets the database. *)
Definition child_matches (parent user project : string) (r : RunRow) : bool :=
  bool_decide (user_id (identity r) = user /\ project_id (identity r) = project /\ parent_run_id r = Some parent).

(** [value or fallback] for an optional string. *)
Definition or_else (value : option string) (fallback : string) : string :=
  match value with Some s => if string_eqb s "" then fallback else s | None => fallback end.

Definition ensure_child_run_at (now : Z) (run parent user project prov mdl : string) (conv corr : option string)
    (view : gmap string RunRow) (st : ledger) : ledger * result ledger_error unit :=
  match runs st !! parent with
  | None => (st, Err (LedgerValueError "parent run does not exist"))
  | Some p =>
      if negb (bool_decide (user_id (identity p) = user /\ project_id (identity p) = project))
      then (st, Err (LedgerValueError "parent run owner mismatch"))
      else match view !! run with
      | Some existing =>
          (st, require (child_matches parent user project existing) (LedgerValueError "child run identity mismatch"))
      | None =>
          let who := mkIdentity user project (or_else conv (conversation_id (identity p)))
                       (or_else corr (correlation_id (identity p))) prov mdl in
          let st1 := match runs st !! run with
                     | Some _ => st
                     | None => set_runs (insert run (new_run now who (Some parent))) st
                     end in
          match runs st1 !! run with
          | Some persisted =>
              if child_matches parent user project persisted then (st1, Ok tt)
              else (st, Err (LedgerValueError "child run identity mismatch"))
          | None => (st, Err (LedgerValueError "child run identity mismatch"))
          end
      end
  end.

Definition ensure_child_run (now : Z) (run parent user project prov mdl : string) (conv corr : option string) (st : ledger) :=
  ensure_child_run_at now run parent user project prov mdl conv corr (runs st) st.

(** ** Appending events *)

Definition open_run (run user k : string) (r : RunRow) : bool :=
  owned_run run user k r && bool_decide (status r = running /\ completed_at r = None).

Definition take_sequence (r : RunRow) : RunRow :=
  mkRun (identity r) (parent_run_id r) (fork_source_sequence r) (schema_version r) (status r) (started_at r)
    (completed_at r) (stop_reason r) (answer_summary r) (input_tokens r) (output_tokens r) (total_tokens r)
    (cost_usd r) (latency_ms r) (iterations r) (next_sequence r + 1).

Record Usage : Type := mkUsage { used_input : Z; used_output : Z; used_total : Z }.

Definition final_status (reason error : option json) : RunStatus :=
  if match reason with Some (JStr s) => string_eqb s "cancelled" | _ => false end then cancelled
  else if match error with Some v => truthy v | None => false end then failed
  else completed.

(** [str(reason)[:100] if reason is not None else None] *)
Definition stop_text (reason : option json) : option string :=
  match reason with None | Some JNull => None | Some v => Some (truncate 100 (str_json v)) end.

Definition finish (now : Z) (reason error : option json) (u : Usage) (iter : Z) (r : RunRow) : RunRow :=
  mkRun (identity r) (parent_run_id r) (fork_source_sequence r) (schema_version r) (final_status reason error) (started_at r)
    (Some now) (stop_text reason) (answer_summary r) (used_input u) (used_output u) (used_total u)
    (cost_usd r) (Some (Qmake (now - started_at r) 1000)) iter (next_sequence r).

(** The second transaction of [append]: the payload, the sequence number, the event, and
    the end of the run if this is its last event. *)
Definition append_event (now : Z) (run : string) (who : RunIdentity) (k : string) (iter : Z)
    (data : list (string * json)) (u : Usage) (st : ledger) : ledger * result ledger_error Z :=
  match safe_event_payload k data with
  | Err e => (st, Err e)
  | Ok safe =>
      if negb (finite_json (JObj safe)) then (st, Err (LedgerValueError "out of range float"))
      else
        let open := open_run run (user_id who) in
        let runs1 := update_where open take_sequence (runs st) in
        match scalar open (runs st) with
        | None =>
            (st, Err (LedgerValueError
              (match scalar (owned_run run (user_id who)) (runs st) with
               | None => "run owner mismatch"
               | Some _ => "run is not running"
               end)))
        | Some (_, row) =>
            let sequence := next_sequence row in
            let event := mkEvent (user_id who) (project_id who) (conversation_id who) (correlation_id who) now k
                           SCHEMA_VERSION iter (dumps_unsorted (JObj safe)) in
            if bool_decide (is_Some (events st !! (run, sequence))) then (st, Err IntegrityError)
            else
              let st1 := set_events (insert (run, sequence) event) (set_runs (fun _ => runs1) st) in
              if negb (string_eqb k RUN_STOPPED) then (st1, Ok sequence)
              else if negb (Nat.eqb (rowcount open runs1) 1) then (st, Err (LedgerValueError "run is not running"))
              else (set_runs (update_where open (finish now (get_item "reason" safe) (get_item "error" safe) u iter)) st1,
                    Ok sequence)
        end
  end.

(** [append] opens the run first, in a transaction of its own; [between] is what other
    clients commit before the second one. *)
Definition append (now : Z) (run : string) (who : RunIdentity) (k : string) (iter : Z) (data : list (string * json))
    (u : Usage) (between : ledger -> ledger) (st : ledger) : ledger * result ledger_error Z :=
  match ensure_run now run who st with
  | (st1, Err e) => (st1, Err e)
  | (st1, Ok _) => append_event now run who k iter data u (between st1)
  end.

(** ** Reading *)

Definition page_ok (limit position : Z) : bool := (1 <=? limit) && (limit <=? MAX_PAGE) && (0 <=? position).

Definition _bounded_page (limit position : Z) : result ledger_error unit :=
  require (page_ok limit position) (LedgerValueError "pagination is outside supported bounds").

Record RunRecord : Type := mkRunRecord {
  rec_run : string;
  rec_identity : RunIdentity;
  rec_schema : Z;
  rec_status : RunStatus;
  rec_started : Z;
  rec_completed : option Z;
  rec_stop_reason : option string;
  rec_summary : option string;
  rec_tokens : Usage;
  rec_cost : option Q;
  rec_latency : option Q;
  rec_iterations : Z;
  rec_parent : option string;
  rec_fork_sequence : option Z
}.

Definition _run_record (run : string) (r : RunRow) : result ledger_error RunRecord :=
  if negb (schema_version r =? SCHEMA_VERSION) then Err LedgerDataError
  else Ok (mkRunRecord run (identity r) (schema_version r) (status r) (started_at r) (completed_at r) (stop_reason r)
             (answer_summary r) (mkUsage (input_tokens r) (output_tokens r) (total_tokens r)) (cost_usd r) (latency_ms r)
             (iterations r) (parent_run_id r) (fork_source_sequence r)).

Record RunEventRecord : Type := mkEventRecord {
  ev_run : string;
  ev_project : string;
  ev_conversation : string;
  ev_correlation : string;
  ev_sequence : Z;
  ev_at : Z;
  ev_kind : string;
  ev_schema : Z;
  ev_iteration : Z;
  ev_payload : list (string * json)
}.

Definition _event_record (key : string * Z) (e : RuntimeEventRow) : result ledger_error RunEventRecord :=
  match allowed_fields (kind e) with
  | None => Err LedgerDataError
  | Some fields =>
      if negb (e_schema e =? SCHEMA_VERSION) then Err LedgerDataError
      else match loads (payload e) with
      | Some (JObj data) =>
          if forallb (fun kv => bool_decide (kv.1 ∈ fields)) data
          then Ok (mkEventRecord key.1 (e_project e) (e_conversation e) (e_correlation e) key.2 (event_at e) (kind e)
                     (e_schema e) (iteration e) data)
          else Err LedgerDataError
      | _ => Err LedgerDataError
      end
  end.

Fixpoint each {A B} (f : A -> result ledger_error B) (l : list A) : result ledger_error (list B) :=
  match l with
  | [] => Ok []
  | x :: l' => y ← f x; ys ← each f l'; Ok (y :: ys)
  end.

(** [ORDER BY started_at DESC, run_id DESC] *)
Definition newest_first (a b : string * RunRow) : Prop :=
  started_at b.2 < started_at a.2 \/ (started_at b.2 = started_at a.2 /\ String.leb b.1 a.1 = true).

#[export] Instance newest_first_dec : RelDecision newest_first.
Proof. intros a b. unfold newest_first. apply _. Defined.

Definition window {A} (offset limit : Z) (l : list A) : list A := take (Z.to_nat limit) (drop (Z.to_nat offset) l).

Definition list_where (P : string -> RunRow -> bool) (limit offset : Z) (st : ledger) : result ledger_error (list RunRecord) :=
  _ ← _bounded_page limit offset;
  each (fun kr => _run_record kr.1 kr.2) (window offset limit (merge_sort newest_first (select_where P (runs st)))).

Definition is_none_or {A} `{EqDecision A} (wanted : option A) (a : A) : bool :=
  match wanted with None => true | Some x => bool_decide (a = x) end.

Definition list_runs (user : string) (limit offset : Z) (conv proj : option string) (st : ledger) :=
  list_where (fun _ r => bool_decide (user_id (identity r) = user) && is_none_or conv (conversation_id (identity r))
                         && is_none_or proj (project_id (identity r))) limit offset st.

Definition list_children (user parent : string) (limit offset : Z) (st : ledger) :=
  list_where (fun _ r => bool_decide (user_id (identity r) = user /\ parent_run_id r = Some parent)) limit offset st.

Definition get (user run : string) (st : ledger) : result ledger_error (option RunRecord) :=
  match scalar (owned_run run user) (runs st) with
  | None => Ok None
  | Some (k, r) => record ← _run_record k r; Ok (Some record)
  end.

Definition event_after (user run : string) (after : Z) (key : string * Z) (e : RuntimeEventRow) : bool :=
  bool_decide (key.1 = run /\ e_user e = user) && (after <? key.2).

Definition by_sequence (a b : (string * Z) * RuntimeEventRow) : Prop := a.1.2 <= b.1.2.
#[export] Instance by_sequence_dec : RelDecision by_sequence.
Proof. intros a b. unfold by_sequence. apply _. Defined.

Definition list_events (user run : string) (limit after : Z) (st : ledger)
  : result ledger_error (option (list RunEventRecord)) :=
  _ ← _bounded_page limit after;
  match scalar (owned_run run user) (runs st) with
  | None => Ok None
  | Some _ =>
      items ← each (fun ke => _event_record ke.1 ke.2)
        (take (Z.to_nat limit) (merge_sort by_sequence (select_where (event_after user run after) (events st))));
      Ok (Some items)
  end.

(** ** Display metadata *)

Definition nonnegative (q : Q) : bool := Qle_bool 0 q.

Definition keep_measure (value old : option Q) : option Q :=
  match value with Some q => if nonnegative q then Some q else old | None => old end.

Definition with_metadata (answer : string) (cost latency : option Q) (r : RunRow) : RunRow :=
  mkRun (identity r) (parent_run_id r) (fork_source_sequence r) (schema_version r) (status r) (started_at r)
    (completed_at r) (stop_reason r) (Some (truncate 2000 (redact_str answer))) (input_tokens r) (output_tokens r)
    (total_tokens r) (keep_measure cost (cost_usd r)) (keep_measure latency (latency_ms r)) (iterations r) (next_sequence r).

Definition finalize_metadata (user run answer : string) (cost latency : option Q) (st : ledger)
  : ledger * result ledger_error unit :=
  if negb (Nat.eqb (rowcount (owned_run run user) (runs st)) 1) then (st, Err (LedgerValueError "run not found"))
  else (set_runs (update_where (owned_run run user) (with_metadata answer cost latency)) st, Ok tt).

(** ** Forks *)

Definition snapshot_item (m : MessageRow) : json :=
  JObj [("role", JStr (role m)); ("content", JStr (truncate 10000 (redact_str (content m))))]%string.

Definition oldest_first (a b : MessageRow) : Prop := m_created a <= m_created b.
#[export] Instance oldest_first_dec : RelDecision oldest_first.
Proof. intros a b. unfold oldest_first. apply _. Defined.

(** The messages up to [cutoff], in the order of their times, then of their ids. *)
Definition visible_messages (conv user : string) (cutoff : Z) (st : ledger) : list MessageRow :=
  match conversations st !! conv with
  | Some c =>
      if bool_decide (c_user c = user)
      then merge_sort oldest_first
             (filter (fun m => m_conversation m = conv /\ m_created m <= cutoff) (messages st))
      else []
  | None => []
  end.

(** [item["role"]] and [item["content"]] of a stored snapshot. *)
Definition read_item (v : json) : result ledger_error (string * string) :=
  match v with
  | JObj kvs =>
      match get_item "role" kvs, get_item "content" kvs with
      | Some (JStr r), Some (JStr c) => Ok (r, c)
      | _, _ => Err LedgerDataError
      end
  | _ => Err LedgerDataError
  end.

Definition read_snapshot (text : string) : result ledger_error (list (string * string)) :=
  match loads text with
  | Some (JArr items) => each read_item items
  | _ => Err LedgerDataError
  end.

Definition checkpoint_for (user run : string) (sequence : Z) (_ : string) (c : RunCheckpointRow) : bool :=
  bool_decide (cp_user c = user /\ cp_run c = run /\ cp_sequence c = sequence).

Definition checkpoint_name (user run : string) (sequence : Z) : string :=
  "cogentrex:checkpoint:" ++ user ++ ":" ++ run ++ ":" ++ pretty sequence.

(** [json.dumps(list(ids))], with the default separators. *)
Definition memory_ids_text (ids : list string) : string := ("[" ++ join_with ", " (literal <$> ids) ++ "]")%string.

(** [INSERT .. ON CONFLICT (user_id, source_run_id, source_sequence) DO NOTHING]; the
    primary key can still be taken. *)
Definition insert_checkpoint (key : string) (c : RunCheckpointRow) (t : gmap string RunCheckpointRow)
  : result ledger_error (gmap string RunCheckpointRow) :=
  match select_where (checkpoint_for (cp_user c) (cp_run c) (cp_sequence c)) t with
  | [] => if bool_decide (is_Some (t !! key)) then Err IntegrityError else Ok (<[key := c]> t)
  | _ => Ok t
  end.

Record ForkResult : Type := mkFork {
  f_checkpoint : string;
  f_run : string;
  f_sequence : Z;
  f_target : string;
  f_profile : string;
  f_memory_ids : option json;
  f_created : Z
}.

Definition cutoff_of (r : RunRow) (e : RuntimeEventRow) : option Z :=
  if string_eqb (kind e) RUN_STOPPED then completed_at r else Some (event_at e).

(** The rows a fork adds: conversation, messages, draft. *)
Definition fork_into (now : Z) (user run : string) (sequence : Z) (target draft : string) (r : RunRow)
    (conv : ConversationRow) (items : list (string * string)) (key : string)
    (t : gmap string RunCheckpointRow) (st : ledger) : ledger :=
  mkLedger (runs st) (events st) t
    (<[draft := mkDraft key user (project_id (identity r)) run sequence target now]> (drafts st))
    (<[target := mkConversation (truncate 200 ("Fork: " ++ title conv)) user now now]> (conversations st))
    (messages st ++ ((fun rc => mkMessage target rc.1 rc.2 now) <$> items))%list.

(** Primary keys and the unique target of a draft. *)
Definition fork_conflict (target draft : string) (st : ledger) : bool :=
  bool_decide (is_Some (conversations st !! target)) || bool_decide (is_Some (drafts st !! draft))
  || negb (Nat.eqb (rowcount (fun _ d => bool_decide (target_conversation_id d = target)) (drafts st)) 0).

Definition fork (now : Z) (user run : string) (sequence : Z) (profile : string) (memory_ids : list string)
    (target draft : string) (st : ledger) : ledger * result ledger_error (option ForkResult) :=
  match scalar (owned_run run user) (runs st) with
  | None => (st, Ok None)
  | Some (_, r) =>
      match scalar (fun (key : string * Z) e => bool_decide (key = (run, sequence) /\ e_user e = user)) (events st) with
      | None => (st, Err (LedgerValueError "source sequence not found"))
      | Some (_, e) =>
          match scalar (fun k c => bool_decide (k = conversation_id (identity r) /\ c_user c = user)) (conversations st) with
          | None => (st, Err (LedgerValueError "source conversation not found"))
          | Some (_, conv) =>
              match cutoff_of r e with
              | None => (st, Err (LedgerValueError "terminal run has no completion timestamp"))
              | Some cutoff =>
                  let snapshot := JArr (snapshot_item <$> visible_messages (conversation_id (identity r)) user cutoff st) in
                  let row := mkCheckpoint user (project_id (identity r)) run sequence (dumps_unsorted snapshot)
                               (truncate 100 profile) (memory_ids_text memory_ids) now in
                  match insert_checkpoint (uuid5 env (checkpoint_name user run sequence)) row (checkpoints st) with
                  | Err err => (st, Err err)
                  | Ok t =>
                      match scalar (checkpoint_for user run sequence) t with
                      | None => (st, Err LedgerRuntimeError)
                      | Some (key, cp) =>
                          match read_snapshot (conversation_snapshot cp), loads (selected_memory_ids cp) with
                          | Ok items, Some ids =>
                              if fork_conflict target draft st then (st, Err IntegrityError)
                              else (fork_into now user run sequence target draft r conv items key t st,
                                    Ok (Some (mkFork key run sequence target (policy_profile cp) (Some ids) (cp_created cp))))
                          | _, _ => (st, Err LedgerDataError)
                          end
                      end
                  end
              end
          end
      end
  end.

(** ** Retention *)

Definition terminal (r : RunRow) : bool :=
  negb (bool_decide (status r = running)) && bool_decide (is_Some (completed_at r)).

(** Deleting runs deletes their checkpoints and the drafts of these, and is refused while
    a run that stays names one of them as its parent. Where each row is checked as it is
    deleted, a run deleted by the same statement refuses it as well: rows go in the order in
    which they were inserted, a parent before its children. *)
Definition referenced (gone : string -> RunRow -> bool) (t : gmap string RunRow) : bool :=
  existsb (fun kr => (restrict_immediate env || negb (gone kr.1 kr.2))
                     && match parent_run_id kr.2 with
                        | Some p => match t !! p with Some r => gone p r | None => false end
                        | None => false
                        end) (map_to_list t).

Definition delete_where (gone : string -> RunRow -> bool) (st : ledger) : ledger :=
  let dead run := match runs st !! run with Some r => gone run r | None => false end in
  let kept_checkpoints := filter (fun kc => dead (cp_run kc.2) = false) (checkpoints st) in
  mkLedger (filter (fun kr => gone kr.1 kr.2 = false) (runs st))
    (filter (fun ke => dead ke.1.1 = false) (events st))
    kept_checkpoints
    (filter (fun kd => is_Some (kept_checkpoints !! d_checkpoint kd.2)) (drafts st))
    (conversations st) (messages st).

Definition _delete_terminal_runs (ids : list string) (user : option string) (st : ledger) : ledger * result ledger_error Z :=
  let gone k r := bool_decide (k ∈ ids) && terminal r && is_none_or user (user_id (identity r)) in
  if bool_decide (ids = []) then (st, Ok 0)
  else if referenced gone (runs st) then (st, Err IntegrityError)
  else (delete_where gone st, Ok (Z.of_nat (rowcount gone (runs st)))).

Definition prune_completed (user : string) (completed_before : Z) (st : ledger) : ledger * result ledger_error Z :=
  let due (_ : string) r :=
    bool_decide (user_id (identity r) = user) && terminal r
    && match completed_at r with Some t => t <? completed_before | None => false end in
  _delete_terminal_runs ((select_where due (runs st)).*1) (Some user) st.

(** [ORDER BY completed_at, run_id] *)
Definition oldest_completed (a b : string * RunRow) : Prop :=
  default 0 (completed_at a.2) < default 0 (completed_at b.2)
  \/ (default 0 (completed_at a.2) = default 0 (completed_at b.2) /\ String.leb a.1 b.1 = true).

#[export] Instance oldest_completed_dec : RelDecision oldest_completed.
Proof. intros a b. unfold oldest_completed. apply _. Defined.

Definition event_count (run : string) (st : ledger) : Z := Z.of_nat (rowcount (fun key _ => bool_decide (key.1 = run)) (events st)).

(** The loop that collects candidates until the budget is met. *)
Fixpoint collect_stale (event_total max_events removed : Z) (candidates : list (string * Z)) : list string :=
  match candidates with
  | [] => []
  | (run, count) :: rest =>
      if event_total - (removed + count) <=? max_events then [run]
      else run :: collect_stale event_total max_events (removed + count) rest
  end.

Definition stale_runs (max_events : Z) (st : ledger) : list string :=
  let candidates := merge_sort oldest_completed (select_where (fun _ r => terminal r) (runs st)) in
  collect_stale (Z.of_nat (size (events st))) max_events 0 ((fun kr => (kr.1, event_count kr.1 st)) <$> candidates).

Definition prune_terminal_to_event_budget (max_events : Z) (st : ledger) : ledger * result ledger_error Z :=
  if max_events <? 0 then (st, Err (LedgerValueError "max_events must be non-negative"))
  else if Z.of_nat (size (events st)) <=? max_events then (st, Ok 0)
  else _delete_terminal_runs (stale_runs max_events st) None st.
End repository.

(** ** Histories *)

(** The methods of [RunRepository] that write, each in the transaction that commits, and
    what the chat store does to conversations and messages in between. *)
Inductive ledger_call : Type :=
| CallEnsureRun (now : Z) (run : string) (who : RunIdentity)
| CallEnsureChild (now : Z) (run parent user project prov mdl : string) (conv corr : option string)
    (view : gmap string RunRow)
| CallAppend (now : Z) (run : string) (who : RunIdentity) (k : string) (iter : Z) (data : list (string * json)) (u : Usage)
| CallFinalize (user run answer : string) (cost latency : option Q)
| CallFork (now : Z) (user run : string) (sequence : Z) (profile : string) (memory_ids : list string) (target draft : string)
| CallPruneCompleted (user : string) (completed_before : Z)
| CallPruneBudget (max_events : Z)
| Chat (convs : gmap string ConversationRow) (msgs : list MessageRow).

Section histories.
Variable env : environment.

Definition perform (c : ledger_call) (st : ledger) : ledger :=
  match c with
  | CallEnsureRun now run who => (ensure_run now run who st).1
  | CallEnsureChild now run parent user proj prov mdl conv corr view =>
      (ensure_child_run_at now run parent user proj prov mdl conv corr view st).1
  | CallAppend now run who k iter data u => (append_event env now run who k iter data u st).1
  | CallFinalize user run answer cost latency => (finalize_metadata env user run answer cost latency st).1
  | CallFork now user run sequence profile ids target draft => (fork env now user run sequence profile ids target draft st).1
  | CallPruneCompleted user before => (prune_completed env user before st).1
  | CallPruneBudget max => (prune_terminal_to_event_budget env max st).1
  | Chat convs msgs => mkLedger (runs st) (events st) (checkpoints st) (drafts st) convs msgs
  end.

Definition ledger_step (st st' : ledger) : Prop := exists c, st' = perform c st.
Definition ledger_reachable (st : ledger) : Prop := rtc ledger_step empty st.
End histories.
