(* ===== verification/RunLedgerLaws.v ===== *)
(** * What the run ledger guarantees

    Each committed transaction of [RunLedger] is one of a few moves; the tables stay
    well formed, event sequences have no gaps, runs that have ended stay as they are,
    and retention removes whole ended runs, oldest first. *)

From Stdlib Require Import ZArith QArith Lia String Ascii.
From stdpp Require Import base gmap strings list fin_maps sorting relations pretty.
From S2P Require Import Prelude Strings Sql Json JsonText Disclosure Redaction RunLedger.
Open Scope Z_scope.

(** [DELETE .. WHERE]: what stays of a table. *)
Lemma lookup_filter_bool {K A} `{Countable K} (P : K -> A -> bool) (m : gmap K A) k :
  filter (fun kx => P kx.1 kx.2 = false) m !! k =
    match m !! k with Some x => if P k x then None else Some x | None => None end.
Proof.
  rewrite map_lookup_filter. destruct (m !! k) as [x|]; [|done]. cbn. destruct (P k x).
  - by rewrite option_guard_False.
  - by rewrite option_guard_True.
Qed.

(** ** Moves *)

(** A new row: running, nothing appended. *)
Record fresh_row (r : RunRow) : Prop := {
  fresh_running : status r = running;
  fresh_open : completed_at r = None;
  fresh_sequence : next_sequence r = 1;
  fresh_schema : schema_version r = SCHEMA_VERSION
}.

Definition owner (r : RunRow) : string * string := (user_id (identity r), project_id (identity r)).

Definition lineage (r : RunRow) : option string * option Z := (parent_run_id r, fork_source_sequence r).

(** Where a new run has its lineage from; a draft is used up. *)
Inductive lineage_source (st : ledger) (left : gmap string ForkDraftRow) (r : RunRow) : Prop :=
| no_parent : lineage r = (None, None) -> lineage_source st left r
| from_parent p rp : runs st !! p = Some rp -> owner rp = owner r -> lineage r = (Some p, None) -> lineage_source st left r
| from_draft id d : drafts st !! id = Some d -> left !! id = None -> (d_user d, d_project d) = owner r ->
    target_conversation_id d = conversation_id (identity r) ->
    lineage r = (Some (source_run_id d), Some (source_sequence d)) -> lineage_source st left r.

(** The row after an event: the next sequence number, and the end if the event is the last. *)
Record appended (k : string) (r r' : RunRow) : Prop := {
  app_identity : identity r' = identity r;
  app_lineage : lineage r' = lineage r;
  app_schema : schema_version r' = schema_version r;
  app_started : started_at r' = started_at r;
  app_sequence : next_sequence r' = next_sequence r + 1;
  app_status : if string_eqb k RUN_STOPPED then terminal r' = true else status r' = running /\ completed_at r' = None
}.

Definition annotated (r r' : RunRow) : Prop :=
  exists summary cost latency,
    r' = mkRun (identity r) (parent_run_id r) (fork_source_sequence r) (schema_version r) (status r) (started_at r)
           (completed_at r) (stop_reason r) summary (input_tokens r) (output_tokens r) (total_tokens r) cost latency
           (iterations r) (next_sequence r).

Definition is_running (r : RunRow) : Prop := status r = running /\ completed_at r = None.

Section moves.
Variable env : environment.

(** The event was written by [append] for a payload of its kind. *)
Definition stored_event (user : string) (e : RuntimeEventRow) : Prop :=
  e_user e = user /\ e_schema e = SCHEMA_VERSION
  /\ exists data safe, safe_event_payload env (kind e) data = Ok safe /\ finite_json (JObj safe) = true
     /\ payload e = dumps_unsorted (JObj safe).

Inductive moves (st : ledger) : ledger -> Prop :=
| moved_not : moves st st
| moved_open run r left : runs st !! run = None -> fresh_row r -> lineage_source st left r -> left ⊆ drafts st ->
    moves st (mkLedger (<[run := r]> (runs st)) (events st) (checkpoints st) left (conversations st) (messages st))
| moved_append run r r' e : runs st !! run = Some r -> is_running r -> appended (kind e) r r' ->
    stored_event (user_id (identity r)) e -> events st !! (run, next_sequence r) = None ->
    moves st (mkLedger (<[run := r']> (runs st)) (<[(run, next_sequence r) := e]> (events st)) (checkpoints st)
                (drafts st) (conversations st) (messages st))
| moved_annotate run r r' : runs st !! run = Some r -> annotated r r' ->
    moves st (mkLedger (<[run := r']> (runs st)) (events st) (checkpoints st) (drafts st) (conversations st) (messages st))
| moved_fork run r t key cp draft d convs msgs : runs st !! run = Some r ->
    insert_checkpoint key cp (checkpoints st) = Ok t \/ t = checkpoints st ->
    (cp_user cp, cp_project cp) = owner r -> cp_run cp = run ->
    (exists k c, t !! k = Some c /\ d_checkpoint d = k /\ cp_run c = run /\ cp_sequence c = source_sequence d
       /\ cp_user c = d_user d) ->
    (d_user d, d_project d) = owner r -> source_run_id d = run -> drafts st !! draft = None ->
    (forall id d', drafts st !! id = Some d' -> target_conversation_id d' <> target_conversation_id d) ->
    moves st (mkLedger (runs st) (events st) t (<[draft := d]> (drafts st)) convs msgs)
| moved_prune gone : referenced env gone (runs st) = false ->
    (forall k r, runs st !! k = Some r -> gone k r = true -> terminal r = true) -> moves st (delete_where gone st)
| moved_chat convs msgs : moves st (mkLedger (runs st) (events st) (checkpoints st) (drafts st) convs msgs).

Lemma pins_owned run user : pins (owned_run run user) run.
Proof. intros k r H. unfold owned_run in H. by apply bool_decide_eq_true in H as [? _]. Qed.

Lemma pins_open run user : pins (open_run run user) run.
Proof. intros k r H. unfold open_run in H. apply andb_true_iff in H as [H _]. by apply pins_owned in H. Qed.

Lemma owned_spec run user k r : owned_run run user k r = true <-> k = run /\ user_id (identity r) = user.
Proof. unfold owned_run. apply bool_decide_eq_true. Qed.

Lemma open_spec run user k r : open_run run user k r = true <-> k = run /\ user_id (identity r) = user /\ is_running r.
Proof. unfold open_run, is_running. rewrite andb_true_iff, owned_spec, bool_decide_eq_true. tauto. Qed.

Lemma eta_ledger st : st = mkLedger (runs st) (events st) (checkpoints st) (drafts st) (conversations st) (messages st).
Proof. by destruct st. Qed.

Lemma ensure_run_moves now run who st : moves st (ensure_run now run who st).1.
Proof.
  unfold ensure_run. destruct (runs st !! run) as [r|] eqn:Hr; [apply moved_not|].
  destruct (one_or_none (draft_for who) _) as [[[id d]|]|] eqn:Hd; [| |apply moved_not].
  - cbn [drafts set_runs runs] in *. destruct (parent_exists (source_run_id d) _); [|apply moved_not]. cbn [fst].
    apply one_or_none_Some in Hd as [Hd Hw]. pose proof Hw as Hw'. unfold draft_for in Hw'. bool_to_prop.
    unfold set_drafts, set_runs. cbn [runs events checkpoints drafts conversations messages].
    rewrite (update_where_pinned _ _ _ _ (pins_owned run (user_id who))), lookup_insert_eq.
    rewrite (proj2 (owned_spec _ _ _ _)) by done. rewrite insert_insert_eq.
    apply moved_open; [done|by split| |apply map_filter_subseteq].
    apply (from_draft _ _ _ id d); [done| | | |done].
    + apply map_lookup_filter_None. right. intros d' Hd' Hf. cbn in Hf. congruence.
    + destruct Hw' as (-> & -> & _). done.
    + by destruct Hw' as (_ & _ & ->).
  - cbn [fst]. unfold set_runs. apply moved_open; [done|by split|by apply no_parent|done].
Qed.

Lemma ensure_child_moves now run parent user proj prov mdl conv corr view st :
  moves st (ensure_child_run_at now run parent user proj prov mdl conv corr view st).1.
Proof.
  unfold ensure_child_run_at. destruct (runs st !! parent) as [p|] eqn:Hp; [|apply moved_not].
  destruct (bool_decide_reflect (user_id (identity p) = user /\ project_id (identity p) = proj)) as [[Hu Hj]|]; [|apply moved_not].
  cbn [negb]. destruct (view !! run); [apply moved_not|]. destruct (runs st !! run) as [r|] eqn:Hr.
  - rewrite Hr. destruct (child_matches _ _ _ _); apply moved_not.
  - unfold set_runs. cbn [runs]. rewrite lookup_insert_eq. destruct (child_matches _ _ _ _); [|apply moved_not]. cbn [fst].
    apply moved_open; [done|by split| |done]. apply (from_parent _ _ _ parent p); [done| |done].
    unfold owner. cbn. by rewrite Hu, Hj.
Qed.

Lemma final_status_terminal reason error : final_status reason error <> running.
Proof. unfold final_status. repeat case_match; done. Qed.

Lemma append_event_moves now run who k iter data u st : moves st (append_event env now run who k iter data u st).1.
Proof.
  unfold append_event. destruct (safe_event_payload env k data) as [safe|] eqn:Hsafe; [|apply moved_not].
  destruct (finite_json (JObj safe)) eqn:Hfin; [|apply moved_not]. cbn [negb].
  destruct (scalar (open_run run (user_id who)) (runs st)) as [[k0 r]|] eqn:Hs; [|apply moved_not].
  apply scalar_Some in Hs as [Hr Ho]. pose proof Ho as Ho'. apply open_spec in Ho' as (-> & Hu & Hrun).
  destruct (bool_decide_reflect (is_Some (events st !! (run, next_sequence r)))) as [|Hnone]; [apply moved_not|].
  apply eq_None_not_Some in Hnone.
  rewrite (update_where_pinned _ _ _ _ (pins_open run (user_id who))), Hr, Ho.
  set (e := mkEvent _ _ _ _ _ _ _ _ _).
  assert (stored_event (user_id (identity r)) e) as He by (split_and!; [done|done|eauto]).
  destruct (string_eqb k RUN_STOPPED) eqn:Hk; cbn [negb].
  - assert (open_run run (user_id who) run (take_sequence r) = true) as Ho2 by (by apply open_spec).
    rewrite (rowcount_pinned _ _ _ (pins_open run (user_id who))), lookup_insert_eq, Ho2. cbn [Nat.eqb negb fst].
    unfold set_runs, set_events. cbn [runs events checkpoints drafts conversations messages].
    rewrite (update_where_pinned _ _ _ _ (pins_open run (user_id who))), lookup_insert_eq, Ho2, insert_insert_eq.
    eapply moved_append; [done|done| |done|done]. split; try done. cbn [kind e]. rewrite Hk.
    unfold terminal. rewrite bool_decide_eq_false_2 by apply final_status_terminal. by rewrite bool_decide_eq_true_2.
  - cbn [fst]. unfold set_runs, set_events. cbn [runs events checkpoints drafts conversations messages].
    eapply moved_append; [done|done| |done|done]. split; try done. cbn [kind e]. by rewrite Hk.
Qed.

Lemma finalize_moves user run answer cost latency st : moves st (finalize_metadata env user run answer cost latency st).1.
Proof.
  unfold finalize_metadata. destruct (Nat.eqb _ 1) eqn:Hn; [|apply moved_not]. apply Nat.eqb_eq in Hn.
  destruct (pinned_hit _ (with_metadata env answer cost latency) _ _ (pins_owned run user) Hn) as (r & Hr & Ho & Hup).
  cbn [negb fst]. unfold set_runs. rewrite Hup. eapply moved_annotate; [done|]. by eexists _, _, _.
Qed.

Lemma insert_checkpoint_spec key c t t' : insert_checkpoint key c t = Ok t' ->
  t' = t \/ (t !! key = None /\ t' = <[key := c]> t
             /\ forall k c', t !! k = Some c' -> checkpoint_for (cp_user c) (cp_run c) (cp_sequence c) k c' = false).
Proof.
  unfold insert_checkpoint. destruct (select_where _ t) as [|x l] eqn:Hs; [|by intros [= <-]; left].
  destruct (bool_decide_reflect (is_Some (t !! key))) as [|Hn]; [done|]. intros [= <-]. right.
  split_and!; [by apply eq_None_not_Some|done|by apply select_where_nil].
Qed.

Lemma fork_moves now user run sequence profile ids target draft st :
  moves st (fork env now user run sequence profile ids target draft st).1.
Proof.
  unfold fork. destruct (scalar _ (runs st)) as [[k r]|] eqn:Hr; [|apply moved_not].
  apply scalar_Some in Hr as [Hr Ho%owned_spec]. destruct Ho as [-> Hu].
  destruct (scalar _ (events st)) as [[ke e]|]; [|apply moved_not].
  destruct (scalar _ (conversations st)) as [[kc conv]|]; [|apply moved_not].
  destruct (cutoff_of r e) as [cutoff|]; [|apply moved_not].
  set (cp := mkCheckpoint _ _ _ _ _ _ _ _).
  destruct (insert_checkpoint _ cp (checkpoints st)) as [t|] eqn:Hi; [|apply moved_not].
  destruct (scalar (checkpoint_for user run sequence) t) as [[key c]|] eqn:Hc; [|apply moved_not].
  apply scalar_Some in Hc as [Hc Hf]. unfold checkpoint_for in Hf. bool_to_prop. destruct Hf as (Hcu & Hcr & Hcs).
  destruct (read_snapshot _) as [items|]; [|apply moved_not].
  destruct (loads _) as [v|]; [|apply moved_not].
  destruct (fork_conflict target draft st) eqn:Hx; [apply moved_not|]. unfold fork_conflict in Hx.
  apply orb_false_iff in Hx as [Hx Hrow]. apply orb_false_iff in Hx as [_ Hd]. bool_to_prop.
  apply Nat.eqb_eq in Hrow. cbn [fst]. unfold fork_into.
  eapply (moved_fork st run r t (uuid5 env (checkpoint_name user run sequence)) cp draft); cbn; try done.
  - by left.
  - unfold owner. cbn. by rewrite Hu.
  - exists key, c. by split_and!.
  - unfold owner. by rewrite Hu.
  - by apply eq_None_not_Some.
  - intros id d' Hd' He. pose proof (rowcount_zero _ _ Hrow id d' Hd') as Hz. cbn in Hz. by bool_to_prop.
Qed.

Lemma delete_moves ids user st : moves st (_delete_terminal_runs env ids user st).1.
Proof.
  unfold _delete_terminal_runs. destruct (bool_decide (ids = [])); [apply moved_not|].
  destruct (referenced env _ (runs st)) eqn:Href; [apply moved_not|]. cbn [fst]. apply moved_prune; [done|].
  intros k r _ H. by bool_to_prop.
Qed.

(** Every call is a move. *)
Lemma ledger_perform_moves c st : moves st (perform env c st).
Proof.
  destruct c as [| | | | |user before|max|]; cbn [perform].
  - apply ensure_run_moves.
  - apply ensure_child_moves.
  - apply append_event_moves.
  - apply finalize_moves.
  - apply fork_moves.
  - apply delete_moves.
  - unfold prune_terminal_to_event_budget. destruct (max <? 0); [apply moved_not|].
    destruct (_ <=? max); [apply moved_not|apply delete_moves].
  - apply moved_chat.
Qed.
End moves.

(** ** The tables stay well formed *)

Section invariant.
Variable env : environment.

(** The event at place [s] of the run [r]. *)
Definition event_ok (r : RunRow) (s : Z) (e : RuntimeEventRow) : Prop :=
  1 <= s < next_sequence r /\ stored_event env (user_id (identity r)) e
  /\ (kind e = RUN_STOPPED <-> s + 1 = next_sequence r /\ terminal r = true).

Record run_ok (t : gmap string RunRow) (r : RunRow) : Prop := {
  run_sequence : 1 <= next_sequence r;
  run_schema : schema_version r = SCHEMA_VERSION;
  run_status : is_running r \/ terminal r = true;
  run_ended : terminal r = true -> 2 <= next_sequence r;
  run_lineage p : parent_run_id r = Some p -> exists rp, t !! p = Some rp /\ owner rp = owner r
}.

Definition checkpoint_ok (t : gmap string RunRow) (c : RunCheckpointRow) : Prop :=
  exists r, t !! cp_run c = Some r /\ (cp_user c, cp_project c) = owner r.

Definition draft_ok (t : gmap string RunCheckpointRow) (d : ForkDraftRow) : Prop :=
  exists c, t !! d_checkpoint d = Some c /\ cp_run c = source_run_id d /\ cp_sequence c = source_sequence d
    /\ (d_user d, d_project d) = (cp_user c, cp_project c).

Record ledger_ok (st : ledger) : Prop := {
  ok_run k r : runs st !! k = Some r -> run_ok (runs st) r;
  ok_event k s e : events st !! (k, s) = Some e -> exists r, runs st !! k = Some r /\ event_ok r s e;
  ok_dense k r s : runs st !! k = Some r -> 1 <= s < next_sequence r -> is_Some (events st !! (k, s));
  ok_checkpoint k c : checkpoints st !! k = Some c -> checkpoint_ok (runs st) c;
  ok_draft k d : drafts st !! k = Some d -> draft_ok (checkpoints st) d;
  ok_target k k' d d' : drafts st !! k = Some d -> drafts st !! k' = Some d' ->
    target_conversation_id d = target_conversation_id d' -> k = k'
}.

Lemma empty_ledger_ok : ledger_ok empty.
Proof. by split; intros *; cbn; rewrite lookup_empty. Qed.

(** Owners are kept when rows are added or rewritten in place. *)
Definition keeps_owners (t t' : gmap string RunRow) : Prop :=
  forall k r, t !! k = Some r -> exists r', t' !! k = Some r' /\ owner r' = owner r.

Lemma keeps_insert t k r : (forall r0, t !! k = Some r0 -> owner r = owner r0) -> keeps_owners t (<[k := r]> t).
Proof.
  intros Ho k' r' Hk. destruct (decide (k' = k)) as [->|Hne].
  - exists r. rewrite lookup_insert_eq. split; [done|by apply Ho].
  - exists r'. by rewrite lookup_insert_ne.
Qed.

Lemma keeps_same t k r r' : t !! k = Some r -> owner r' = owner r -> keeps_owners t (<[k := r']> t).
Proof. intros Hk Ho. apply keeps_insert. intros r0 H0. assert (r0 = r) as -> by congruence. exact Ho. Qed.

Lemma run_ok_keeps t t' r : keeps_owners t t' -> run_ok t r -> run_ok t' r.
Proof.
  intros Hk [Hs Hsc Hst He Hl]. split; try done. intros p Hp. destruct (Hl p Hp) as (rp & Hrp & Ho).
  destruct (Hk p rp Hrp) as (rp' & Hrp' & Ho'). exists rp'. split; [done|congruence].
Qed.

Lemma checkpoint_ok_keeps t t' c : keeps_owners t t' -> checkpoint_ok t c -> checkpoint_ok t' c.
Proof.
  intros Hk (r & Hr & Ho). destruct (Hk _ _ Hr) as (r' & Hr' & Ho'). exists r'. split; [done|congruence].
Qed.

Lemma terminal_not_running r : terminal r = true -> is_running r -> False.
Proof. unfold terminal. intros H [Hs _]. bool_to_prop. congruence. Qed.

(** A row rewritten in place, events and the rest as they were. *)
Lemma rewrite_ok st run r r' : ledger_ok st -> runs st !! run = Some r -> owner r' = owner r ->
  run_ok (<[run := r']> (runs st)) r' -> next_sequence r' = next_sequence r -> terminal r' = terminal r ->
  identity r' = identity r ->
  ledger_ok (mkLedger (<[run := r']> (runs st)) (events st) (checkpoints st) (drafts st) (conversations st) (messages st)).
Proof.
  intros [Hrun Hev Hd Hcp Hdr Ht] Hr Ho Hok Hn Hter Hid.
  assert (keeps_owners (runs st) (<[run := r']> (runs st))) as Hkeep by by eapply keeps_same.
  split; cbn [runs events checkpoints drafts].
  - intros k x [[<- <-]|[Hne Hk]]%lookup_insert_Some; [done|]. eauto using run_ok_keeps.
  - intros k s e He. destruct (Hev k s e He) as (x & Hx & Hb & Hs & Hk). destruct (decide (k = run)) as [->|Hne].
    + simplify_eq. exists r'. rewrite lookup_insert_eq. split; [done|]. unfold event_ok. by rewrite Hn, Hter, Hid.
    + exists x. by rewrite lookup_insert_ne.
  - intros k x s [[<- <-]|[Hne Hk]]%lookup_insert_Some Hs; [|by eauto]. rewrite Hn in Hs. by eauto.
  - intros k c Hc. eauto using checkpoint_ok_keeps.
  - done.
  - done.
Qed.

Lemma open_ok st run r left : ledger_ok st -> runs st !! run = None -> fresh_row r -> lineage_source st left r ->
  left ⊆ drafts st ->
  ledger_ok (mkLedger (<[run := r]> (runs st)) (events st) (checkpoints st) left (conversations st) (messages st)).
Proof.
  intros [Hrun Hev Hd Hcp Hdr Ht] Hnone [Hst Hco Hseq Hsc] Hl Hsub.
  assert (keeps_owners (runs st) (<[run := r]> (runs st))) as Hkeep by (apply keeps_insert; congruence).
  assert (forall p, parent_run_id r = Some p -> exists rp, runs st !! p = Some rp /\ owner rp = owner r) as Hpar.
  { intros p Hp. destruct Hl as [He|q rp Hq Ho He|id d Hid _ Ho _ He]; unfold lineage in He.
    - congruence.
    - exists rp. split; [congruence|done].
    - destruct (Hdr id d Hid) as (c & Hc & Hcr & _ & Hco'). destruct (Hcp _ _ Hc) as (rp & Hrp & Ho').
      exists rp. split; [congruence|]. congruence. }
  split; cbn [runs events checkpoints drafts].
  - intros k x [[<- <-]|[Hne Hk]]%lookup_insert_Some; [|by eauto using run_ok_keeps].
    split; [lia|done|by left| |].
    + intros Hter. exfalso. by apply (terminal_not_running r).
    + intros p Hp. destruct (Hpar p Hp) as (rp & Hrp & Ho). destruct (Hkeep _ _ Hrp) as (rp' & Hrp' & Ho').
      exists rp'. split; [done|congruence].
  - intros k s e He. destruct (Hev k s e He) as (x & Hx & Hok). exists x. rewrite lookup_insert_ne; [done|congruence].
  - intros k x s [[<- <-]|[Hne Hk]]%lookup_insert_Some Hs; [lia|by eauto].
  - intros k c Hc. eauto using checkpoint_ok_keeps.
  - intros k d Hk. eapply Hdr, lookup_weaken; eauto.
  - intros k k' d d' Hk Hk'. eauto using lookup_weaken.
Qed.

Lemma append_ok st run r r' e : ledger_ok st -> runs st !! run = Some r -> is_running r -> appended (kind e) r r' ->
  stored_event env (user_id (identity r)) e -> events st !! (run, next_sequence r) = None ->
  ledger_ok (mkLedger (<[run := r']> (runs st)) (<[(run, next_sequence r) := e]> (events st)) (checkpoints st)
                (drafts st) (conversations st) (messages st)).
Proof.
  intros [Hrun Hev Hd Hcp Hdr Ht] Hr Hopen [Hid Hlin Hsc Hsta Hseq Hstatus] Hst Hnone.
  assert (owner r' = owner r) as Ho by (unfold owner; by rewrite Hid).
  assert (keeps_owners (runs st) (<[run := r']> (runs st))) as Hkeep by by eapply keeps_same.
  destruct (Hrun _ _ Hr) as [Hs1 Hs2 Hs3 Hs4 Hs5].
  split; cbn [runs events checkpoints drafts].
  - intros k x [[<- <-]|[Hne Hk]]%lookup_insert_Some; [|by eauto using run_ok_keeps]. split; [lia|congruence| |lia|].
    + destruct (string_eqb (kind e) RUN_STOPPED); [by right|by left].
    + intros p Hp. unfold lineage in Hlin. assert (parent_run_id r = Some p) as Hp' by congruence.
      destruct (Hs5 p Hp') as (rp & Hrp & Ho2). destruct (Hkeep _ _ Hrp) as (rp' & Hrp' & Ho').
      exists rp'. split; [done|congruence].
  - intros k s e' [[[= <- <-] <-]|[Hne He]]%lookup_insert_Some.
    + exists r'. rewrite lookup_insert_eq. split; [done|]. split; [lia|]. split; [by rewrite Hid|].
      destruct (string_eqb (kind e) RUN_STOPPED) eqn:Hk; bool_to_prop.
      * split; [intros _; split; [lia|done]|done].
      * split; [done|]. intros [_ Hter]. exfalso. by apply (terminal_not_running r').
    + destruct (Hev k s e' He) as (x & Hx & Hb & Hse & Hk). destruct (decide (k = run)) as [->|Hkr].
      * assert (x = r) as -> by congruence. exists r'. rewrite lookup_insert_eq. split; [done|]. split; [lia|]. split; [by rewrite Hid|].
        split; [|lia]. intros Hstop. exfalso. apply Hk in Hstop as [_ Hter]. by apply (terminal_not_running r).
      * exists x. by rewrite lookup_insert_ne.
  - intros k x s [[<- <-]|[Hne Hk]]%lookup_insert_Some Hs.
    + destruct (decide (s = next_sequence r)) as [->|Hns]; [by rewrite lookup_insert_eq|].
      rewrite lookup_insert_ne by congruence. apply (Hd _ _ _ Hr). lia.
    + rewrite lookup_insert_ne by congruence. by eauto.
  - intros k c Hc. eauto using checkpoint_ok_keeps.
  - done.
  - done.
Qed.

Lemma fork_ok st run r t key cp draft d convs msgs : ledger_ok st -> runs st !! run = Some r ->
  insert_checkpoint key cp (checkpoints st) = Ok t \/ t = checkpoints st ->
  (cp_user cp, cp_project cp) = owner r -> cp_run cp = run ->
  (exists k c, t !! k = Some c /\ d_checkpoint d = k /\ cp_run c = run /\ cp_sequence c = source_sequence d
     /\ cp_user c = d_user d) ->
  (d_user d, d_project d) = owner r -> source_run_id d = run -> drafts st !! draft = None ->
  (forall id d', drafts st !! id = Some d' -> target_conversation_id d' <> target_conversation_id d) ->
  ledger_ok (mkLedger (runs st) (events st) t (<[draft := d]> (drafts st)) convs msgs).
Proof.
  intros [Hrun Hev Hd Hcp Hdr Ht] Hr Ht' Hco Hcr (k0 & c & Hc & Hdk & Hcrun & Hcs & Hcu) Hdo Hds Hnone Huniq.
  assert (checkpoints st ⊆ t /\ forall k c, t !! k = Some c -> checkpoint_ok (runs st) c) as [Hsub Hcp'].
  { destruct Ht' as [Hi| ->]; [|by split]. apply insert_checkpoint_spec in Hi as [->|(Hn & -> & _)]; [by split|].
    split; [by apply insert_subseteq|]. intros k c' [[<- <-]|[_ Hk]]%lookup_insert_Some; [|by eauto].
    exists r. by rewrite Hcr. }
  split; cbn [runs events checkpoints drafts]; try done.
  - intros k d' [[<- <-]|[_ Hk]]%lookup_insert_Some.
    + exists c. rewrite Hdk. split_and!; [done|congruence|done|]. destruct (Hcp' _ _ Hc) as (r2 & Hr2 & Ho2). congruence.
    + destruct (Hdr k d' Hk) as (c' & Hc' & Hrest). exists c'. split; [by eapply lookup_weaken|done].
  - intros k k' d1 d2 [[<- <-]|[Hne Hk]]%lookup_insert_Some [[<- <-]|[Hne' Hk']]%lookup_insert_Some He; [done| | |by eauto].
    + by apply Huniq in Hk'.
    + by apply Huniq in Hk.
Qed.

Lemma delete_lookup gone st k r : runs (delete_where gone st) !! k = Some r <-> runs st !! k = Some r /\ gone k r = false.
Proof. unfold delete_where. cbn [runs]. by rewrite map_lookup_filter_Some. Qed.

(** A run that stays keeps its parent. *)
Lemma kept_parent gone st k r p rp : referenced env gone (runs st) = false -> runs st !! k = Some r -> gone k r = false ->
  parent_run_id r = Some p -> runs st !! p = Some rp -> gone p rp = false.
Proof.
  intros Href Hr Hg Hp Hrp. destruct (gone p rp) eqn:Hgp; [|done].
  assert (referenced env gone (runs st) = true) as Hyes; [|congruence]. unfold referenced. apply existsb_exists.
  exists (k, r). split; [by apply list_elem_of_In, elem_of_map_to_list|]. cbn. by rewrite Hg, Hp, Hrp, Hgp, orb_true_r.
Qed.

Lemma prune_ok st gone : ledger_ok st -> referenced env gone (runs st) = false -> ledger_ok (delete_where gone st).
Proof.
  intros [Hrun Hev Hd Hcp Hdr Ht] Href.
  split.
  - intros k r [Hr Hg]%delete_lookup. destruct (Hrun _ _ Hr) as [H1 H2 H3 H4 H5]. split; try done.
    intros p Hp. destruct (H5 p Hp) as (rp & Hrp & Ho). exists rp. split; [|done]. apply delete_lookup.
    split; [done|exact (kept_parent _ _ _ _ _ _ Href Hr Hg Hp Hrp)].
  - intros k s e He. unfold delete_where in He. cbn [events] in He. apply map_lookup_filter_Some in He as [He Hdead].
    cbn [fst] in Hdead. destruct (Hev k s e He) as (r & Hr & Hok). rewrite Hr in Hdead. exists r. by rewrite delete_lookup.
  - intros k r s [Hr Hg]%delete_lookup Hs. destruct (Hd k r s Hr Hs) as [e He]. exists e.
    unfold delete_where. cbn [events]. apply map_lookup_filter_Some. split; [done|]. cbn. by rewrite Hr.
  - intros k c Hc. unfold delete_where in Hc. cbn [checkpoints] in Hc. apply map_lookup_filter_Some in Hc as [Hc Hdead].
    cbn [snd] in Hdead. destruct (Hcp k c Hc) as (r & Hr & Ho). rewrite Hr in Hdead. exists r. by rewrite delete_lookup.
  - intros k d Hk. unfold delete_where in Hk. cbn [drafts] in Hk. apply map_lookup_filter_Some in Hk as [Hk [c Hc]].
    cbn [snd] in Hc. pose proof Hc as Hc'. apply map_lookup_filter_Some in Hc' as [Hc' _].
    destruct (Hdr k d Hk) as (c2 & Hc2 & Hrest). assert (c2 = c) as -> by congruence. by exists c.
  - intros k k' d d' Hk Hk'. unfold delete_where in Hk, Hk'. cbn [drafts] in Hk, Hk'.
    apply map_lookup_filter_Some in Hk as [Hk _]. apply map_lookup_filter_Some in Hk' as [Hk' _]. by eauto.
Qed.

Lemma ledger_moves_ok st st' : moves env st st' -> ledger_ok st -> ledger_ok st'.
Proof.
  intros Hm Hok. destruct Hm as [|run r left|run r r' e|run r r' Hr (summary & cost & latency & ->)|run r t key cp draft d convs msgs|gone|].
  - done.
  - by apply open_ok.
  - by eapply append_ok.
  - eapply rewrite_ok; try done. destruct (ok_run _ Hok _ _ Hr) as [H1 H2 H3 H4 H5]. split; try done.
    intros p Hp. destruct (H5 p Hp) as (rp & Hrp & Ho). match goal with |- exists _, <[_ := ?r']> _ !! _ = _ /\ _ => destruct (keeps_same _ _ _ r' Hr eq_refl p rp Hrp) as (rp' & Hrp' & Ho') end.
    exists rp'. split; [exact Hrp'|]. by rewrite Ho', Ho.
  - by eapply fork_ok.
  - by apply prune_ok.
  - by destruct Hok.
Qed.

Lemma ledger_reachable_ok st : ledger_reachable env st -> ledger_ok st.
Proof.
  intros Hr. unfold ledger_reachable in Hr. remember empty as st0 eqn:E. assert (ledger_ok st0) as H0 by (subst; apply empty_ledger_ok).
  clear E. induction Hr as [|x y z [c ->] _ IH]; [done|]. apply IH. eapply ledger_moves_ok; [apply ledger_perform_moves|done].
Qed.
End invariant.

(** ** Histories *)

Section histories.
Variable env : environment.

(** A transaction after which the run is still there. *)
Definition stays (run : string) (st st' : ledger) : Prop := ledger_step env st st' /\ is_Some (runs st' !! run).

(** What never changes of a run, what only grows, and what is final once it has ended. *)
Record run_extends (run : string) (st st' : ledger) (r r' : RunRow) : Prop := {
  ext_identity : identity r' = identity r;
  ext_lineage : lineage r' = lineage r;
  ext_started : started_at r' = started_at r;
  ext_sequence : next_sequence r <= next_sequence r';
  ext_events s e : events st !! (run, s) = Some e -> events st' !! (run, s) = Some e;
  ext_final : terminal r = true -> annotated r r' /\ forall s, events st' !! (run, s) = events st !! (run, s)
}.

Lemma annotated_refl r : annotated r r.
Proof. exists (answer_summary r), (cost_usd r), (latency_ms r). by destruct r. Qed.

Lemma annotated_trans r1 r2 r3 : annotated r1 r2 -> annotated r2 r3 -> annotated r1 r3.
Proof. intros (? & ? & ? & ->) (s & c & l & ->). exists s, c, l. done. Qed.

Lemma annotated_terminal r r' : annotated r r' -> terminal r' = terminal r.
Proof. by intros (? & ? & ? & ->). Qed.

Lemma run_extends_same run st st' r : (forall s, events st' !! (run, s) = events st !! (run, s)) ->
  run_extends run st st' r r.
Proof. intros He. split; [done|done|done|lia| |]; [intros s e; by rewrite He|]. split; [apply annotated_refl|done]. Qed.

Lemma run_extends_trans run st1 st2 st3 r1 r2 r3 : run_extends run st1 st2 r1 r2 -> run_extends run st2 st3 r2 r3 ->
  run_extends run st1 st3 r1 r3.
Proof.
  intros [H1 H2 H3 H4 H5 H6] [G1 G2 G3 G4 G5 G6]. split; [congruence|congruence|congruence|lia|eauto|].
  intros Ht. destruct (H6 Ht) as [Ha He]. destruct G6 as [Ga Ge]; [by rewrite (annotated_terminal _ _ Ha)|].
  split; [by eapply annotated_trans|]. intros s. by rewrite Ge.
Qed.

Lemma move_extends run st st' r : moves env st st' -> ledger_ok env st -> runs st !! run = Some r ->
  is_Some (runs st' !! run) -> exists r', runs st' !! run = Some r' /\ run_extends run st st' r r'.
Proof.
  intros Hm Hok Hr [r' Hr'].
  destruct Hm as [|k x left Hk|k x x' e Hk Hopen [Hid Hlin _ Hsta Hseq _] Hst Hnone|k x x' Hk Ha|k x t key cp draft d convs msgs Hk|gone Href Hgone|convs msgs].
  - exists r. split; [done|by apply run_extends_same].
  - exists r. cbn. rewrite lookup_insert_ne by congruence. split; [done|by apply run_extends_same].
  - cbn [runs]. destruct (decide (run = k)) as [->|Hne].
    + assert (x = r) as -> by congruence. exists x'. rewrite lookup_insert_eq. split; [done|].
      split; cbn [events]; [done|done|done|lia| |].
      * intros s e' He. rewrite lookup_insert_ne; [done|congruence].
      * intros Hter. exfalso. by apply (terminal_not_running r).
    + exists r. rewrite lookup_insert_ne by done. split; [done|]. apply run_extends_same. intros s. cbn.
      by rewrite lookup_insert_ne by congruence.
  - cbn [runs]. destruct (decide (run = k)) as [->|Hne].
    + assert (x = r) as -> by congruence. exists x'. rewrite lookup_insert_eq. split; [done|].
      destruct Ha as (s & c & l & ->). split; cbn; [done|done|done|lia|done|]. intros _. split; [by eexists _, _, _|done].
    + exists r. rewrite lookup_insert_ne by done. split; [done|by apply run_extends_same].
  - exists r. split; [done|by apply run_extends_same].
  - apply delete_lookup in Hr' as [Hr' Hg]. assert (r' = r) as -> by congruence. exists r. rewrite delete_lookup. split; [done|].
    apply run_extends_same. intros s. unfold delete_where. cbn [events].
    rewrite (lookup_filter_bool (fun (key : string * Z) _ => match runs st !! key.1 with Some x => gone key.1 x | None => false end)).
    cbn [fst]. rewrite Hr, Hg. by destruct (events st !! (run, s)).
  - exists r. split; [done|by apply run_extends_same].
Qed.

(** C21. The ledger is append-only: as long as a run is kept, its owner, project, lineage and
    start never change, no event of it changes or disappears and its sequence only grows;
    once it has ended, nothing is appended and only its display metadata can change. *)
Theorem ledger_is_append_only (run : string) (st st' : ledger) (r : RunRow) :
  ledger_reachable env st -> rtc (stays run) st st' -> runs st !! run = Some r ->
  exists r', runs st' !! run = Some r' /\ run_extends run st st' r r'.
Proof.
  intros Hreach%ledger_reachable_ok Hs. revert r. induction Hs as [st|st st1 st' [[c ->] Hsome] _ IH]; intros r Hr.
  - exists r. split; [done|by apply run_extends_same].
  - destruct (move_extends run _ _ r (ledger_perform_moves env c st) Hreach Hr Hsome) as (r1 & Hr1 & He1).
    destruct (IH (ledger_moves_ok _ _ _ (ledger_perform_moves env c st) Hreach) r1 Hr1) as (r' & Hr' & He).
    exists r'. split; [done|by eapply run_extends_trans].
Qed.

(** C22. The events of a run are numbered from 1 without gaps up to the row's next sequence
    number, all under the run's owner; the last one is [run_stopped] exactly when the run
    has ended, and there is no other [run_stopped]. No event lacks its run. *)
Theorem event_sequences_have_no_gaps (st : ledger) (run : string) : ledger_reachable env st ->
  match runs st !! run with
  | None => forall s, events st !! (run, s) = None
  | Some r =>
      (forall s, is_Some (events st !! (run, s)) <-> 1 <= s < next_sequence r)
      /\ (forall s e, events st !! (run, s) = Some e ->
            e_user e = user_id (identity r)
            /\ (kind e = RUN_STOPPED <-> s + 1 = next_sequence r /\ terminal r = true))
      /\ (terminal r = true -> exists e, events st !! (run, next_sequence r - 1) = Some e /\ kind e = RUN_STOPPED)
  end.
Proof.
  intros [Hrun Hev Hd _ _ _]%ledger_reachable_ok. destruct (runs st !! run) as [r|] eqn:Hr.
  - assert (forall s e, events st !! (run, s) = Some e -> event_ok env r s e) as Hok.
    { intros s e He. destruct (Hev _ _ _ He) as (r' & Hr' & Hok). by simplify_eq. }
    split_and!.
    + intros s. split; [intros [e He]; by destruct (Hok s e He)|by apply Hd].
    + intros s e He. by destruct (Hok s e He) as (_ & (? & _) & ?).
    + intros Ht. destruct (Hrun _ _ Hr) as [_ _ _ He _]. destruct (Hd run r (next_sequence r - 1) Hr) as [e Hse]; [specialize (He Ht); lia|].
      exists e. split; [done|]. destruct (Hok _ _ Hse) as (_ & _ & ->). split; [lia|done].
  - intros s. destruct (events st !! (run, s)) as [e|] eqn:He; [|done]. destruct (Hev _ _ _ He) as (r & Hr' & _). congruence.
Qed.

(** The rows of a reachable ledger are well formed: schema versions and sequence numbers
    meet the table's constraints, a run either runs or has a completion time, and every
    reference (parent, source run of a checkpoint, checkpoint of a draft) leads to a row of
    the same owner and project. *)
Theorem ledger_rows_well_formed (st : ledger) : ledger_reachable env st ->
  (forall k r, runs st !! k = Some r -> run_ok (runs st) r)
  /\ (forall k c, checkpoints st !! k = Some c -> checkpoint_ok (runs st) c)
  /\ (forall k d, drafts st !! k = Some d -> draft_ok (checkpoints st) d
        /\ forall k' d', drafts st !! k' = Some d' -> target_conversation_id d = target_conversation_id d' -> k = k').
Proof. intros [Hrun _ _ Hcp Hdr Ht]%ledger_reachable_ok. split_and!; [done|done|]. intros k d Hk. split; eauto. Qed.

(** C23. A fork is inherited once: the first run opened in the target conversation under the
    draft's owner and project gets the draft's source run and sequence as its lineage, and
    the draft is gone; a run opened there later has no lineage. *)
Theorem fork_is_inherited_once (st : ledger) (id : string) (d : ForkDraftRow) (now now' : Z) (run run' : string)
    (who : RunIdentity) : ledger_reachable env st ->
  drafts st !! id = Some d -> draft_for who id d = true -> runs st !! run = None -> runs st !! run' = None -> run' <> run ->
  exists st1, ensure_run now run who st = (st1, Ok tt)
    /\ drafts st1 = delete id (drafts st)
    /\ (exists r, runs st1 !! run = Some r /\ lineage r = (Some (source_run_id d), Some (source_sequence d)))
    /\ exists r', runs (ensure_run now' run' who st1).1 !! run' = Some r' /\ lineage r' = (None, None).
Proof.
  intros Hok%ledger_reachable_ok Hid Hfor Hrun Hrun' Hne. destruct Hok as [_ _ _ Hcp Hdr Ht].
  assert (forall k x, drafts st !! k = Some x -> draft_for who k x = true -> k = id) as Huniq.
  { intros k x Hk Hx. apply (Ht k id x d Hk Hid). unfold draft_for in Hx, Hfor. apply bool_decide_eq_true in Hx as (_ & _ & ->). by apply bool_decide_eq_true in Hfor as (_ & _ & ->). }
  destruct (Hdr id d Hid) as (c & Hc & Hcr & _). destruct (Hcp _ _ Hc) as (rp & Hrp & _). rewrite Hcr in Hrp.
  assert (parent_exists (source_run_id d) (<[run := new_run now who None]> (runs st)) = true) as Hpar.
  { unfold parent_exists. apply bool_decide_eq_true. destruct (decide (source_run_id d = run)) as [->|Hs].
    - by rewrite lookup_insert_eq.
    - by rewrite lookup_insert_ne, Hrp. }
  assert (filter (fun kd => draft_for who kd.1 kd.2 = false) (drafts st) = delete id (drafts st)) as Hgone.
  { apply map_eq. intros k. rewrite (lookup_filter_bool (draft_for who)). destruct (decide (k = id)) as [->|Hk].
    - by rewrite lookup_delete_eq, Hid, Hfor.
    - rewrite lookup_delete_ne by done. destruct (drafts st !! k) as [x|] eqn:Hx; [|done].
      destruct (draft_for who k x) eqn:Hf; [by apply (Huniq _ _ Hx) in Hf|done]. }
  eexists. split; [|split; [|split]].
  - unfold ensure_run. rewrite Hrun. cbn [drafts set_runs runs]. rewrite (one_or_none_unique _ _ _ _ Huniq Hid Hfor), Hpar. reflexivity.
  - exact Hgone.
  - cbn [runs set_drafts set_runs]. rewrite (update_where_pinned _ _ _ _ (pins_owned run (user_id who))), lookup_insert_eq.
    rewrite (proj2 (owned_spec _ _ _ _)) by done. rewrite lookup_insert_eq. by eexists.
  - unfold ensure_run. cbn [runs set_drafts set_runs drafts]. rewrite lookup_update_where, lookup_insert_ne, Hrun' by done.
    cbn [fmap option_fmap option_map runs set_drafts set_runs drafts].
    rewrite Hgone, one_or_none_nothing.
    + cbn [fst runs set_runs]. rewrite lookup_insert_eq. by eexists.
    + intros k x [Hk Hx]%lookup_delete_Some. destruct (draft_for who k x) eqn:Hf; [|done]. apply (Huniq _ _ Hx) in Hf. congruence.
Qed.
End histories.

(** ** A concrete history *)

Lemma history_reachable env calls : ledger_reachable env (fold_left (fun st c => perform env c st) calls empty).
Proof.
  unfold ledger_reachable. generalize empty. induction calls as [|c calls IH]; intros st; [apply rtc_refl|].
  eapply rtc_l; [by exists c|apply IH].
Qed.

(** No entity recognizer, sets in the order written, names as they are, on SQLite. *)
Definition plain_environment : environment := mkEnvironment None (fun l => l) (fun name => name) true.

Definition demo_identity (conv : string) : RunIdentity :=
  mkIdentity "alice" "apollo" conv "trace-1" "anthropic" "claude".

Definition demo_usage : Usage := mkUsage 10 5 15.

Definition demo_append (now : Z) (run conv k : string) (data : list (string * json)) : ledger_call :=
  CallAppend now run (demo_identity conv) k 1 data demo_usage.

(** A run that starts, stops and is forked, and a run of the fork. *)
Definition demo_calls : list ledger_call :=
  [Chat {["c1" := mkConversation "Launch" "alice" 1 1]} [mkMessage "c1" "user" "go" 2];
   CallEnsureRun 3 "r1" (demo_identity "c1");
   demo_append 4 "r1" "c1" "run_started" [("safe", JBool true); ("secret", JStr "hidden")];
   demo_append 5 "r1" "c1" RUN_STOPPED [("reason", JStr "end_turn"); ("error", JNull)];
   CallFork 6 "alice" "r1" 1 "default" ["m1"] "c2" "d1"]%string.

Definition demo_ledger (n : nat) : ledger :=
  fold_left (fun st c => perform plain_environment c st) (take n demo_calls) empty.

Definition demo_run (n : nat) : RunRow :=
  default (new_run 0 (demo_identity "c1") None) (runs (demo_ledger n) !! "r1"%string).

Lemma ledger_is_append_only_witness : exists r', runs (demo_ledger 5) !! "r1"%string = Some r'
  /\ run_extends "r1" (demo_ledger 3) (demo_ledger 5) (demo_run 3) r'.
Proof.
  apply (ledger_is_append_only plain_environment "r1" (demo_ledger 3) (demo_ledger 5)).
  - apply history_reachable.
  - apply (rtc_l _ _ (demo_ledger 4)); [|apply (rtc_l _ _ (demo_ledger 5)); [|apply rtc_refl]].
    + split; [exists (demo_append 5 "r1" "c1" RUN_STOPPED [("reason", JStr "end_turn"); ("error", JNull)]); reflexivity|].
      apply (bool_decide_eq_true_1 _). vm_compute. reflexivity.
    + split; [exists (CallFork 6 "alice" "r1" 1 "default" ["m1"%string] "c2" "d1"); reflexivity|].
      apply (bool_decide_eq_true_1 _). vm_compute. reflexivity.
  - vm_compute. reflexivity.
Defined.

Lemma event_sequences_have_no_gaps_witness :
  match runs (demo_ledger 4) !! "r1"%string with
  | None => forall s, events (demo_ledger 4) !! ("r1"%string, s) = None
  | Some r =>
      (forall s, is_Some (events (demo_ledger 4) !! ("r1"%string, s)) <-> 1 <= s < next_sequence r)
      /\ (forall s e, events (demo_ledger 4) !! ("r1"%string, s) = Some e ->
            e_user e = user_id (identity r)
            /\ (kind e = RUN_STOPPED <-> s + 1 = next_sequence r /\ terminal r = true))
      /\ (terminal r = true -> exists e, events (demo_ledger 4) !! ("r1"%string, next_sequence r - 1) = Some e /\ kind e = RUN_STOPPED)
  end.
Proof. apply (event_sequences_have_no_gaps plain_environment (demo_ledger 4) "r1"). apply history_reachable. Defined.

Lemma ledger_rows_well_formed_witness :
  (forall k r, runs (demo_ledger 5) !! k = Some r -> run_ok (runs (demo_ledger 5)) r)
  /\ (forall k c, checkpoints (demo_ledger 5) !! k = Some c -> checkpoint_ok (runs (demo_ledger 5)) c)
  /\ (forall k d, drafts (demo_ledger 5) !! k = Some d -> draft_ok (checkpoints (demo_ledger 5)) d
        /\ forall k' d', drafts (demo_ledger 5) !! k' = Some d' -> target_conversation_id d = target_conversation_id d' -> k = k').
Proof. apply (ledger_rows_well_formed plain_environment). apply history_reachable. Defined.

Definition demo_draft : ForkDraftRow := mkDraft "cogentrex:checkpoint:alice:r1:1" "alice" "apollo" "r1" 1 "c2" 6.

Lemma fork_is_inherited_once_witness :
  exists st1, ensure_run 7 "r2" (demo_identity "c2") (demo_ledger 5) = (st1, Ok tt)
    /\ drafts st1 = delete "d1"%string (drafts (demo_ledger 5))
    /\ (exists r, runs st1 !! "r2"%string = Some r
          /\ lineage r = (Some (source_run_id demo_draft), Some (source_sequence demo_draft)))
    /\ exists r', runs (ensure_run 8 "r3" (demo_identity "c2") st1).1 !! "r3"%string = Some r' /\ lineage r' = (None, None).
Proof.
  apply (fork_is_inherited_once plain_environment (demo_ledger 5) "d1" demo_draft 7 8 "r2" "r3" (demo_identity "c2")).
  - apply history_reachable.
  - vm_compute. reflexivity.
  - vm_compute. reflexivity.
  - vm_compute. reflexivity.
  - vm_compute. reflexivity.
  - discriminate.
Defined.
