(* ===== verification/RunPayloads.v ===== *)
(** * What run events say ([safe_event_payload], [RunRepository.events])

    Stored payloads hold only allow-listed fields with redacted values, an error as a
    mere flag, and read back as they were appended. *)

From Stdlib Require Import ZArith QArith Lia String Ascii.
From stdpp Require Import base gmap strings list fin_maps sorting relations.
From S2P Require Import Prelude Strings Sql Json JsonText Disclosure Redaction RunLedger RunLedgerLaws.
Open Scope Z_scope.

(** What the theorems ask of the environment: a set is iterated in some order, without
    repetition. *)
Definition fair_order (env : environment) : Prop := forall l, set_order env l ≡ₚ l.

(** The detector finds nothing in these names. *)
Definition names_stay (env : environment) (names : list string) : Prop := Forall (fun key => redact_str env key = key) names.

(** The fields of every kind are a set. *)
Lemma fields_nodup k fields : allowed_fields k = Some fields -> NoDup fields.
Proof.
  assert (Forall (fun kf => NoDup kf.2) _SAFE_FIELDS) as Hall.
  { apply Forall_forall. intros kf Hin.
    assert (forallb (fun kf => bool_decide (NoDup kf.2)) _SAFE_FIELDS = true) as Hb by (vm_compute; reflexivity).
    rewrite forallb_forall in Hb. eapply bool_decide_eq_true_1, Hb. by apply list_elem_of_In. }
  unfold allowed_fields. induction Hall as [|[k' f] l Hn _ IH]; [done|]. cbn [get_item].
  destruct (string_eqb k' k); [by intros [= <-]|exact IH].
Qed.

Lemma get_item_elem {A} k (d : list (string * A)) v : get_item k d = Some v -> (k, v) ∈ d.
Proof.
  induction d as [|[k' v'] d IH]; [done|]. cbn. destruct (string_eqb k' k) eqn:He; bool_to_prop.
  - intros [= ->]. subst. left.
  - intros Hg. right. auto.
Qed.

Section payloads.
Context (env : environment) (Henv : fair_order env).

Lemma project_fields fields data kv : kv ∈ project env fields data -> kv.1 ∈ fields /\ kv ∈ data.
Proof using Henv.
  unfold project. rewrite list_elem_of_omap. intros (key & Hin & Hg). rewrite (Henv fields) in Hin.
  apply fmap_Some in Hg as (v & Hv & ->). split; [done|]. by apply get_item_elem.
Qed.

Lemma project_keys_nodup fields data : NoDup fields -> NoDup ((project env fields data).*1).
Proof using Henv.
  intros Hn. assert (NoDup (set_order env fields)) as Hn' by by rewrite (Henv fields).
  unfold project. induction Hn' as [|key l Hin _ IH]; [apply NoDup_nil_2|]. cbn.
  destruct (get_item key data) as [v|]; [|exact IH]. cbn. apply NoDup_cons. split; [|exact IH].
  intros (kv & -> & Hkv)%list_elem_of_fmap. apply list_elem_of_omap in Hkv as (k & Hk & Hg).
  apply fmap_Some in Hg as (v' & _ & ->). done.
Qed.

(** Redaction keeps keys in which nothing is found. *)
Lemma redact_members_fixed counts redacted members :
  (forall k, k ∈ members.*1 -> red_text (redact_text (nlp env) k) = k /\ counted k counts = 0%nat) ->
  NoDup ((redacted ++ members)%list.*1) ->
  redact_members (nlp env) counts redacted members = (redacted ++ members)%list.
Proof.
  revert counts redacted. induction members as [|[k v] rest IH]; intros counts redacted Hk Hn.
  - by rewrite app_nil_r.
  - cbn [redact_members]. destruct (Hk k) as [Hred Hcount]; [left|]. rewrite Hred, Hcount. cbn [free_key].
    change (if (1 =? 1)%nat then k else ordinal_key k 1) with k.
    rewrite fmap_app in Hn. cbn [fmap list_fmap fst] in Hn. pose proof Hn as Hn'. apply NoDup_app in Hn' as (_ & Hd & Hr).
    rewrite bool_decide_eq_false_2 by (intros Hin; apply (Hd _ Hin); left).
    rewrite IH; [by rewrite <- app_assoc| |].
    + intros k' Hk'. destruct (Hk k') as [? Hc]; [by right|]. split; [done|]. cbn [counted].
      destruct (string_eqb k k') eqn:He; [|done]. bool_to_prop. subst. apply NoDup_cons in Hr as [Hr _]. done.
    + rewrite <- app_assoc, fmap_app. exact Hn.
Qed.

(** What is stored for a field. *)
Definition stored_value (kv : string * json) : json :=
  if string_eqb kv.1 "error" then JBool (truthy kv.2) else redact_value (nlp env) kv.2.

Lemma stored_members fields data : prod_map id (redact_value (nlp env)) <$> (hide_error <$> project env fields data)
  = (fun kv => (kv.1, stored_value kv)) <$> project env fields data.
Proof.
  rewrite <- list_fmap_compose. apply list_fmap_ext. intros i [key v] _. cbn. unfold hide_error, stored_value. cbn [fst snd].
  by destruct (string_eqb key "error").
Qed.

(** The payload that is stored: the fields that were let through, under their redacted names,
    with their values redacted. *)
Lemma safe_payload_fields k fields data safe : allowed_fields k = Some fields -> safe_event_payload env k data = Ok safe ->
  safe.*2 = stored_value <$> project env fields data /\ NoDup (safe.*1)
  /\ Forall2 (key_for (nlp env)) ((project env fields data).*1) (safe.*1)
  /\ (names_stay env fields -> safe.*1 = (project env fields data).*1).
Proof using Henv.
  intros Hf. unfold safe_event_payload. rewrite Hf, redact_obj, stored_members. intros [= <-].
  set (members := (fun kv => (kv.1, stored_value kv)) <$> project env fields data).
  assert (members.*1 = (project env fields data).*1) as Hkeys by (unfold members; by rewrite <- list_fmap_compose).
  assert (members.*2 = stored_value <$> project env fields data) as Hvalues by (unfold members; by rewrite <- list_fmap_compose).
  destruct (redact_members_keeps (nlp env) [] [] members ltac:(apply NoDup_nil_2)) as (keys & Hkeep & Hn & Hfor).
  assert (length keys = length (members.*2)) as Hlen by (apply Forall2_length in Hfor; rewrite length_fmap in Hfor; rewrite length_fmap; lia).
  assert (names_stay env fields -> redact_members (nlp env) [] [] members = members) as Hstay.
  { intros Hs. apply (redact_members_fixed [] [] members).
    - intros key Hin. split; [|done]. rewrite Hkeys in Hin. apply list_elem_of_fmap in Hin as (kv & -> & Hkv).
      apply project_fields in Hkv as [Hkv _]. unfold names_stay in Hs. rewrite Forall_forall in Hs. by apply Hs.
    - cbn [app]. rewrite Hkeys. apply project_keys_nodup. by eapply fields_nodup. }
  split_and!.
  - rewrite Hkeep. cbn [app]. by rewrite snd_zip by lia.
  - rewrite Hkeep. cbn [app]. by rewrite fst_zip by lia.
  - rewrite Hkeep, <- Hkeys. cbn [app]. by rewrite fst_zip by lia.
  - intros Hs. by rewrite Hstay.
Qed.

(** C24. Whatever callers pass, the payload of a stored event is that of fields allow-listed
    for its kind, each at most once: a value is the redaction of the caller's value for the
    field, an error only whether there was one, and a key is the redaction of the field's
    name, so the name itself wherever the detector finds nothing in the names of the kind. *)
Theorem stored_payloads_are_allow_listed (st : ledger) (run : string) (s : Z) (e : RuntimeEventRow) :
  ledger_reachable env st -> events st !! (run, s) = Some e ->
  exists (fields : list string) (data chosen safe : list (string * json)), allowed_fields (kind e) = Some fields
    /\ safe_event_payload env (kind e) data = Ok safe /\ payload e = dumps_unsorted (JObj safe)
    /\ NoDup (chosen.*1) /\ (forall kv, kv ∈ chosen -> kv.1 ∈ fields /\ kv ∈ data)
    /\ safe.*2 = stored_value <$> chosen
    /\ NoDup (safe.*1) /\ Forall2 (key_for (nlp env)) (chosen.*1) (safe.*1) /\ (names_stay env fields -> safe.*1 = chosen.*1).
Proof using Henv.
  intros Hr%ledger_reachable_ok He. destruct (ok_event _ _ Hr _ _ _ He) as (r & _ & _ & (_ & _ & data & safe & Hsafe & _ & Hp) & _).
  destruct (allowed_fields (kind e)) as [fields|] eqn:Hf; [|unfold safe_event_payload in Hsafe; by rewrite Hf in Hsafe].
  destruct (safe_payload_fields _ _ _ _ Hf Hsafe) as (Hv & Hn & Hk & Hstay). exists fields, data, (project env fields data), safe.
  split_and!; try done; [apply project_keys_nodup; by eapply fields_nodup|]. intros kv. apply project_fields.
Qed.

(** *** Round trip *)

Lemma event_record_reads run s e safe fields : allowed_fields (kind e) = Some fields -> e_schema e = SCHEMA_VERSION ->
  payload e = dumps_unsorted (JObj safe) -> plain (JObj safe) = true -> (forall key, key ∈ safe.*1 -> key ∈ fields) ->
  _event_record (run, s) e =
    Ok (mkEventRecord run (e_project e) (e_conversation e) (e_correlation e) s (event_at e) (kind e) (e_schema e) (iteration e) safe).
Proof.
  intros Hf Hs Hp Hplain Hkeys. unfold _event_record. rewrite Hf, Hs, Hp, loads_unsorted by done. cbn [negb Z.eqb SCHEMA_VERSION].
  change (negb (SCHEMA_VERSION =? SCHEMA_VERSION)) with false. cbn iota.
  assert (forallb (fun kv => bool_decide (kv.1 ∈ fields)) safe = true) as ->; [|done].
  apply forallb_forall. intros kv Hin. apply bool_decide_eq_true, Hkeys, list_elem_of_fmap. exists kv.
  split; [done|]. by apply list_elem_of_In.
Qed.

(** What an accepted event does to the tables. *)
Lemma append_event_accepts now run who k iter data u st st' s safe :
  append_event env now run who k iter data u st = (st', Ok s) -> safe_event_payload env k data = Ok safe ->
  exists r r', runs st !! run = Some r /\ s = next_sequence r
    /\ runs st' !! run = Some r' /\ identity r' = identity r /\ user_id (identity r) = user_id who /\ next_sequence r' = s + 1
    /\ events st' = <[(run, s) := mkEvent (user_id who) (project_id who) (conversation_id who) (correlation_id who) now k
                       SCHEMA_VERSION iter (dumps_unsorted (JObj safe))]> (events st).
Proof.
  intros Happ Hsafe. unfold append_event in Happ. rewrite Hsafe in Happ. destruct (finite_json _); [|done]. cbn [negb] in Happ.
  destruct (scalar (open_run run (user_id who)) (runs st)) as [[k0 r]|] eqn:Hs; [|done].
  apply scalar_Some in Hs as [Hr Ho]. pose proof Ho as Ho'. apply open_spec in Ho' as (-> & Hu & Hrun).
  destruct (bool_decide _); [done|].
  rewrite (update_where_pinned _ _ _ _ (pins_open run (user_id who))), Hr, Ho in Happ.
  assert (open_run run (user_id who) run (take_sequence r) = true) as Ho2 by (by apply open_spec).
  rewrite (rowcount_pinned _ _ _ (pins_open run (user_id who))), lookup_insert_eq, Ho2 in Happ. cbn [Nat.eqb negb] in Happ.
  unfold set_runs, set_events in Happ. cbn [runs events checkpoints drafts conversations messages] in Happ.
  rewrite (update_where_pinned _ _ _ _ (pins_open run (user_id who))), lookup_insert_eq, Ho2, insert_insert_eq in Happ.
  destruct (negb (string_eqb k RUN_STOPPED)); injection Happ as <- <-; exists r; cbn [runs events];
    rewrite lookup_insert_eq; eexists; by split_and!.
Qed.

(** Appending and reading agree: an accepted event is the next page of its run's events
    after the sequences it had before, with the caller's kind, iteration and project and
    the payload that was let through. *)
Theorem appended_event_reads_back (st st' : ledger) (now : Z) (run : string) (who : RunIdentity) (k : string) (iter : Z)
    (data safe : list (string * json)) (u : Usage) (s limit : Z) :
  ledger_reachable env st -> append_event env now run who k iter data u st = (st', Ok s) ->
  safe_event_payload env k data = Ok safe -> plain (JObj safe) = true -> 1 <= limit <= MAX_PAGE ->
  (forall fields, allowed_fields k = Some fields -> names_stay env fields) ->
  list_events (user_id who) run limit (s - 1) st' =
    Ok (Some [mkEventRecord run (project_id who) (conversation_id who) (correlation_id who) s now k SCHEMA_VERSION iter safe]).
Proof using Henv.
  intros Hr Happ Hsafe Hplain Hlimit Hnames.
  assert (ledger_reachable env st') as Hr'.
  { eapply rtc_r; [exact Hr|]. exists (CallAppend now run who k iter data u). cbn [perform]. by rewrite Happ. }
  pose proof (ledger_reachable_ok _ _ Hr') as Hok'.
  destruct (append_event_accepts _ _ _ _ _ _ _ _ _ _ _ Happ Hsafe) as (r & r' & Hrun & Hs & Hrun' & Hid & Hu & Hn & Hev).
  unfold list_events, _bounded_page, require, page_ok.
  assert (1 <= s) as Hs1.
  { subst s. by destruct (ok_run _ _ (ledger_reachable_ok _ _ Hr) _ _ Hrun). }
  rewrite (proj2 (Z.leb_le 1 limit)), (proj2 (Z.leb_le limit MAX_PAGE)), (proj2 (Z.leb_le 0 (s - 1))) by lia. cbn [andb mbind result_bind].
  rewrite (scalar_pinned _ _ _ r' (pins_owned run (user_id who)) Hrun') by (apply owned_spec; by rewrite Hid).
  set (e := mkEvent _ _ _ _ _ _ _ _ _) in Hev.
  assert (events st' !! (run, s) = Some e) as He by by rewrite Hev, lookup_insert_eq.
  rewrite (select_where_unique _ _ (run, s) e); [| |exact He|].
  - assert (exists fields, allowed_fields k = Some fields) as [fields Hf].
    { unfold safe_event_payload in Hsafe. destruct (allowed_fields k) as [f|]; [by exists f|done]. }
    assert (take (Z.to_nat limit) (merge_sort by_sequence [((run, s), e)]) = [((run, s), e)]) as ->.
    { destruct (Z.to_nat limit) as [|[|n]] eqn:Hz; [lia|done|done]. }
    cbn [each fst snd]. rewrite (event_record_reads run s e safe fields Hf); [done|done|done|exact Hplain|].
    destruct (safe_payload_fields _ _ _ _ Hf Hsafe) as (_ & _ & _ & ->); [|by apply Hnames].
    intros key (kv & -> & Hin)%list_elem_of_fmap. by apply project_fields in Hin as [Hin _].
  - intros [k' s'] e' Hk' Hafter. unfold event_after in Hafter. bool_to_prop. cbn [fst snd] in *.
    match goal with H : k' = run /\ _ |- _ => destruct H as [-> _] end.
    destruct (ok_event _ _ Hok' _ _ _ Hk') as (x & Hx & Hb & _). assert (x = r') as -> by congruence. f_equal. lia.
  - unfold event_after. cbn [fst snd]. apply andb_true_iff. split; [by apply bool_decide_eq_true|]. apply Z.ltb_lt. lia.
Qed.
End payloads.

(** ** The environment without a recognizer *)

Lemma plain_environment_order : fair_order plain_environment.
Proof. by intros l. Qed.

Lemma plain_names_stay k fields : allowed_fields k = Some fields -> names_stay plain_environment fields.
Proof.
  intros Hf. apply Forall_forall. intros key Hin.
  assert (forallb (fun kf => forallb (fun f => string_eqb (redact_str plain_environment f) f) kf.2) _SAFE_FIELDS = true) as Hall
    by (vm_compute; reflexivity).
  rewrite forallb_forall in Hall. apply get_item_elem in Hf. specialize (Hall (k, fields)).
  rewrite <- list_elem_of_In in Hall. specialize (Hall Hf). cbn [snd] in Hall. rewrite forallb_forall in Hall.
  specialize (Hall key). rewrite <- list_elem_of_In in Hall. specialize (Hall Hin). by bool_to_prop.
Qed.

Definition demo_event : RuntimeEventRow :=
  mkEvent "alice" "apollo" "c1" "trace-1" 4 "run_started" 1 1 (dumps_unsorted (JObj [("safe", JBool true)]))%string.

Lemma stored_payloads_are_allow_listed_witness :
  exists (fields : list string) (data chosen safe : list (string * json)), allowed_fields (kind demo_event) = Some fields
    /\ safe_event_payload plain_environment (kind demo_event) data = Ok safe /\ payload demo_event = dumps_unsorted (JObj safe)
    /\ NoDup (chosen.*1) /\ (forall kv, kv ∈ chosen -> kv.1 ∈ fields /\ kv ∈ data)
    /\ safe.*2 = stored_value plain_environment <$> chosen
    /\ NoDup (safe.*1) /\ Forall2 (key_for (nlp plain_environment)) (chosen.*1) (safe.*1)
    /\ (names_stay plain_environment fields -> safe.*1 = chosen.*1).
Proof.
  apply (stored_payloads_are_allow_listed plain_environment plain_environment_order (demo_ledger 4) "r1" 1 demo_event).
  - apply history_reachable.
  - vm_compute. reflexivity.
Defined.

Lemma appended_event_reads_back_witness :
  list_events "alice" "r1" 50 (2 - 1)
      (append_event plain_environment 9 "r1" (demo_identity "c1") "tool_progress" 1 [("name", JStr "grep"); ("x", JNull)]%string
         demo_usage (demo_ledger 3)).1
    = Ok (Some [mkEventRecord "r1" "apollo" "c1" "trace-1" 2 9 "tool_progress" SCHEMA_VERSION 1 [("name", JStr "grep")]%string]).
Proof.
  apply (appended_event_reads_back plain_environment plain_environment_order (demo_ledger 3)
           (append_event plain_environment 9 "r1" (demo_identity "c1") "tool_progress" 1 [("name", JStr "grep"); ("x", JNull)]%string
              demo_usage (demo_ledger 3)).1
           9 "r1" (demo_identity "c1") "tool_progress" 1 [("name", JStr "grep"); ("x", JNull)]%string
           [("name", JStr "grep")]%string demo_usage 2 50).
  - apply history_reachable.
  - vm_compute. reflexivity.
  - vm_compute. reflexivity.
  - vm_compute. reflexivity.
  - unfold MAX_PAGE. lia.
  - apply plain_names_stay.
Defined.
