(* ===== verification/RunRetention.v ===== *)
(** * Retention of runs ([prune_completed], [prune_terminal_to_event_budget])

    Whole ended runs are deleted, oldest first, until the ledger has no more events than
    its budget or no ended run is left; a deletion is refused as a whole when a run that
    stays names a deleted one as its parent, and on SQLite, which checks every row as it is
    deleted, when any run does: there a run and its fork cannot be pruned together, nor one
    after the other while the older one comes first. *)

From Stdlib Require Import ZArith QArith Lia String Ascii.
From stdpp Require Import base gmap strings list fin_maps sorting relations.
From S2P Require Import Prelude Strings Sql Json JsonText Redaction RunLedger RunLedgerLaws.
Open Scope Z_scope.

(** ** Counting what is deleted *)

Section counting.
Context {A : Type}.
Implicit Types (m : gmap (string * Z) A) (ids : list string).

Definition of_run (run : string) (key : string * Z) (_ : A) : bool := bool_decide (key.1 = run).

Definition of_runs ids (key : string * Z) (_ : A) : bool := bool_decide (key.1 ∈ ids).

Definition without_runs ids m : gmap (string * Z) A := filter (fun kx => of_runs ids kx.1 kx.2 = false) m.

Definition sum_counts ids m : nat := sum_list ((fun run => rowcount (of_run run) m) <$> ids).

Lemma without_lookup ids m key :
  without_runs ids m !! key = match m !! key with Some x => if bool_decide (key.1 ∈ ids) then None else Some x | None => None end.
Proof. apply (lookup_filter_bool (of_runs ids)). Qed.

Lemma size_split run m : (rowcount (of_run run) m + size (without_runs [run] m) = size m)%nat.
Proof.
  unfold rowcount. rewrite <- (map_size_disj_union (filter (fun kr => of_run run kr.1 kr.2 = true) m)).
  - f_equal. apply map_eq. intros key. rewrite lookup_union, map_lookup_filter, without_lookup. unfold of_run.
    destruct (m !! key) as [x|]; [|done]. cbn. rewrite (bool_decide_ext (key.1 ∈ [run]) (key.1 = run)) by apply list_elem_of_singleton.
    destruct (bool_decide (key.1 = run)).
    + by rewrite option_guard_True.
    + by rewrite option_guard_False.
  - apply map_disjoint_spec. intros key x y [_ Hx]%map_lookup_filter_Some Hy. rewrite without_lookup in Hy. unfold of_run in Hx. cbn in Hx.
    rewrite (bool_decide_ext (key.1 ∈ [run]) (key.1 = run)) in Hy by apply list_elem_of_singleton. rewrite Hx in Hy. by destruct (m !! key).
Qed.

Lemma without_cons run ids m : without_runs (run :: ids) m = without_runs ids (without_runs [run] m).
Proof.
  apply map_eq. intros key. rewrite !without_lookup. destruct (m !! key) as [x|]; [|done].
  rewrite (bool_decide_ext (key.1 ∈ run :: ids) (key.1 = run \/ key.1 ∈ ids)) by apply elem_of_cons.
  rewrite (bool_decide_ext (key.1 ∈ [run]) (key.1 = run)) by apply list_elem_of_singleton.
  rewrite bool_decide_or. by destruct (bool_decide (key.1 = run)).
Qed.

Lemma rowcount_ext_eq (P : string * Z -> A -> bool) m m' :
  (forall key x, P key x = true -> m !! key = Some x <-> m' !! key = Some x) -> rowcount P m = rowcount P m'.
Proof.
  intros H. unfold rowcount. f_equal. apply map_eq. intros key. apply option_eq. intros x.
  rewrite !map_lookup_filter_Some. cbn. specialize (H key x). tauto.
Qed.

Lemma sum_counts_without run ids m : run ∉ ids -> sum_counts ids (without_runs [run] m) = sum_counts ids m.
Proof.
  intros Hrun. unfold sum_counts. f_equal. apply list_fmap_ext. intros i id Hi. apply rowcount_ext_eq.
  intros key x Hk. unfold of_run in Hk. bool_to_prop. rewrite without_lookup.
  rewrite bool_decide_eq_false_2; [by destruct (m !! key)|]. rewrite list_elem_of_singleton. intros He.
  apply Hrun. apply list_elem_of_lookup. exists i. congruence.
Qed.

Lemma sum_counts_snoc run ids m : sum_counts (ids ++ [run])%list m = (sum_counts ids m + rowcount (of_run run) m)%nat.
Proof. induction ids as [|id ids IH]; unfold sum_counts in *; cbn; lia. Qed.

(** Deleting runs deletes exactly the events counted for them. *)
Lemma size_without ids m : NoDup ids -> (size (without_runs ids m) + sum_counts ids m = size m)%nat.
Proof.
  revert m. induction ids as [|run ids IH]; intros m Hn.
  - unfold sum_counts. cbn. rewrite Nat.add_0_r. f_equal. apply map_eq. intros key. rewrite without_lookup. by destruct (m !! key).
  - apply NoDup_cons in Hn as [Hrun Hn]. rewrite without_cons. pose proof (IH (without_runs [run] m) Hn) as Hs.
    rewrite sum_counts_without in Hs by done. pose proof (size_split run m).
    change (sum_counts (run :: ids) m) with (rowcount (of_run run) m + sum_counts ids m)%nat. lia.
Qed.
End counting.

(** ** The loop *)

(** The runs collected are the first candidates, enough of them, or all; without the last
    of them the budget is not met. *)
Lemma collect_stale_prefix total budget removed (l : list (string * Z)) : budget < total - removed -> exists n,
  collect_stale total budget removed l = take n (l.*1) /\ (n <= length l)%nat
  /\ (total - (removed + foldr Z.add 0 (take n (l.*2))) <= budget \/ collect_stale total budget removed l = l.*1)
  /\ budget < total - (removed + foldr Z.add 0 (take (pred n) (l.*2))).
Proof.
  revert removed. induction l as [|[run count] l IH]; intros removed Hover; cbn [collect_stale].
  - exists 0%nat. split_and!; [done|done|by right|cbn; lia].
  - destruct (Z.leb_spec (total - (removed + count)) budget).
    + exists 1%nat. split_and!; [by destruct l|cbn; lia| |cbn; lia]. left. destruct l; cbn; lia.
    + destruct (IH (removed + count)) as (n & He & Hn & Hor & Hlast); [lia|]. exists (S n). cbn [fmap list_fmap take fst snd]. rewrite He.
      split_and!; [done|cbn; lia| |].
      * destruct Hor as [Hle|Hall]; [left; cbn; lia|right]. congruence.
      * destruct n; cbn in *; lia.
Qed.

#[export] Instance oldest_completed_total : Total oldest_completed.
Proof.
  intros a b. unfold oldest_completed. destruct (String.leb_total a.1 b.1);
    destruct (Z.lt_trichotomy (default 0 (completed_at a.2)) (default 0 (completed_at b.2))) as [?|[?|?]]; auto.
Qed.

Definition completed_before (a b : string * RunRow) : Prop := default 0 (completed_at a.2) <= default 0 (completed_at b.2).

Lemma candidates_sorted l : StronglySorted completed_before (merge_sort oldest_completed l).
Proof.
  assert (forall a b, oldest_completed a b -> completed_before a b) as Hw by (unfold oldest_completed, completed_before; intros; lia).
  apply Sorted_StronglySorted; [intros x y z; unfold completed_before; lia|].
  pose proof (Sorted_merge_sort oldest_completed l) as Hs. induction Hs as [|x l' Hs IH Hd]; constructor; [exact IH|].
  destruct Hd; constructor; auto.
Qed.

(** ** Deletion *)

Section retention.
Variable env : environment.

Lemma terminal_kept (st : ledger) gone k r : ledger_ok env st -> runs st !! k = Some r -> gone k r = false ->
  runs (delete_where gone st) !! k = Some r /\ forall s, events (delete_where gone st) !! (k, s) = events st !! (k, s).
Proof.
  intros Hok Hr Hg. split; [by apply delete_lookup|]. intros s. unfold delete_where. cbn [events].
  rewrite (lookup_filter_bool (fun (key : string * Z) _ => match runs st !! key.1 with Some x => gone key.1 x | None => false end)).
  cbn [fst]. rewrite Hr, Hg. by destruct (events st !! (k, s)).
Qed.

(** The events that stay are those of the runs that stay. *)
Lemma events_without (st : ledger) ids gone : ledger_ok env st ->
  (forall k r, runs st !! k = Some r -> gone k r = bool_decide (k ∈ ids)) ->
  events (delete_where gone st) = without_runs ids (events st).
Proof.
  intros Hok Hg. apply map_eq. intros [k s]. rewrite without_lookup. unfold delete_where. cbn [events].
  rewrite (lookup_filter_bool (fun (key : string * Z) _ => match runs st !! key.1 with Some x => gone key.1 x | None => false end)).
  cbn [fst]. destruct (events st !! (k, s)) as [e|] eqn:He; [|done].
  destruct (ok_event _ _ Hok _ _ _ He) as (r & Hr & _). by rewrite Hr, (Hg _ _ Hr).
Qed.

Lemma referenced_spec gone (t : gmap string RunRow) : referenced env gone t = true <->
  exists k r p rp, t !! k = Some r /\ (restrict_immediate env = true \/ gone k r = false) /\ parent_run_id r = Some p
    /\ t !! p = Some rp /\ gone p rp = true.
Proof.
  unfold referenced. rewrite existsb_exists. split.
  - intros ([k r] & Hin & H). rewrite <- list_elem_of_In in Hin. apply elem_of_map_to_list in Hin.
    cbn in H. bool_to_prop. destruct (parent_run_id r) as [p|] eqn:Hp; [|done]. destruct (t !! p) as [rp|] eqn:Hrp; [|done].
    exists k, r, p, rp. split_and!; try done. by destruct (restrict_immediate env); [left|right; destruct (gone k r)].
  - intros (k & r & p & rp & Hr & Hor & Hp & Hrp & Hg). exists (k, r). split; [by apply list_elem_of_In, elem_of_map_to_list|].
    cbn. rewrite Hp, Hrp, Hg, andb_true_r. apply orb_true_iff. destruct Hor as [->| ->]; auto.
Qed.

(** A run has its parent among [ids], and the database minds: it checks at once, or the run
    would stay. *)
Definition parent_among (ids : list string) (st : ledger) : Prop :=
  exists k r p, runs st !! k = Some r /\ parent_run_id r = Some p /\ p ∈ ids /\ (restrict_immediate env = true \/ k ∉ ids).

Lemma referenced_parent st ids gone : (forall k r, runs st !! k = Some r -> gone k r = bool_decide (k ∈ ids)) ->
  (forall k, k ∈ ids -> is_Some (runs st !! k)) -> referenced env gone (runs st) = true <-> parent_among ids st.
Proof.
  intros Hgone Hids. rewrite referenced_spec. split.
  - intros (k & r & p & rp & Hr & Hor & Hp & Hrp & Hg). rewrite (Hgone _ _ Hr), bool_decide_eq_false in Hor.
    rewrite (Hgone _ _ Hrp) in Hg. bool_to_prop. by exists k, r, p.
  - intros (k & r & p & Hr & Hp & Hin & Hor). destruct (Hids _ Hin) as [rp Hrp]. exists k, r, p, rp.
    rewrite (Hgone _ _ Hr), (Hgone _ _ Hrp), bool_decide_eq_false, bool_decide_eq_true. by split_and!.
Qed.

(** What the budget asks of a ledger after pruning. *)
Record pruned (st st' : ledger) (max_events : Z) : Prop := {
  pruned_enough : Z.of_nat (size (events st')) <= max_events \/ forall k r, runs st' !! k = Some r -> terminal r = false;
  pruned_needed : st' = st \/ exists k r, runs st !! k = Some r /\ runs st' !! k = None
    /\ max_events < Z.of_nat (size (events st')) + event_count k st;
  pruned_whole k r : runs st' !! k = Some r -> runs st !! k = Some r /\ forall s, events st' !! (k, s) = events st !! (k, s);
  pruned_ended k r : runs st !! k = Some r -> terminal r = false -> runs st' !! k = Some r;
  pruned_oldest k r k' r' : runs st !! k = Some r -> runs st' !! k = None -> runs st' !! k' = Some r' -> terminal r' = true ->
    completed_before (k, r) (k', r')
}.

Lemma counted_sum (st : ledger) n (l : list (string * RunRow)) :
  foldr Z.add 0 (take n (((fun kr => (kr.1, event_count kr.1 st)) <$> l).*2))
  = Z.of_nat (sum_counts (take n (l.*1)) (events st)).
Proof.
  revert n. induction l as [|kr l IH]; intros [|n]; [done..|]. cbn [fmap list_fmap take foldr]. rewrite IH.
  change (sum_counts (kr.1 :: take n (l.*1)) (events st))
    with (rowcount (of_run kr.1) (events st) + sum_counts (take n (l.*1)) (events st))%nat.
  rewrite Nat2Z.inj_add. reflexivity.
Qed.

Lemma deleted_runs_pruned (st : ledger) gone ids n (candidates : list (string * RunRow)) (max_events : Z) : ledger_ok env st ->
  (forall k r, (k, r) ∈ candidates <-> runs st !! k = Some r /\ terminal r = true) -> NoDup (candidates.*1) ->
  StronglySorted completed_before candidates -> ids = take n (candidates.*1) ->
  (forall k r, runs st !! k = Some r -> gone k r = bool_decide (k ∈ ids)) ->
  Z.of_nat (size (events st)) - Z.of_nat (sum_counts ids (events st)) <= max_events \/ ids = candidates.*1 ->
  ids <> [] -> (n <= length candidates)%nat ->
  max_events < Z.of_nat (size (events st)) - Z.of_nat (sum_counts (take (pred n) (candidates.*1)) (events st)) ->
  pruned st (delete_where gone st) max_events.
Proof.
  intros Hok Hcand Hnd Hsorted Hids Hgone Hor Hne Hn Hlast.
  assert (forall k, k ∈ ids -> exists r, (k, r) ∈ take n candidates) as Hin.
  { intros k Hk. rewrite Hids, <- fmap_take in Hk. apply list_elem_of_fmap in Hk as ([k' r] & -> & Hk). by exists r. }
  assert (forall k r, (k, r) ∈ take n candidates -> runs st !! k = Some r /\ terminal r = true) as Htake.
  { intros k r Hk. apply Hcand. apply elem_of_take in Hk as (i & Hi & _). by eapply list_elem_of_lookup_2. }
  pose proof (size_without ids (events st)) as Hs. rewrite Hids in Hs at 1. specialize (Hs (sublist_NoDup _ _ Hnd (sublist_take _ _))).
  pose proof (events_without st ids gone Hok Hgone) as Hevents.
  split.
  - destruct Hor as [Hle|Hall].
    + left. rewrite Hevents. lia.
    + right. intros k r [Hr Hg]%delete_lookup. destruct (terminal r) eqn:Ht; [exfalso|done].
      rewrite (Hgone _ _ Hr) in Hg. bool_to_prop. apply Hg. rewrite Hall. apply list_elem_of_fmap. exists (k, r).
      split; [done|by apply Hcand].
  - right. destruct n as [|m]; [by rewrite Hids in Hne|]. destruct (lookup_lt_is_Some_2 candidates m Hn) as [[k r] Hm].
    assert (candidates.*1 !! m = Some k) as Hk by by rewrite list_lookup_fmap, Hm.
    destruct (proj1 (Hcand k r) (list_elem_of_lookup_2 _ _ _ Hm)) as [Hr _]. exists k, r. split_and!; [done| |].
    + apply eq_None_not_Some. intros [x [Hx Hg]%delete_lookup]. rewrite (Hgone _ _ Hx) in Hg. bool_to_prop. apply Hg.
      rewrite Hids, (take_S_r _ _ _ Hk). apply elem_of_app. right. by apply list_elem_of_singleton.
    + rewrite Hevents. rewrite Hids, (take_S_r _ _ _ Hk), sum_counts_snoc in *. cbn [pred] in Hlast.
      change (event_count k st) with (Z.of_nat (rowcount (of_run k) (events st))). lia.
  - intros k r [Hr Hg]%delete_lookup. split; [done|]. by apply (terminal_kept st gone k r).
  - intros k r Hr Ht. apply delete_lookup. split; [done|]. rewrite (Hgone _ _ Hr). apply bool_decide_eq_false_2. intros Hk.
    destruct (Hin k Hk) as (r' & Hr'). apply Htake in Hr' as [Hr' Ht']. congruence.
  - intros k r k' r' Hr Hnone [Hr' Hg']%delete_lookup Ht'.
    assert (gone k r = true) as Hg.
    { destruct (gone k r) eqn:Hg; [done|]. assert (runs (delete_where gone st) !! k = Some r) as Hstay by by apply delete_lookup. congruence. }
    rewrite (Hgone _ _ Hr) in Hg. rewrite (Hgone _ _ Hr') in Hg'. bool_to_prop. destruct (Hin k Hg) as (x & Hx).
    destruct (Htake _ _ Hx) as [Hx' _]. assert (x = r) as -> by congruence.
    assert ((k', r') ∈ drop n candidates) as Hdrop.
    { assert ((k', r') ∈ candidates) as Hc by by apply Hcand. rewrite <- (take_drop n candidates) in Hc.
      apply elem_of_app in Hc as [Hc|Hc]; [exfalso|done]. apply Hg'. rewrite Hids, <- fmap_take.
      apply list_elem_of_fmap. by exists (k', r'). }
    rewrite <- (take_drop n candidates) in Hsorted.
    by eapply (StronglySorted_app_1_elem_of completed_before (take n candidates) (drop n candidates)).
Qed.

(** C25. Pruning to an event budget deletes whole ended runs, oldest first and none that still
    runs, until the budget is met or only running runs are left; without the last deleted
    run it would not be met. Over budget it fails, changing nothing, exactly when a run has its
    parent among the runs to delete and would stay itself; on SQLite, whose foreign keys are
    checked row by row, even when it would be deleted with its parent. *)
Theorem event_budget_is_met (st : ledger) (max_events : Z) : ledger_reachable env st -> 0 <= max_events ->
  match prune_terminal_to_event_budget env max_events st with
  | (st', Ok n) => pruned st st' max_events /\ 0 <= n
      /\ (max_events < Z.of_nat (size (events st)) -> ~ parent_among (stale_runs max_events st) st)
  | (st', Err e) => st' = st /\ e = IntegrityError /\ parent_among (stale_runs max_events st) st
  end.
Proof.
  intros Hok%ledger_reachable_ok Hmax. unfold prune_terminal_to_event_budget. destruct (Z.ltb_spec max_events 0); [lia|].
  destruct (Z.leb_spec (Z.of_nat (size (events st))) max_events).
  { split_and!; [|lia|lia]. split; [by left|by left|done|done|congruence]. }
  unfold stale_runs. set (candidates := merge_sort oldest_completed _). set (counted := (fun kr => (kr.1, event_count kr.1 st)) <$> candidates).
  assert (forall k r, (k, r) ∈ candidates <-> runs st !! k = Some r /\ terminal r = true) as Hcand.
  { intros k r. unfold candidates. rewrite merge_sort_Permutation. apply (select_where_elem (fun _ r => terminal r)). }
  assert (NoDup (candidates.*1)) as Hnd.
  { unfold candidates. rewrite merge_sort_Permutation. apply NoDup_fst_map_to_list. }
  destruct (collect_stale_prefix (Z.of_nat (size (events st))) max_events 0 counted) as (n & Hstale & Hn & Hor & Hlast); [lia|].
  unfold counted in Hn. rewrite length_fmap in Hn.
  assert (counted.*1 = candidates.*1) as Hfst by (unfold counted; by rewrite <- list_fmap_compose).
  rewrite Hfst in Hstale, Hor. rewrite Hstale in *. set (ids := take n (candidates.*1)) in *.
  assert (Z.of_nat (size (events st)) - Z.of_nat (sum_counts ids (events st)) <= max_events \/ ids = candidates.*1) as Hor'.
  { destruct Hor as [Hle|Hall]; [left|by right]. unfold counted in Hle. rewrite counted_sum in Hle. unfold ids. lia. }
  unfold _delete_terminal_runs. set (gone := fun k r => _).
  assert (forall k r, runs st !! k = Some r -> gone k r = bool_decide (k ∈ ids)) as Hgone.
  { intros k r Hr. unfold gone. cbn. rewrite andb_true_r. destruct (bool_decide_reflect (k ∈ ids)) as [Hin|]; [|done]. cbn.
    unfold ids in Hin. apply elem_of_take in Hin as (i & Hi & _). apply list_elem_of_lookup_2 in Hi.
    apply list_elem_of_fmap in Hi as ([k' r'] & -> & Hin). apply Hcand in Hin as [Hr' Ht]. cbn in *. congruence. }
  pose proof (deleted_runs_pruned st gone ids n candidates max_events Hok Hcand Hnd (candidates_sorted _) eq_refl Hgone) as Hpruned.
  destruct (bool_decide_reflect (ids = [])) as [Hnil|Hne].
  { split_and!; [|lia|]; cycle 1. { intros _ (k & r & p & _ & _ & Hp & _). rewrite Hnil in Hp. by apply elem_of_nil in Hp. }
    destruct Hor' as [Hle|Hall]; [exfalso|].
    - rewrite Hnil in Hle. unfold sum_counts in Hle. cbn in Hle. lia.
    - split; [right|by left|done|done|congruence]. intros k r Hr. destruct (terminal r) eqn:Ht; [exfalso|done].
      assert (k ∈ candidates.*1) as Hin; [|rewrite <- Hall, Hnil in Hin; by apply elem_of_nil in Hin].
      apply list_elem_of_fmap. exists (k, r). split; [done|by apply Hcand]. }
  assert (forall k, k ∈ ids -> is_Some (runs st !! k)) as Hids.
  { intros k Hin. unfold ids in Hin. apply elem_of_take in Hin as (i & Hi & _). apply list_elem_of_lookup_2 in Hi.
    apply list_elem_of_fmap in Hi as ([k' r'] & -> & Hin). apply Hcand in Hin as [Hr' _]. by exists r'. }
  pose proof (referenced_parent st ids gone Hgone Hids) as Href.
  destruct (referenced env gone (runs st)); [by split_and!; [| |apply Href]|].
  split_and!; [|lia|by intros _ Hblocked%Href]. apply Hpruned; [done|done|done|]. unfold counted in Hlast. rewrite counted_sum in Hlast. lia.
Qed.
End retention.

(** A ledger that cannot be pruned: the oldest ended run is the parent of a running one. *)
Definition blocked_ledger : ledger :=
  (ensure_run 7 "r2" (demo_identity "c2") (demo_ledger 5)).1.

(** Both have ended. *)
Definition family_ledger : ledger :=
  (append_event plain_environment 8 "r2" (demo_identity "c2") RUN_STOPPED 1
     [("reason", JStr "end_turn"); ("error", JNull)]%string demo_usage blocked_ledger).1.

(** A database that checks foreign keys when the statement ends. *)
Definition deferring_environment : environment := mkEnvironment None (fun l => l) (fun name => name) false.

Lemma event_budget_is_met_witness :
  match prune_terminal_to_event_budget plain_environment 1 (demo_ledger 5) with
  | (st', Ok n) => pruned (demo_ledger 5) st' 1 /\ 0 <= n
      /\ (1 < Z.of_nat (size (events (demo_ledger 5))) -> ~ parent_among plain_environment (stale_runs 1 (demo_ledger 5)) (demo_ledger 5))
  | (st', Err e) => st' = demo_ledger 5 /\ e = IntegrityError
      /\ parent_among plain_environment (stale_runs 1 (demo_ledger 5)) (demo_ledger 5)
  end.
Proof. apply (event_budget_is_met plain_environment (demo_ledger 5) 1); [apply history_reachable|lia]. Defined.

(** Within its budget afterwards. *)
Example pruned_within_budget : (prune_terminal_to_event_budget plain_environment 1 (demo_ledger 5)).2 = Ok 1
  /\ size (events (prune_terminal_to_event_budget plain_environment 1 (demo_ledger 5)).1) = 0%nat.
Proof. split; vm_compute; reflexivity. Qed.

(** Retention makes no progress, however often it is tried, while the fork runs. *)
Example retention_blocked_by_fork :
  prune_terminal_to_event_budget plain_environment 1 blocked_ledger = (blocked_ledger, Err IntegrityError)
  /\ prune_completed plain_environment "alice" 100 blocked_ledger = (blocked_ledger, Err IntegrityError).
Proof. split; vm_compute; reflexivity. Qed.

(** On SQLite nor when it has ended too: every run of the family is due, and none is deleted.
    A database that checks at the end of the statement deletes both. *)
Example retention_blocked_by_ended_fork :
  prune_completed plain_environment "alice" 100 family_ledger = (family_ledger, Err IntegrityError)
  /\ prune_terminal_to_event_budget plain_environment 0 family_ledger = (family_ledger, Err IntegrityError)
  /\ (prune_completed deferring_environment "alice" 100 family_ledger).2 = Ok 2
  /\ (prune_terminal_to_event_budget deferring_environment 0 family_ledger).2 = Ok 2.
Proof. split_and!; vm_compute; reflexivity. Qed.
