(* ===== verification/Envelope.v ===== *)
(** * Signed delegation envelopes ([delegation/envelope.py])

    A parent run authorizes a child by an envelope: who delegates to whom, under which
    owner and project, for which content and with which budget, signed with HMAC-SHA256
    over its canonical JSON text. The receiving side checks signature, age and scope and
    leaves a receipt of the nonce in a table whose key the nonce is; old receipts are
    deleted on the way.

    Times are seconds. A float is its [repr]; the random nonce comes with the call. *)

From Stdlib Require Import ZArith Lia String Ascii.
From stdpp Require Import base gmap strings list fin_maps sorting pretty.
From S2P Require Import Prelude Strings Sql Json JsonText Sha256.
Open Scope Z_scope.

#[local] Opaque hmac_sha256 sha256_hex urlsafe_b64 dumps_ascii.

(** ** Keys *)

Inductive envelope_error : Type :=
| EnvelopeValueError (message : string)
| InvalidDelegationEnvelope (message : string)
| EnvelopeOverflow.

#[export] Instance envelope_error_eq_dec : EqDecision envelope_error.
Proof. solve_decision. Defined.

Definition zero_byte : string := String zero "".

Definition _DOMAIN : string := "cogentrex.delegation-envelope.v1" ++ zero_byte.
Definition _KEY_DOMAIN : string := "cogentrex.delegation-key.v1" ++ zero_byte.

Definition version_ok (version : Z) : bool := (1 <=? version) && (version <=? 255).

Definition derive_delegation_hmac_key (application_secret : string) (version : Z) : result envelope_error string :=
  _ ← require (negb (string_eqb application_secret "")) (EnvelopeValueError "delegation signing secret is unavailable");
  _ ← require (version_ok version) (EnvelopeValueError "invalid delegation key version");
  Ok (hmac_sha256 application_secret (_KEY_DOMAIN ++ String (ascii_of_N (Z.to_N version)) "")).

(** ** Envelopes *)

(** What a budget can hold. *)
Inductive budget_value : Type :=
| BudgetInt (z : Z)
| BudgetBool (b : bool)
| BudgetFloat (repr : string).

#[export] Instance budget_value_eq_dec : EqDecision budget_value.
Proof. solve_decision. Defined.

Record DelegationEnvelope : Type := mkEnvelope {
  parent_run_id : string;
  child_run_id : string;
  owner_id : string;
  project_id : string;
  context_hash : string;
  budget : list (string * budget_value);
  schema_version : Z;
  issued_at : Z;
  nonce : string;
  key_version : Z;
  signature : string
}.

#[export] Instance envelope_eq_dec : EqDecision DelegationEnvelope.
Proof. solve_decision. Defined.

(** [^[A-Za-z0-9][A-Za-z0-9._:-]{0,254}$] *)
Definition _SAFE (s : string) : bool := safe_id s && (String.length s <=? 255)%nat.

(** [^[A-Za-z0-9_-]{8,255}$] *)
Definition _NONCE (s : string) : bool :=
  (8 <=? String.length s)%nat && (String.length s <=? 255)%nat && string_forall b64_alphabet s.

(** [^[A-Za-z0-9_-]{43}$] *)
Definition _SIGNATURE (s : string) : bool := (String.length s =? 43)%nat && string_forall b64_alphabet s.

Definition _BUDGET_KEYS : list string :=
  ["input_tokens"; "output_tokens"; "retries"; "timeout_seconds"; "cost_nusd"; "max_tool_result_chars"]%string.

(** [tuple(sorted(budget))], where keys differ. *)
Definition budget_le (a b : string * budget_value) : Prop := String.leb a.1 b.1 = true.

#[export] Instance budget_le_dec : RelDecision budget_le.
Proof. intros a b. unfold budget_le. apply _. Defined.

(** A finite float above zero. *)
Definition positive_float (repr : string) : bool :=
  float_text repr && negb (starts_with "-" repr) && negb (string_eqb repr "0.0").

(** Integers from here on do not convert to a float. *)
Definition FLOAT_LIMIT : Z := 2 ^ 1024 - 2 ^ 970.

Definition budget_item (item : string * budget_value) : result envelope_error unit :=
  let invalid := EnvelopeValueError "invalid budget" in
  _ ← require (bool_decide (item.1 ∈ _BUDGET_KEYS)) invalid;
  match item.2 with
  | BudgetBool _ => Err invalid
  | BudgetInt z =>
      if string_eqb item.1 "timeout_seconds"
      then _ ← require (Z.abs z <? FLOAT_LIMIT) EnvelopeOverflow; require (0 <? z) invalid
      else require ((0 <=? z) && negb (bool_decide (item.1 ∈ ["input_tokens"; "output_tokens"; "max_tool_result_chars"]%string)
                                       && (z <? 1))) invalid
  | BudgetFloat t => require (string_eqb item.1 "timeout_seconds" && positive_float t) invalid
  end.

Fixpoint budget_items (l : list (string * budget_value)) : result envelope_error unit :=
  match l with
  | [] => Ok tt
  | item :: rest => _ ← budget_item item; budget_items rest
  end.

(** [DelegationEnvelope.__post_init__] *)
Definition checked (e : DelegationEnvelope) : result envelope_error DelegationEnvelope :=
  _ ← require (forallb _SAFE [parent_run_id e; child_run_id e; owner_id e; project_id e])
        (EnvelopeValueError "envelope contains an invalid identifier");
  _ ← require (_NONCE (nonce e)) (EnvelopeValueError "envelope contains an invalid nonce");
  _ ← require (is_hex64 (context_hash e)) (EnvelopeValueError "context_hash must be a lowercase SHA-256 digest");
  _ ← require (schema_version e =? 1) (EnvelopeValueError "unsupported envelope schema");
  _ ← require ((1 <=? issued_at e) && version_ok (key_version e)) (EnvelopeValueError "invalid envelope version or timestamp");
  _ ← require (string_eqb (signature e) "" || _SIGNATURE (signature e)) (EnvelopeValueError "invalid envelope signature");
  _ ← require (negb (bool_decide (budget e = [])) && (length (budget e) <=? 6)%nat)
        (EnvelopeValueError "budget must be an immutable non-empty tuple");
  _ ← require (bool_decide (merge_sort budget_le (budget e) = budget e) && bool_decide (NoDup ((budget e).*1)))
        (EnvelopeValueError "budget must have sorted unique keys");
  _ ← budget_items (budget e);
  Ok e.

Definition number_json (v : budget_value) : json :=
  match v with BudgetInt z => JInt z | BudgetBool b => JBool b | BudgetFloat t => JFloat t end.

Definition budget_json (l : list (string * budget_value)) : json := JObj (prod_map id number_json <$> l).

(** [asdict(self)] without the signature. *)
Definition unsigned_document (e : DelegationEnvelope) : json :=
  JObj [("parent_run_id", JStr (parent_run_id e)); ("child_run_id", JStr (child_run_id e));
        ("owner_id", JStr (owner_id e)); ("project_id", JStr (project_id e)); ("context_hash", JStr (context_hash e));
        ("schema_version", JInt (schema_version e)); ("issued_at", JInt (issued_at e)); ("nonce", JStr (nonce e));
        ("key_version", JInt (key_version e)); ("budget", budget_json (budget e))]%string.

(** Integers of more than 4300 digits cannot be written. *)
Definition numbers_printable (e : DelegationEnvelope) : bool :=
  int_printable (schema_version e) && int_printable (issued_at e) && int_printable (key_version e)
  && forallb (fun kv => match kv.2 with BudgetInt z => int_printable z | _ => true end) (budget e).

Definition unsigned_payload (e : DelegationEnvelope) : result envelope_error string :=
  _ ← require (numbers_printable e) (EnvelopeValueError "Exceeds the limit for integer string conversion");
  Ok (dumps_ascii (unsigned_document e)).

Definition _signature (e : DelegationEnvelope) (key : string) : result envelope_error string :=
  payload ← unsigned_payload e;
  Ok (urlsafe_b64 (hmac_sha256 key (_DOMAIN ++ payload))).

(** ** The service *)

Record DelegationEnvelopeService : Type := mkService {
  _keys : gmap Z string;
  _active : Z;
  _max_age : Z;
  _future_skew : Z
}.

Definition distinct_keys (keys : gmap Z string) : bool := bool_decide (NoDup ((map_to_list keys).*2)).

Definition new_service (keys : gmap Z string) (active max_age skew : Z) : result envelope_error DelegationEnvelopeService :=
  _ ← require (bool_decide (is_Some (keys !! active))
               && forallb (fun vk => version_ok vk.1 && (32 <=? String.length vk.2)%nat) (map_to_list keys)
               && distinct_keys keys)
        (EnvelopeValueError "delegation keys must be distinct versioned 32-byte values");
  _ ← require ((1 <=? max_age) && (max_age <=? 86400) && (0 <=? skew) && (skew <=? 300))
        (EnvelopeValueError "invalid delegation freshness window");
  Ok (mkService keys active max_age skew).

(** The receipts, under their nonce. *)
Record DelegationNonceRow : Type := mkReceipt {
  n_key_version : Z;
  n_owner : string;
  n_project : string;
  n_parent : string;
  n_child : string;
  signature_hash : string;
  n_issued : Z;
  received_at : Z
}.

Record delegation_scope : Type := mkScope {
  for_owner : string;
  for_project : string;
  for_parent : string;
  for_child : string;
  for_context : string
}.

#[export] Instance delegation_scope_eq_dec : EqDecision delegation_scope.
Proof. solve_decision. Defined.

Definition scope_of (e : DelegationEnvelope) : delegation_scope :=
  mkScope (owner_id e) (project_id e) (parent_run_id e) (child_run_id e) (context_hash e).

Section service.
Variable svc : DelegationEnvelopeService.

(** [issue]; [token] is what [secrets.token_urlsafe(24)] gives. *)
Definition issue (scope : delegation_scope) (items : list (string * budget_value)) (now : Z) (given : option string)
    (token : string) : result envelope_error DelegationEnvelope :=
  let chosen := match given with Some n => if string_eqb n "" then token else n | None => token end in
  e ← checked (mkEnvelope (for_parent scope) (for_child scope) (for_owner scope) (for_project scope) (for_context scope)
                 (merge_sort budget_le items) 1 now chosen (_active svc) "");
  text ← _signature e (default "" (_keys svc !! _active svc));
  checked (mkEnvelope (parent_run_id e) (child_run_id e) (owner_id e) (project_id e) (context_hash e) (budget e)
             (schema_version e) (issued_at e) (nonce e) (key_version e) text).

Definition fresh (now : Z) (e : DelegationEnvelope) : bool :=
  (now - _max_age svc <=? issued_at e) && (issued_at e <=? now + _future_skew svc).

Definition authentic (e : DelegationEnvelope) : result envelope_error bool :=
  let key := _keys svc !! key_version e in
  expected ← _signature e (default (String.concat "" (replicate 32 zero_byte)) key);
  Ok (bool_decide (is_Some key) && string_eqb expected (signature e)).

(** Receipts too old to matter. *)
Definition expired_receipt (now : Z) (row : DelegationNonceRow) : bool := n_issued row <? now - _max_age svc - _future_skew svc.

Definition drop_expired (now : Z) (t : gmap string DelegationNonceRow) : gmap string DelegationNonceRow :=
  filter (fun kr => expired_receipt now kr.2 = false) t.

Definition receipt (now : Z) (e : DelegationEnvelope) : DelegationNonceRow :=
  mkReceipt (key_version e) (owner_id e) (project_id e) (parent_run_id e) (child_run_id e) (sha256_hex (signature e))
    (issued_at e) now.

Definition rejected : envelope_error := InvalidDelegationEnvelope "delegation envelope rejected".

(** [verify_and_consume]; [now] is read before the transaction that leaves the receipt. *)
Definition verify_and_consume (e : DelegationEnvelope) (scope : delegation_scope) (now : Z)
    (t : gmap string DelegationNonceRow) : gmap string DelegationNonceRow * result envelope_error unit :=
  match authentic e with
  | Err err => (t, Err err)
  | Ok signed =>
      if negb (signed && fresh now e && bool_decide (scope_of e = scope)) then (t, Err rejected)
      else
        let kept := drop_expired now t in
        if bool_decide (is_Some (kept !! nonce e)) then (t, Err rejected)
        else (<[nonce e := receipt now e]> kept, Ok tt)
  end.
End service.

(** [context_digest] of a JSON value. *)
Definition context_digest (v : json) : string := sha256_hex (dumps_ascii v).

(** ** Valid envelopes *)

Record envelope_ok (e : DelegationEnvelope) : Prop := {
  ok_ids : Forall (fun s => _SAFE s = true) [parent_run_id e; child_run_id e; owner_id e; project_id e];
  ok_nonce : _NONCE (nonce e) = true;
  ok_context : is_hex64 (context_hash e) = true;
  ok_schema : schema_version e = 1;
  ok_issued : 1 <= issued_at e;
  ok_version : version_ok (key_version e) = true;
  ok_signature : signature e = "" \/ _SIGNATURE (signature e) = true;
  ok_budget_size : budget e <> [] /\ (length (budget e) <= 6)%nat;
  ok_budget_sorted : merge_sort budget_le (budget e) = budget e;
  ok_budget_keys : NoDup ((budget e).*1);
  ok_budget_items : budget_items (budget e) = Ok tt
}.

Lemma forallb_Forall {A} (P : A -> bool) l : forallb P l = true <-> Forall (fun x => P x = true) l.
Proof. rewrite forallb_forall, Forall_forall. split; intros H x Hx; apply H; by apply list_elem_of_In. Qed.

Lemma checked_ok e : envelope_ok e -> checked e = Ok e.
Proof.
  intros [H1 H2 H3 H4 H5 H6 H7 [H8 H8'] H9 H10 H11]. unfold checked.
  rewrite (proj2 (forallb_Forall _ _) H1), H2, H3, H4, H6, H11, (proj2 (Z.leb_le _ _) H5), H9, (bool_decide_eq_true_2 _ H10).
  rewrite (bool_decide_eq_false_2 _ H8), (proj2 (Nat.leb_le _ _) H8'), bool_decide_eq_true_2 by done.
  destruct H7 as [-> | ->]; [done|]. by rewrite orb_true_r.
Qed.

Lemma checked_inv e e' : checked e = Ok e' -> e' = e /\ envelope_ok e.
Proof.
  unfold checked. intros H. inv_result. bool_to_prop. split; [done|].
  match goal with H : forallb _SAFE _ = true |- _ => apply forallb_Forall in H end.
  match goal with H : (_ <=? _)%nat = true |- _ => apply Nat.leb_le in H end.
  match goal with H : string_eqb _ _ || _ = true |- _ => apply orb_true_iff in H; rewrite string_eqb_spec in H end.
  match goal with u : unit |- _ => destruct u end. by split.
Qed.

(** ** The signed text determines the envelope *)

Lemma alphabet_ascii c : b64_alphabet c = true -> (code c <? 128)%N = true.
Proof. by destruct c as [[] [] [] [] [] [] [] []]. Qed.

Lemma safe_char_ascii c : safe_id_char c = true -> (code c <? 128)%N = true.
Proof. by destruct c as [[] [] [] [] [] [] [] []]. Qed.

Lemma safe_ascii s : _SAFE s = true -> is_ascii s = true.
Proof.
  unfold _SAFE, safe_id. intros [H _]%andb_true_iff. destruct s as [|c s]; [done|]. bool_to_prop. unfold is_ascii. cbn.
  rewrite (string_forall_impl safe_id_char _ s safe_char_ascii), andb_true_r by done.
  by destruct c as [[] [] [] [] [] [] [] []].
Qed.

Lemma nonce_ascii s : _NONCE s = true -> is_ascii s = true.
Proof. unfold _NONCE. intros H. bool_to_prop. by apply (string_forall_impl b64_alphabet _ s alphabet_ascii). Qed.

Lemma budget_item_plain kv : budget_item kv = Ok tt ->
  match kv.2 with BudgetInt z => int_printable z | _ => true end = true ->
  is_ascii kv.1 = true /\ plain (number_json kv.2) = true.
Proof.
  unfold budget_item. intros H Hp. inv_result. bool_to_prop.
  split; [|destruct kv.2; [done|done|]; inv_result; unfold positive_float in *; by bool_to_prop].
  match goal with H : _ ∈ _BUDGET_KEYS |- _ => revert H end. unfold _BUDGET_KEYS. rewrite !elem_of_cons, elem_of_nil.
  intros [-> | [-> | [-> | [-> | [-> | [-> | []]]]]]]; reflexivity.
Qed.

Lemma budget_plain l : NoDup (l.*1) -> budget_items l = Ok tt ->
  forallb (fun kv => match kv.2 with BudgetInt z => int_printable z | _ => true end) l = true -> plain (budget_json l) = true.
Proof.
  intros Hn Hi Hp. unfold budget_json. cbn [plain]. apply andb_true_iff. split.
  { apply bool_decide_eq_true. by rewrite <- list_fmap_compose. }
  clear Hn. induction l as [|[k v] l IH]; [done|]. cbn [budget_items forallb fst snd] in *. inv_result.
  apply andb_true_iff in Hp as [Hp Hps]. match goal with u : unit |- _ => destruct u end.
  destruct (budget_item_plain (k, v)) as [Hk Hv]; [done|done|]. cbn [fmap list_fmap prod_map fst snd id] in *. by rewrite Hk, Hv, IH.
Qed.

Lemma document_plain e : envelope_ok e -> numbers_printable e = true -> plain (unsigned_document e) = true.
Proof.
  intros [H1 H2 H3 _ _ _ _ _ _ H10 H11] Hp. unfold numbers_printable in Hp. bool_to_prop.
  repeat (apply Forall_cons in H1 as [? H1]). unfold unsigned_document. cbn [plain fmap list_fmap fst].
  rewrite (nonce_ascii _ H2), (hex64_ascii _ H3), budget_plain, !safe_ascii by done.
  rewrite bool_decide_eq_true_2 by (apply (bool_decide_eq_true_1 _); reflexivity).
  repeat match goal with H : int_printable _ = true |- _ => rewrite H; clear H end. reflexivity.
Qed.

Lemma canon_budget l : merge_sort budget_le l = l -> canon (budget_json l) = budget_json l.
Proof.
  intros Hs. unfold budget_json. rewrite canon_obj. f_equal. rewrite <- list_fmap_compose.
  rewrite (merge_sort_map budget_le member_le) by done. rewrite Hs. apply list_fmap_ext. intros _ [k []] _; reflexivity.
Qed.

(** The members in the order of their keys. *)
Lemma canon_members a b c d f g h i j k :
  canon (JObj [("parent_run_id", a); ("child_run_id", b); ("owner_id", c); ("project_id", d); ("context_hash", f);
               ("schema_version", g); ("issued_at", h); ("nonce", i); ("key_version", j); ("budget", k)]%string)
  = JObj [("budget", canon k); ("child_run_id", canon b); ("context_hash", canon f); ("issued_at", canon h);
          ("key_version", canon j); ("nonce", canon i); ("owner_id", canon c); ("parent_run_id", canon a);
          ("project_id", canon d); ("schema_version", canon g)]%string.
Proof. rewrite canon_obj. reflexivity. Qed.

Lemma number_json_inj v w : number_json v = number_json w -> v = w.
Proof. destruct v, w; cbn; congruence. Qed.

Lemma budget_json_inj l l' : budget_json l = budget_json l' -> l = l'.
Proof.
  unfold budget_json. intros [= H]. revert l' H. induction l as [|[k v] l IH]; intros [|[k' v'] l'] H; [done..|].
  cbn in H. injection H as -> Hv Hl. apply number_json_inj in Hv as ->. by rewrite (IH l').
Qed.

(** Everything but the signature. *)
Definition unsigned (e : DelegationEnvelope) : DelegationEnvelope :=
  mkEnvelope (parent_run_id e) (child_run_id e) (owner_id e) (project_id e) (context_hash e) (budget e)
    (schema_version e) (issued_at e) (nonce e) (key_version e) "".

Lemma unsigned_signature e e' : unsigned e = unsigned e' -> signature e = signature e' -> e = e'.
Proof. destruct e, e'. unfold unsigned. cbn. intros [=] ->. by subst. Qed.

Lemma payload_text e p : unsigned_payload e = Ok p -> numbers_printable e = true /\ p = dumps_ascii (unsigned_document e).
Proof. unfold unsigned_payload, require. destruct (numbers_printable e); cbn [mbind result_bind]; [|done]. split; [done|congruence]. Qed.

Lemma payload_inj e e' p : envelope_ok e -> envelope_ok e' -> unsigned_payload e = Ok p -> unsigned_payload e' = Ok p ->
  unsigned e = unsigned e'.
Proof.
  intros Hok Hok' [Hp ->]%payload_text [Hp' H]%payload_text.
  assert (canon (unsigned_document e) = canon (unsigned_document e')) as Hc.
  { apply (inj Some). rewrite <- !loads_dumps by by apply document_plain. by rewrite H. }
  unfold unsigned_document in Hc. rewrite !canon_members in Hc. rewrite !canon_budget in Hc by by apply ok_budget_sorted.
  injection Hc as Hb. apply (f_equal JObj) in Hb. apply budget_json_inj in Hb. unfold unsigned. congruence.
Qed.

Lemma signature_text e k s : _signature e k = Ok s ->
  exists p, unsigned_payload e = Ok p /\ s = urlsafe_b64 (hmac_sha256 k (_DOMAIN ++ p)).
Proof. unfold _signature. destruct (unsigned_payload e) as [p|]; [|done]. cbn. intros H. exists p. split; [done|congruence]. Qed.

(** Signing what was checked gives a signature of the right form. *)
Lemma signature_shape e k s : _signature e k = Ok s -> _SIGNATURE s = true.
Proof.
  intros (p & _ & ->)%signature_text. unfold _SIGNATURE.
  by rewrite length_b64_digest, b64_shape by apply length_hmac.
Qed.

(** ** Issuing and consuming *)

Section consumption.
Variable svc : DelegationEnvelopeService.

Lemma issue_inv scope items now given token e : issue svc scope items now given token = Ok e ->
  envelope_ok e /\ exists p, unsigned_payload e = Ok p
    /\ signature e = urlsafe_b64 (hmac_sha256 (default "" (_keys svc !! key_version e)) (_DOMAIN ++ p)).
Proof.
  unfold issue. intros H. inv_result. repeat match goal with H : checked _ = Ok _ |- _ => apply checked_inv in H as [-> ?] end.
  split; [done|]. match goal with H : _signature _ _ = Ok _ |- _ => apply signature_text in H as (p & Hp & ->) end.
  exists p. split; [exact Hp|reflexivity].
Qed.

Lemma accepted_inv e scope now t t' : verify_and_consume svc e scope now t = (t', Ok tt) ->
  authentic svc e = Ok true /\ fresh svc now e = true /\ scope_of e = scope
  /\ drop_expired svc now t !! nonce e = None /\ t' = <[nonce e := receipt now e]> (drop_expired svc now t).
Proof.
  unfold verify_and_consume. destruct (authentic svc e) as [signed|]; [|done].
  destruct (negb _) eqn:Hb; [done|]. apply negb_false_iff in Hb. bool_to_prop. case_bool_decide as Hn; [done|]. intros [= <-].
  split_and!; [congruence|done|done|by apply eq_None_not_Some|done].
Qed.

Lemma authentic_inv e : authentic svc e = Ok true ->
  exists key p, _keys svc !! key_version e = Some key /\ unsigned_payload e = Ok p
    /\ signature e = urlsafe_b64 (hmac_sha256 key (_DOMAIN ++ p)).
Proof.
  unfold authentic. destruct (_signature e _) as [expected|] eqn:Hs; [|done]. cbn [mbind result_bind]. intros [= H].
  apply andb_true_iff in H as [[key Hk]%bool_decide_eq_true H%string_eqb_spec]. rewrite Hk in Hs.
  apply signature_text in Hs as (p & Hp & ->). exists key, p. by split_and!.
Qed.
End consumption.

Definition signing_key (svc : DelegationEnvelopeService) (e : DelegationEnvelope) : string :=
  default "" (_keys svc !! key_version e).

(** HMAC gives the same code for what these two envelopes sign, though it differs. *)
Definition signatures_collide (svc0 svc : DelegationEnvelopeService) (e0 e : DelegationEnvelope) : Prop :=
  exists p0 p, unsigned_payload e0 = Ok p0 /\ unsigned_payload e = Ok p
    /\ (signing_key svc0 e0, p0) <> (signing_key svc e, p)
    /\ hmac_sha256 (signing_key svc0 e0) (_DOMAIN ++ p0) = hmac_sha256 (signing_key svc e) (_DOMAIN ++ p).

(** C26. An accepted envelope is addressed to exactly this scope, within its window, and its
    nonce has no live receipt; and it is unaltered: an envelope that any service issued
    with the same signature is the same in every field, unless HMAC-SHA256 collides on
    the very texts of these two. *)
Theorem accepted_envelope_is_genuine (svc : DelegationEnvelopeService) (e : DelegationEnvelope) (scope : delegation_scope)
    (now : Z) (t t' : gmap string DelegationNonceRow) :
  envelope_ok e -> verify_and_consume svc e scope now t = (t', Ok tt) ->
  scope_of e = scope
  /\ now - _max_age svc <= issued_at e <= now + _future_skew svc
  /\ drop_expired svc now t !! nonce e = None /\ is_Some (t' !! nonce e)
  /\ forall svc0 scope0 items0 now0 given0 token0 e0, issue svc0 scope0 items0 now0 given0 token0 = Ok e0 ->
       signature e0 = signature e -> e0 = e \/ signatures_collide svc0 svc e0 e.
Proof.
  intros Hok (Ha & Hf & Hs & Hn & ->)%accepted_inv. unfold fresh in Hf. bool_to_prop.
  split_and!; [done|done|done|done|by rewrite lookup_insert_eq|].
  intros svc0 scope0 items0 now0 given0 token0 e0 (Hok0 & p0 & Hp0 & Hsig0)%issue_inv Hsame.
  apply authentic_inv in Ha as (key & p & Hkey & Hp & Hsig).
  assert (hmac_sha256 (signing_key svc0 e0) (_DOMAIN ++ p0) = hmac_sha256 (signing_key svc e) (_DOMAIN ++ p)) as Hmac.
  { apply (inj urlsafe_b64). unfold signing_key. rewrite Hkey. cbn [from_option id]. congruence. }
  destruct (decide (p0 = p)) as [->|Hne].
  - left. pose proof (payload_inj _ _ _ Hok0 Hok Hp0 Hp) as Hu. by apply unsigned_signature.
  - right. exists p0, p. split_and!; [done|done| |done]. intros Heq. apply Hne. exact (f_equal snd Heq).
Qed.

(** ** Histories of consumption *)

(** One call, with the clock reading it decides by. *)
Record consumption : Type := mkConsumption {
  c_service : DelegationEnvelopeService;
  c_envelope : DelegationEnvelope;
  c_scope : delegation_scope;
  c_now : Z
}.

(** The answers of calls whose transactions commit in this order. *)
Fixpoint consume_all (calls : list consumption) (t : gmap string DelegationNonceRow) : list (result envelope_error unit) :=
  match calls with
  | [] => []
  | c :: rest =>
      let (t', r) := verify_and_consume (c_service c) (c_envelope c) (c_scope c) (c_now c) t in
      r :: consume_all rest t'
  end.

Definition window_is (age skew : Z) (c : consumption) : Prop := _max_age (c_service c) = age /\ _future_skew (c_service c) = skew.

(** A reading is at most [skew] older than one before it. *)
Definition not_behind (skew : Z) (a b : consumption) : Prop := c_now a - skew <= c_now b.

(** The envelope issued at [issued] under the nonce [n] is used up: its receipt is there, or
    it was deleted when the envelope was older than any later call accepts. *)
Definition spent (age skew issued : Z) (n : string) (calls : list consumption) (t : gmap string DelegationNonceRow) : Prop :=
  (exists row, t !! n = Some row /\ n_issued row = issued)
  \/ Forall (fun c => issued < c_now c - age) calls.

Lemma verify_table svc e scope now t : let (t', r) := verify_and_consume svc e scope now t in
  (r = Ok tt /\ fresh svc now e = true /\ drop_expired svc now t !! nonce e = None
   /\ t' = <[nonce e := receipt now e]> (drop_expired svc now t))
  \/ (r <> Ok tt /\ t' = t).
Proof.
  destruct (verify_and_consume svc e scope now t) as [t' [[]|err]] eqn:H.
  - left. apply accepted_inv in H as (_ & Hf & _ & Hn & Ht). by split_and!.
  - right. split; [done|]. unfold verify_and_consume in H. repeat case_match; congruence.
Qed.

(** A receipt goes only when it has expired. *)
Lemma dropped_receipt svc now t n row : t !! n = Some row ->
  drop_expired svc now t !! n = if expired_receipt svc now row then None else Some row.
Proof.
  intros Hr. unfold drop_expired. rewrite map_lookup_filter, Hr. cbn. destruct (expired_receipt svc now row).
  - by rewrite option_guard_False.
  - by rewrite option_guard_True.
Qed.

Lemma spent_not_again age skew issued n calls t : 0 <= skew -> Forall (window_is age skew) calls ->
  StronglySorted (not_behind skew) calls -> spent age skew issued n calls t ->
  forall j c, calls !! j = Some c -> nonce (c_envelope c) = n -> issued_at (c_envelope c) = issued ->
    consume_all calls t !! j <> Some (Ok tt).
Proof.
  intros Hskew Hw. revert t. induction Hw as [|c rest [Ha Hk] Hrest IH]; intros t Hsort Hspent j cj Hj Hn Hi; [done|].
  apply StronglySorted_inv in Hsort as [Hsort Hbehind]. cbn [consume_all].
  pose proof (verify_table (c_service c) (c_envelope c) (c_scope c) (c_now c) t) as Hv.
  destruct (verify_and_consume _ _ _ _ _) as [t' r]. destruct j as [|j]; cbn in Hj |- *.
  - injection Hj as ->. intros [= ->]. destruct Hv as [(_ & Hf & Hnone & _)|[Hr _]]; [|done].
    unfold fresh in Hf. bool_to_prop. destruct Hspent as [(row & Hrow & Hissued)|Hold].
    + rewrite Hn, (dropped_receipt _ _ _ _ _ Hrow) in Hnone. unfold expired_receipt in Hnone.
      destruct (n_issued row <? _) eqn:He; [|done]. bool_to_prop. lia.
    + apply Forall_cons in Hold as [Hold _]. lia.
  - apply (IH t' Hsort) with (c := cj); [|done|done|done]. destruct Hspent as [(row & Hrow & Hissued)|Hold].
    + destruct Hv as [(_ & _ & Hnone & ->)|[_ ->]]; [|left; by exists row].
      destruct (expired_receipt (c_service c) (c_now c) row) eqn:He.
      * right. unfold expired_receipt in He. bool_to_prop. eapply Forall_impl; [exact Hbehind|]. unfold not_behind. intros; lia.
      * left. exists row. split; [|done]. pose proof (dropped_receipt (c_service c) (c_now c) _ _ _ Hrow) as Hd. rewrite He in Hd.
        destruct (decide (nonce (c_envelope c) = n)) as [Hsame|Hne]; [rewrite Hsame in Hnone; congruence|]. by rewrite lookup_insert_ne.
    + right. by apply Forall_cons in Hold as [_ Hold].
Qed.

(** An envelope is consumed at most once, by whatever services share the table and the
    window, as long as no call decides by a clock reading more than the permitted skew
    older than one that came before it. *)
Theorem envelope_consumed_once (age skew : Z) (calls : list consumption) (t : gmap string DelegationNonceRow)
    (i j : nat) (ci cj : consumption) : 0 <= skew ->
  Forall (window_is age skew) calls -> StronglySorted (not_behind skew) calls ->
  (i < j)%nat -> calls !! i = Some ci -> calls !! j = Some cj -> c_envelope cj = c_envelope ci ->
  consume_all calls t !! i = Some (Ok tt) -> consume_all calls t !! j <> Some (Ok tt).
Proof.
  intros Hskew Hw. revert t i j. induction Hw as [|c rest Hc Hrest IH]; intros t i j Hsort Hij Hi Hj He Hok; [done|].
  apply StronglySorted_inv in Hsort as [Hsort Hbehind]. cbn [consume_all] in *.
  pose proof (verify_table (c_service c) (c_envelope c) (c_scope c) (c_now c) t) as Hv.
  destruct (verify_and_consume _ _ _ _ _) as [t' r]. destruct j as [|j]; [lia|]. cbn in Hj |- *.
  destruct i as [|i]; cbn in Hi, Hok; [|apply (IH t' i j); [done|lia|done..]].
  injection Hi as ->. injection Hok as ->. destruct Hv as [(_ & _ & _ & ->)|[Hr _]]; [|done].
  apply (spent_not_again age skew (issued_at (c_envelope ci)) (nonce (c_envelope ci)) rest _ Hskew Hrest Hsort) with (c := cj); [|done|congruence..].
  left. eexists. by rewrite lookup_insert_eq.
Qed.

Section round_trip.
Variable svc : DelegationEnvelopeService.

(** Issuing succeeds for every valid delegation, and the service accepts what it issued,
    until it is too old: the receipt is left, whatever other receipts there are. *)
Theorem issued_envelope_is_accepted (scope : delegation_scope) (items : list (string * budget_value)) (issued now : Z)
    (n : string) (token : string) (t : gmap string DelegationNonceRow) :
  let draft := mkEnvelope (for_parent scope) (for_child scope) (for_owner scope) (for_project scope) (for_context scope)
                 (merge_sort budget_le items) 1 issued n (_active svc) "" in
  envelope_ok draft -> numbers_printable draft = true -> is_Some (_keys svc !! _active svc) ->
  now - _max_age svc <= issued <= now + _future_skew svc -> t !! n = None ->
  exists e, issue svc scope items issued (Some n) token = Ok e /\ unsigned e = draft
    /\ verify_and_consume svc e scope now t = (<[n := receipt now e]> (drop_expired svc now t), Ok tt).
Proof.
  intros draft Hok Hp [key Hkey] Hwindow Hn.
  assert (n <> "") as Hempty by (intros ->; discriminate (ok_nonce _ Hok)).
  assert (unsigned_payload draft = Ok (dumps_ascii (unsigned_document draft))) as Hpay.
  { unfold unsigned_payload. by rewrite Hp. }
  set (text := urlsafe_b64 (hmac_sha256 key (_DOMAIN ++ dumps_ascii (unsigned_document draft)))).
  assert (_signature draft key = Ok text) as Hsig by (unfold _signature; by rewrite Hpay).
  set (e := mkEnvelope (for_parent scope) (for_child scope) (for_owner scope) (for_project scope) (for_context scope)
              (merge_sort budget_le items) 1 issued n (_active svc) text).
  exists e. split_and!; [|done|].
  - unfold issue. rewrite (proj2 (string_eqb_neq n "") Hempty). cbv zeta. fold draft. rewrite (checked_ok draft Hok).
    cbn [mbind result_bind].
    rewrite Hkey. cbn [from_option id]. rewrite Hsig. cbn [mbind result_bind]. apply checked_ok.
    pose proof (signature_shape _ _ _ Hsig). destruct Hok. split; auto.
  - assert (authentic svc e = Ok true) as Ha.
    { unfold authentic. change (key_version e) with (_active svc). rewrite Hkey. cbn [from_option id].
      change (_signature e key) with (_signature draft key). rewrite Hsig. cbn [mbind result_bind].
      by rewrite bool_decide_eq_true_2, string_eqb_refl. }
    assert (fresh svc now e = true) as Hf.
    { unfold fresh. cbn [issued_at e]. rewrite (proj2 (Z.leb_le _ _)), (proj2 (Z.leb_le _ _)) by lia. done. }
    assert (drop_expired svc now t !! n = None) as Hd.
    { unfold drop_expired. rewrite map_lookup_filter, Hn. done. }
    unfold verify_and_consume. rewrite Ha, Hf, (bool_decide_eq_true_2 (scope_of e = scope)) by by destruct scope.
    cbn [andb negb]. change (nonce e) with n. rewrite Hd, bool_decide_eq_false_2; [done|]. by intros [? ?].
Qed.
End round_trip.

(** ** A concrete delegation *)

Definition demo_service : DelegationEnvelopeService :=
  mkService {[1 := "0123456789abcdef0123456789abcdef"%string]} 1 300 30.

Definition demo_scope : delegation_scope :=
  mkScope "alice" "apollo" "run-1" "child-1" "ba7816bf8f01cfea414140de5dae2223b00361a396177a9cb410ff61f20015ad".

Definition demo_budget : list (string * budget_value) :=
  [("timeout_seconds", BudgetFloat "30.0"); ("input_tokens", BudgetInt 4096); ("output_tokens", BudgetInt 512);
   ("retries", BudgetInt 1)]%string.

Definition draft_at (issued : Z) (n : string) : DelegationEnvelope :=
  mkEnvelope "run-1" "child-1" "alice" "apollo" (for_context demo_scope) (merge_sort budget_le demo_budget) 1 issued n 1 "".

Definition issued_at_time (issued : Z) (n : string) : DelegationEnvelope :=
  match issue demo_service demo_scope demo_budget issued (Some n) "" with Ok e => e | Err _ => draft_at issued n end.

Definition demo_envelope : DelegationEnvelope := issued_at_time 1000 "nonce-0001".

(** The signature, as the source computes it. *)
Example demo_signature : _SIGNATURE (signature demo_envelope) = true.
Proof. vm_compute. reflexivity. Qed.

Lemma envelope_ok_checked e : checked e = Ok e -> envelope_ok e.
Proof. by intros [_ H]%checked_inv. Qed.

Definition demo_accepted : gmap string DelegationNonceRow :=
  (verify_and_consume demo_service demo_envelope demo_scope 1100 ∅).1.

Lemma accepted_envelope_is_genuine_witness :
  scope_of demo_envelope = demo_scope
  /\ 1100 - _max_age demo_service <= issued_at demo_envelope <= 1100 + _future_skew demo_service
  /\ drop_expired demo_service 1100 ∅ !! nonce demo_envelope = None /\ is_Some (demo_accepted !! nonce demo_envelope)
  /\ forall svc0 scope0 items0 now0 given0 token0 e0, issue svc0 scope0 items0 now0 given0 token0 = Ok e0 ->
       signature e0 = signature demo_envelope -> e0 = demo_envelope \/ signatures_collide svc0 demo_service e0 demo_envelope.
Proof.
  apply (accepted_envelope_is_genuine demo_service demo_envelope demo_scope 1100 ∅ demo_accepted).
  - apply envelope_ok_checked. vm_compute. reflexivity.
  - vm_compute. reflexivity.
Defined.

Definition demo_call (e : DelegationEnvelope) (now : Z) : consumption := mkConsumption demo_service e demo_scope now.

Lemma envelope_consumed_once_witness :
  consume_all [demo_call demo_envelope 1100; demo_call demo_envelope 1090] ∅ !! 1%nat <> Some (Ok tt).
Proof.
  apply (envelope_consumed_once 300 30 [demo_call demo_envelope 1100; demo_call demo_envelope 1090] ∅ 0 1
           (demo_call demo_envelope 1100) (demo_call demo_envelope 1090)).
  - lia.
  - by repeat constructor.
  - repeat constructor; unfold not_behind; cbn; lia.
  - lia.
  - reflexivity.
  - reflexivity.
  - reflexivity.
  - vm_compute. reflexivity.
Defined.

(** Beyond the bound: a call that read the clock at the last second of the envelope, but
    whose transaction comes after one that read it 31 seconds later, accepts it again. *)
Example stalled_call_replays :
  consume_all [demo_call demo_envelope 1100; demo_call (issued_at_time 1331 "nonce-0002") 1331; demo_call demo_envelope 1300] ∅
  = [Ok tt; Ok tt; Ok tt].
Proof. vm_compute. reflexivity. Qed.

Lemma issued_envelope_is_accepted_witness :
  exists e, issue demo_service demo_scope demo_budget 1000 (Some "nonce-0001"%string) "" = Ok e
    /\ unsigned e = draft_at 1000 "nonce-0001"
    /\ verify_and_consume demo_service e demo_scope 1100 ∅
       = (<["nonce-0001"%string := receipt 1100 e]> (drop_expired demo_service 1100 ∅), Ok tt).
Proof.
  apply (issued_envelope_is_accepted demo_service demo_scope demo_budget 1000 1100 "nonce-0001" "" ∅).
  - apply envelope_ok_checked. vm_compute. reflexivity.
  - vm_compute. reflexivity.
  - by eexists.
  - cbn. lia.
  - reflexivity.
Defined.
