(* ===== verification/VerifierModels.v ===== *)
(** * Contracts of the evidence verifier ([delegation/models.py], parsing in [delegation/service.py])

    What a parent run delegates to a verifier child and what the child may answer: the
    checks of each record, the messages the model is sent, and the reading of its
    answer. Every parsed verdict is about a delegated claim, once, and cites evidence
    delegated to that claim.

    Strings are UTF-8; [len] of a Python string counts its code points. A float that is
    stored is its [repr], one that is read from JSON its literal; both are compared as
    the doubles they denote. *)

From Stdlib Require Import ZArith QArith Lia String Ascii.
From stdpp Require Import base gmap strings list fin_maps sorting pretty.
From S2P Require Import BudgetedProvider Numbers Engine Envelope.
From S2P Require Import Prelude Strings Sql Json JsonText Sha256 RunLedger.
Open Scope Z_scope.

(** Exceptions, as far as a handler tells them apart. *)
Inductive vexn : Type :=
| VValueError (message : string)
| VOverflow
| VMalformed
| VBudgetExhausted
| VTransient
| VTimeout
| VProviderFailure
| VDeadline
| VEnvelope (e : envelope_error)
| VLedger (e : ledger_error)
| VDatabase
| VCancelled
| VInterrupted
| VOutOfFuel.

#[export] Instance vexn_eq_dec : EqDecision vexn.
Proof. solve_decision. Defined.

(** ** Bounds *)

Definition MAX_CLAIMS : nat := 32.
Definition MAX_EVIDENCE_SLICES : nat := 32.
Definition MAX_TEXT_CHARS : nat := 1000.
Definition MAX_QUOTE_CHARS : nat := 1000.
Definition MAX_INPUT_TOKENS : Z := 32768.
Definition MAX_OUTPUT_TOKENS : Z := 8192.

(** [len] of a string in UTF-8. *)
Fixpoint code_points (s : string) : nat :=
  match s with
  | EmptyString => 0
  | String c s' => (if (code c / 64 =? 2)%N then 0 else 1) + code_points s'
  end.

(** [^[A-Za-z0-9][A-Za-z0-9._:-]{0,127}$] *)
Definition safe_128 (s : string) : bool := safe_id s && (String.length s <=? 128)%nat.

Definition _validate_id (value : json) : result vexn string :=
  match value with
  | JStr s => if safe_128 s then Ok s else Err (VValueError "must be a safe identifier")
  | _ => Err (VValueError "must be a safe identifier")
  end.

Definition _validate_hash (s : string) : result vexn unit :=
  require (is_hex64 s) (VValueError "must be a lowercase SHA-256 digest").

Definition _bounded_text (s : string) (maximum : nat) : result vexn unit :=
  require (negb (string_eqb s "") && (code_points s <=? maximum)%nat) (VValueError "must be non-empty and bounded").

Definition is_safe (s : string) : result vexn unit := _ ← _validate_id (JStr s); Ok tt.

Fixpoint all_safe (l : list string) : result vexn unit :=
  match l with [] => Ok tt | s :: rest => _ ← is_safe s; all_safe rest end.

Definition _ids (l : list string) : result vexn unit :=
  _ ← all_safe l;
  require ((length l <=? MAX_EVIDENCE_SLICES)%nat && bool_decide (NoDup l)) (VValueError "must be unique and bounded").

(** ** What is delegated *)

Record EvidenceSlice : Type := mkSlice {
  evidence_id : string;
  document_id : string;
  chunk_id : string;
  content_hash : string;
  quote : string
}.

Definition new_slice (e : EvidenceSlice) : result vexn EvidenceSlice :=
  _ ← all_safe [evidence_id e; document_id e; chunk_id e];
  _ ← _validate_hash (content_hash e);
  _ ← _bounded_text (quote e) MAX_QUOTE_CHARS;
  Ok e.

Record ClaimInput : Type := mkClaim {
  claim_id : string;
  claim_hash : string;
  text : string;
  evidence_ids : list string
}.

Definition new_claim (c : ClaimInput) : result vexn ClaimInput :=
  _ ← is_safe (claim_id c);
  _ ← _validate_hash (claim_hash c);
  _ ← _bounded_text (text c) MAX_TEXT_CHARS;
  _ ← _ids (evidence_ids c);
  Ok c.

(** [MIN_TIMEOUT_SECONDS <= t <= MAX_TIMEOUT_SECONDS] on a [repr], which orders floats. *)
Definition timeout_in_bounds (repr : string) : bool := between_q (1 # 10) (60 # 1) repr.

Record VerificationBudget : Type := mkVBudget {
  b_input : Z;
  b_output : Z;
  timeout_seconds : string;
  retries : Z
}.

Definition new_budget (input output : Z) (timeout : budget_value) (tries : Z) : result vexn VerificationBudget :=
  _ ← require ((1 <=? input) && (input <=? MAX_INPUT_TOKENS)) (VValueError "input_tokens is outside the supported bounds");
  _ ← require ((1 <=? output) && (output <=? MAX_OUTPUT_TOKENS)) (VValueError "output_tokens is outside the supported bounds");
  let outside := VValueError "timeout_seconds is outside the supported bounds" in
  seconds ← match timeout with
            | BudgetBool _ => Err outside
            | BudgetInt z =>
                _ ← require (Z.abs z <? FLOAT_LIMIT) VOverflow;
                _ ← require ((1 <=? z) && (z <=? 60)) outside;
                Ok (float_of_int z)
            | BudgetFloat t => _ ← require (timeout_in_bounds t) outside; Ok t
            end;
  _ ← require ((tries =? 0) || (tries =? 1)) (VValueError "retries must be zero or one");
  Ok (mkVBudget input output seconds tries).

Record ChildVerificationRequest : Type := mkVRequest {
  child_id : string;
  parent_run : string;
  req_user : string;
  req_project : string;
  policy_id : string;
  req_model : string;
  claims : list ClaimInput;
  evidence : list EvidenceSlice;
  req_budget : VerificationBudget
}.

Definition subset (a b : list string) : bool := forallb (fun x => bool_decide (x ∈ b)) a.

Definition new_request (r : ChildVerificationRequest) : result vexn ChildVerificationRequest :=
  _ ← all_safe [child_id r; parent_run r; req_user r; req_project r; policy_id r; req_model r];
  _ ← require (negb (bool_decide (claims r = [])) && (length (claims r) <=? MAX_CLAIMS)%nat)
        (VValueError "claims must be an immutable, non-empty, bounded tuple");
  _ ← require (negb (bool_decide (evidence r = [])) && (length (evidence r) <=? MAX_EVIDENCE_SLICES)%nat)
        (VValueError "evidence must be an immutable, non-empty, bounded tuple");
  _ ← require (bool_decide (NoDup (claim_id <$> claims r))) (VValueError "claim IDs must be unique");
  _ ← require (bool_decide (NoDup (evidence_id <$> evidence r))) (VValueError "evidence IDs must be unique");
  _ ← require (forallb (fun c => subset (evidence_ids c) (evidence_id <$> evidence r)) (claims r))
        (VValueError "claims may reference only delegated evidence");
  Ok r.

(** ** What is answered *)

Inductive ClaimVerdictStatus : Type := SUPPORTED | REJECTED | ESCALATE.

Inductive VerificationReasonCode : Type :=
| EVIDENCE_SUPPORTS | EVIDENCE_CONTRADICTS | INSUFFICIENT_EVIDENCE | INVALID_CITATION
| BUDGET_EXCEEDED | TIMEOUT | PROVIDER_ERROR | MALFORMED_RESPONSE.

#[export] Instance verdict_status_eq_dec : EqDecision ClaimVerdictStatus.
Proof. solve_decision. Defined.

#[export] Instance reason_code_eq_dec : EqDecision VerificationReasonCode.
Proof. solve_decision. Defined.

Definition status_value (s : ClaimVerdictStatus) : string :=
  match s with SUPPORTED => "supported" | REJECTED => "rejected" | ESCALATE => "escalate" end.

Definition reason_value (r : VerificationReasonCode) : string :=
  match r with
  | EVIDENCE_SUPPORTS => "evidence_supports" | EVIDENCE_CONTRADICTS => "evidence_contradicts"
  | INSUFFICIENT_EVIDENCE => "insufficient_evidence" | INVALID_CITATION => "invalid_citation"
  | BUDGET_EXCEEDED => "budget_exceeded" | TIMEOUT => "timeout" | PROVIDER_ERROR => "provider_error"
  | MALFORMED_RESPONSE => "malformed_response"
  end.

(** Looking an enumeration's value up. *)
Definition enum_of {A} (value : A -> string) (members : list A) (v : json) : result vexn A :=
  match v with
  | JStr s =>
      match find (fun a => string_eqb (value a) s) members with
      | Some a => Ok a
      | None => Err (VValueError "is not a valid value")
      end
  | _ => Err (VValueError "is not a valid value")
  end.

Definition status_of : json -> result vexn ClaimVerdictStatus := enum_of status_value [SUPPORTED; REJECTED; ESCALATE].

Definition reason_of : json -> result vexn VerificationReasonCode :=
  enum_of reason_value [EVIDENCE_SUPPORTS; EVIDENCE_CONTRADICTS; INSUFFICIENT_EVIDENCE; INVALID_CITATION;
                        BUDGET_EXCEEDED; TIMEOUT; PROVIDER_ERROR; MALFORMED_RESPONSE].

Record ClaimVerdict : Type := mkVerdict {
  v_claim : string;
  v_status : ClaimVerdictStatus;
  v_reason : VerificationReasonCode;
  v_confidence : json;
  v_evidence : list string
}.

Definition confidence_of (v : json) : result vexn json :=
  let bad := VValueError "confidence must be finite and between zero and one" in
  match v with
  | JInt z =>
      _ ← require (Z.abs z <? FLOAT_LIMIT) VOverflow;
      _ ← require ((0 <=? z) && (z <=? 1)) bad;
      Ok (JFloat (float_of_int z))
  | JFloat t => _ ← require (unit_interval t) bad; Ok (JFloat t)
  | _ => Err bad
  end.

(** [ClaimVerdict(..)] on values read from JSON. *)
Definition new_verdict (claim status reason confidence : json) (cited : list string) : result vexn ClaimVerdict :=
  id ← _validate_id claim;
  s ← status_of status;
  r ← reason_of reason;
  c ← confidence_of confidence;
  _ ← _ids cited;
  Ok (mkVerdict id s r c cited).

Inductive ChildVerificationStatus : Type := V_COMPLETED | V_ESCALATED | V_FAILED | V_TIMEOUT | V_CANCELLED.

#[export] Instance verification_status_eq_dec : EqDecision ChildVerificationStatus.
Proof. solve_decision. Defined.

Definition verification_value (s : ChildVerificationStatus) : string :=
  match s with
  | V_COMPLETED => "completed" | V_ESCALATED => "escalated" | V_FAILED => "failed"
  | V_TIMEOUT => "timeout" | V_CANCELLED => "cancelled"
  end.

Definition validate_verdict_evidence_subset (verdicts : list ClaimVerdict) (allowed : list string) : result vexn unit :=
  require (forallb (fun v => subset (v_evidence v) allowed) verdicts) (VValueError "verdicts may reference only delegated evidence").

(** ** Messages *)

Definition str_list (l : list string) : json := JArr (JStr <$> l).

Definition claim_doc (c : ClaimInput) : json :=
  JObj [("claim_id", JStr (claim_id c)); ("claim_hash", JStr (claim_hash c)); ("text", JStr (text c));
        ("evidence_ids", str_list (evidence_ids c))]%string.

Definition slice_doc (e : EvidenceSlice) : json :=
  JObj [("evidence_id", JStr (evidence_id e)); ("document_id", JStr (document_id e)); ("chunk_id", JStr (chunk_id e));
        ("content_hash", JStr (content_hash e)); ("quote", JStr (quote e))]%string.

Definition newline : string := chr 10.

Definition _SYSTEM_PROMPT : string :=
  "You are an isolated evidence verifier." ++ newline
  ++ "Use only the claims and evidence in the user JSON. Do not use outside knowledge." ++ newline
  ++ "Return JSON with exactly one top-level key, " ++ QUOTE ++ "verdicts" ++ QUOTE ++ ". Each verdict must contain exactly" ++ newline
  ++ "claim_id, status, reason_code, confidence, evidence_ids. status is supported, rejected, or" ++ newline
  ++ "escalate. reason_code is evidence_supports, evidence_contradicts, insufficient_evidence, or" ++ newline
  ++ "invalid_citation. Include every claim exactly once and cite only supplied evidence IDs.".

Definition plain_message (r : Role) (content : string) : Message := BudgetedProvider.mkMessage r content None [] [].

Definition _messages (r : ChildVerificationRequest) : list Message :=
  [plain_message SYSTEM _SYSTEM_PROMPT;
   plain_message USER (dumps (JObj [("claims", JArr (claim_doc <$> claims r)); ("evidence", JArr (slice_doc <$> evidence r))]%string))].

Definition RETRY_PROMPT : string :=
  "The prior verifier response was invalid. Return one JSON object with only the verdicts array and the exact required fields; include no prose or markdown.".

Definition estimate_input_tokens (messages : list Message) : Z :=
  sum_z (fun m => ceil_div (BudgetedProvider.len (BudgetedProvider.content m)) 4 + 8) messages.

(** The content a parent authorizes, and the budget. *)
Definition verifier_delegation_context (r : ChildVerificationRequest) : json :=
  JObj [("policy_id", JStr (policy_id r)); ("model", JStr (req_model r)); ("claims", JArr (claim_doc <$> claims r));
        ("evidence", JArr (slice_doc <$> evidence r))]%string.

Definition verifier_delegation_budget (r : ChildVerificationRequest) : list (string * budget_value) :=
  [("input_tokens", BudgetInt (b_input (req_budget r))); ("output_tokens", BudgetInt (b_output (req_budget r)));
   ("retries", BudgetInt (retries (req_budget r))); ("timeout_seconds", BudgetFloat (timeout_seconds (req_budget r)))]%string.

Definition request_scope (r : ChildVerificationRequest) : delegation_scope :=
  mkScope (req_user r) (req_project r) (parent_run r) (child_id r) (context_digest (verifier_delegation_context r)).

Definition issue_verifier_delegation (svc : DelegationEnvelopeService) (now : Z) (token : string) (r : ChildVerificationRequest)
  : result envelope_error DelegationEnvelope :=
  issue svc (request_scope r) (verifier_delegation_budget r) now None token.

(** ** Reading the answer *)

Definition _VERDICT_KEYS : list string := ["claim_id"; "status"; "reason_code"; "confidence"; "evidence_ids"]%string.

(** [set(d) == keys] *)
Definition has_keys {A} (keys : list string) (d : list (string * A)) : bool := subset (d.*1) keys && subset keys (d.*1).

Fixpoint strings_of (l : list json) : option (list string) :=
  match l with
  | [] => Some []
  | JStr s :: rest => (fun t => s :: t) <$> strings_of rest
  | _ => None
  end.

Definition read_verdict (raw : json) : result vexn ClaimVerdict :=
  match raw with
  | JObj d =>
      if negb (has_keys _VERDICT_KEYS d) then Err VMalformed
      else
        let field k := default JNull (get_item k d) in
        match field "evidence_ids"%string with
        | JArr l =>
            match strings_of l with
            | Some cited => new_verdict (field "claim_id") (field "status") (field "reason_code") (field "confidence") cited
            | None => Err VMalformed
            end
        | _ => Err VMalformed
        end
  | _ => Err VMalformed
  end.

(** Every [ValueError] is a malformed response; an [OverflowError] is not caught. *)
Definition as_malformed {A} (r : result vexn A) : result vexn A :=
  match r with Err (VValueError _) => Err VMalformed | _ => r end.

Fixpoint read_verdicts (l : list json) : result vexn (list ClaimVerdict) :=
  match l with
  | [] => Ok []
  | raw :: rest => v ← as_malformed (read_verdict raw); vs ← read_verdicts rest; Ok (v :: vs)
  end.

Definition valid_reason (v : ClaimVerdict) : bool :=
  match v_status v with
  | SUPPORTED => bool_decide (v_reason v = EVIDENCE_SUPPORTS) && negb (bool_decide (v_evidence v = []))
  | REJECTED => bool_decide (v_reason v = EVIDENCE_CONTRADICTS)
  | ESCALATE => bool_decide (v_reason v ∈ [INSUFFICIENT_EVIDENCE; INVALID_CITATION])
  end.

(** The evidence delegated to a claim. *)
Definition delegated_to (r : ChildVerificationRequest) (claim : string) : list string :=
  match find (fun c => string_eqb (claim_id c) claim) (claims r) with Some c => evidence_ids c | None => [] end.

Definition _parse_response (response : ModelResponse) (r : ChildVerificationRequest) : result vexn (list ClaimVerdict) :=
  match response_calls response, response_content response with
  | [], Some body =>
      match loads body with
      | Some (JObj d) =>
          if negb (has_keys ["verdicts"%string] d) then Err VMalformed
          else match get_item "verdicts" d with
          | Some (JArr raws) =>
              verdicts ← read_verdicts raws;
              let expected := claim_id <$> claims r in
              _ ← require (Nat.eqb (length verdicts) (length expected)
                           && subset (v_claim <$> verdicts) expected && subset expected (v_claim <$> verdicts)) VMalformed;
              _ ← as_malformed (validate_verdict_evidence_subset verdicts (evidence_id <$> evidence r));
              _ ← require (forallb (fun v => subset (v_evidence v) (delegated_to r (v_claim v))) verdicts) VMalformed;
              _ ← require (forallb valid_reason verdicts) VMalformed;
              Ok verdicts
          | _ => Err VMalformed
          end
      | _ => Err VMalformed
      end
  | _, _ => Err VMalformed
  end.

Definition _fail_closed (r : ChildVerificationRequest) (reason : VerificationReasonCode) : list ClaimVerdict :=
  (fun c => mkVerdict (claim_id c) ESCALATE reason (JFloat "0.0") []) <$> claims r.

(** ** What a parsed answer guarantees *)

(** Verdicts a parent may rely on: one per claim, with evidence delegated to that claim, a
    reason that fits, and support only with a citation. *)
Record verdicts_ok (r : ChildVerificationRequest) (verdicts : list ClaimVerdict) : Prop := {
  one_each : v_claim <$> verdicts ≡ₚ claim_id <$> claims r;
  cites_delegated : Forall (fun v => forall e, e ∈ v_evidence v ->
    e ∈ evidence_id <$> evidence r /\ exists c, c ∈ claims r /\ claim_id c = v_claim v /\ e ∈ evidence_ids c) verdicts;
  reasons_fit : Forall (fun v => match v_status v with
    | SUPPORTED => v_reason v = EVIDENCE_SUPPORTS /\ v_evidence v <> []
    | REJECTED => v_reason v = EVIDENCE_CONTRADICTS
    | ESCALATE => v_reason v = INSUFFICIENT_EVIDENCE \/ v_reason v = INVALID_CITATION
    end) verdicts
}.

(** Nothing is claimed: every claim is escalated with no confidence. *)
Definition escalates_all (r : ChildVerificationRequest) (verdicts : list ClaimVerdict) : Prop :=
  exists reason, verdicts = _fail_closed r reason.

Lemma subset_spec a b : subset a b = true <-> a ⊆ b.
Proof.
  unfold subset. rewrite forallb_forall. split.
  - intros H x Hx%list_elem_of_In. apply H in Hx. by apply bool_decide_eq_true in Hx.
  - intros H x Hx%list_elem_of_In. by apply bool_decide_eq_true, H.
Qed.

Lemma exactly_once (a b : list string) : NoDup b -> length a = length b -> a ⊆ b -> b ⊆ a -> a ≡ₚ b.
Proof.
  intros Hb Hl _ Hba. symmetry. apply (submseteq_length_Permutation b a); [|lia].
  by apply NoDup_submseteq.
Qed.

Lemma delegated_to_claim r id e : e ∈ delegated_to r id -> exists c, c ∈ claims r /\ claim_id c = id /\ e ∈ evidence_ids c.
Proof.
  unfold delegated_to. destruct (find _ _) as [c|] eqn:Hf; [|intros H; by apply elem_of_nil in H]. intros He.
  apply find_some in Hf as [Hin Hid]. exists c. split_and!; [by apply list_elem_of_In|by bool_to_prop|done].
Qed.

Lemma valid_reason_spec v : valid_reason v = true ->
  match v_status v with
  | SUPPORTED => v_reason v = EVIDENCE_SUPPORTS /\ v_evidence v <> []
  | REJECTED => v_reason v = EVIDENCE_CONTRADICTS
  | ESCALATE => v_reason v = INSUFFICIENT_EVIDENCE \/ v_reason v = INVALID_CITATION
  end.
Proof.
  unfold valid_reason. destruct (v_status v); intros H; bool_to_prop; [by split|done|].
  match goal with H : _ ∈ _ |- _ => rewrite !elem_of_cons, elem_of_nil in H; tauto end.
Qed.

Lemma as_malformed_ok {A} (r : result vexn A) a : as_malformed r = Ok a -> r = Ok a.
Proof. by destruct r as [|[]]. Qed.

Lemma new_request_claims r0 r : new_request r0 = Ok r -> r = r0 /\ NoDup (claim_id <$> claims r) /\ claims r <> [].
Proof.
  unfold new_request. intros H. inv_result. bool_to_prop. split_and!; done.
Qed.

Lemma parse_response_ok response r verdicts : NoDup (claim_id <$> claims r) ->
  _parse_response response r = Ok verdicts -> verdicts_ok r verdicts.
Proof.
  intros Hn. unfold _parse_response. destruct (response_calls response); [|done]. destruct (response_content response) as [body|]; [|done].
  destruct (loads body) as [[| | | | | |d]|]; [done..| |done]. destruct (negb _); [done|].
  destruct (get_item "verdicts" d) as [[| | | | |raws|]|]; [done..| | |]; [|done..]. intros H. inv_result.
  repeat match goal with H : _ && _ = true |- _ => apply andb_true_iff in H as [? ?] end.
  match goal with H : as_malformed (validate_verdict_evidence_subset _ _) = _ |- _ => apply as_malformed_ok in H; unfold validate_verdict_evidence_subset in H end.
  inv_result. repeat match goal with H : subset _ _ = true |- _ => apply subset_spec in H end.
  match goal with H : Nat.eqb _ _ = true |- _ => apply Nat.eqb_eq in H end.
  repeat match goal with H : forallb _ _ = true |- _ => apply forallb_Forall in H end.
  split.
  - apply exactly_once; [done|by rewrite length_fmap|done|done].
  - match goal with Ha : Forall (fun v => subset (v_evidence v) (evidence_id <$> _) = true) _,
                    Hb : Forall (fun v => subset (v_evidence v) (delegated_to _ _) = true) _ |- _ =>
      rewrite Forall_forall in Ha, Hb |- *; intros v Hv e He;
      specialize (Ha v Hv); specialize (Hb v Hv); apply subset_spec in Ha, Hb; split; [by apply Ha|by apply delegated_to_claim, Hb] end.
  - match goal with H : Forall (fun v => valid_reason v = true) _ |- _ => eapply Forall_impl; [exact H|apply valid_reason_spec] end.
Qed.

(** *** Which errors reading an answer can end with *)

Definition reading_error (e : vexn) : Prop :=
  match e with VValueError _ | VOverflow | VMalformed => True | _ => False end.

Lemma require_reading (b : bool) e e' : reading_error e -> require b e = Err e' -> reading_error e'.
Proof. unfold require. destruct b; [done|]. by intros ? [= <-]. Qed.

Lemma bind_reading {A B} (m : result vexn A) (f : A -> result vexn B) e :
  (m ≫= f) = Err e -> (m = Err e -> reading_error e) -> (forall a, f a = Err e -> reading_error e) -> reading_error e.
Proof. destruct m as [a|e0]; cbn; [eauto|]. intros [= ->] Hm _. by apply Hm. Qed.

Lemma validate_id_reading v e : _validate_id v = Err e -> reading_error e.
Proof. unfold _validate_id. repeat case_match; by intros [= <-]. Qed.

Lemma all_safe_reading l e : all_safe l = Err e -> reading_error e.
Proof.
  induction l as [|s l IH]; [done|]. cbn [all_safe]. intros H. eapply bind_reading; [exact H| |intros ?; apply IH].
  unfold is_safe. intros H'. eapply bind_reading; [exact H'|apply validate_id_reading|done].
Qed.

Lemma enum_reading {A} (value : A -> string) members v e : enum_of value members v = Err e -> reading_error e.
Proof. unfold enum_of. repeat case_match; by intros [= <-]. Qed.

Lemma confidence_reading v e : confidence_of v = Err e -> reading_error e.
Proof.
  unfold confidence_of. destruct v; try (by intros [= <-]); intros H;
    repeat (eapply bind_reading; [exact H|by apply require_reading|]; clear H; intros ? H); done.
Qed.

Lemma read_verdict_reading raw e : read_verdict raw = Err e -> reading_error e.
Proof.
  unfold read_verdict. destruct raw as [| | | | | |d]; try (by intros [= <-]). destruct (negb _); [by intros [= <-]|].
  destruct (default JNull (get_item "evidence_ids" d)) as [| | | | |l|]; try (by intros [= <-]).
  destruct (strings_of l) as [cited|]; [|by intros [= <-]]. unfold new_verdict. intros H.
  eapply bind_reading; [exact H|apply validate_id_reading|]. clear H. intros id H.
  eapply bind_reading; [exact H|apply enum_reading|]. clear H. intros s H.
  eapply bind_reading; [exact H|apply enum_reading|]. clear H. intros c H.
  eapply bind_reading; [exact H|apply confidence_reading|]. clear H. intros q H.
  eapply bind_reading; [exact H| |done]. clear H. unfold _ids. intros H.
  eapply bind_reading; [exact H|apply all_safe_reading|]. intros ?. by apply require_reading.
Qed.

Lemma as_malformed_reading {A} (m : result vexn A) e : (forall e', m = Err e' -> reading_error e') -> as_malformed m = Err e -> reading_error e.
Proof.
  intros Hm. destruct m as [a|e0]; [done|]. specialize (Hm e0 eq_refl). destruct e0; cbn; try done; by intros [= <-].
Qed.

Lemma read_verdicts_reading l e : read_verdicts l = Err e -> reading_error e.
Proof.
  revert e. induction l as [|raw l IH]; intros e; [done|]. cbn [read_verdicts]. intros H. eapply bind_reading; [exact H| |].
  - apply as_malformed_reading. intros e'. apply read_verdict_reading.
  - intros v H'. eapply bind_reading; [exact H'|apply IH|done].
Qed.

Lemma parse_reading response r e : _parse_response response r = Err e -> reading_error e.
Proof.
  unfold _parse_response. destruct (response_calls response); [|by intros [= <-]].
  destruct (response_content response) as [body|]; [|by intros [= <-]].
  destruct (loads body) as [[| | | | | |d]|]; try (by intros [= <-]). destruct (negb _); [by intros [= <-]|].
  destruct (get_item "verdicts" d) as [[| | | | |raws|]|]; try (by intros [= <-]). intros H.
  eapply bind_reading; [exact H|apply read_verdicts_reading|]. clear H. intros vs H.
  eapply bind_reading; [exact H|by apply require_reading|]. clear H. intros ? H.
  eapply bind_reading; [exact H|apply as_malformed_reading; intros e'; by apply require_reading|]. clear H. intros ? H.
  repeat (eapply bind_reading; [exact H|by apply require_reading|]; clear H; intros ? H). done.
Qed.
