(* ===== verification/Verifier.v ===== *)
(** * The evidence verifier ([delegation/service.py])

    A verifier child consumes its envelope, opens its run in the ledger, asks the model
    within its budget and deadline, and records one terminal outcome, whichever of the
    child and its caller's deadline or cancellation comes first.

    The program runs over a store that other clients change between its awaits; at each
    await the forecast says what they commit, whether the database fails and whether the
    await is cancelled, which is what both the caller's cancellation and the deadline of
    [verify] do to the child. [outer_first] says who then acts first, [starved] whether
    the bounded clean-up gets no time at all. A terminal write that is cut off is a
    database call that fails. *)

From Stdlib Require Import ZArith QArith Lia String Ascii.
From stdpp Require Import base gmap strings list fin_maps sorting relations.
From S2P Require Import BudgetedProvider Numbers Engine.
From S2P Require Import Prelude Strings Sql Durable Json JsonText Envelope RunLedger RunLedgerLaws VerifierModels.
Open Scope Z_scope.

(** ** Store and state *)

Record vstore : Type := mkStore { s_ledger : ledger; s_receipts : gmap string DelegationNonceRow }.

Record ChildVerificationResult : Type := mkVResult {
  vr_child : string;
  vr_parent : string;
  vr_status : ChildVerificationStatus;
  vr_usage : TokenUsage;
  vr_latency_ms : Q;
  vr_verdicts : list ClaimVerdict
}.

(** The variables of the child and [_VerifierTerminalState]: it has started exactly when it
    has a result; [f_task] is the outcome of the task that writes it, which has persisted
    the result when that is [Ok]. *)
Record vfields : Type := mkVFields {
  f_usage : TokenUsage;
  f_attempts : Z;
  f_terminal : option ChildVerificationResult;
  f_task : option (result vexn unit)
}.

Inductive vevent : Type :=
| Consumed
| Opened
| Requested
| Asked (messages : list Message) (max_tokens : Z)
| Terminal (status : ChildVerificationStatus)
| Completed (status : ChildVerificationStatus)
| Stopped (status : ChildVerificationStatus).

#[export] Instance vexn_await : AwaitErrors vexn := { database_error := VDatabase; cancelled_error := VCancelled }.

#[local] Abbreviation W := (world vstore vfields vevent).
#[local] Abbreviation Mx := (M vstore vfields vevent vexn).

Inductive provider_answer : Type :=
| Answered (response : ModelResponse)
| RaisedTransient
| RaisedTimeout
| RaisedOther.

Definition code_le (a b : string) : Prop := String.leb a b = true.

#[export] Instance code_le_dec : RelDecision code_le.
Proof. intros a b. unfold code_le. apply _. Defined.

Inductive attempt_outcome : Type :=
| Parsed (verdicts : list ClaimVerdict)
| Again (messages : list Message).

Section verifier.
Context (forecast : nat -> weather vstore) (env : environment).
Context (monotonic : nat -> Q) (epoch : nat -> Z) (outer_first starved : nat -> bool).
Context (complete : nat -> list Message -> Z -> provider_answer) (make_provider : nat -> bool).
Context (envelopes : option DelegationEnvelopeService).

Definition set_fields (f : vfields -> vfields) : Mx unit := fun w => (mkWorld (db w) (ticks w) (f (fields w)) (history w), Ok tt).

Definition get_fields : Mx vfields := fun w => (w, Ok (fields w)).

Definition clock : Mx Q := fun w => (w, Ok (monotonic (ticks w))).

(** One transaction of the ledger, at an await that can be cancelled unless it is in a task
    of its own. *)
Definition on_ledger {A} (shielded : bool) (op : Z -> ledger -> ledger * result ledger_error A) : Mx A :=
  let m := call forecast VLedger (fun now st => let (l, r) := op now (s_ledger st) in (mkStore l (s_receipts st), r)) in
  if shielded then m else cancellable forecast m.

(** [m] with its outcome as a value. *)
Definition outcome_of {A} (m : Mx A) : Mx (result vexn A) := fun w => let (w', out) := m w in (w', Ok out).

Definition consume (svc : DelegationEnvelopeService) (e : DelegationEnvelope) (scope : delegation_scope) : Mx unit := fun w =>
  cancellable forecast (call forecast VEnvelope (fun _ st =>
    let (t, r) := verify_and_consume svc e scope (epoch (ticks w)) (s_receipts st) in (mkStore (s_ledger st) t, r))) w.

Section request.
Context (r : ChildVerificationRequest).

Definition child_identity : RunIdentity :=
  mkIdentity (req_user r) (req_project r) (parent_run r) (child_id r) "verifier" (req_model r).

Definition ledger_usage (u : TokenUsage) : Usage := mkUsage (usage_input u) (usage_output u) (BudgetedProvider.total_tokens u).

(** [_append]: the ledger opens the run in a transaction of its own. *)
Definition _append (shielded : bool) (k : string) (iteration : Z) (data : list (string * json)) (u : TokenUsage) : Mx unit :=
  _ ← on_ledger shielded (fun now => ensure_run now (child_id r) child_identity);
  _ ← on_ledger shielded (fun now => append_event env now (child_id r) child_identity k iteration data (ledger_usage u));
  mret tt.

Definition _request_payload (estimate : Z) : list (string * json) :=
  [("child_id", JStr (child_id r)); ("parent_run_id", JStr (parent_run r)); ("user_id", JStr (req_user r));
   ("project_id", JStr (req_project r)); ("policy_id", JStr (policy_id r));
   ("claim_ids", str_list (claim_id <$> claims r)); ("claim_hashes", str_list (claim_hash <$> claims r));
   ("evidence_ids", str_list (evidence_id <$> evidence r)); ("content_hashes", str_list (content_hash <$> evidence r));
   ("claim_count", JInt (Z.of_nat (length (claims r)))); ("evidence_count", JInt (Z.of_nat (length (evidence r))));
   ("status", JStr "requested"); ("input_tokens", JInt estimate); ("output_tokens", JInt (b_output (req_budget r)))]%string.

Definition count_status (s : ClaimVerdictStatus) (l : list ClaimVerdict) : Z :=
  Z.of_nat (length (filter (fun v => v_status v = s) l)).

(** [sorted({..})] of the reason codes *)
Definition reason_codes (l : list ClaimVerdict) : list string :=
  merge_sort code_le (remove_dups ((fun v => reason_value (v_reason v)) <$> l)).

Definition terminal_payload (status : ChildVerificationStatus) (verdicts : list ClaimVerdict) (u : TokenUsage)
    (reason : option VerificationReasonCode) : list (string * json) :=
  fold_left (fun d kv => dict_insert kv.1 kv.2 d)
    [("status", JStr (verification_value status));
     ("reason_code", match reason with Some c => JStr (reason_value c) | None => JNull end);
     ("reason_codes", str_list (reason_codes verdicts));
     ("supported_count", JInt (count_status SUPPORTED verdicts)); ("rejected_count", JInt (count_status REJECTED verdicts));
     ("escalated_count", JInt (count_status ESCALATE verdicts)); ("input_tokens", JInt (usage_input u));
     ("output_tokens", JInt (usage_output u)); ("total_tokens", JInt (BudgetedProvider.total_tokens u))]%string
    (_request_payload (estimate_input_tokens (_messages r))).

(** ** The terminal outcome *)

(** [persist_terminal], in a task of its own *)
Definition persist_terminal (status : ChildVerificationStatus) (verdicts : list ClaimVerdict) (u : TokenUsage)
    (reason : option VerificationReasonCode) (attempts : Z) (latency : Q) : Mx unit :=
  _ ← _append true "delegation_completed" attempts (terminal_payload status verdicts u reason) u;
  _ ← record_event (Completed status);
  _ ← _append true RUN_STOPPED attempts
        [("reason", JStr (verification_value status)); ("error", JBool (negb (bool_decide (status = V_COMPLETED))))]%string u;
  _ ← record_event (Stopped status);
  on_ledger true (fun _ => finalize_metadata env (req_user r) (child_id r) "" (Some 0%Q) (Some latency)).

(** [_finish]: the first caller decides, later ones get its result. *)
Definition _finish (status : ChildVerificationStatus) (verdicts : list ClaimVerdict) (u : TokenUsage) (started : Q)
    (reason : option VerificationReasonCode) (attempts : Z) : Mx ChildVerificationResult :=
  t ← clock;
  let latency := ((t - started) * 1000)%Q in
  let res := mkVResult (child_id r) (parent_run r) status u latency verdicts in
  f ← get_fields;
  match f_terminal f with
  | Some decided => match f_task f with Some (Err e) => raise e | _ => mret decided end
  | None =>
      _ ← set_fields (fun f => mkVFields (f_usage f) (f_attempts f) (Some res) (f_task f));
      _ ← record_event (Terminal status);
      cancellable forecast
        (out ← outcome_of (persist_terminal status verdicts u reason attempts latency);
         _ ← set_fields (fun f => mkVFields (f_usage f) (f_attempts f) (f_terminal f) (Some out));
         _ ← of_result out;
         mret res)
  end.

(** [_bounded_finish]: it never raises, and does nothing once an outcome is decided. *)
Definition _bounded_finish (status : ChildVerificationStatus) (verdicts : list ClaimVerdict) (started : Q)
    (reason : VerificationReasonCode) : Mx unit := fun w =>
  if starved (ticks w) then (w, Ok tt)
  else try_with (_ ← _finish status verdicts no_usage started (Some reason) 0; mret tt) (fun _ => mret tt) w.

(** ** Asking the model *)

Definition deadline (started : Q) : Q := (started + default 0 (decimal_value (timeout_seconds (req_budget r))))%Q.

Definition expired (started : Q) (w : W) : bool := Qle_bool (deadline started) (monotonic (ticks w)).

Definition check_deadline (started : Q) : Mx unit := fun w => if expired started w then (w, Err VDeadline) else (w, Ok tt).

(** [provider.complete(..)], while other clients commit; the deadline of the loop cuts it. *)
Definition ask (started : Q) (messages : list Message) (max_tokens : Z) : Mx ModelResponse := fun w =>
  let (w', _) := elapse (E := vexn) forecast (Asked messages max_tokens) w in
  if w_cancelled (forecast (ticks w)) then (w', Err VCancelled)
  else if expired started w' then (w', Err VDeadline)
  else match complete (ticks w) messages max_tokens with
       | Answered response => (w', Ok response)
       | RaisedTransient => (w', Err VTransient)
       | RaisedTimeout => (w', Err VTimeout)
       | RaisedOther => (w', Err VProviderFailure)
       end.

(** Usage is over the budget, or would be. *)
Definition over_budget (u : TokenUsage) : bool :=
  (b_input (req_budget r) <? usage_input u) || (b_output (req_budget r) <? usage_output u)
  || (b_input (req_budget r) + b_output (req_budget r) <? BudgetedProvider.total_tokens u).

Definition cannot_ask (u : TokenUsage) (estimate : Z) : bool :=
  (b_input (req_budget r) - usage_input u <? estimate) || (b_output (req_budget r) - usage_output u <=? 0)
  || (b_input (req_budget r) + b_output (req_budget r) <? BudgetedProvider.total_tokens u + estimate).

Definition count_attempt : Mx unit :=
  set_fields (fun f => mkVFields (f_usage f) (f_attempts f + 1) (f_terminal f) (f_task f)).

Definition add_response_usage (u : TokenUsage) : Mx unit :=
  set_fields (fun f => mkVFields (add_usage (f_usage f) u) (f_attempts f) (f_terminal f) (f_task f)).

(** [if attempts > retries: raise] *)
Definition or_retry (e : vexn) (messages : list Message) : Mx attempt_outcome :=
  f ← get_fields;
  if retries (req_budget r) <? f_attempts f then raise e else mret (Again messages).

(** The body of the loop after the guard. *)
Definition attempt (started : Q) (messages : list Message) (max_tokens : Z) : Mx attempt_outcome :=
  try_with
    (response ← ask started messages max_tokens;
     _ ← add_response_usage (usage response);
     f ← get_fields;
     if over_budget (f_usage f) then raise VBudgetExhausted
     else match _parse_response response r with
          | Ok verdicts => mret (Parsed verdicts)
          | Err VMalformed => or_retry VMalformed (messages ++ [plain_message USER RETRY_PROMPT])
          | Err e => raise e
          end)
    (fun e =>
       match e with
       | VTransient | VTimeout => or_retry e messages
       | _ => raise e
       end).

(** [execute]: one unit of fuel per call of the model. *)
Fixpoint execute (fuel : nat) (started : Q) (messages : list Message) : Mx (list ClaimVerdict) :=
  match fuel with
  | O => raise VOutOfFuel
  | S fuel' =>
      f ← get_fields;
      if cannot_ask (f_usage f) (estimate_input_tokens messages) then raise VBudgetExhausted
      else
        _ ← count_attempt;
        outcome ← attempt started messages (b_output (req_budget r) - usage_output (f_usage f));
        match outcome with
        | Parsed verdicts => mret verdicts
        | Again messages' => execute fuel' started messages'
        end
  end.

(** [await_before_deadline(execute(), ..)]: late outcomes are dropped. *)
Definition execute_in_time (started : Q) : Mx (list ClaimVerdict) := fun w =>
  if expired started w then (w, Err VDeadline)
  else
    let (w', out) := execute (Z.to_nat (retries (req_budget r) + 1)) started (_messages r) w in
    match out with
    | Err VCancelled => (w', Err VInterrupted)
    | _ => (w', if expired started w' then Err VDeadline else out)
    end.

(** ** The child *)

Definition number_value (v : budget_value) : option Q :=
  match v with
  | BudgetInt z => Some (inject_Z z)
  | BudgetBool b => Some (if b then 1 else 0)%Q
  | BudgetFloat t => decimal_value t
  end.

Definition number_eqb (v w : budget_value) : bool :=
  match number_value v, number_value w with Some p, Some q => Qeq_bool p q | _, _ => false end.

(** [dict(a) == b] for items with distinct keys *)
Definition same_budget (a b : list (string * budget_value)) : bool :=
  Nat.eqb (length a) (length b)
  && forallb (fun kv => match get_item kv.1 b with Some v => number_eqb kv.2 v | None => false end) a.

(** The envelope is consumed before anything else happens. *)
Definition authorize (started : Q) (envelope : option DelegationEnvelope) : Mx unit :=
  match envelopes with
  | None => mret tt
  | Some svc =>
      match envelope with
      | None => raise (VEnvelope (InvalidDelegationEnvelope "delegation envelope is required"))
      | Some e =>
          if negb (same_budget (budget e) (verifier_delegation_budget r)) then raise (VEnvelope rejected)
          else
            _ ← consume svc e (request_scope r);
            _ ← record_event Consumed;
            check_deadline started
      end
  end.

Definition open_child (started : Q) (estimate : Z) : Mx unit :=
  _ ← on_ledger false (fun now => ensure_child_run now (child_id r) (parent_run r) (req_user r) (req_project r) "verifier" (req_model r) None None);
  _ ← record_event Opened;
  _ ← check_deadline started;
  _ ← (fun w => if make_provider (ticks w) then (w, Ok tt) else (w, Err VProviderFailure));
  _ ← _append false "delegation_requested" 0 (_request_payload estimate) no_usage;
  _ ← record_event Requested;
  check_deadline started.

Definition finish_failed (status : ChildVerificationStatus) (reason : VerificationReasonCode) (started : Q)
  : Mx ChildVerificationResult :=
  f ← get_fields;
  _finish status (_fail_closed r reason) (f_usage f) started (Some reason) (f_attempts f).

(** The handlers around the loop. *)
Definition conclude (started : Q) (out : result vexn (list ClaimVerdict)) : Mx ChildVerificationResult :=
  match out with
  | Ok verdicts => f ← get_fields; _finish V_COMPLETED verdicts (f_usage f) started None (f_attempts f)
  | Err VInterrupted => raise VInterrupted
  | Err VOutOfFuel => raise VOutOfFuel
  | Err (VDeadline | VTimeout) => finish_failed V_TIMEOUT TIMEOUT started
  | Err VMalformed => finish_failed V_FAILED MALFORMED_RESPONSE started
  | Err VBudgetExhausted => finish_failed V_FAILED BUDGET_EXCEEDED started
  | Err _ => finish_failed V_FAILED PROVIDER_ERROR started
  end.

Definition _verify (started : Q) (envelope : option DelegationEnvelope) : Mx ChildVerificationResult :=
  let estimate := estimate_input_tokens (_messages r) in
  _ ← authorize started envelope;
  _ ← open_child started estimate;
  if b_input (req_budget r) <? estimate then finish_failed V_FAILED BUDGET_EXCEEDED started
  else out ← outcome_of (execute_in_time started); conclude started out.

(** ** The caller *)

(** What the child still does when it is cancelled while it asks the model. *)
Definition cleanup (started : Q) (interrupted : bool) : Mx unit :=
  if interrupted then try_with (_ ← finish_failed V_CANCELLED PROVIDER_ERROR started; mret tt) (fun _ => mret tt)
  else mret tt.

Definition timed_out (started : Q) : Mx ChildVerificationResult :=
  _ ← _bounded_finish V_TIMEOUT (_fail_closed r TIMEOUT) started TIMEOUT;
  t ← clock;
  f ← get_fields;
  mret (match f_terminal f with
        | Some decided => decided
        | None => mkVResult (child_id r) (parent_run r) V_TIMEOUT no_usage ((t - started) * 1000)%Q (_fail_closed r TIMEOUT)
        end).

Definition gave_up (started : Q) : Mx ChildVerificationResult :=
  _ ← _bounded_finish V_CANCELLED (_fail_closed r PROVIDER_ERROR) started PROVIDER_ERROR;
  raise VCancelled.

(** The caller leaves the child: by its deadline, or because it is cancelled itself. *)
Definition leave (started : Q) (interrupted : bool) : Mx ChildVerificationResult := fun w =>
  let act := if expired started w then timed_out started else gave_up started in
  if outer_first (ticks w) then let (w', out) := act w in ((cleanup started interrupted w').1, out)
  else act (cleanup started interrupted w).1.

Definition verify (envelope : option DelegationEnvelope) : Mx ChildVerificationResult := fun w0 =>
  let started := monotonic (ticks w0) in
  match _verify started envelope (mkWorld (db w0) (ticks w0) (mkVFields no_usage 0 None None) (history w0)) with
  | (w, Err VDeadline) => timed_out started w
  | (w, Err VCancelled) => leave started false w
  | (w, Err VInterrupted) => leave started true w
  | (w, out) => if expired started w then timed_out started w else (w, out)
  end.

(** ** What holds at every moment *)

(** An outcome is either a complete set of justified verdicts within the budget, or
    escalates every claim. *)
Definition outcome_ok (res : ChildVerificationResult) : Prop :=
  (vr_status res = V_COMPLETED /\ verdicts_ok r (vr_verdicts res) /\ over_budget (vr_usage res) = false)
  \/ (vr_status res <> V_COMPLETED /\ escalates_all r (vr_verdicts res)).

Definition is_end (ev : vevent) : bool := match ev with Terminal _ | Completed _ | Stopped _ => true | _ => false end.

Definition is_ask (ev : vevent) : bool := match ev with Asked _ _ => true | _ => false end.

Definition ends (evs : list vevent) : list vevent := filter (fun ev => is_end ev = true) evs.

Definition asks (evs : list vevent) : nat := length (filter (fun ev => is_ask ev = true) evs).

(** How much of the terminal write got through. *)
Definition end_traces (s : ChildVerificationStatus) : list (list vevent) :=
  [[Terminal s]; [Terminal s; Completed s]; [Terminal s; Completed s; Stopped s]].

(** The delegation is on record, and its envelope consumed. *)
Definition permitted (evs : list vevent) : Prop := Requested ∈ evs /\ (envelopes <> None -> Consumed ∈ evs).

Definition ask_ok (messages : list Message) (max : Z) : Prop :=
  0 < max <= b_output (req_budget r) /\ estimate_input_tokens messages <= b_input (req_budget r).

Definition asks_ok (evs : list vevent) : Prop := forall i messages max,
  evs !! i = Some (Asked messages max) -> permitted (take i evs) /\ ask_ok messages max.

Record vinv (f : vfields) (evs : list vevent) : Prop := {
  inv_terminal : match f_terminal f with
    | None => ends evs = []
    | Some res => outcome_ok res /\ ends evs ∈ end_traces (vr_status res)
    end;
  inv_attempts : Z.of_nat (asks evs) <= f_attempts f <= retries (req_budget r) + 1;
  inv_usage : 0 <= usage_output (f_usage f) /\ 0 <= usage_input (f_usage f);
  inv_asks : asks_ok evs;
  inv_task e : f_task f = Some (Err e) -> e <> VOutOfFuel
}.

(** ** Steps that leave the variables alone *)

Section invariant.
Context (start : list vevent).
Hypothesis usage_nonneg : forall t messages max response, complete t messages max = Answered response ->
  0 <= usage_input (usage response) /\ 0 <= usage_output (usage response).
Hypothesis claims_distinct : NoDup (claim_id <$> claims r).
Hypothesis retries_valid : 0 <= retries (req_budget r).

(** The world [w], whose history goes on from [start]. *)
Definition at_world (P : vfields -> list vevent -> Prop) (w : W) : Prop :=
  exists evs, history w = (start ++ evs)%list /\ P (fields w) evs.

Definition quiet (w w' : W) : Prop := fields w' = fields w /\ history w' = history w.

Lemma at_quiet P w w' : quiet w w' -> at_world P w -> at_world P w'.
Proof using. intros [Hf Hh] (evs & He & HP). exists evs. by rewrite Hf, Hh. Qed.

Lemma call_quiet {R A} (lift : R -> vexn) op w : quiet w (call (A := A) forecast lift op w).1.
Proof using. unfold call, quiet. destruct (w_fault _); [destruct (op _ _)| |destruct (op _ _)]; done. Qed.

Lemma cancellable_quiet {A} (m : Mx A) w : quiet w (m w).1 -> quiet w (cancellable forecast m w).1.
Proof using. unfold cancellable. by destruct (m w). Qed.

Lemma on_ledger_quiet {A} shielded (op : Z -> ledger -> ledger * result ledger_error A) w : quiet w (on_ledger shielded op w).1.
Proof using. unfold on_ledger. destruct shielded; [|apply cancellable_quiet]; apply call_quiet. Qed.

Lemma consume_quiet svc e scope w : quiet w (consume svc e scope w).1.
Proof using. unfold consume. apply cancellable_quiet, call_quiet. Qed.

Lemma quiet_trans w1 w2 w3 : quiet w1 w2 -> quiet w2 w3 -> quiet w1 w3.
Proof using. intros [H1 H2] [H3 H4]. split; congruence. Qed.

Lemma bind_quiet {A B} (m : Mx A) (f : A -> Mx B) w : quiet w (m w).1 -> (forall a w', quiet w w' -> quiet w' (f a w').1) ->
  quiet w ((m ≫= f) w).1.
Proof using.
  unfold mbind, M_bind. destruct (m w) as [w' [a|e]]; cbn; [|done]. intros Hq Hf. eapply quiet_trans; [exact Hq|by apply Hf].
Qed.

Lemma append_quiet shielded k iteration data u w : quiet w (_append shielded k iteration data u w).1.
Proof using.
  unfold _append. apply bind_quiet; [apply on_ledger_quiet|]. intros _ w' _.
  apply bind_quiet; [apply on_ledger_quiet|]. by intros.
Qed.

(** ** The terminal write *)

(** What a prefix of the terminal write leaves in the history. *)
Lemma persist_trace status verdicts u reason attempts latency w :
  let w' := (persist_terminal status verdicts u reason attempts latency w).1 in
  fields w' = fields w
  /\ exists evs, history w' = (history w ++ evs)%list /\ Terminal status :: evs ∈ end_traces status.
Proof using.
  cbn zeta. unfold persist_terminal.
  pose proof (append_quiet true "delegation_completed" attempts (terminal_payload status verdicts u reason) u w) as [Hf Hh].
  destruct (_append _ "delegation_completed" _ _ _ w) as [w1 [[]|e1]] eqn:E1; [rewrite (bind_ok _ _ _ _ _ E1)|rewrite (bind_err _ _ _ _ _ E1)];
    cbn [fst] in *; [|split; [done|]; exists []; rewrite app_nil_r; split; [done|left]].
  rewrite (bind_ok _ _ w1 (mkWorld (db w1) (ticks w1) (fields w1) (history w1 ++ [Completed status])) tt) by reflexivity.
  set (w2 := mkWorld _ _ _ _).
  pose proof (append_quiet true RUN_STOPPED attempts
    [("reason", JStr (verification_value status)); ("error", JBool (negb (bool_decide (status = V_COMPLETED))))]%string u w2) as [Hf2 Hh2].
  destruct (_append _ RUN_STOPPED _ _ _ w2) as [w3 [[]|e3]] eqn:E3; [rewrite (bind_ok _ _ _ _ _ E3)|rewrite (bind_err _ _ _ _ _ E3)];
    cbn [fst] in *; [|split; [by rewrite Hf2|]; exists [Completed status]; rewrite Hh2; cbn; rewrite Hh; split; [done|right; left]].
  rewrite (bind_ok _ _ w3 (mkWorld (db w3) (ticks w3) (fields w3) (history w3 ++ [Stopped status])) tt) by reflexivity.
  set (w4 := mkWorld _ _ _ _).
  destruct (on_ledger_quiet true (fun _ => finalize_metadata env (req_user r) (child_id r) "" (Some 0%Q) (Some latency)) w4) as [Hf4 Hh4].
  split; [rewrite Hf4; cbn; by rewrite Hf2|]. exists [Completed status; Stopped status]. rewrite Hh4. cbn. rewrite Hh2. cbn. rewrite Hh.
  split; [by rewrite <- !app_assoc|right; right; left].
Qed.

Lemma bind_error {A B} (m : Mx A) (f : A -> Mx B) (P : vexn -> Prop) w e : ((m ≫= f) w).2 = Err e ->
  (forall e, (m w).2 = Err e -> P e) -> (forall a w' e, (f a w').2 = Err e -> P e) -> P e.
Proof using.
  unfold mbind, M_bind. destruct (m w) as [w' [a|e0]]; cbn; [by eauto|]. intros [= ->] Hm _. by apply Hm.
Qed.

Lemma shielded_error {A} (op : Z -> ledger -> ledger * result ledger_error A) w e :
  (on_ledger true op w).2 = Err e -> e <> VOutOfFuel.
Proof using.
  unfold on_ledger, call. destruct (w_fault _); [destruct (op _ _) as [d [a|x]]| |destruct (op _ _) as [d [a|x]]]; by intros [= <-].
Qed.

Lemma persist_error status verdicts u reason attempts latency w e :
  (persist_terminal status verdicts u reason attempts latency w).2 = Err e -> e <> VOutOfFuel.
Proof using.
  assert (forall k i d w1 e1, (_append true k i d u w1).2 = Err e1 -> e1 <> VOutOfFuel) as Happ.
  { intros k i d w1 e1 H. unfold _append in H. eapply (bind_error _ _ (fun e => e <> VOutOfFuel)); [exact H|intros e'; apply shielded_error|]. clear H. intros ? w' e' H.
    eapply (bind_error _ _ (fun e => e <> VOutOfFuel)); [exact H|intros e2; apply shielded_error|done]. }
  unfold persist_terminal. intros H. eapply (bind_error _ _ (fun e => e <> VOutOfFuel)); [exact H|apply Happ|]. clear H. intros ? w2 e2 H.
  eapply (bind_error _ _ (fun e => e <> VOutOfFuel)); [exact H|done|]. clear H. intros ? w3 e3 H. eapply (bind_error _ _ (fun e => e <> VOutOfFuel)); [exact H|apply Happ|]. clear H. intros ? w4 e4 H.
  eapply (bind_error _ _ (fun e => e <> VOutOfFuel)); [exact H|done|]. intros ? w5 e5. apply shielded_error.
Qed.

Lemma ends_app a b : ends (a ++ b) = (ends a ++ ends b)%list.
Proof using. apply filter_app. Qed.

Lemma asks_app a b : asks (a ++ b) = (asks a + asks b)%nat.
Proof using. unfold asks. by rewrite filter_app, length_app. Qed.

Lemma end_trace_only s evs : evs ∈ end_traces s -> ends evs = evs /\ asks evs = 0%nat.
Proof using. unfold end_traces. rewrite !elem_of_cons, elem_of_nil. intros [-> | [-> | [-> | []]]]; done. Qed.

Lemma permitted_app evs more : permitted evs -> permitted (evs ++ more)%list.
Proof using. intros [Hr Hc]. split; [|intros Hne]; apply elem_of_app; left; auto. Qed.

(** Events other than questions do not matter for the questions. *)
Lemma asks_ok_app evs more : asks_ok evs -> asks more = 0%nat -> asks_ok (evs ++ more)%list.
Proof using.
  intros Hok Hmore i messages max Hi. apply lookup_app_Some in Hi as [Hi|[Hge Hi]].
  - rewrite take_app_le; [by apply Hok|]. apply lookup_lt_Some in Hi. lia.
  - exfalso. apply list_elem_of_lookup_2 in Hi. unfold asks in Hmore. apply nil_length_inv in Hmore.
    assert (Asked messages max ∈ filter (fun ev => is_ask ev = true) more) as Hin by by apply list_elem_of_filter.
    rewrite Hmore in Hin. by apply elem_of_nil in Hin.
Qed.

Lemma asks_ok_ask evs messages max : asks_ok evs -> permitted evs -> ask_ok messages max ->
  asks_ok (evs ++ [Asked messages max])%list.
Proof using.
  intros Hok Hp Ha i m x Hi. apply lookup_app_Some in Hi as [Hi|[Hge Hi]].
  - rewrite take_app_le; [by apply Hok|]. apply lookup_lt_Some in Hi. lia.
  - apply list_lookup_singleton_Some in Hi as [Hz [= <- <-]]. assert (i = length evs) as -> by lia.
    by rewrite take_app_length.
Qed.

Lemma vinv_quiet_events f evs more : vinv f evs -> ends more = [] -> asks more = 0%nat -> vinv f (evs ++ more)%list.
Proof using.
  intros [Ht Ha Hu Hq Hk] He Hm. split; [|by rewrite asks_app, Hm, Nat.add_0_r|done|by apply asks_ok_app|done].
  by rewrite ends_app, He, app_nil_r.
Qed.

(** The outcome that is decided, if one is. *)
Definition decided_in (out : result vexn ChildVerificationResult) (w : W) : Prop :=
  exists res, f_terminal (fields w) = Some res /\ (forall res', out = Ok res' -> res' = res).

Lemma finish_keeps status verdicts u started reason attempts w :
  at_world vinv w ->
  (f_terminal (fields w) = None -> forall latency, outcome_ok (mkVResult (child_id r) (parent_run r) status u latency verdicts)) ->
  let (w', out) := _finish status verdicts u started reason attempts w in
  at_world vinv w' /\ decided_in out w'
  /\ forall decided, f_terminal (fields w') = Some decided ->
       (f_terminal (fields w) = None /\ vr_status decided = status) \/ f_terminal (fields w) = Some decided.
Proof using.
  intros (evs & Hh & [Ht Ha Hu Hq Hk]) Hok. unfold _finish.
  rewrite (bind_ok _ _ w w (monotonic (ticks w))) by reflexivity. cbv zeta.
  rewrite (bind_ok _ _ w w (fields w)) by reflexivity. set (res := mkVResult _ _ _ _ _ _).
  destruct (f_terminal (fields w)) as [decided|] eqn:Hterm.
  - assert (at_world vinv w) as Hw by (exists evs; split; [done|split; [by rewrite Hterm|done..]]).
    destruct (f_task (fields w)) as [[|e]|]; (split_and!; [exact Hw| |by intros d Hd; right; congruence]); exists decided;
      (split; [done|by intros ? [= <-]]).
  - rewrite (bind_ok _ _ w (mkWorld (db w) (ticks w) (mkVFields (f_usage (fields w)) (f_attempts (fields w)) (Some res) (f_task (fields w))) (history w)) tt) by reflexivity.
    set (w1 := mkWorld _ _ _ _).
    rewrite (bind_ok _ _ w1 (mkWorld (db w1) (ticks w1) (fields w1) (history w1 ++ [Terminal status])) tt) by reflexivity.
    set (w2 := mkWorld _ _ _ _). unfold cancellable.
    pose proof (persist_trace status verdicts u reason attempts ((monotonic (ticks w) - started) * 1000)%Q w2) as (Hf & more & Hmore & Htrace).
    destruct (persist_terminal _ _ _ _ _ _ w2) as [w3 out3] eqn:E3. cbn [fst] in Hf, Hmore.
    rewrite (bind_ok _ _ w2 w3 out3) by (unfold outcome_of; by rewrite E3).
    rewrite (bind_ok _ _ w3 (mkWorld (db w3) (ticks w3) (mkVFields (f_usage (fields w3)) (f_attempts (fields w3)) (f_terminal (fields w3)) (Some out3)) (history w3)) tt) by reflexivity.
    set (w4 := mkWorld _ _ _ _).
    destruct (end_trace_only _ _ Htrace) as [Hends Hasks].
    assert (at_world vinv w4) as Hw4.
    { exists (evs ++ Terminal status :: more)%list. cbn [history w4 fields]. rewrite Hmore. cbn [history w2 w1]. rewrite Hh.
      split; [by rewrite <- !app_assoc|]. rewrite Hf. cbn [fields w2 w1 f_usage f_attempts f_terminal].
      split; cbn [f_terminal f_attempts f_usage].
      - split; [by apply Hok|]. by rewrite ends_app, Ht, Hends.
      - by rewrite asks_app, Hasks, Nat.add_0_r.
      - done.
      - by apply asks_ok_app.
      - cbn. intros e [= ->]. eapply persist_error. by rewrite E3. }
    assert (f_terminal (fields w4) = Some res) as Hdec by (cbn; by rewrite Hf).
    assert (forall out, (forall res', out = Ok res' -> res' = res) -> decided_in out w4) as Hout by (intros out Ho; by exists res).
    rewrite (surjective_pairing ((_ ← of_result out3; mret res) w4)).
    assert (((_ ← of_result out3; mret res) w4).1 = w4 /\ forall res', ((_ ← of_result out3; mret res) w4).2 = Ok res' -> res' = res) as [-> Hlast].
    { destruct out3 as [[]|e3]; cbn; split; [done|by intros ? [= <-]|done|done]. }
    destruct (w_cancelled _); (split_and!; [exact Hw4|apply Hout|intros d Hd; left; split; [done|assert (d = res) as -> by congruence; done]]); [done|exact Hlast].
Qed.

(** ** The loop *)

Definition awaiting_error (e : vexn) : Prop :=
  match e with VCancelled | VDeadline | VTransient | VTimeout | VProviderFailure => True | _ => False end.

Lemma ask_spec started messages max w : let (w', out) := ask started messages max w in
  fields w' = fields w /\ history w' = (history w ++ [Asked messages max])%list
  /\ match out with
     | Ok response => 0 <= usage_input (usage response) /\ 0 <= usage_output (usage response)
     | Err e => awaiting_error e
     end.
Proof using usage_nonneg.
  unfold ask, elapse. destruct (w_cancelled _); [done|]. destruct (expired _ _); [done|].
  destruct (complete _ _ _) as [response| | |] eqn:Ha; split_and!; try done; by destruct (usage_nonneg _ _ _ _ Ha).
Qed.

(** The loop is about to ask, or has asked, for the [n]th time; nothing is decided. *)
Definition asking (n : Z) (f : vfields) (evs : list vevent) : Prop :=
  vinv f evs /\ permitted evs /\ f_terminal f = None /\ f_attempts f = n.

Definition reading_or_awaiting (e : vexn) : Prop := reading_error e \/ awaiting_error e \/ e = VBudgetExhausted.

Definition attempt_outcome_ok (n : Z) (out : result vexn attempt_outcome) (w' : W) : Prop :=
  match out with
  | Ok (Parsed verdicts) => verdicts_ok r verdicts /\ over_budget (f_usage (fields w')) = false
  | Ok (Again _) => n <= retries (req_budget r)
  | Err e => reading_or_awaiting e
  end.

Lemma or_retry_spec n e messages w : at_world (asking n) w -> reading_or_awaiting e ->
  let (w', out) := or_retry e messages w in at_world (asking n) w' /\ attempt_outcome_ok n out w'.
Proof using.
  intros Hw He. unfold or_retry. rewrite (bind_ok _ _ w w (fields w)) by reflexivity.
  destruct (retries _ <? _) eqn:Hr; (split; [exact Hw|]); [done|]. destruct Hw as (evs & _ & _ & _ & _ & <-). cbn. by bool_to_prop.
Qed.

(** After the question, with its answer or its error. *)
Lemma asked_state started messages max w evs n :
  history w = (start ++ evs)%list -> asking n (fields w) evs -> Z.of_nat (asks evs) < n -> ask_ok messages max ->
  at_world (asking n) (ask started messages max w).1.
Proof using usage_nonneg.
  intros Hh ([Ht Ha Hu Hq Hk] & Hp & Hn & Hat) Hlt Hask.
  pose proof (ask_spec started messages max w) as Hspec. destruct (ask started messages max w) as [w' out].
  destruct Hspec as (Hf & Hh' & _). cbn [fst]. exists (evs ++ [Asked messages max])%list.
  split; [by rewrite Hh', Hh, app_assoc|]. rewrite Hf. split_and!; [|by apply permitted_app|done|done].
  split; [|rewrite asks_app; change (asks [Asked messages max]) with 1%nat; lia|done|by apply asks_ok_ask|done].
  rewrite Hn in *. by rewrite ends_app, Ht.
Qed.

Lemma add_usage_state n u w : at_world (asking n) w -> 0 <= usage_input u -> 0 <= usage_output u ->
  at_world (asking n) (add_response_usage u w).1.
Proof using.
  intros (evs & Hh & [Ht Ha Hu Hq Hk] & Hp & Hn & Hat) Hi Ho. exists evs. split; [exact Hh|]. split_and!; [|done|done|done].
  split; [exact Ht|exact Ha| |exact Hq|exact Hk]. cbn. lia.
Qed.

Lemma verifier_attempt_spec started messages max w evs n :
  history w = (start ++ evs)%list -> asking n (fields w) evs -> Z.of_nat (asks evs) < n -> ask_ok messages max ->
  let (w', out) := attempt started messages max w in at_world (asking n) w' /\ attempt_outcome_ok n out w'.
Proof using usage_nonneg claims_distinct.
  intros Hh Hs Hlt Hask. pose proof (asked_state started messages max w evs n Hh Hs Hlt Hask) as Hw1.
  pose proof (ask_spec started messages max w) as Hspec. unfold attempt, try_with.
  destruct (ask started messages max w) as [w1 [response|e]] eqn:E1; cbn [fst] in Hw1; destruct Hspec as (_ & _ & Hout).
  - rewrite (bind_ok _ _ _ _ _ E1). destruct Hout as [Hi Ho].
    pose proof (add_usage_state n (usage response) w1 Hw1 Hi Ho) as Hw2.
    rewrite (bind_ok _ _ w1 (add_response_usage (usage response) w1).1 tt) by reflexivity.
    set (w2 := (add_response_usage (usage response) w1).1) in *.
    rewrite (bind_ok _ _ w2 w2 (fields w2)) by reflexivity.
    destruct (over_budget (f_usage (fields w2))) eqn:Hover; [split; [exact Hw2|by right; right]|].
    destruct (_parse_response response r) as [verdicts|e] eqn:Hparse.
    + split; [exact Hw2|]. split; [|exact Hover]. by eapply parse_response_ok.
    + pose proof (parse_reading _ _ _ Hparse) as Hread.
      destruct e; try done; try by (split; [exact Hw2|by left]).
      pose proof (or_retry_spec n VMalformed (messages ++ [plain_message USER RETRY_PROMPT]) w2 Hw2 (or_introl Hread)) as Hretry.
      destruct (or_retry _ _ w2) as [w3 [o|e]] eqn:E3; [exact Hretry|]. destruct Hretry as [Hw3 He].
      unfold or_retry in E3. rewrite (bind_ok _ _ w2 w2 (fields w2)) in E3 by reflexivity.
      destruct (_ <? _) in E3; [|done]. injection E3 as <- <-. by split.
  - rewrite (bind_err _ _ _ _ _ E1).
    assert (reading_or_awaiting e) as He by (right; left; exact Hout).
    destruct e; try done; first [apply or_retry_spec; [exact Hw1|exact He] | split; [exact Hw1|exact He]].
Qed.

Definition loop_post (out : result vexn (list ClaimVerdict)) (w' : W) : Prop :=
  (exists n, at_world (asking n) w')
  /\ match out with
     | Ok verdicts => verdicts_ok r verdicts /\ over_budget (f_usage (fields w')) = false
     | Err e => reading_or_awaiting e
     end.

Lemma verifier_execute_spec fuel started messages n w : at_world (asking n) w ->
  n <= retries (req_budget r) -> n + Z.of_nat fuel = retries (req_budget r) + 1 ->
  let (w', out) := execute fuel started messages w in loop_post out w'.
Proof using usage_nonneg claims_distinct.
  revert messages n w. induction fuel as [|fuel IH]; intros messages n w Hw Hn Hfuel; [lia|]. cbn [execute].
  rewrite (bind_ok _ _ w w (fields w)) by reflexivity.
  destruct (cannot_ask _ _) eqn:Hcan; [split; [by exists n|by right; right]|].
  destruct Hw as (evs & Hh & [Ht Ha Hu Hq Hk] & Hp & Hterm & Hat).
  set (w1 := mkWorld (db w) (ticks w) (mkVFields (f_usage (fields w)) (f_attempts (fields w) + 1) (f_terminal (fields w)) (f_task (fields w))) (history w)).
  rewrite (bind_ok _ _ w w1 tt) by reflexivity.
  assert (asking (n + 1) (fields w1) evs) as Hs1.
  { split_and!; [|done|done|by cbn; rewrite Hat]. split; [exact Ht|cbn; lia|exact Hu|exact Hq|exact Hk]. }
  assert (ask_ok messages (b_output (req_budget r) - usage_output (f_usage (fields w)))) as Hask.
  { unfold cannot_ask in Hcan. bool_to_prop. unfold ask_ok. lia. }
  pose proof (verifier_attempt_spec started messages (b_output (req_budget r) - usage_output (f_usage (fields w))) w1 evs (n + 1) Hh Hs1 ltac:(lia) Hask) as Hatt.
  destruct (attempt _ _ _ w1) as [w2 [[verdicts|messages']|e]] eqn:E2; destruct Hatt as [Hw2 Hout].
  - rewrite (bind_ok _ _ _ _ _ E2). split; [by exists (n + 1)|exact Hout].
  - rewrite (bind_ok _ _ _ _ _ E2). cbn in Hout. by apply (IH messages' (n + 1)); [|lia|lia].
  - rewrite (bind_err _ _ _ _ _ E2). split; [by exists (n + 1)|exact Hout].
Qed.

(** ** The child's path *)

Definition opening (K : list vevent -> Prop) (f : vfields) (evs : list vevent) : Prop :=
  vinv f evs /\ f_terminal f = None /\ f_attempts f = 0 /\ K evs.

Definition opening_error (e : vexn) : Prop :=
  match e with VDeadline | VEnvelope _ | VLedger _ | VDatabase | VCancelled | VProviderFailure => True | _ => False end.

Definition consumed (evs : list vevent) : Prop := envelopes <> None -> Consumed ∈ evs.

Lemma call_error {R A} (lift : R -> vexn) op (w : W) e : (cancellable forecast (call (A := A) forecast lift op) w).2 = Err e ->
  e = VDatabase \/ e = VCancelled \/ exists x, e = lift x.
Proof using.
  unfold cancellable, call. destruct (w_fault _); [destruct (op _ _) as [d [a|x]]| |destruct (op _ _) as [d [a|x]]];
    destruct (w_cancelled _); cbn; intros [= <-]; eauto.
Qed.

Lemma on_ledger_error {A} (op : Z -> ledger -> ledger * result ledger_error A) w e : (on_ledger false op w).2 = Err e -> opening_error e.
Proof using. unfold on_ledger. intros [-> | [-> | [x ->]]]%call_error; done. Qed.

Lemma append_error k iteration data u w e : (_append false k iteration data u w).2 = Err e -> opening_error e.
Proof using.
  unfold _append. intros H. eapply (bind_error _ _ opening_error); [exact H|intros e'; apply on_ledger_error|]. clear H. intros ? w' e' H.
  eapply (bind_error _ _ opening_error); [exact H|intros e2; apply on_ledger_error|]. done.
Qed.

(** An event that is neither a question nor an end. *)
Lemma record_state P Q ev w : is_end ev = false -> is_ask ev = false ->
  at_world (opening P) w -> (forall evs, P evs -> Q (evs ++ [ev])%list) -> at_world (opening Q) (record_event (E := vexn) ev w).1.
Proof using.
  intros He Ha (evs & Hh & Hv & Ht & Hat & HP) HPQ. exists (evs ++ [ev])%list. cbn. rewrite Hh, app_assoc. split; [done|].
  split_and!; [|done|done|by apply HPQ]. apply vinv_quiet_events; [done|unfold ends; cbn; by rewrite He|unfold asks; cbn; by rewrite Ha].
Qed.

Definition opens (K K' : list vevent -> Prop) (m : Mx unit) : Prop := forall w, at_world (opening K) w ->
  let (w', out) := m w in
  match out with Ok _ => at_world (opening K') w' | Err e => at_world (opening K) w' /\ opening_error e end.

Lemma opens_bind K1 K2 K3 (m m' : Mx unit) : (forall evs, K2 evs -> K1 evs) -> opens K1 K2 m -> opens K2 K3 m' -> opens K1 K3 (_ ← m; m').
Proof using.
  intros H21 Hm Hm' w Hw. specialize (Hm w Hw). destruct (m w) as [w1 [[]|e]] eqn:E.
  - rewrite (bind_ok _ _ _ _ _ E). specialize (Hm' w1 Hm). destruct (m' w1) as [w2 [[]|e2]]; [done|]. destruct Hm' as [H He].
    split; [|done]. destruct H as (evs & ? & ? & ? & ? & ?). exists evs. split; [done|]. split_and!; auto.
  - by rewrite (bind_err _ _ _ _ _ E).
Qed.

Lemma opens_quiet K (m : Mx unit) : (forall w, quiet w (m w).1) -> (forall w e, (m w).2 = Err e -> opening_error e) -> opens K K m.
Proof using.
  intros Hq He w Hw. specialize (Hq w). pose proof (He w) as He'. destruct (m w) as [w' [[]|e]]; cbn in *.
  - by eapply at_quiet.
  - split; [by eapply at_quiet|by apply He'].
Qed.

Lemma opens_check K started : opens K K (check_deadline started).
Proof using. apply opens_quiet; intros w; unfold check_deadline; destruct (expired _ _); cbn; try done. by intros e [= <-]. Qed.

Lemma opens_record K K' ev : is_end ev = false -> is_ask ev = false -> (forall evs, K evs -> K' (evs ++ [ev])%list) ->
  opens K K' (record_event ev).
Proof using. intros He Ha HK w Hw. exact (record_state K K' ev w He Ha Hw HK). Qed.

Lemma authorize_opens started envelope : opens (fun _ => True) consumed (authorize started envelope).
Proof using.
  unfold authorize. destruct envelopes as [svc|] eqn:Henv.
  - destruct envelope as [e|]; [|intros w Hw; by split]. destruct (negb _); [intros w Hw; by split|].
    eapply (opens_bind _ (fun _ => True)); [done|apply opens_quiet|].
    + intros w. apply consume_quiet.
    + intros w err H. apply call_error in H as [-> | [-> | [x ->]]]; done.
    + eapply (opens_bind _ consumed); [done|apply opens_record; [done|done|]|apply opens_check].
      intros evs _ _. apply elem_of_app. right. by apply list_elem_of_singleton.
  - intros w (evs & Hh & Hv & Ht & Hat & _). exists evs. split; [done|]. split_and!; try done. intros Hne. by rewrite Henv in Hne.
Qed.

Lemma consumed_app evs ev : consumed evs -> consumed (evs ++ [ev])%list.
Proof using. intros H Hne. apply elem_of_app. left. by apply H. Qed.

Lemma open_child_opens started estimate : opens consumed permitted (open_child started estimate).
Proof using.
  unfold open_child. eapply (opens_bind _ consumed); [done|apply opens_quiet; [intros w; apply on_ledger_quiet|intros w e; apply on_ledger_error]|].
  eapply (opens_bind _ consumed); [done|apply opens_record; [done|done|intros; by apply consumed_app]|].
  eapply (opens_bind _ consumed); [done|apply opens_check|].
  eapply (opens_bind _ consumed); [done|apply opens_quiet; intros w; destruct (make_provider _); cbn; try done; by intros e [= <-]|].
  eapply (opens_bind _ consumed); [done|apply opens_quiet; [intros w; apply append_quiet|intros w e; apply append_error]|].
  eapply (opens_bind _ permitted); [by intros evs [_ Hc]|apply opens_record; [done|done|]|apply opens_check].
  intros evs Hc. split; [apply elem_of_app; right; by apply list_elem_of_singleton|by apply consumed_app].
Qed.

Lemma finish_error status verdicts u started reason attempts w : at_world vinv w ->
  (_finish status verdicts u started reason attempts w).2 <> Err VOutOfFuel.
Proof using.
  intros (evs & _ & [_ _ _ _ Hk]) H. unfold _finish in H.
  rewrite (bind_ok _ _ w w (monotonic (ticks w))) in H by reflexivity. cbv zeta in H.
  rewrite (bind_ok _ _ w w (fields w)) in H by reflexivity.
  destruct (f_terminal (fields w)) as [d|].
  - destruct (f_task (fields w)) as [[|e]|]; try discriminate H. injection H as ->. by apply (Hk VOutOfFuel).
  - match type of H with ((?m ≫= ?f) _).2 = _ => remember f as k eqn:Ek end.
    rewrite (bind_ok _ _ w (mkWorld (db w) (ticks w) (mkVFields (f_usage (fields w)) (f_attempts (fields w))
      (Some (mkVResult (child_id r) (parent_run r) status u ((monotonic (ticks w) - started) * 1000)%Q verdicts)) (f_task (fields w))) (history w)) tt) in H by reflexivity.
    subst k. refine (bind_error _ _ (fun e => e <> VOutOfFuel) _ _ H _ _ eq_refl); [done|].
    intros ? w2 e. unfold cancellable. destruct (persist_terminal status verdicts u reason attempts ((monotonic (ticks w) - started) * 1000) w2) as [w3 out3] eqn:E3.
    rewrite (bind_ok _ _ w2 w3 out3) by (unfold outcome_of; by rewrite E3). cbn.
    destruct out3 as [[]|e3]; cbn; destruct (w_cancelled _); cbn; try (by intros [= <-]). intros [= <-]. eapply persist_error. by rewrite E3.
Qed.

(** What a call of the child or of the caller leaves: the invariant, and its result decided. *)
Definition path_ok (out : result vexn ChildVerificationResult) (w' : W) : Prop :=
  at_world vinv w' /\ (forall res, out = Ok res -> f_terminal (fields w') = Some res) /\ out <> Err VOutOfFuel.

Lemma finish_path status verdicts u started reason attempts w : at_world vinv w ->
  (f_terminal (fields w) = None -> forall latency, outcome_ok (mkVResult (child_id r) (parent_run r) status u latency verdicts)) ->
  let (w', out) := _finish status verdicts u started reason attempts w in path_ok out w'.
Proof using.
  intros Hw Hok. pose proof (finish_keeps status verdicts u started reason attempts w Hw Hok) as Hkeep.
  pose proof (finish_error status verdicts u started reason attempts w Hw) as Herr.
  destruct (_finish _ _ _ _ _ _ w) as [w' out]. destruct Hkeep as (Hw' & (res & Hres & Hout) & _).
  split_and!; [done| |done]. intros res' ->. by rewrite (Hout res' eq_refl).
Qed.

Lemma failed_ok status reason u latency : status <> V_COMPLETED ->
  outcome_ok (mkVResult (child_id r) (parent_run r) status u latency (_fail_closed r reason)).
Proof using. intros Hs. right. split; [done|]. by exists reason. Qed.

Lemma finish_failed_path status reason started w : at_world vinv w -> status <> V_COMPLETED ->
  let (w', out) := finish_failed status reason started w in path_ok out w'.
Proof using.
  intros Hw Hs. unfold finish_failed. rewrite (bind_ok _ _ w w (fields w)) by reflexivity.
  apply finish_path; [exact Hw|]. intros _ latency. by apply failed_ok.
Qed.

Lemma asking_vinv n w : at_world (asking n) w -> at_world vinv w.
Proof using. intros (evs & Hh & Hv & _). by exists evs. Qed.

Lemma conclude_path started out w : loop_post out w \/ out = Err VInterrupted /\ at_world vinv w ->
  let (w', out') := conclude started out w in path_ok out' w'.
Proof using.
  intros [[[n Hw] Hout]|[-> Hw]]; [|by split_and!].
  pose proof (asking_vinv n w Hw) as Hv. unfold conclude.
  destruct out as [verdicts|e].
  - rewrite (bind_ok _ _ w w (fields w)) by reflexivity. apply finish_path; [exact Hv|]. intros _ latency. by left.
  - destruct Hout as [Hr|[Ha| ->]]; [destruct e; try done|destruct e; try done|]; by apply finish_failed_path.
Qed.

Lemma execute_in_time_post started w : at_world (opening permitted) w ->
  let (w', out) := execute_in_time started w in loop_post out w' \/ out = Err VInterrupted /\ at_world vinv w'.
Proof using usage_nonneg claims_distinct retries_valid.
  intros (evs & Hh & Hv & Ht & Hat & Hp). unfold execute_in_time.
  assert (at_world (asking 0) w) as Hask by (exists evs; by split_and!).
  destruct (expired started w); [left; split; [by exists 0|by right; left]|].
  pose proof (verifier_execute_spec (Z.to_nat (retries (req_budget r) + 1)) started (_messages r) 0 w Hask retries_valid ltac:(lia)) as Hpost.
  destruct (execute _ _ _ w) as [w' out]. destruct Hpost as [[n Hw'] Hout].
  assert (loop_post (if expired started w' then Err VDeadline else out) w') as Hpost.
  { split; [by exists n|]. destruct (expired started w'); [by right; left|exact Hout]. }
  destruct out as [vs|[]]; try (left; exact Hpost). right. split; [done|]. by apply (asking_vinv n).
Qed.

Lemma opening_vinv K w : at_world (opening K) w -> at_world vinv w.
Proof using. intros (evs & Hh & Hv & _). by exists evs. Qed.

Lemma child_path started envelope w : at_world (opening (fun _ => True)) w ->
  let (w', out) := _verify started envelope w in path_ok out w'.
Proof using usage_nonneg claims_distinct retries_valid.
  intros Hw. unfold _verify. pose proof (authorize_opens started envelope w Hw) as Ha.
  destruct (authorize started envelope w) as [w1 [[]|e]] eqn:E1;
    [rewrite (bind_ok _ _ _ _ _ E1)|rewrite (bind_err _ _ _ _ _ E1)].
  - pose proof (open_child_opens started (estimate_input_tokens (_messages r)) w1 Ha) as Ho.
    destruct (open_child _ _ w1) as [w2 [[]|e]] eqn:E2; [rewrite (bind_ok _ _ _ _ _ E2)|rewrite (bind_err _ _ _ _ _ E2)].
    + destruct (_ <? _); [apply finish_failed_path; [by eapply opening_vinv|done]|].
      pose proof (execute_in_time_post started w2 Ho) as Hpost.
      destruct (execute_in_time started w2) as [w3 out] eqn:E3.
      rewrite (bind_ok _ _ w2 w3 out) by (unfold outcome_of; by rewrite E3). by apply conclude_path.
    + destruct Ho as [Ho He]. split_and!; [by eapply opening_vinv|done|]. by intros [= ->].
  - destruct Ha as [Ha He]. split_and!; [by eapply opening_vinv|done|]. by intros [= ->].
Qed.

(** ** The caller *)

(** A clean-up: whatever was decided stays decided, and it can only decide [status]. *)
Definition cleans (status : ChildVerificationStatus) (m : Mx unit) : Prop := forall w, at_world vinv w ->
  at_world vinv (m w).1 /\ (exists u, (m w).2 = Ok u)
  /\ (is_Some (f_terminal (fields w)) -> is_Some (f_terminal (fields (m w).1)))
  /\ forall decided, f_terminal (fields (m w).1) = Some decided ->
       (f_terminal (fields w) = None /\ vr_status decided = status) \/ f_terminal (fields w) = Some decided.

Lemma finish_cleans status reason u started attempts : status <> V_COMPLETED ->
  cleans status (try_with (_ ← _finish status (_fail_closed r reason) u started (Some reason) attempts; mret tt) (fun _ => mret tt)).
Proof using.
  intros Hs w Hw. unfold try_with.
  pose proof (finish_keeps status (_fail_closed r reason) u started (Some reason) attempts w Hw (fun _ latency => failed_ok status reason u latency Hs)) as Hkeep.
  destruct (_finish _ _ _ _ _ _ w) as [w' [res|e]] eqn:E; destruct Hkeep as (Hw' & (d & Hdec & _) & Hd);
    [rewrite (bind_ok _ _ _ _ _ E)|rewrite (bind_err _ _ _ _ _ E)]; cbn; (split_and!; [done|by eexists|by rewrite Hdec|exact Hd]).
Qed.

Lemma skip_cleans status : cleans status (mret tt).
Proof using. intros w Hw. split_and!; [done|by eexists|done|]. intros d Hd. by right. Qed.

Lemma bounded_cleans status reason started : status <> V_COMPLETED -> cleans status (_bounded_finish status (_fail_closed r reason) started reason).
Proof using.
  intros Hs w Hw. unfold _bounded_finish. destruct (starved (ticks w)).
  - by apply (skip_cleans status w).
  - by apply (finish_cleans status reason no_usage started 0).
Qed.

Lemma cleanup_cleans started interrupted : cleans V_CANCELLED (cleanup started interrupted).
Proof using.
  intros w Hw. unfold cleanup. destruct interrupted; [|by apply (skip_cleans V_CANCELLED)].
  unfold finish_failed. exact (finish_cleans V_CANCELLED PROVIDER_ERROR (f_usage (fields w)) started (f_attempts (fields w)) ltac:(done) w Hw).
Qed.

(** A result is the one that is decided, or a time-out while the child decided, if at all,
    that it was cancelled. *)
Definition answer_matches (terminal : option ChildVerificationResult) (res : ChildVerificationResult) : Prop :=
  match terminal with
  | Some decided => decided = res \/ (vr_status res = V_TIMEOUT /\ vr_status decided = V_CANCELLED)
  | None => vr_status res = V_TIMEOUT
  end.

(** What [verify] answers, against what is decided for good. *)
Definition answer_ok (out : result vexn ChildVerificationResult) (w' : W) : Prop :=
  match out with
  | Ok res =>
      outcome_ok res
      /\ answer_matches (f_terminal (fields w')) res
  | Err e => e <> VOutOfFuel
  end.

Lemma vinv_decided w res : at_world vinv w -> f_terminal (fields w) = Some res -> outcome_ok res.
Proof using. intros (evs & _ & [Ht _ _ _ _]) Hres. rewrite Hres in Ht. by destruct Ht. Qed.

Lemma timed_out_ok started w : at_world vinv w ->
  at_world vinv (timed_out started w).1 /\ answer_ok (timed_out started w).2 (timed_out started w).1.
Proof using.
  intros Hw. unfold timed_out. destruct (bounded_cleans V_TIMEOUT TIMEOUT started ltac:(done) w Hw) as (Hw1 & [[] Hu] & _ & _).
  destruct (_bounded_finish _ _ _ _ w) as [w1 o] eqn:E1. cbn in Hw1, Hu. subst o. rewrite (bind_ok _ _ _ _ _ E1).
  rewrite (bind_ok _ _ w1 w1 (monotonic (ticks w1))) by reflexivity. rewrite (bind_ok _ _ w1 w1 (fields w1)) by reflexivity.
  split; [exact Hw1|]. cbn. destruct (f_terminal (fields w1)) as [d|] eqn:Hd.
  - split; [by eapply vinv_decided|by left].
  - split; [by apply failed_ok|done].
Qed.

Lemma gave_up_ok started w : at_world vinv w ->
  at_world vinv (gave_up started w).1 /\ answer_ok (gave_up started w).2 (gave_up started w).1.
Proof using.
  intros Hw. unfold gave_up. destruct (bounded_cleans V_CANCELLED PROVIDER_ERROR started ltac:(done) w Hw) as (Hw1 & [[] Hu] & _ & _).
  destruct (_bounded_finish _ _ _ _ w) as [w1 o] eqn:E1. cbn in Hw1, Hu. subst o. by rewrite (bind_ok _ _ _ _ _ E1).
Qed.

(** A clean-up of the child after the caller's answer. *)
Lemma answer_survives out w m : at_world vinv w -> answer_ok out w -> cleans V_CANCELLED m ->
  at_world vinv (m w).1 /\ answer_ok out (m w).1.
Proof using.
  intros Hw Hans Hm. destruct (Hm w Hw) as (Hw' & _ & Hstay & Hd). split; [done|]. destruct out as [res|e]; [|done].
  destruct Hans as [Hok Hdec]. split; [done|]. destruct (f_terminal (fields (m w).1)) as [d|] eqn:E.
  - destruct (Hd d eq_refl) as [[Hnone Hs]|Hsome].
    + rewrite Hnone in Hdec. by right.
    + by rewrite Hsome in Hdec.
  - destruct (f_terminal (fields w)) as [d|] eqn:Ed; [|done]. by destruct (Hstay (mk_is_Some _ _ eq_refl)).
Qed.

Lemma leave_ok started interrupted w : at_world vinv w ->
  at_world vinv (leave started interrupted w).1 /\ answer_ok (leave started interrupted w).2 (leave started interrupted w).1.
Proof using.
  intros Hw. unfold leave. set (act := if expired started w then timed_out started else gave_up started).
  assert (forall w', at_world vinv w' -> at_world vinv (act w').1 /\ answer_ok (act w').2 (act w').1) as Hact.
  { intros w' Hw'. unfold act. destruct (expired started w); [by apply timed_out_ok|by apply gave_up_ok]. }
  destruct (outer_first (ticks w)).
  - destruct (Hact w Hw) as [Hw1 Hans]. destruct (act w) as [w1 out]. cbn in *.
    by apply answer_survives; [| |apply cleanup_cleans].
  - destruct (cleanup_cleans started interrupted w Hw) as (Hw1 & _). by apply Hact.
Qed.

Lemma verify_ok envelope w0 : start = history w0 ->
  at_world vinv (verify envelope w0).1 /\ answer_ok (verify envelope w0).2 (verify envelope w0).1.
Proof using usage_nonneg claims_distinct retries_valid.
  intros Hstart. unfold verify. set (w := mkWorld _ _ _ _).
  assert (at_world (opening (fun _ => True)) w) as Hw.
  { exists []. rewrite app_nil_r. split; [done|]. split_and!; try done. split; cbn; try done. lia. }
  pose proof (child_path (monotonic (ticks w0)) envelope w Hw) as Hpath.
  destruct (_verify (monotonic (ticks w0)) envelope w) as [w1 out]. destruct Hpath as (Hw1 & Hres & Hfuel).
  assert (answer_ok out w1) as Hans.
  { destruct out as [res|e]; [|by intros ->]. pose proof (Hres res eq_refl) as Hterm. split; [by eapply vinv_decided|].
    rewrite Hterm. by left. }
  assert (forall o, answer_ok o w1 ->
    at_world vinv (if expired (monotonic (ticks w0)) w1 then timed_out (monotonic (ticks w0)) w1 else (w1, o)).1
    /\ answer_ok (if expired (monotonic (ticks w0)) w1 then timed_out (monotonic (ticks w0)) w1 else (w1, o)).2
         (if expired (monotonic (ticks w0)) w1 then timed_out (monotonic (ticks w0)) w1 else (w1, o)).1) as Hlate.
  { intros o Ho. destruct (expired _ w1); [by apply timed_out_ok|done]. }
  destruct out as [res|[]]; try (by apply Hlate); first [by apply timed_out_ok | by apply leave_ok].
Qed.
End invariant.

(** ** What the verifier guarantees *)

(** The request and its budget passed their checks. *)
Definition valid_request : Prop :=
  new_request r = Ok r /\ exists input output timeout tries, new_budget input output timeout tries = Ok (req_budget r).

Lemma budget_retries input output timeout tries b : new_budget input output timeout tries = Ok b -> 0 <= retries b <= 1.
Proof using.
  unfold new_budget. intros H. inv_result. cbn.
  match goal with H : (_ =? 0) || (_ =? 1) = true |- _ => apply orb_true_iff in H as [?|?]; bool_to_prop; lia end.
Qed.

(** Token counts are never negative ([TokenUsage.__post_init__]). *)
Definition counts_tokens : Prop := forall t messages max response, complete t messages max = Answered response ->
  0 <= usage_input (usage response) /\ 0 <= usage_output (usage response).

Lemma verify_spec envelope w : valid_request -> counts_tokens ->
  at_world (history w) vinv (verify envelope w).1 /\ answer_ok (verify envelope w).2 (verify envelope w).1.
Proof using.
  intros [Hreq (i & o & t & n & Hb)] Hcount. destruct (new_request_claims _ _ Hreq) as (_ & Hn & _).
  pose proof (budget_retries _ _ _ _ _ Hb) as Hr. by apply (verify_ok (history w) Hcount Hn); [lia|].
Qed.

(** C27. The verifier fails closed: whatever the model answers, other clients commit, and
    whichever calls fail, time out or are cancelled, a result is either complete, with one
    justified verdict per claim and the usage within the budget, or it escalates every
    claim. *)
Theorem verifier_fails_closed (envelope : option DelegationEnvelope) (w : W) (res : ChildVerificationResult) :
  valid_request -> counts_tokens -> (verify envelope w).2 = Ok res -> outcome_ok res.
Proof using.
  intros Hv Hc Hres. destruct (verify_spec envelope w Hv Hc) as [_ Hans]. rewrite Hres in Hans. by destruct Hans.
Qed.

(** The model is asked at most once per permitted attempt, only after the envelope was
    consumed and the delegation recorded, and each time within what is left of the token
    budget; the loop always ends. *)
Theorem verifier_asks_within_budget (envelope : option DelegationEnvelope) (w : W) : valid_request -> counts_tokens ->
  exists evs, history (verify envelope w).1 = (history w ++ evs)%list
    /\ Z.of_nat (asks evs) <= retries (req_budget r) + 1
    /\ (forall i messages max, evs !! i = Some (Asked messages max) ->
          Requested ∈ take i evs /\ (envelopes <> None -> Consumed ∈ take i evs)
          /\ 0 < max <= b_output (req_budget r) /\ estimate_input_tokens messages <= b_input (req_budget r))
    /\ (verify envelope w).2 <> Err VOutOfFuel.
Proof using.
  intros Hv Hc. destruct (verify_spec envelope w Hv Hc) as [(evs & Hh & [_ Ha _ Hq _]) Hans]. exists evs.
  split_and!; [done|lia| |].
  - intros i messages max Hi. destruct (Hq i messages max Hi) as [[? ?] [[? ?] ?]]. by split_and!.
  - intros He. by rewrite He in Hans.
Qed.

(** The ends in the history are the terminal write of what was decided, or none. *)
Definition ends_match (terminal : option ChildVerificationResult) (evs : list vevent) : Prop :=
  match terminal with
  | None => ends evs = []
  | Some decided => ends evs ∈ end_traces (vr_status decided)
  end.

(** One outcome is decided, once: the terminal write is begun at most once, all of it is
    about the decided status, and the result that is returned is the decided one; only a
    caller that gave up on time can return its own time-out while the child records that
    it was cancelled. *)
Theorem verifier_decides_once (envelope : option DelegationEnvelope) (w : W) : valid_request -> counts_tokens ->
  exists evs, history (verify envelope w).1 = (history w ++ evs)%list
    /\ ends_match (f_terminal (fields (verify envelope w).1)) evs
    /\ forall res, (verify envelope w).2 = Ok res -> answer_matches (f_terminal (fields (verify envelope w).1)) res.
Proof using.
  intros Hv Hc. destruct (verify_spec envelope w Hv Hc) as [(evs & Hh & [Ht _ _ _ _]) Hans]. exists evs.
  split_and!; [done| |].
  - unfold ends_match. destruct (f_terminal _); [by destruct Ht|exact Ht].
  - intros res Hres. rewrite Hres in Hans. by destruct Hans.
Qed.
End request.
End verifier.

(** ** A concrete delegation *)

Definition demo_hash : string := "ba7816bf8f01cfea414140de5dae2223b00361a396177a9cb410ff61f20015ad".

Definition demo_request : ChildVerificationRequest :=
  mkVRequest "child-1" "r1" "alice" "apollo" "policy-1" "model-1" [mkClaim "claim-1" demo_hash "The sky is blue." ["e1"]]
    [mkSlice "e1" "d1" "k1" demo_hash "Sky: blue."] (mkVBudget 4096 512 "30.0" 1).

Definition demo_verdicts : string :=
  dumps (JObj [("verdicts", JArr [JObj [("claim_id", JStr "claim-1"); ("status", JStr "supported");
    ("reason_code", JStr "evidence_supports"); ("confidence", JFloat "0.9"); ("evidence_ids", JArr [JStr "e1"])]])])%string.

Definition answer_text (s : string) : provider_answer :=
  Answered (mkResponse (Some s) [] (mkTokens 300 40 None None) None None None None).

(** The first answer is no JSON, the second one is good. *)
Definition demo_complete (t : nat) (messages : list Message) (max : Z) : provider_answer :=
  answer_text (if (length messages <=? 2)%nat then "I am not sure."%string else demo_verdicts).

Definition result_option {E A} (m : result E A) : option A := match m with Ok a => Some a | Err _ => None end.

Definition demo_delegation : option DelegationEnvelope :=
  result_option (issue_verifier_delegation demo_service 1000 "nonce-0001" demo_request).

Definition demo_store : vstore := mkStore (demo_ledger 3) ∅.

Definition demo_start : world vstore vfields vevent := mkWorld demo_store 0 (mkVFields no_usage 0 None None) [].

Definition demo_verify : world vstore vfields vevent * result vexn ChildVerificationResult :=
  verify calm plain_environment (fun _ => 0%Q) (fun _ => 1000) (fun _ => true) (fun _ => false) demo_complete (fun _ => true)
    (Some demo_service) demo_request demo_delegation demo_start.

Definition demo_result : ChildVerificationResult :=
  default (mkVResult "" "" V_FAILED no_usage 0 []) (result_option demo_verify.2).

(** The invalid answer is retried once, and what is recorded is the outcome. *)
Example demo_trace : vr_status demo_result = V_COMPLETED
  /\ (fun ev => match ev with Asked _ _ => Asked [] 0 | _ => ev end) <$> history demo_verify.1
     = [Consumed; Opened; Requested; Asked [] 0; Asked [] 0; Terminal V_COMPLETED; Completed V_COMPLETED; Stopped V_COMPLETED]
  /\ (status <$> runs (s_ledger (db demo_verify.1)) !! "child-1"%string) = Some completed.
Proof. vm_compute. done. Qed.

Lemma demo_request_valid : valid_request demo_request.
Proof. split; [vm_compute; reflexivity|]. exists 4096, 512, (BudgetFloat "30.0"), 1. vm_compute. reflexivity. Qed.

Lemma demo_counts : counts_tokens demo_complete.
Proof. intros t messages max response [= <-]. cbn. lia. Qed.

Lemma verifier_fails_closed_witness : outcome_ok demo_request demo_result.
Proof.
  apply (verifier_fails_closed calm plain_environment (fun _ => 0%Q) (fun _ => 1000) (fun _ => true) (fun _ => false) demo_complete
           (fun _ => true) (Some demo_service) demo_request demo_delegation demo_start demo_result).
  - exact demo_request_valid.
  - exact demo_counts.
  - vm_compute. reflexivity.
Defined.

Lemma verifier_asks_within_budget_witness :
  exists evs, history demo_verify.1 = (history demo_start ++ evs)%list
    /\ Z.of_nat (asks evs) <= retries (req_budget demo_request) + 1
    /\ (forall i messages max, evs !! i = Some (Asked messages max) ->
          Requested ∈ take i evs /\ (Some demo_service <> None -> Consumed ∈ take i evs)
          /\ 0 < max <= b_output (req_budget demo_request)
          /\ estimate_input_tokens messages <= b_input (req_budget demo_request))
    /\ demo_verify.2 <> Err VOutOfFuel.
Proof.
  apply (verifier_asks_within_budget calm plain_environment (fun _ => 0%Q) (fun _ => 1000) (fun _ => true) (fun _ => false)
           demo_complete (fun _ => true) (Some demo_service) demo_request demo_delegation demo_start).
  - exact demo_request_valid.
  - exact demo_counts.
Defined.

Lemma verifier_decides_once_witness :
  exists evs, history demo_verify.1 = (history demo_start ++ evs)%list
    /\ ends_match (f_terminal (fields demo_verify.1)) evs
    /\ forall res, demo_verify.2 = Ok res -> answer_matches (f_terminal (fields demo_verify.1)) res.
Proof.
  apply (verifier_decides_once calm plain_environment (fun _ => 0%Q) (fun _ => 1000) (fun _ => true) (fun _ => false)
           demo_complete (fun _ => true) (Some demo_service) demo_request demo_delegation demo_start).
  - exact demo_request_valid.
  - exact demo_counts.
Defined.
