(* ===== verification/RunExports.v ===== *)
(** * Run exports and share grants ([services/run_exports.py])

    [RunExportService] freezes a run's evidence in a checksummed bundle, and lets its owner
    share it with one recipient for one purpose for a bounded time. Exports and grants are
    tables; the run ledger is read as [RunLedger] has it, page by page while other clients
    write. Times are microseconds since the epoch. The context snapshot and the evaluations
    are read by other repositories and are arguments. *)

From Stdlib Require Import ZArith Lia String Ascii QArith.
From stdpp Require Import base gmap strings list sorting pretty relations.
From S2P Require Import Prelude Strings Sql Json JsonText Sha256 MonetaryLedger BudgetedProvider EffectIdentity Redaction Disclosure RunLedger.
Open Scope Z_scope.

Definition EXPORT_SCHEMA_VERSION : Z := 1.
Definition PURPOSES : list string := ["audit"; "incident_review"; "evaluation"; "support"]%string.
Definition _MAX_EVENTS : Z := 10000.
Definition _TOKEN_KEY_DOMAIN : string := "cogentrex/run-share-token-key/v1".
Definition MICROSECONDS : Z := 1000000.

Inductive export_error : Type :=
| ExportIntegrityError
| ExportValueError
| ExportDisclosureError
| ExportLedgerError (e : ledger_error)
| ExportDatabaseError.

#[export] Instance export_error_eq_dec : EqDecision export_error.
Proof. solve_decision. Defined.

Definition derive_share_token_hmac_key (application_secret : string) : result export_error string :=
  _ ← require (negb (string_eqb application_secret "")) ExportValueError;
  Ok (hmac_sha256 application_secret _TOKEN_KEY_DOMAIN).

(** ** Rows *)

Record RunExportRow : Type := mkExport {
  x_owner_id : string;
  x_run_id : string;
  x_schema_version : Z;
  bundle_json : string;
  content_checksum : string;
  manifest_checksum : string;
  x_created_at : Z
}.

Record RunShareGrantRow : Type := mkGrant {
  g_export_id : string;
  g_owner_id : string;
  recipient_user_id : string;
  purpose : string;
  token_hash : string;
  g_created_at : Z;
  g_expires_at : Z;
  revoked_at : option Z
}.

(** The columns of an evaluation that an export reads. *)
Record EvalRunRow : Type := mkEval {
  ev_id : string;
  ev_owner_id : string;
  dataset_id : string;
  dataset_version : string;
  ev_status : string;
  ev_passed : option Z;
  aggregate_metrics : json;
  source_run_ids : list string
}.

(** The fields of a run's context manifest that an export takes. *)
Record ContextSnapshot : Type := mkSnapshot {
  snapshot_id : string;
  cs_schema_version : Z;
  selected_message_ids : list Z;
  summarized_message_ids : list Z;
  memory_ids : list string;
  skill_ids : list string;
  input_asset_fingerprints : list string;
  summary_version : option string;
  estimated_tokens : Z;
  truncation_reason : option string;
  manifest_hash : string
}.

Record shares : Type := mkShares { exports : gmap string RunExportRow; grants : gmap string RunShareGrantRow }.

Record ExportMetadata : Type := mkMetadata {
  m_export_id : string;
  m_run_id : string;
  m_schema_version : Z;
  m_content_checksum : string;
  m_manifest_checksum : string;
  m_created_at : Z
}.

(** ** Dates *)

Definition pad_left (width : nat) (z : Z) : string :=
  let s := pretty z in String.append (String.concat "" (replicate (width - String.length s) "0"%string)) s.

(** The civil date of a day counted from 1970-01-01 (proleptic Gregorian calendar). *)
Definition civil (days : Z) : Z * Z * Z :=
  let z := days + 719468 in
  let era := z / 146097 in
  let doe := z mod 146097 in
  let yoe := (doe - doe / 1460 + doe / 36524 - doe / 146096) / 365 in
  let doy := doe - (365 * yoe + yoe / 4 - yoe / 100) in
  let mp := (5 * doy + 2) / 153 in
  let d := doy - (153 * mp + 2) / 5 + 1 in
  let m := if mp <? 10 then mp + 3 else mp - 9 in
  (yoe + era * 400 + (if m <=? 2 then 1 else 0), m, d).

(** [datetime.isoformat()] of a UTC time. *)
Definition isoformat (t : Z) : string :=
  let '(y, m, d) := civil (t / (86400 * MICROSECONDS)) in
  let s := t / MICROSECONDS mod 86400 in
  let us := t mod MICROSECONDS in
  String.concat "" [pad_left 4 y; "-"; pad_left 2 m; "-"; pad_left 2 d; "T"; pad_left 2 (s / 3600); ":"; pad_left 2 (s / 60 mod 60); ":";
    pad_left 2 (s mod 60); if (us =? 0)%Z then "" else String.append "." (pad_left 6 us); "+00:00"]%string.

Example isoformat_leap : isoformat (1709210096000123 : Z) = "2024-02-29T12:34:56.000123+00:00"%string.
Proof. reflexivity. Qed.

(** ** Canonical text *)

(** [json.dumps(.., allow_nan=False)] raises on a number it cannot write. *)
Definition _canonical (v : json) : result export_error string :=
  _ ← require (encodable v && finite_json v) ExportValueError; Ok (dumps v).

Definition _checksum (v : json) : result export_error string := text ← _canonical v; Ok (sha256_hex text).

Definition opt_str (o : option string) : json := match o with Some s => JStr s | None => JNull end.
Definition opt_int (o : option Z) : json := match o with Some z => JInt z | None => JNull end.

Section service.
(** The service's key, and the [repr] of the floats it reads from the ledger. *)
Context (pepper : string) (float_repr : Q -> string).

Definition _token_hash (token : string) : string := hmac_hex pepper token.

(** ** Reading the run *)

Definition event_item (e : RunEventRecord) : json :=
  JObj [("sequence", JInt (ev_sequence e)); ("kind", JStr (ev_kind e)); ("schema_version", JInt (ev_schema e));
        ("iteration", JInt (ev_iteration e)); ("payload", JObj (ev_payload e))]%string.

(** The database at the n-th statement. *)
Context (seen : nat -> ledger).

Definition lift_ledger {A} (r : result ledger_error A) : result export_error A := lift_err ExportLedgerError r.

(** The loop over pages; the answer is the events, whether more follow, and the statements made. *)
Fixpoint pages (fuel : nat) (owner run : string) (collected : list RunEventRecord) (after : Z) (n : nat)
  : result export_error (option (list RunEventRecord * bool * nat)) :=
  let probe :=
    page ← lift_ledger (list_events owner run 1 after (seen n));
    Ok (Some (collected, match page with Some (_ :: _) => true | _ => false end, S n)) in
  match fuel with
  | O => probe
  | S fuel' =>
      if _MAX_EVENTS <=? Z.of_nat (length collected) then probe
      else
        let limit := Z.min 200 (_MAX_EVENTS - Z.of_nat (length collected)) in
        page ← lift_ledger (list_events owner run limit after (seen n));
        match page with
        | None => Ok None
        | Some [] => Ok (Some (collected, false, S n))
        | Some items =>
            let collected := (collected ++ items)%list in
            let after := match last items with Some e => ev_sequence e | None => after end in
            if Z.of_nat (length items) <? limit then Ok (Some (collected, false, S n))
            else pages fuel' owner run collected after (S n)
        end
  end.

(** A full page has 200 events: 50 of them reach the limit. *)
Definition PAGES : nat := 50.

Definition _all_events (owner run : string) (n : nat) := pages PAGES owner run [] 0 n.

Definition run_status_value (s : RunStatus) : string :=
  match s with running => "running" | completed => "completed" | failed => "failed" | cancelled => "cancelled" end.

Definition opt_float (o : option Q) : json := match o with Some q => JFloat (float_repr q) | None => JNull end.

Definition run_data (r : RunRecord) : json :=
  JObj [("run_id", JStr (rec_run r)); ("project_id", JStr (project_id (rec_identity r))); ("parent_run_id", opt_str (rec_parent r));
        ("fork_source_sequence", opt_int (rec_fork_sequence r)); ("provider", JStr (provider (rec_identity r)));
        ("model", JStr (model (rec_identity r))); ("status", JStr (run_status_value (rec_status r)));
        ("stop_reason", opt_str (rec_stop_reason r)); ("answer_summary", opt_str (rec_summary r));
        ("input_tokens", JInt (used_input (rec_tokens r))); ("output_tokens", JInt (used_output (rec_tokens r)));
        ("total_tokens", JInt (used_total (rec_tokens r))); ("cost_usd", opt_float (rec_cost r));
        ("latency_ms", opt_float (rec_latency r)); ("iterations", JInt (rec_iterations r))]%string.

Definition context_data (c : ContextSnapshot) : json :=
  JObj [("snapshot_id", JStr (snapshot_id c)); ("schema_version", JInt (cs_schema_version c));
        ("selected_message_ids", JArr (JInt <$> selected_message_ids c)); ("summarized_message_ids", JArr (JInt <$> summarized_message_ids c));
        ("memory_ids", JArr (JStr <$> memory_ids c)); ("skill_ids", JArr (JStr <$> skill_ids c));
        ("input_asset_fingerprints", JArr (JStr <$> input_asset_fingerprints c)); ("summary_version", opt_str (summary_version c));
        ("estimated_tokens", JInt (estimated_tokens c)); ("truncation_reason", opt_str (truncation_reason c));
        ("manifest_hash", JStr (manifest_hash c))]%string.

Definition citation (e : RunEventRecord) : json :=
  JObj [("sequence", JInt (ev_sequence e)); ("kind", JStr (ev_kind e)); ("summary", JObj (ev_payload e))]%string.

Definition is_citation (e : RunEventRecord) : bool :=
  bool_decide (ev_kind e ∈ ["evidence_retrieved"; "claim_verified"; "grounded_answer"]%string).

Definition evaluation_item (e : EvalRunRow) : json :=
  JObj [("evaluation_id", JStr (ev_id e)); ("dataset_id", JStr (dataset_id e)); ("dataset_version", JStr (dataset_version e));
        ("status", JStr (ev_status e)); ("passed", match ev_passed e with None => JNull | Some z => JBool (negb (z =? 0)%Z) end);
        ("aggregate_metrics", aggregate_metrics e)]%string.

Definition _evaluation_summaries (owner run : string) (evaluations : list EvalRunRow) : list json :=
  evaluation_item <$> List.filter (fun e => bool_decide (run ∈ source_run_ids e))
    (List.filter (fun e => string_eqb (ev_owner_id e) owner) evaluations).

Definition OMISSIONS : list string :=
  ["raw_prompts"; "raw_tool_arguments"; "raw_tool_results"; "memory_plaintext"; "secrets"; "chain_of_thought"; "artifacts";
   "approval_credentials"]%string.

(** [omissions], with the events that were cut. *)
Definition omissions (events : list RunEventRecord) (truncated : bool) : list string :=
  (OMISSIONS ++ if truncated
                then match last events with Some e => [String.append "events_after_sequence_" (pretty (ev_sequence e))] | None => [] end
                else [])%list.

Definition sections_of (r : RunRecord) (events : list RunEventRecord) (truncated : bool) (context : option ContextSnapshot)
    (evaluations : list json) : json :=
  JObj [("run", run_data r); ("events", JArr (event_item <$> events));
        ("context", match context with Some c => context_data c | None => JNull end);
        ("citations", JArr (citation <$> List.filter is_citation events)); ("evaluations", JArr evaluations);
        ("omissions", JArr (JStr <$> omissions events truncated))]%string.

(** ** Creating an export *)

(** [{name: _checksum(value) for name, value in sections.items()}] *)
Fixpoint checksums_of (sections : list (string * json)) : result export_error (list (string * json)) :=
  match sections with
  | [] => Ok []
  | (name, v) :: rest => c ← _checksum v; cs ← checksums_of rest; Ok ((name, JStr c) :: cs)
  end.

Definition manifest_core (export_id run : string) (now : Z) (count : Z) (types : list string) (content : string)
    (checksums : list (string * json)) : list (string * json) :=
  [("format", JStr "cogentrex.run-export"); ("schema_version", JInt EXPORT_SCHEMA_VERSION); ("export_id", JStr export_id);
   ("run_id", JStr run); ("created_at", JStr (isoformat now));
   ("disclosure_scan", JObj [("performed", JBool true); ("redaction_count", JInt count); ("redaction_types", JArr (JStr <$> types))]);
   ("content_checksum", JStr content); ("checksums", JObj checksums)]%string.

Definition bundle_of (core : list (string * json)) (manifest : string) (sections : list (string * json)) : json :=
  JObj (("manifest", JObj (core ++ [("manifest_checksum", JStr manifest)])) :: sections)%string.

(** The row of an export of scanned sections. *)
Definition export_row (export_id owner run : string) (now : Z) (scan : DisclosureResult) : result export_error RunExportRow :=
  match disclosed scan with
  | JObj sections =>
      checksums ← checksums_of sections;
      content ← _checksum (JObj sections);
      let core := manifest_core export_id run now (redaction_count scan) (redaction_types scan) content checksums in
      manifest ← _checksum (JObj core);
      bundle ← _canonical (bundle_of core manifest sections);
      Ok (mkExport owner run EXPORT_SCHEMA_VERSION bundle content manifest now)
  | _ => Err ExportValueError
  end.

Definition _export_metadata (export_id : string) (row : RunExportRow) : ExportMetadata :=
  mkMetadata export_id (x_run_id row) (x_schema_version row) (content_checksum row) (manifest_checksum row) (x_created_at row).

(** The unique constraint on owner, run and content. *)
Definition same_content (row : RunExportRow) (_ : string) (other : RunExportRow) : bool :=
  string_eqb (x_owner_id other) (x_owner_id row) && string_eqb (x_run_id other) (x_run_id row)
  && string_eqb (content_checksum other) (content_checksum row).

(** The insertion, in a transaction of its own; on a failed commit the existing export of the
    same content is answered. [run_exists] is the foreign key to the run at that moment. *)
Definition add_export (run_exists : bool) (export_id : string) (row : RunExportRow) (st : shares) : shares * result export_error ExportMetadata :=
  if run_exists && bool_decide (exports st !! export_id = None) && bool_decide (rowcount (same_content row) (exports st) = O)
  then (mkShares (<[export_id := row]> (exports st)) (grants st), Ok (_export_metadata export_id row))
  else (st, match scalar (same_content row) (exports st) with
            | Some (k, existing) => Ok (_export_metadata k existing)
            | None => Err ExportDatabaseError
            end).

(** The sections before the scan, with the statements made. *)
Definition gathered (context : option ContextSnapshot) (evaluations : list EvalRunRow) (owner run : string)
  : result export_error (option (json * nat)) :=
  record ← lift_ledger (get owner run (seen 0%nat));
  match record with
  | None => Ok None
  | Some r =>
      answer ← _all_events owner run 1;
      match answer with
      | None => Ok None
      | Some (events, truncated, n) =>
          Ok (Some (sections_of r events truncated context (_evaluation_summaries owner run evaluations), n))
      end
  end.

Definition create_export (now : Z) (export_id : string) (context : option ContextSnapshot) (evaluations : list EvalRunRow)
    (owner run : string) (st : shares) : shares * result export_error (option ExportMetadata) :=
  let prepared : result export_error (option (RunExportRow * nat)) :=
    found ← gathered context evaluations owner run;
    match found with
    | None => Ok None
    | Some (sections, n) =>
        match scan None sections with
        | None => Err ExportDisclosureError
        | Some s => row ← export_row export_id owner run now s; Ok (Some (row, n))
        end
    end in
  match prepared with
  | Err e => (st, Err e)
  | Ok None => (st, Ok None)
  | Ok (Some (row, n)) =>
      let '(st', answer) := add_export (bool_decide (is_Some (runs (seen n) !! run))) export_id row st in
      (st', Some <$> answer)
  end.

Definition newest_export (a b : string * RunExportRow) : Prop :=
  x_created_at b.2 < x_created_at a.2 \/ x_created_at a.2 = x_created_at b.2 /\ String.leb a.1 b.1 = true.

#[local] Instance newest_export_dec : RelDecision newest_export.
Proof. intros a b. unfold newest_export. apply _. Defined.

Definition list_exports (owner run : string) (st : shares) : list ExportMetadata :=
  (fun kr => _export_metadata kr.1 kr.2) <$> merge_sort newest_export
    (select_where (fun _ x => string_eqb (x_owner_id x) owner && string_eqb (x_run_id x) run) (exports st)).

(** ** Verification *)

Definition BUNDLE_KEYS : list string := ["manifest"; "run"; "events"; "context"; "citations"; "evaluations"; "omissions"]%string.
Definition MANIFEST_KEYS : list string :=
  ["format"; "schema_version"; "export_id"; "run_id"; "created_at"; "disclosure_scan"; "content_checksum"; "checksums";
   "manifest_checksum"]%string.

(** [set(d) == {..}] of a decoded dictionary, whose keys are distinct. *)
Definition keys_are (keys : list string) (d : list (string * json)) : bool :=
  bool_decide (list_to_set d.*1 =@{gset string} list_to_set keys).

(** A decoded value that equals the integer 1: Python compares numbers across types. *)
Definition equals_one (v : json) : bool :=
  match v with JInt z => z =? 1 | JBool b => b | JFloat t => string_eqb t "1.0" | _ => false end.

(** [str(..)] of a decoded value, where it can be the text of a digest. *)
Definition digest_text (v : option json) : option string :=
  match v with Some (JStr t) => Some t | Some (JInt z) => Some (pretty z) | _ => None end.

Definition is_str (s : string) (v : option json) : bool := match v with Some (JStr t) => string_eqb t s | _ => false end.

Definition without_key (k : string) (d : list (string * json)) : list (string * json) := List.filter (fun kv => negb (string_eqb kv.1 k)) d.

Definition checked_manifest (export_id : string) (row : RunExportRow) (manifest : list (string * json)) : result export_error unit :=
  _ ← require (keys_are MANIFEST_KEYS manifest) ExportIntegrityError;
  _ ← require ((x_schema_version row =? EXPORT_SCHEMA_VERSION) && is_str "cogentrex.run-export" (get_item "format" manifest)
               && match get_item "schema_version" manifest with Some v => equals_one v | None => false end
               && is_str export_id (get_item "export_id" manifest) && is_str (x_run_id row) (get_item "run_id" manifest)
               && is_str (isoformat (x_created_at row)) (get_item "created_at" manifest)) ExportIntegrityError;
  core ← _checksum (JObj (without_key "manifest_checksum" manifest));
  require (bool_decide (digest_text (get_item "manifest_checksum" manifest) = Some (manifest_checksum row)) && string_eqb core (manifest_checksum row)) ExportIntegrityError.

(** Dictionaries are equal when they are up to the order of keys. *)
Definition json_equal (v w : json) : bool := bool_decide (canon v = canon w).

Definition checked_sections (row : RunExportRow) (manifest sections : list (string * json)) : result export_error unit :=
  match scan None (JObj sections) with
  | None => Err ExportIntegrityError
  | Some s =>
      _ ← require ((redaction_count s =? 0) && json_equal (disclosed s) (JObj sections)) ExportIntegrityError;
      expected ← checksums_of sections;
      content ← _checksum (JObj sections);
      require (string_eqb content (content_checksum row) && is_str (content_checksum row) (get_item "content_checksum" manifest)
               && match get_item "checksums" manifest with Some v => json_equal v (JObj expected) | None => false end) ExportIntegrityError
  end.

(** Every failure of a step, decoding included, is an integrity error. *)
Definition _verify_bundle (export_id : string) (row : RunExportRow) : result export_error json :=
  match loads (bundle_json row) with
  | Some (JObj bundle) =>
      lift_err (fun _ => ExportIntegrityError)
        (_ ← require (keys_are BUNDLE_KEYS bundle) ExportIntegrityError;
         match get_item "manifest" bundle with
         | Some (JObj manifest) =>
             _ ← checked_manifest export_id row manifest;
             _ ← checked_sections row manifest (without_key "manifest" bundle);
             Ok (JObj bundle)
         | _ => Err ExportIntegrityError
         end)
  | _ => Err ExportIntegrityError
  end.

Definition owned_export (owner export_id k : string) (x : RunExportRow) : bool := string_eqb k export_id && string_eqb (x_owner_id x) owner.

Definition download (owner export_id : string) (st : shares) : result export_error (option json) :=
  match scalar (owned_export owner export_id) (exports st) with
  | None => Ok None
  | Some (k, row) => Some <$> _verify_bundle k row
  end.

(** ** Grants *)

(** [secrets.token_urlsafe(32)] of 32 random bytes. *)
Definition token_of (entropy : string) : string := urlsafe_b64 entropy.

Definition same_token (hash : string) (_ : string) (g : RunShareGrantRow) : bool := string_eqb (token_hash g) hash.

Definition new_grant (now : Z) (entropy owner export_id recipient purpose : string) (expires_in : Z) : RunShareGrantRow :=
  mkGrant export_id owner recipient purpose (_token_hash (token_of entropy)) now (now + expires_in * MICROSECONDS) None.

Definition create_grant (now : Z) (grant_id entropy : string) (owner export_id recipient purpose : string) (expires_in : Z) (st : shares)
  : shares * result export_error (option (RunShareGrantRow * string)) :=
  match (_ ← require (bool_decide (purpose ∈ PURPOSES)) ExportValueError;
         _ ← require (negb (string_eqb recipient "") && negb (string_eqb recipient owner)) ExportValueError;
         require ((60 <=? expires_in) && (expires_in <=? 604800)) ExportValueError) with
  | Err e => (st, Err e)
  | Ok _ =>
      let row := new_grant now entropy owner export_id recipient purpose expires_in in
      match scalar (owned_export owner export_id) (exports st) with
      | None => (st, Ok None)
      | Some _ =>
          if bool_decide (grants st !! grant_id = None) && bool_decide (rowcount (same_token (token_hash row)) (grants st) = O)
          then (mkShares (exports st) (<[grant_id := row]> (grants st)), Ok (Some (row, token_of entropy)))
          else (st, Err ExportDatabaseError)
      end
  end.

Definition newest_grant (a b : string * RunShareGrantRow) : Prop := g_created_at b.2 <= g_created_at a.2.
#[local] Instance newest_grant_dec : RelDecision newest_grant.
Proof. intros a b. unfold newest_grant. apply _. Defined.

Definition list_grants (owner export_id : string) (st : shares) : option (list (string * RunShareGrantRow)) :=
  match scalar (owned_export owner export_id) (exports st) with
  | None => None
  | Some _ => Some (merge_sort newest_grant
                      (select_where (fun _ g => string_eqb (g_owner_id g) owner && string_eqb (g_export_id g) export_id) (grants st)))
  end.

Definition revocable (owner grant_id k : string) (g : RunShareGrantRow) : bool :=
  string_eqb k grant_id && string_eqb (g_owner_id g) owner && bool_decide (revoked_at g = None).

Definition revoke_row (now : Z) (g : RunShareGrantRow) : RunShareGrantRow :=
  mkGrant (g_export_id g) (g_owner_id g) (recipient_user_id g) (purpose g) (token_hash g) (g_created_at g) (g_expires_at g) (Some now).

(** The CHECK constraint refuses a revocation before the grant's creation. *)
Definition revoke (now : Z) (owner grant_id : string) (st : shares) : shares * result export_error bool :=
  if existsb (fun kg => now <? g_created_at kg.2) (select_where (revocable owner grant_id) (grants st)) then (st, Err ExportDatabaseError)
  else (mkShares (exports st) (update_where (revocable owner grant_id) (revoke_row now) (grants st)),
        Ok (negb (Nat.eqb (rowcount (revocable owner grant_id) (grants st)) 0))).

(** The condition of the update that locks the grant. *)
Definition redeemable (digest recipient p : string) (authorized_at : Z) (_ : string) (g : RunShareGrantRow) : bool :=
  string_eqb (token_hash g) digest && string_eqb (recipient_user_id g) recipient && string_eqb (purpose g) p
  && bool_decide (revoked_at g = None) && (authorized_at <? g_expires_at g).

(** One transaction; the clock is read before it and again at its end. *)
Definition redeem (authorized_at now : Z) (recipient token p : string) (st : shares) : result export_error (option json) :=
  if negb (bool_decide (p ∈ PURPOSES)) || string_eqb token "" then Ok None
  else
    let digest := _token_hash token in
    if negb (Nat.eqb (rowcount (redeemable digest recipient p authorized_at) (grants st)) 1) then Ok None
    else match scalar (same_token digest) (grants st) with
    | None => Ok None
    | Some (_, g) =>
        match exports st !! g_export_id g with
        | None => Ok None
        | Some x =>
            bundle ← _verify_bundle (g_export_id g) x;
            if negb (bool_decide (revoked_at g = None)) || (g_expires_at g <=? now) then Ok None else Ok (Some bundle)
        end
    end.
End service.

#[local] Opaque sha256_hex hmac_hex hmac_sha256 sha256 urlsafe_b64 Disclosure.scan.

(** ** Histories

    Besides the operations of the service, the tables change when the retention service deletes
    a run: the foreign keys delete its exports and, with them, their grants. *)

Definition drop_run (run : string) (st : shares) : shares :=
  let kept := filter (fun kx : string * RunExportRow => x_run_id kx.2 <> run) (exports st) in
  mkShares kept (filter (fun kg : string * RunShareGrantRow => is_Some (kept !! g_export_id kg.2)) (grants st)).

Inductive share_op : Type :=
| CreateExport (seen : nat -> ledger) (now : Z) (export_id : string) (context : option ContextSnapshot) (evaluations : list EvalRunRow)
    (owner run : string)
| CreateGrant (now : Z) (grant_id entropy owner export_id recipient purpose : string) (expires_in : Z)
| Revoke (now : Z) (owner grant_id : string)
| DropRun (run : string).

(** What every stored grant satisfies. *)
Record grant_ok (exps : gmap string RunExportRow) (g : RunShareGrantRow) : Prop := {
  grant_export : exists x, exps !! g_export_id g = Some x /\ x_owner_id x = g_owner_id g;
  grant_recipient : recipient_user_id g <> ""%string /\ recipient_user_id g <> g_owner_id g;
  grant_purpose : purpose g ∈ PURPOSES;
  grant_lifetime : g_created_at g + 60 * MICROSECONDS <= g_expires_at g <= g_created_at g + 604800 * MICROSECONDS;
  grant_revocation : forall t, revoked_at g = Some t -> g_created_at g <= t
}.

Record shares_ok (st : shares) : Prop := {
  grants_ok : forall k g, grants st !! k = Some g -> grant_ok (exports st) g;
  tokens_unique : forall k k' g g', grants st !! k = Some g -> grants st !! k' = Some g' -> token_hash g = token_hash g' -> k = k';
  exports_versioned : forall k x, exports st !! k = Some x -> x_schema_version x = EXPORT_SCHEMA_VERSION;
  contents_unique : forall k k' x x', exports st !! k = Some x -> exports st !! k' = Some x' -> same_content x k' x' = true -> k = k'
}.

Section proofs.
Context (pepper : string) (float_repr : Q -> string).

Definition apply_op (op : share_op) (st : shares) : shares :=
  match op with
  | CreateExport seen now id context evals owner run => (create_export float_repr seen now id context evals owner run st).1
  | CreateGrant now id entropy owner export_id recipient p expires => (create_grant pepper now id entropy owner export_id recipient p expires st).1
  | Revoke now owner id => (revoke now owner id st).1
  | DropRun run => drop_run run st
  end.

Definition history (ops : list share_op) (st : shares) : shares := foldl (fun st op => apply_op op st) st ops.

Lemma history_snoc ops op st : history (ops ++ [op]) st = apply_op op (history ops st).
Proof. unfold history. by rewrite foldl_app. Qed.

Lemma export_row_version id owner run now s row : export_row id owner run now s = Ok row -> x_schema_version row = EXPORT_SCHEMA_VERSION.
Proof.
  unfold export_row. destruct (disclosed s); try done.
  intros (cs & _ & (c & _ & (m & _ & (b & _ & [= <-])%bind_Ok)%bind_Ok)%bind_Ok)%bind_Ok. done.
Qed.

(** An operation is an insertion of a new row, a revocation, a deletion, or nothing. *)
Lemma create_export_cases seen now id context evals owner run st :
  (create_export float_repr seen now id context evals owner run st).1 = st
  \/ exists x, x_schema_version x = EXPORT_SCHEMA_VERSION /\ exports st !! id = None /\ rowcount (same_content x) (exports st) = O
       /\ (create_export float_repr seen now id context evals owner run st).1 = mkShares (<[id := x]> (exports st)) (grants st).
Proof.
  unfold create_export. match goal with |- context [match ?m with _ => _ end] => destruct m as [[[row n]|]|e] eqn:Hp end; [|by left..].
  unfold add_export. destruct (_ && _) eqn:Hc; [|by left]. bool_to_prop. right. exists row. split_and!; try done.
  clear -Hp. apply bind_Ok in Hp as ([[v k]|] & _ & Hp); [|done].
  destruct (Disclosure.scan _ _) as [s|]; [|done]. apply bind_Ok in Hp as (row' & Hrow & [= <- _]). by apply export_row_version in Hrow.
Qed.

Lemma create_grant_cases now id entropy owner export_id recipient p expires st :
  (create_grant pepper now id entropy owner export_id recipient p expires st).1 = st
  \/ let g := new_grant pepper now entropy owner export_id recipient p expires in
     grants st !! id = None /\ rowcount (same_token (token_hash g)) (grants st) = O /\ grant_ok (exports st) g
     /\ (create_grant pepper now id entropy owner export_id recipient p expires st).1 = mkShares (exports st) (<[id := g]> (grants st)).
Proof.
  unfold create_grant. match goal with |- context [match ?m with Ok _ => _ | Err _ => _ end] => destruct m as [u|e] eqn:Hr end; [|by left].
  apply bind_Ok in Hr as (u1 & Hp%require_Ok & (u2 & Hd%require_Ok & He%require_Ok)%bind_Ok).
  destruct (scalar _ _) as [[k x]|] eqn:Hs; [|by left].
  destruct (bool_decide (grants st !! id = None) && _) eqn:Hc; [|by left].
  apply scalar_Some in Hs as [Hx Ho]. unfold owned_export in Ho. bool_to_prop. subst. right. cbn zeta. split_and!; [done|done| |done].
  split; cbn; unfold MICROSECONDS; [by eauto|done|done|lia|done].
Qed.

(** Grants refer to exports: they stay in order while the exports they refer to stay. *)
Lemma grant_ok_mono (exps exps' : gmap string RunExportRow) g :
  (forall x, exps !! g_export_id g = Some x -> exps' !! g_export_id g = Some x) -> grant_ok exps g -> grant_ok exps' g.
Proof. intros Hm [(x & Hx & Ho) ? ? ? ?]. split; eauto. Qed.

Lemma same_content_sym x k y k' : same_content x k y = same_content y k' x.
Proof.
  assert (forall a b, string_eqb a b = string_eqb b a) as Hc by by intros a b; apply bool_decide_ext.
  unfold same_content. by rewrite (Hc (x_owner_id y)), (Hc (x_run_id y)), (Hc (content_checksum y)).
Qed.

Lemma shares_ok_insert_export st id x : shares_ok st -> x_schema_version x = EXPORT_SCHEMA_VERSION ->
  exports st !! id = None -> rowcount (same_content x) (exports st) = O -> shares_ok (mkShares (<[id := x]> (exports st)) (grants st)).
Proof.
  intros [Hg Ht Hv Hc] Hx Hid Hnew. pose proof (rowcount_zero _ _ Hnew) as Hnone. split; cbn.
  - intros k g Hk. eapply grant_ok_mono; [|by eapply Hg]. intros y Hy. rewrite lookup_insert_ne; [done|congruence].
  - exact Ht.
  - intros k y [[<- <-]|[_ Hy]]%lookup_insert_Some; [done|by eauto].
  - intros k k' y y' [[<- <-]|[Hne Hy]]%lookup_insert_Some [[<- <-]|[Hne' Hy']]%lookup_insert_Some Hs; [done| | |by eauto].
    + by rewrite (Hnone _ _ Hy') in Hs.
    + by rewrite (same_content_sym y id x k), (Hnone _ _ Hy) in Hs.
Qed.

Lemma shares_ok_insert_grant st id g : shares_ok st -> grant_ok (exports st) g ->
  grants st !! id = None -> rowcount (same_token (token_hash g)) (grants st) = O -> shares_ok (mkShares (exports st) (<[id := g]> (grants st))).
Proof.
  intros [Hg Ht Hv Hc] Hok Hid Hnew. pose proof (rowcount_zero _ _ Hnew) as Hnone.
  assert (forall k h, grants st !! k = Some h -> token_hash h <> token_hash g) as Hdiff.
  { intros k h Hk. specialize (Hnone _ _ Hk). by apply string_eqb_neq in Hnone. }
  split; cbn; [|  |done|done].
  - intros k h [[<- <-]|[_ Hh]]%lookup_insert_Some; [done|by eauto].
  - intros k k' h h' [[<- <-]|[Hne Hh]]%lookup_insert_Some [[<- <-]|[Hne' Hh']]%lookup_insert_Some Hs; [done| | |by eauto].
    + by destruct (Hdiff _ _ Hh').
    + by destruct (Hdiff _ _ Hh).
Qed.

Lemma revoke_cases now owner id st :
  (revoke now owner id st).1 = st
  \/ exists g, grants st !! id = Some g /\ g_owner_id g = owner /\ revoked_at g = None /\ g_created_at g <= now
       /\ revoke now owner id st = (mkShares (exports st) (<[id := revoke_row now g]> (grants st)), Ok true).
Proof.
  assert (pins (revocable owner id) id) as Hpin. { intros k g H. unfold revocable in H. by bool_to_prop. }
  unfold revoke. destruct (existsb _ _) eqn:He; [by left|]. rewrite (update_where_pinned _ _ _ _ Hpin), (rowcount_pinned _ _ _ Hpin).
  destruct (grants st !! id) as [g|] eqn:Hg; [|left; by destruct st]. destruct (revocable owner id id g) eqn:Hr; [|left; by destruct st].
  right. exists g. pose proof Hr as Hr'. unfold revocable in Hr'. bool_to_prop. split_and!; try done.
  apply Z.nlt_ge. intros Hlt. assert (existsb (fun kg : string * RunShareGrantRow => now <? g_created_at kg.2) (select_where (revocable owner id) (grants st)) = true); [|congruence].
  apply existsb_exists. exists (id, g). split; [|by apply Z.ltb_lt]. apply list_elem_of_In, select_where_elem. done.
Qed.

Lemma shares_ok_revoke st id g now : shares_ok st -> grants st !! id = Some g -> g_created_at g <= now ->
  shares_ok (mkShares (exports st) (<[id := revoke_row now g]> (grants st))).
Proof.
  intros [Hg Ht Hv Hc] Hid Hnow. split; cbn; [|  |done|done].
  - intros k h [[<- <-]|[_ Hh]]%lookup_insert_Some; [|by eauto]. destruct (Hg _ _ Hid) as [? ? ? ? ?]. split; try done.
    cbn. by intros t [= <-].
  - intros k k' h h' [[<- <-]|[Hne Hh]]%lookup_insert_Some [[<- <-]|[Hne' Hh']]%lookup_insert_Some Hs; [done|..]; by eauto.
Qed.

Lemma shares_ok_drop st run : shares_ok st -> shares_ok (drop_run run st).
Proof.
  intros [Hg Ht Hv Hc]. unfold drop_run. split; cbn.
  - intros k g [Hk [x Hx]]%map_lookup_filter_Some. eapply grant_ok_mono; [|by eapply Hg].
    intros y Hy. cbn in Hx. pose proof Hx as Hx'. apply map_lookup_filter_Some in Hx' as [Hx' _]. congruence.
  - intros k k' g g' [Hk _]%map_lookup_filter_Some [Hk' _]%map_lookup_filter_Some. by eauto.
  - intros k x [Hk _]%map_lookup_filter_Some. by eauto.
  - intros k k' x x' [Hk _]%map_lookup_filter_Some [Hk' _]%map_lookup_filter_Some. by eauto.
Qed.

Lemma shares_ok_step op st : shares_ok st -> shares_ok (apply_op op st).
Proof.
  intros Hok. destruct op as [seen now id c es owner run|now id ent owner x rec p ex|now owner id|run]; cbn [apply_op].
  - destruct (create_export_cases seen now id c es owner run st) as [->|(x & ? & ? & ? & ->)]; [done|by apply shares_ok_insert_export].
  - destruct (create_grant_cases now id ent owner x rec p ex st) as [->|(? & ? & ? & ->)]; [done|by apply shares_ok_insert_grant].
  - destruct (revoke_cases now owner id st) as [->|(g & ? & ? & ? & ? & ->)]; [done|by apply shares_ok_revoke].
  - by apply shares_ok_drop.
Qed.

Lemma shares_ok_history ops st : shares_ok st -> shares_ok (history ops st).
Proof.
  intros Hst. induction ops as [|op ops IH] using rev_ind; [done|]. rewrite history_snoc. by apply shares_ok_step.
Qed.

Definition no_shares : shares := mkShares ∅ ∅.

Lemma no_shares_ok : shares_ok no_shares.
Proof. by split; cbn; intros; rewrite ?lookup_empty in *. Qed.

(** ** Redemption *)

Lemma redeem_inactive authorized_at now recipient token p st :
  (forall k g, grants st !! k = Some g -> token_hash g = _token_hash pepper token ->
     recipient_user_id g <> recipient \/ purpose g <> p \/ revoked_at g <> None \/ g_expires_at g <= authorized_at) ->
  redeem pepper authorized_at now recipient token p st = Ok None.
Proof.
  intros Hno. unfold redeem. destruct (_ || _); [done|]. rewrite rowcount_none; [done|].
  intros k g Hk. destruct (redeemable _ _ _ _ k g) eqn:Hr; [|done]. unfold redeemable in Hr. bool_to_prop.
  destruct (Hno k g Hk) as [|[|[|]]]; try done. lia.
Qed.

(** A bundle that passes: it decodes, its manifest names the export and the run, both digests
    are those of the row, and the sections show nothing to redact. *)
Record verified (export_id : string) (x : RunExportRow) (bundle manifest : list (string * json)) : Prop := {
  v_text : loads (bundle_json x) = Some (JObj bundle);
  v_keys : keys_are BUNDLE_KEYS bundle = true;
  v_manifest : get_item "manifest" bundle = Some (JObj manifest);
  v_export : get_item "export_id" manifest = Some (JStr export_id);
  v_run : get_item "run_id" manifest = Some (JStr (x_run_id x));
  v_core : sha256_hex (dumps (JObj (without_key "manifest_checksum" manifest))) = manifest_checksum x;
  v_content : sha256_hex (dumps (JObj (without_key "manifest" bundle))) = content_checksum x;
  v_clean : exists s, scan None (JObj (without_key "manifest" bundle)) = Some s /\ redaction_count s = 0
}.

Lemma is_str_spec t v : is_str t v = true -> v = Some (JStr t).
Proof. destruct v as [[]|]; try done. cbn. intros ->%string_eqb_spec. done. Qed.

Lemma checksum_Ok v c : _checksum v = Ok c -> sha256_hex (dumps v) = c.
Proof. intros (t & (u & _ & [= <-])%bind_Ok & [= <-])%bind_Ok. done. Qed.

Lemma verify_bundle_Ok id x v : _verify_bundle id x = Ok v -> exists bundle manifest, v = JObj bundle /\ verified id x bundle manifest.
Proof.
  unfold _verify_bundle. destruct (loads (bundle_json x)) as [[| | | | | |bundle]|] eqn:Hl; try done.
  intros (u & Hkeys%require_Ok & H)%lift_err_Ok%bind_Ok. destruct (get_item "manifest" bundle) as [[| | | | | |manifest]|] eqn:Hm; try done.
  apply bind_Ok in H as (u1 & Hman & (u2 & Hsec & [= <-])%bind_Ok). exists bundle, manifest. split; [done|].
  apply bind_Ok in Hman as (u3 & _ & (u4 & Hbind%require_Ok & (core & Hcore%checksum_Ok & Hd%require_Ok)%bind_Ok)%bind_Ok).
  unfold checked_sections in Hsec. destruct (Disclosure.scan _ _) as [s|] eqn:Hs; [|done].
  apply bind_Ok in Hsec as (u5 & Hclean%require_Ok & (cs & _ & (content & Hcontent%checksum_Ok & Hc%require_Ok)%bind_Ok)%bind_Ok).
  bool_to_prop. split; try done; try by apply is_str_spec. all: try congruence. by exists s.
Qed.

Lemma rowcount_token st k g h recipient p authorized_at : shares_ok st -> grants st !! k = Some g -> token_hash g = h ->
  rowcount (redeemable h recipient p authorized_at) (grants st) = if redeemable h recipient p authorized_at k g then 1%nat else 0%nat.
Proof.
  intros Hok Hk Hh. apply rowcount_at; [|done]. intros k' g' Hk' Hr. unfold redeemable in Hr. bool_to_prop.
  eapply (tokens_unique _ Hok); [done..|congruence].
Qed.

Lemma scalar_token st k g h : shares_ok st -> grants st !! k = Some g -> token_hash g = h -> scalar (same_token h) (grants st) = Some (k, g).
Proof.
  intros Hok Hk Hh. unfold scalar. rewrite (select_where_unique _ _ k g); [done| |done|by apply string_eqb_spec].
  intros k' g' Hk' Ht%string_eqb_spec. eapply (tokens_unique _ Hok); [done..|congruence].
Qed.

(** The redemption that answers. *)
Lemma redeem_Some authorized_at now recipient token p st v : shares_ok st ->
  redeem pepper authorized_at now recipient token p st = Ok (Some v) <->
  token <> ""%string /\ exists k g x, grants st !! k = Some g /\ token_hash g = _token_hash pepper token /\ recipient_user_id g = recipient
    /\ purpose g = p /\ revoked_at g = None /\ authorized_at < g_expires_at g /\ now < g_expires_at g
    /\ exports st !! g_export_id g = Some x /\ _verify_bundle (g_export_id g) x = Ok v.
Proof.
  intros Hok. unfold redeem. split.
  - destruct (_ || _) eqn:Hp; [done|]. intros H. bool_to_prop. split; [done|].
    destruct (scalar (same_token (_token_hash pepper token)) (grants st)) as [[k g]|] eqn:Hs; [|by destruct (negb _)].
    apply scalar_Some in Hs as [Hk Hh%string_eqb_spec]. rewrite (rowcount_token _ _ _ _ _ _ _ Hok Hk Hh) in H.
    destruct (redeemable _ _ _ _ k g) eqn:Hr; [|done]. unfold redeemable in Hr. cbn [negb Nat.eqb] in H.
    destruct (exports st !! g_export_id g) as [x|] eqn:Hx; [|done]. apply bind_Ok in H as (b & Hb & H).
    destruct (_ || _) eqn:Ht in H; [done|]. injection H as ->. bool_to_prop. exists k, g, x. split_and!; try done; lia.
  - intros (Htoken & k & g & x & Hk & Hh & <- & <- & Hrev & Ha & Hn & Hx & Hv).
    rewrite (rowcount_token _ _ _ _ _ _ _ Hok Hk Hh), (scalar_token _ _ _ _ Hok Hk Hh), Hx, Hv.
    pose proof (grant_purpose _ _ (grants_ok _ Hok _ _ Hk)) as Hp. unfold redeemable. rewrite Hrev, Hh, !string_eqb_refl.
    rewrite (bool_decide_eq_true_2 _ Hp), (proj2 (Z.ltb_lt _ _) Ha), (proj2 (Z.leb_gt _ _) Hn).
    rewrite (proj2 (string_eqb_neq token "") Htoken). done.
Qed.

End proofs.

(** ** Reading every event *)

Lemma each_length {A B} (f : A -> result ledger_error B) l ys : each f l = Ok ys -> length ys = length l.
Proof.
  revert ys. induction l as [|x l IH]; intros ys H; [by injection H as <-|].
  apply bind_Ok in H as (y & _ & (zs & Hz & [= <-])%bind_Ok). cbn. by rewrite (IH zs).
Qed.

Lemma each_take_drop {A B} (f : A -> result ledger_error B) l ys n : each f l = Ok ys ->
  each f (take n l) = Ok (take n ys) /\ each f (drop n l) = Ok (drop n ys).
Proof.
  revert ys n. induction l as [|x l IH]; intros ys n H; [injection H as <-; by rewrite !take_nil, !drop_nil|].
  pose proof H as Hall. apply bind_Ok in H as (y & Hy & (zs & Hz & [= <-])%bind_Ok). destruct n as [|n]; [done|].
  destruct (IH zs n Hz) as [Ht Hd]. cbn. by rewrite Hy, Ht.
Qed.

Lemma each_lookup {A B} (f : A -> result ledger_error B) l ys i y : each f l = Ok ys -> ys !! i = Some y -> exists x, l !! i = Some x /\ f x = Ok y.
Proof.
  revert ys i. induction l as [|x l IH]; intros ys i H Hi; [injection H as <-; by rewrite lookup_nil in Hi|].
  apply bind_Ok in H as (z & Hz & (zs & Hzs & [= <-])%bind_Ok). destruct i as [|i]; [injection Hi as <-; by exists x|]. by apply (IH zs i).
Qed.

Section reading.
Context (st : ledger) (owner run : string).

(** The events of the run after a place, in order. *)
Definition later (after : Z) : list ((string * Z) * RuntimeEventRow) :=
  merge_sort by_sequence (select_where (event_after owner run after) (events st)).

#[local] Instance by_sequence_trans : Transitive by_sequence.
Proof. intros a b c. unfold by_sequence. lia. Qed.
#[local] Instance by_sequence_total : Total by_sequence.
Proof. intros a b. unfold by_sequence. lia. Qed.

Lemma later_elem after k e : (k, e) ∈ later after <-> events st !! k = Some e /\ k.1 = run /\ e_user e = owner /\ after < k.2.
Proof.
  unfold later. rewrite merge_sort_Permutation, select_where_elem. unfold event_after. rewrite andb_true_iff, bool_decide_eq_true, Z.ltb_lt. tauto.
Qed.

Lemma later_NoDup after : NoDup (later after).
Proof. unfold later. rewrite merge_sort_Permutation. apply NoDup_map_to_list. Qed.

Lemma later_sorted after : StronglySorted by_sequence (later after).
Proof. apply StronglySorted_merge_sort; apply _. Qed.

Lemma later_antisymm after after' x y : x ∈ later after -> y ∈ later after' -> by_sequence x y -> by_sequence y x -> x = y.
Proof.
  destruct x as [[r s] e], y as [[r' s'] e']. intros (He & Hr & _)%later_elem (He' & Hr' & _)%later_elem. unfold by_sequence. cbn in *.
  intros. assert (s = s') as -> by lia. subst. congruence.
Qed.

Lemma strongly_sorted_lookup {A} (R : A -> A -> Prop) l i j x y : StronglySorted R l -> l !! i = Some x -> l !! j = Some y -> (i < j)%nat -> R x y.
Proof.
  intros Hs. revert i j. induction Hs as [|z l _ IH Hz]; intros i j Hi Hj Hij; [by rewrite lookup_nil in Hi|].
  destruct j as [|j]; [lia|]. destruct i as [|i].
  - injection Hi as <-. rewrite Forall_forall in Hz. apply Hz. by eapply list_elem_of_lookup_2.
  - apply (IH i j); [done|done|lia].
Qed.

Lemma later_strict after i j x y : later after !! i = Some x -> later after !! j = Some y -> (i < j)%nat -> x.1.2 < y.1.2.
Proof.
  intros Hi Hj Hij. pose proof (strongly_sorted_lookup _ _ _ _ _ _ (later_sorted after) Hi Hj Hij) as Hle. unfold by_sequence in Hle.
  destruct (decide (x.1.2 = y.1.2)) as [He|]; [|lia]. assert (x = y) as ->.
  { apply (later_antisymm after after); [by eapply list_elem_of_lookup_2..| |]; unfold by_sequence; lia. }
  pose proof (NoDup_lookup _ _ _ _ (later_NoDup after) Hi Hj). lia.
Qed.

(** A page starts where the previous one stopped. *)
Lemma later_drop after i x : later after !! i = Some x -> later (x.1.2) = drop (S i) (later after).
Proof.
  intros Hi. assert (x ∈ later after) as Hx by by eapply list_elem_of_lookup_2.
  eapply (StronglySorted_unique_strong by_sequence).
  - intros a b Ha Hb. apply (later_antisymm (x.1.2) after); [done|]. apply list_elem_of_lookup in Hb as [j Hb]. rewrite lookup_drop in Hb. by eapply list_elem_of_lookup_2.
  - apply later_sorted.
  - pose proof (later_sorted after) as Hs. rewrite <- (take_drop (S i) (later after)) in Hs. by apply StronglySorted_app_1_r in Hs.
  - apply NoDup_Permutation; [apply later_NoDup| |].
    + pose proof (later_NoDup after) as Hn. rewrite <- (take_drop (S i) (later after)) in Hn. by apply NoDup_app in Hn as (_ & _ & Hn).
    + intros [k e]. split.
      * intros (He & Hk & Ho & Hlt)%later_elem. assert ((k, e) ∈ later after) as [j Hj]%list_elem_of_lookup.
        { destruct x as [kx ex]. apply later_elem in Hx as (_ & _ & _ & Ha). apply later_elem. cbn in *. split_and!; try done. lia. }
        destruct (decide (j <= i)%nat) as [Hle|]; [|apply list_elem_of_lookup; exists (j - S i)%nat; rewrite lookup_drop; by replace (S i + (j - S i))%nat with j by lia].
        destruct (decide (j = i)) as [->|]; [|pose proof (later_strict _ _ _ _ _ Hj Hi ltac:(lia)); cbn in *; lia].
        assert ((k, e) = x) as <- by congruence. cbn in Hlt. lia.
      * intros [j Hj]%list_elem_of_lookup. rewrite lookup_drop in Hj. pose proof (later_strict _ _ _ _ _ Hi Hj ltac:(lia)) as Hlt.
        assert ((k, e) ∈ later after) as (He & Hk & Ho & _)%later_elem by by eapply list_elem_of_lookup_2. by apply later_elem.
Qed.

(** The last sequence of the first [c] events. *)
Definition after_of (c : nat) : Z := match c with O => 0 | S c' => match later 0 !! c' with Some x => x.1.2 | None => 0 end end.

Lemma later_after_of c : (c <= length (later 0))%nat -> later (after_of c) = drop c (later 0) /\ 0 <= after_of c.
Proof.
  destruct c as [|c]; [intros _; split; [by rewrite drop_0|done]|]. intros Hc. cbn.
  destruct (lookup_lt_is_Some_2 (later 0) c ltac:(lia)) as [x Hx]. rewrite Hx. split; [by apply later_drop|].
  destruct x as [k e]. assert ((k, e) ∈ later 0) as H by by eapply list_elem_of_lookup_2. apply later_elem in H. cbn. lia.
Qed.

Context (items : list RunEventRecord).
Hypothesis (owned : is_Some (scalar (owned_run run owner) (runs st)))
  (decoded : each (fun ke => _event_record ke.1 ke.2) (later 0) = Ok items).

Lemma items_length : length items = length (later 0).
Proof using decoded. exact (each_length _ _ _ decoded). Qed.

Lemma record_sequence key e r : _event_record key e = Ok r -> ev_sequence r = key.2.
Proof. unfold _event_record. repeat case_match; try done. by intros [= <-]. Qed.

Lemma read_page c limit : (c <= length items)%nat -> 1 <= limit <= MAX_PAGE ->
  list_events owner run limit (after_of c) st = Ok (Some (take (Z.to_nat limit) (drop c items))).
Proof using owned decoded.
  intros Hc Hl. rewrite items_length in Hc. destruct (later_after_of c Hc) as [Hlater H0]. unfold list_events, _bounded_page, page_ok, require.
  rewrite (proj2 (Z.leb_le 1 limit)), (proj2 (Z.leb_le limit MAX_PAGE)), (proj2 (Z.leb_le 0 _)) by lia. cbn [andb mbind result_bind].
  destruct owned as [kr ->]. fold (later (after_of c)). rewrite Hlater.
  destruct (each_take_drop _ _ _ c decoded) as [_ Hd]. by destruct (each_take_drop _ _ _ (Z.to_nat limit) Hd) as [-> _].
Qed.

Lemma after_items c m e : (c + m <= length items)%nat -> last (take m (drop c items)) = Some e -> ev_sequence e = after_of (c + m).
Proof using decoded.
  intros Hc. rewrite last_lookup, length_take, length_drop. destruct m as [|m]; [by rewrite take_0|].
  intros He. apply lookup_take_Some in He as [He _]. rewrite lookup_drop in He. destruct (each_lookup _ _ _ _ _ decoded He) as (x & Hx & Hr).
  rewrite (record_sequence _ _ _ Hr). replace (c + S m)%nat with (S (c + m)) by lia. cbn [after_of].
  assert (later 0 !! (c + m)%nat = Some x) as ->; [|done]. rewrite <- Hx. f_equal. lia.
Qed.

Lemma read_probe c n : (c <= length items)%nat ->
  (page ← lift_ledger (list_events owner run 1 (after_of c) st);
   Ok (Some (take c items, match page with Some (_ :: _) => true | _ => false end, S n)))
  = Ok (Some (take c items, bool_decide (c < length items)%nat, S n)).
Proof using owned decoded.
  intros Hc. rewrite read_page by done. cbn. change (Pos.to_nat 1) with 1%nat. do 4 f_equal.
  destruct (decide (c < length items)%nat) as [Hlt|Hge].
  - rewrite bool_decide_eq_true_2 by done. destruct (drop c items) as [|y l] eqn:Hd; [|done].
    apply (f_equal length) in Hd. rewrite length_drop in Hd. cbn in Hd. lia.
  - rewrite bool_decide_eq_false_2 by done. by rewrite drop_ge by lia.
Qed.

Lemma read_pages fuel c n : Z.of_nat c + 200 * Z.of_nat fuel = _MAX_EVENTS -> (c <= length items)%nat ->
  exists n', pages (fun _ => st) fuel owner run (take c items) (after_of c) n = Ok (Some (take (Z.to_nat _MAX_EVENTS) items, bool_decide (_MAX_EVENTS < Z.of_nat (length items)), n')).
Proof using owned decoded.
  revert c n. induction fuel as [|fuel IH]; intros c n Hf Hc; cbn [pages].
  - unfold _MAX_EVENTS in *. assert (Z.to_nat 10000 = c) as -> by lia. eexists. rewrite read_probe by done. do 4 f_equal. apply bool_decide_ext. lia.
  - rewrite length_take, Nat.min_l by done. unfold _MAX_EVENTS in *. rewrite (proj2 (Z.leb_gt 10000 (Z.of_nat c))) by lia.
    rewrite Z.min_l by lia. rewrite read_page by (unfold MAX_PAGE; lia || done). cbn [lift_ledger lift_err mbind result_bind].
    change (Z.to_nat 200) with 200%nat. set (page := take 200 (drop c items)).
    assert (length page = Nat.min 200 (length items - c)) as Hlen by (unfold page; by rewrite length_take, length_drop).
    destruct (decide (c + 200 <= length items)%nat) as [Hfull|Hlast].
    + destruct page as [|y l] eqn:Hp; [change (length []) with 0%nat in Hlen; lia|]. rewrite <- Hp in *. rewrite (proj2 (Z.ltb_ge _ _)) by lia.
      destruct (IH (c + 200)%nat (S n)) as [n' Hn]; [lia|lia|]. exists n'. rewrite <- Hn. unfold page.
      rewrite <- take_take_drop. f_equal. destruct (last (take 200 (drop c items))) as [e|] eqn:He; [by rewrite (after_items _ _ _ Hfull He)|].
      apply last_None in He. fold page in He. rewrite He in Hlen. change (length []) with 0%nat in Hlen. lia.
    + rewrite bool_decide_eq_false_2, (take_ge items (Z.to_nat 10000)) by lia. assert (items = take c items ++ page)%list as Hall.
      { unfold page. rewrite take_take_drop. by rewrite take_ge by lia. }
      destruct page as [|y l] eqn:Hp; [exists (S n); rewrite app_nil_r in Hall; by rewrite <- Hall|].
      rewrite <- Hp in *. rewrite (proj2 (Z.ltb_lt _ _)) by lia. exists (S n). by rewrite <- Hall.
Qed.
End reading.
