(* ===== verification/RunExportLaws.v ===== *)
(** * Laws of run exports and share grants

    What [RunExports] guarantees: a bundle that was created can be read back exactly when its
    redacted content passes a second scan, altered bundles are refused, grants give access to
    their recipient only, for their purpose, until they expire or are revoked. *)

From Stdlib Require Import ZArith Lia String Ascii QArith.
From stdpp Require Import base gmap strings list sorting pretty.
From S2P Require Import Prelude Strings Sql Json JsonText Sha256 MonetaryLedger BudgetedProvider EffectIdentity Redaction Disclosure RunLedger RunLedgerLaws RunExports.
Open Scope Z_scope.

Lemma scan_disclosed nlp v r : Disclosure.scan nlp v = Some r -> disclosed r = disclose nlp v.
Proof. unfold Disclosure.scan. rewrite visit_spec, allow_bind. destruct (_ && admissible nlp v); [|done]. by intros [= <-]. Qed.

#[local] Opaque sha256_hex hmac_hex hmac_sha256 sha256 urlsafe_b64 Disclosure.scan.

(** ** Canonical values *)

#[local] Instance member_le_total : Total member_le.
Proof. intros a b. apply String.leb_total. Qed.
#[local] Instance member_le_trans : Transitive member_le.
Proof. intros a b c. apply string_leb_trans. Qed.

Lemma member_sort_idem (l : list (string * json)) : NoDup (fst <$> l) -> merge_sort member_le (merge_sort member_le l) = merge_sort member_le l.
Proof.
  intros Hn. eapply (StronglySorted_unique_strong member_le); [|apply StronglySorted_merge_sort; apply _..|apply merge_sort_Permutation].
  intros [k v] [k' v'] Hx Hy Hle Hle'. rewrite merge_sort_Permutation in Hx, Hy. rewrite merge_sort_Permutation in Hx. assert (k = k') as -> by by apply String.leb_antisym.
  apply list_elem_of_lookup in Hx as [i Hi], Hy as [j Hj].
  assert (i = j) as ->; [|congruence]. eapply NoDup_lookup; [exact Hn| |]; rewrite list_lookup_fmap; [by rewrite Hi|by rewrite Hj].
Qed.

Lemma canon_idem v : plain v = true -> canon (canon v) = canon v.
Proof.
  induction v as [| | | | |l IH|kvs IH] using json_nested_ind; intros Hp; [done..| |].
  - rewrite !canon_arr. f_equal. pose proof (plain_arr _ Hp) as Hl. rewrite <- list_fmap_compose.
    apply list_fmap_ext. intros i x Hx%list_elem_of_lookup_2. rewrite Forall_forall in IH, Hl. cbn. auto.
  - destruct (plain_obj _ Hp) as [Hn Hl]. rewrite !canon_obj. f_equal. set (s := prod_map id canon <$> kvs).
    assert (fst <$> s = fst <$> kvs) as Hk by (unfold s; by rewrite <- list_fmap_compose).
    assert (prod_map id canon <$> merge_sort member_le s = merge_sort member_le s) as ->; [|apply member_sort_idem; by rewrite Hk].
    rewrite <- (list_fmap_id (merge_sort member_le s)) at 2. apply list_fmap_ext. intros i [k x] Hx%list_elem_of_lookup_2.
    rewrite merge_sort_Permutation in Hx. apply list_elem_of_fmap in Hx as ([k' x'] & [= -> ->] & Hin).
    rewrite Forall_forall in IH, Hl. cbn. unfold id. specialize (IH _ Hin (proj2 (Hl _ Hin))). cbn in IH. by rewrite IH.
Qed.

Lemma dumps_same v w : canon v = canon w -> dumps v = dumps w.
Proof. intros H. unfold dumps. by rewrite !dumps_canon, H. Qed.

Lemma loads_canonical v : plain v = true -> loads (dumps v) = Some (canon v).
Proof.
  intros Hp. unfold dumps. rewrite dumps_canon. exact (loads_written escape escape_readable (canon v) (canon_plain v Hp)).
Qed.

Lemma float_text_finite t : float_text t = true -> finite_repr t = true.
Proof.
  intros Ht. apply bool_decide_eq_true. intros He.
  repeat (apply elem_of_cons in He as [->|He]; [vm_compute in Ht; discriminate|]). by apply not_elem_of_nil in He.
Qed.

Lemma plain_encodable v : plain v = true -> encodable v = true /\ finite_json v = true.
Proof.
  induction v as [| | |t| |l IH|kvs IH] using json_nested_ind; intros Hp; [done|done|by split| |done| |].
  - split; [done|by apply float_text_finite].
  - pose proof (plain_arr _ Hp) as Hl. clear Hp. cbn [encodable finite_json].
    induction IH as [|x l Hx _ IHl]; [done|]. apply Forall_cons in Hl as [H1 H2]. by destruct (Hx H1) as [-> ->], (IHl H2) as [-> ->].
  - destruct (plain_obj _ Hp) as [_ Hl]. clear Hp. cbn [encodable finite_json].
    induction IH as [|[k x] l Hx _ IHl]; [done|]. apply Forall_cons in Hl as [[_ H1] H2]. cbn in Hx, H1; by destruct (Hx H1) as [-> ->], (IHl H2) as [-> ->].
Qed.

Lemma checksum_plain v : plain v = true -> _checksum v = Ok (sha256_hex (dumps v)).
Proof. intros Hp. unfold _checksum, _canonical. by destruct (plain_encodable v Hp) as [-> ->]. Qed.

(** ** The members of a bundle, in the order of their keys *)

Lemma bundle_members m a b c d e f :
  canon (JObj [("manifest", m); ("run", a); ("events", b); ("context", c); ("citations", d); ("evaluations", e); ("omissions", f)]%string)
  = JObj [("citations", canon d); ("context", canon c); ("evaluations", canon e); ("events", canon b); ("manifest", canon m);
          ("omissions", canon f); ("run", canon a)]%string.
Proof. rewrite canon_obj. reflexivity. Qed.

Lemma section_members a b c d e f :
  canon (JObj [("run", a); ("events", b); ("context", c); ("citations", d); ("evaluations", e); ("omissions", f)]%string)
  = JObj [("citations", canon d); ("context", canon c); ("evaluations", canon e); ("events", canon b); ("omissions", canon f); ("run", canon a)]%string.
Proof. rewrite canon_obj. reflexivity. Qed.

Lemma manifest_members a b c d e f g h i :
  canon (JObj [("format", a); ("schema_version", b); ("export_id", c); ("run_id", d); ("created_at", e); ("disclosure_scan", f);
               ("content_checksum", g); ("checksums", h); ("manifest_checksum", i)]%string)
  = JObj [("checksums", canon h); ("content_checksum", canon g); ("created_at", canon e); ("disclosure_scan", canon f);
          ("export_id", canon c); ("format", canon a); ("manifest_checksum", canon i); ("run_id", canon d); ("schema_version", canon b)]%string.
Proof. rewrite canon_obj. reflexivity. Qed.

Lemma core_members a b c d e f g h :
  canon (JObj [("format", a); ("schema_version", b); ("export_id", c); ("run_id", d); ("created_at", e); ("disclosure_scan", f);
               ("content_checksum", g); ("checksums", h)]%string)
  = JObj [("checksums", canon h); ("content_checksum", canon g); ("created_at", canon e); ("disclosure_scan", canon f);
          ("export_id", canon c); ("format", canon a); ("run_id", canon d); ("schema_version", canon b)]%string.
Proof. rewrite canon_obj. reflexivity. Qed.

(** The sections of an export, with their values. *)
Definition sections6 (a b c d e f : json) : list (string * json) :=
  [("run", a); ("events", b); ("context", c); ("citations", d); ("evaluations", e); ("omissions", f)]%string.

Section round_trip.
Context (a b c d e f : json) (id owner run : string) (now : Z) (s : DisclosureResult).
Hypothesis (scanned : disclosed s = JObj (sections6 a b c d e f)) (sections_plain : plain (disclosed s) = true)
  (id_ascii : is_ascii id = true) (run_ascii : is_ascii run = true) (types_ascii : forallb is_ascii (redaction_types s) = true)
  (count_printable : int_printable (redaction_count s) = true) (date_ascii : is_ascii (isoformat now) = true).

Definition digest (v : json) : string := sha256_hex (dumps v).

Definition checksums6 : list (string * json) :=
  [("run", JStr (digest a)); ("events", JStr (digest b)); ("context", JStr (digest c)); ("citations", JStr (digest d));
   ("evaluations", JStr (digest e)); ("omissions", JStr (digest f))]%string.

Definition core : list (string * json) := manifest_core id run now (redaction_count s) (redaction_types s) (digest (disclosed s)) checksums6.

Definition exported : json := bundle_of core (digest (JObj core)) (sections6 a b c d e f).

Lemma sections_each : plain a = true /\ plain b = true /\ plain c = true /\ plain d = true /\ plain e = true /\ plain f = true.
Proof using scanned sections_plain.
  rewrite scanned in sections_plain. apply plain_obj in sections_plain as [_ Hl].
  repeat (apply Forall_cons in Hl as [[_ ?] Hl]). done.
Qed.

Lemma digest_ascii v : is_ascii (digest v) = true.
Proof. apply hex64_ascii, sha256_hex_shape. Qed.

Lemma texts_plain (l : list string) : forallb is_ascii l = true -> plain (JArr (JStr <$> l)) = true.
Proof. cbn [plain]. induction l as [|x l IH]; [done|]. cbn. intros [-> Hl]%andb_true_iff. by apply IH. Qed.

Lemma core_plain : plain (JObj core) = true.
Proof using id_ascii run_ascii types_ascii count_printable date_ascii.
  unfold core, manifest_core, checksums6. cbn [plain]. rewrite !digest_ascii, id_ascii, run_ascii, date_ascii, count_printable.
  pose proof (texts_plain _ types_ascii) as Ht. cbn [plain] in Ht. rewrite Ht. reflexivity.
Qed.

Lemma exported_plain : plain exported = true.
Proof using scanned sections_plain id_ascii run_ascii types_ascii count_printable date_ascii.
  unfold exported, bundle_of, sections6. destruct sections_each as (Ha & Hb & Hc & Hd & He & Hf).
  assert (plain (JObj (core ++ [("manifest_checksum"%string, JStr (digest (JObj core)))])) = true) as Hm.
  { unfold core at 1, manifest_core, checksums6. cbn [plain app]. rewrite !digest_ascii, id_ascii, run_ascii, date_ascii, count_printable.
    pose proof (texts_plain _ types_ascii) as Ht. cbn [plain] in Ht. rewrite Ht. reflexivity. }
  revert Hm. generalize (JObj (core ++ [("manifest_checksum"%string, JStr (digest (JObj core)))])). intros m Hm.
  cbn [plain]. rewrite Hm, Ha, Hb, Hc, Hd, He, Hf. reflexivity.
Qed.

Definition exported_row : RunExportRow :=
  mkExport owner run EXPORT_SCHEMA_VERSION (dumps exported) (digest (disclosed s)) (digest (JObj core)) now.

Lemma export_row_spec : export_row id owner run now s = Ok exported_row.
Proof using scanned sections_plain id_ascii run_ascii types_ascii count_printable date_ascii.
  unfold export_row. rewrite scanned. destruct sections_each as (Ha & Hb & Hc & Hd & He & Hf).
  assert (checksums_of (sections6 a b c d e f) = Ok checksums6) as ->.
  { unfold sections6. cbn [checksums_of]. by rewrite !checksum_plain by done. }
  cbn [mbind result_bind]. rewrite <- scanned, checksum_plain by done. cbn [mbind result_bind]. fold (digest (disclosed s)).
  fold core. rewrite checksum_plain by exact core_plain. cbn [mbind result_bind]. fold (digest (JObj core)). fold exported.
  unfold _canonical. by destruct (plain_encodable _ exported_plain) as [-> ->].
Qed.

(** The decoded manifest. *)
Definition manifest_read : list (string * json) :=
  [("checksums", canon (JObj checksums6)); ("content_checksum", JStr (digest (disclosed s))); ("created_at", JStr (isoformat now));
   ("disclosure_scan", canon (JObj [("performed", JBool true); ("redaction_count", JInt (redaction_count s));
                                    ("redaction_types", JArr (JStr <$> redaction_types s))]));
   ("export_id", JStr id); ("format", JStr "cogentrex.run-export"); ("manifest_checksum", JStr (digest (JObj core)));
   ("run_id", JStr run); ("schema_version", JInt EXPORT_SCHEMA_VERSION)]%string.

Definition sections_read : list (string * json) :=
  [("citations", canon d); ("context", canon c); ("evaluations", canon e); ("events", canon b); ("omissions", canon f); ("run", canon a)]%string.

Lemma exported_canon : canon exported =
  JObj [("citations", canon d); ("context", canon c); ("evaluations", canon e); ("events", canon b); ("manifest", JObj manifest_read);
        ("omissions", canon f); ("run", canon a)]%string.
Proof.
  unfold exported, bundle_of, sections6. rewrite bundle_members. unfold core at 1, manifest_core. cbn [app].
  by rewrite manifest_members.
Qed.

Lemma sections_canon : canon (disclosed s) = JObj sections_read.
Proof using scanned. rewrite scanned. apply section_members. Qed.

Lemma manifest_core_canon : JObj (without_key "manifest_checksum" manifest_read) = canon (JObj core).
Proof. unfold core, manifest_core. rewrite core_members. reflexivity. Qed.

Lemma manifest_lookups :
  get_item "format" manifest_read = Some (JStr "cogentrex.run-export") /\ get_item "schema_version" manifest_read = Some (JInt EXPORT_SCHEMA_VERSION)
  /\ get_item "export_id" manifest_read = Some (JStr id) /\ get_item "run_id" manifest_read = Some (JStr run)
  /\ get_item "created_at" manifest_read = Some (JStr (isoformat now)) /\ get_item "manifest_checksum" manifest_read = Some (JStr (digest (JObj core)))
  /\ get_item "content_checksum" manifest_read = Some (JStr (digest (disclosed s))) /\ get_item "checksums" manifest_read = Some (canon (JObj checksums6)).
Proof. split_and!; reflexivity. Qed.

Lemma manifest_checks : checked_manifest id exported_row manifest_read = Ok tt.
Proof using id_ascii run_ascii types_ascii count_printable date_ascii.
  unfold checked_manifest. rewrite manifest_core_canon, checksum_plain by exact (canon_plain _ core_plain).
  assert (dumps (canon (JObj core)) = dumps (JObj core)) as -> by (apply dumps_same, canon_idem, core_plain).
  unfold require. assert (keys_are MANIFEST_KEYS manifest_read = true) as -> by reflexivity.
  destruct manifest_lookups as (-> & -> & -> & -> & -> & -> & _). unfold is_str, exported_row. cbn [x_schema_version x_run_id x_created_at manifest_checksum digest_text].
  fold (digest (JObj core)). rewrite !string_eqb_refl, bool_decide_eq_true_2 by done.
  change ((EXPORT_SCHEMA_VERSION =? EXPORT_SCHEMA_VERSION) && true && equals_one (JInt EXPORT_SCHEMA_VERSION) && true && true && true) with true.
  cbn [mbind result_bind andb]. by rewrite string_eqb_refl.
Qed.

Definition rescan_clean : bool :=
  match scan None (canon (disclosed s)) with Some r => redaction_count r =? 0 | None => false end.

Lemma digest_canon v : plain v = true -> digest (canon v) = digest v.
Proof. intros Hp. unfold digest. f_equal. by apply dumps_same, canon_idem. Qed.

Lemma json_equal_refl v : json_equal v v = true.
Proof. by apply bool_decide_eq_true. Qed.

Lemma sections_checks : checked_sections exported_row manifest_read sections_read = if rescan_clean then Ok tt else Err ExportIntegrityError.
Proof using scanned sections_plain.
  unfold checked_sections, rescan_clean. rewrite <- sections_canon.
  destruct (Disclosure.scan None (canon (disclosed s))) as [r|] eqn:Hr; [|done]. destruct (redaction_count r =? 0) eqn:Hz; [|done].
  rewrite (clean_scan None _ _ Hr) by by bool_to_prop. rewrite json_equal_refl.
  cbn [require andb mbind result_bind]. destruct sections_each as (Ha & Hb & Hc & Hd & He & Hf).
  assert (checksums_of sections_read = Ok [("citations", JStr (digest d)); ("context", JStr (digest c)); ("evaluations", JStr (digest e));
            ("events", JStr (digest b)); ("omissions", JStr (digest f)); ("run", JStr (digest a))]%string) as ->.
  { unfold sections_read. cbn [checksums_of]. rewrite !checksum_plain by by apply canon_plain.
    repeat match goal with |- context [sha256_hex (dumps (canon ?v))] => change (sha256_hex (dumps (canon v))) with (digest (canon v)) end.
    by rewrite !digest_canon by done. }
  cbn [mbind result_bind]. rewrite checksum_plain by by apply canon_plain. fold (digest (canon (disclosed s))). rewrite digest_canon by done.
  destruct manifest_lookups as (_ & _ & _ & _ & _ & _ & -> & ->). unfold is_str, exported_row. cbn [content_checksum].
  cbn [mbind result_bind]. rewrite !string_eqb_refl. unfold json_equal, checksums6. rewrite section_members.
  by rewrite bool_decide_eq_true_2.
Qed.

(** An export reads back, in canonical order, exactly when its content passes a second scan. *)
Lemma exported_row_verifies : _verify_bundle id exported_row = if rescan_clean then Ok (canon exported) else Err ExportIntegrityError.
Proof using scanned sections_plain id_ascii run_ascii types_ascii count_printable date_ascii.
  unfold _verify_bundle. unfold exported_row at 1. cbn [bundle_json]. rewrite (loads_canonical _ exported_plain), exported_canon.
  unfold require. match goal with |- context [keys_are BUNDLE_KEYS ?l] => assert (keys_are BUNDLE_KEYS l = true) as -> by reflexivity end.
  cbn [mbind result_bind]. match goal with |- context [get_item "manifest"%string ?l] => change (get_item "manifest"%string l) with (Some (JObj manifest_read)) end.
  cbn iota. rewrite manifest_checks. cbn [mbind result_bind].
  match goal with |- context [without_key "manifest"%string ?l] => change (without_key "manifest"%string l) with sections_read end.
  rewrite sections_checks. by destruct rescan_clean.
Qed.
End round_trip.

(** *** Dates are ASCII text *)

Lemma is_ascii_app x y : is_ascii (String.append x y) = is_ascii x && is_ascii y.
Proof. apply string_forall_app. Qed.

Lemma digits_ascii x : string_forall is_digit x = true -> is_ascii x = true.
Proof. apply string_forall_impl. by intros [[] [] [] [] [] [] [] []]. Qed.

Lemma pretty_ascii (z : Z) : is_ascii (pretty z) = true.
Proof.
  assert (forall n : N, is_ascii (pretty n) = true) as Hn.
  { intros n. apply digits_ascii. destruct n as [|q]; [done|]. by apply pretty_go_digits. }
  rewrite pretty_abs. destruct (z <? 0); [|apply Hn]. change (is_ascii (String.append "-" (pretty (Z.abs_N z))) = true). rewrite is_ascii_app. apply Hn.
Qed.

Lemma concat_ascii sep l : is_ascii sep = true -> forallb is_ascii l = true -> is_ascii (String.concat sep l) = true.
Proof.
  intros Hs. induction l as [|x l IH]; [done|]. cbn. intros [Hx Hl]%andb_true_iff. destruct l as [|y l]; [done|].
  by rewrite !is_ascii_app, Hx, Hs, IH.
Qed.

Lemma pad_ascii width z : is_ascii (pad_left width z) = true.
Proof.
  unfold pad_left. rewrite is_ascii_app, pretty_ascii, andb_true_r. apply concat_ascii; [done|].
  generalize (width - String.length (pretty z))%nat. intros k. by induction k.
Qed.

Lemma isoformat_ascii t : is_ascii (isoformat t) = true.
Proof.
  unfold isoformat. destruct (civil _) as [[y m] d]. apply concat_ascii; [done|]. cbn [forallb]. rewrite !pad_ascii.
  destruct (_ =? 0); [done|]. by rewrite is_ascii_app, pad_ascii.
Qed.

(** The scan keeps the names of the sections. *)
Lemma sections_scanned a b c d e f r : Disclosure.scan None (JObj (sections6 a b c d e f)) = Some r ->
  disclosed r = JObj (sections6 (disclose None a) (disclose None b) (disclose None c) (disclose None d) (disclose None e) (disclose None f)).
Proof.
  intros ->%scan_disclosed. unfold sections6. rewrite disclose_obj. unfold members_value, member_value. cbn [fmap list_fmap fst snd].
  repeat match goal with |- context [clean_text None ?k] => replace (clean_text None k) with k by (vm_compute; reflexivity) end.
  repeat match goal with |- context [sensitive ?k] => replace (sensitive k) with false by (vm_compute; reflexivity) end. done.
Qed.

(** ** Theorems *)

Lemma owned_export_pins owner id : pins (owned_export owner id) id.
Proof. intros k x H. unfold owned_export in H. by bool_to_prop. Qed.

Lemma gathered_sections float_repr seen context evals owner run v n : gathered float_repr seen context evals owner run = Ok (Some (v, n)) ->
  exists a b c d e f, v = JObj (sections6 a b c d e f).
Proof.
  unfold gathered. intros ([r|] & _ & H)%bind_Ok; [|done]. apply bind_Ok in H as ([[[events truncated] k]|] & _ & H); [|done].
  injection H as <- _. unfold sections_of. by do 6 eexists.
Qed.

(** The row an answer of [create_export] under its own id was stored in. *)
Lemma created_row float_repr seen now id context evals owner run st st' m v n s :
  gathered float_repr seen context evals owner run = Ok (Some (v, n)) -> scan None v = Some s ->
  create_export float_repr seen now id context evals owner run st = (st', Ok (Some m)) -> m_export_id m = id -> exports st !! id = None ->
  exists row, export_row id owner run now s = Ok row /\ st' = mkShares (<[id := row]> (exports st)) (grants st).
Proof.
  intros Hg Hs Hc Hm Hid. unfold create_export in Hc. rewrite Hg in Hc. cbn [mbind result_bind] in Hc. rewrite Hs in Hc.
  destruct (export_row id owner run now s) as [row|e]; [|done]. cbn [mbind result_bind] in Hc. exists row. split; [done|].
  unfold add_export in Hc. destruct (bool_decide (is_Some (runs (seen n) !! run)) && _ && _); [by injection Hc as <- _|].
  destruct (scalar _ _) as [[k x]|] eqn:Hx; [|done]. injection Hc as _ <-. apply scalar_Some in Hx as [Hx _]. cbn in Hm. congruence.
Qed.

(** A stored export, downloaded. *)
Lemma stored_export_download float_repr seen now id context evals owner run st row v n s :
  gathered float_repr seen context evals owner run = Ok (Some (v, n)) -> scan None v = Some s ->
  plain (disclosed s) && is_ascii id && is_ascii run && forallb is_ascii (redaction_types s) && int_printable (redaction_count s) = true ->
  export_row id owner run now s = Ok row ->
  exists manifest sections, disclosed s = JObj sections
    /\ download owner id (mkShares (<[id := row]> (exports st)) (grants st))
       = if rescan_clean s then Ok (Some (canon (JObj (("manifest"%string, manifest) :: sections)))) else Err ExportIntegrityError.
Proof.
  intros Hg Hs Hok Hrow.
  destruct (gathered_sections _ _ _ _ _ _ _ _ Hg) as (a & b & c & d & e & f & ->). pose proof (sections_scanned _ _ _ _ _ _ _ Hs) as Hd.
  bool_to_prop. rewrite (export_row_spec _ _ _ _ _ _ id owner run now s Hd) in Hrow by first [done|apply isoformat_ascii]. injection Hrow as <-.
  eexists _, _. split; [exact Hd|]. unfold download. set (row := exported_row _ _ _ _ _ _ _ _ _ _ _).
  rewrite (scalar_pinned _ _ id row (owned_export_pins owner id)).
  - unfold row. rewrite (exported_row_verifies _ _ _ _ _ _ id owner run now s Hd) by first [done|apply isoformat_ascii]. by destruct (rescan_clean s).
  - apply lookup_insert_eq.
  - unfold owned_export, row. by rewrite !string_eqb_refl.
Qed.

(** The first export of a run, where nothing is stored yet. *)
Lemma first_export float_repr seen now id context evals owner run v n s :
  gathered float_repr seen context evals owner run = Ok (Some (v, n)) -> scan None v = Some s ->
  plain (disclosed s) && is_ascii id && is_ascii run && forallb is_ascii (redaction_types s) && int_printable (redaction_count s) = true ->
  is_Some (runs (seen n) !! run) ->
  exists row, export_row id owner run now s = Ok row /\ x_owner_id row = owner
    /\ create_export float_repr seen now id context evals owner run no_shares = (mkShares {[id := row]} ∅, Ok (Some (_export_metadata id row))).
Proof.
  intros Hg Hs Hok Hrun.
  destruct (gathered_sections _ _ _ _ _ _ _ _ Hg) as (a & b & c & d & e & f & ->). pose proof (sections_scanned _ _ _ _ _ _ _ Hs) as Hd.
  bool_to_prop. pose proof (export_row_spec _ _ _ _ _ _ id owner run now s Hd ltac:(done) ltac:(done) ltac:(done) ltac:(done) ltac:(done) (isoformat_ascii now)) as Hrow.
  eexists. split; [exact Hrow|]. split; [done|]. unfold create_export. rewrite Hg. cbn [mbind result_bind]. rewrite Hs, Hrow. cbn [mbind result_bind].
  unfold add_export. rewrite bool_decide_eq_true_2 by done. rewrite rowcount_none by by intros k r; cbn; rewrite lookup_empty. done.
Qed.

(** C36. An export that was created can be downloaded exactly when its redacted content passes
    the scan once more: its owner then gets the redacted sections it was made of, under a
    manifest, and otherwise an integrity error. *)
Theorem created_export_reads_back (float_repr : Q -> string) (seen : nat -> ledger) (now : Z) (id : string) (context : option ContextSnapshot)
    (evals : list EvalRunRow) (owner run : string) (st st' : shares) (m : ExportMetadata) (v : json) (n : nat) (s : DisclosureResult) :
  gathered float_repr seen context evals owner run = Ok (Some (v, n)) -> scan None v = Some s ->
  plain (disclosed s) && is_ascii id && is_ascii run && forallb is_ascii (redaction_types s) && int_printable (redaction_count s) = true ->
  create_export float_repr seen now id context evals owner run st = (st', Ok (Some m)) -> m_export_id m = id -> exports st !! id = None ->
  exists manifest sections, disclosed s = JObj sections
    /\ download owner id st' = if rescan_clean s then Ok (Some (canon (JObj (("manifest"%string, manifest) :: sections)))) else Err ExportIntegrityError.
Proof.
  intros Hg Hs Hok Hc Hm Hid. destruct (created_row _ _ _ _ _ _ _ _ _ _ _ _ _ _ Hg Hs Hc Hm Hid) as (row & Hrow & ->).
  exact (stored_export_download _ _ _ _ _ _ _ _ st _ _ _ _ Hg Hs Hok Hrow).
Qed.

Lemma revoke_answers now owner id st : (revoke now owner id st).2 = Ok true ->
  exists g, grants st !! id = Some g /\ (revoke now owner id st).1 = mkShares (exports st) (<[id := revoke_row now g]> (grants st)).
Proof.
  assert (pins (revocable owner id) id) as Hpin. { intros k g H. unfold revocable in H. by bool_to_prop. }
  unfold revoke. destruct (existsb _ _); [done|]. cbn. intros [= H]. assert (rowcount (revocable owner id) (grants st) = 1%nat) as Hc.
  { rewrite (rowcount_pinned _ _ _ Hpin) in *. destruct (grants st !! id) as [g|]; [|done]. by destruct (revocable owner id id g). }
  destruct (pinned_hit _ (revoke_row now) _ _ Hpin Hc) as (g & Hg & _ & ->). by exists g.
Qed.

Section grants.
Context (pepper : string) (float_repr : Q -> string).
#[local] Abbreviation reached ops := (history pepper float_repr ops no_shares).

(** C39. After any history of exports, grants, revocations and deletions of runs, every grant
    refers to an export of the same owner, names another, nonempty recipient and one of the
    four purposes, lasts from a minute to seven days and was not revoked before its creation;
    no two grants share a token, and no two exports of a run the same content. *)
Theorem shares_stay_in_order (ops : list share_op) : shares_ok (reached ops).
Proof. apply shares_ok_history, no_shares_ok. Qed.

(** C37. Redemption hands out a bundle in one case only: the token is that of a grant to this
    recipient, for this purpose, neither revoked nor expired when the request comes in and
    when it is answered, and the export, the owner's own and not the recipient's, verifies. *)
Theorem redemption_is_authorized (ops : list share_op) (authorized_at now : Z) (recipient token p : string) (v : json) :
  redeem pepper authorized_at now recipient token p (reached ops) = Ok (Some v) <->
  token <> ""%string /\ exists k g x, grants (reached ops) !! k = Some g /\ token_hash g = _token_hash pepper token
    /\ recipient_user_id g = recipient /\ purpose g = p /\ revoked_at g = None
    /\ authorized_at < g_expires_at g /\ now < g_expires_at g
    /\ exports (reached ops) !! g_export_id g = Some x /\ x_owner_id x = g_owner_id g /\ x_owner_id x <> recipient
    /\ _verify_bundle (g_export_id g) x = Ok v.
Proof.
  assert (shares_ok (reached ops)) as Hok by apply shares_ok_history, no_shares_ok. rewrite redeem_Some by done.
  split; (intros [Ht (k & g & x & Hg & H)]; split; [done|]; exists k, g, x).
  - destruct (grants_ok _ Hok _ _ Hg) as [(y & Hy & Ho) [_ Hr] _ _ _]. destruct H as (? & <- & ? & ? & ? & ? & Hx & ?).
    assert (y = x) as -> by congruence. rewrite Ho. by split_and!.
  - naive_solver.
Qed.

Definition grants_token (hash : string) (op : share_op) : bool :=
  match op with CreateGrant _ _ entropy _ _ _ _ _ => string_eqb (_token_hash pepper (token_of entropy)) hash | _ => false end.

(** Every grant of the token is revoked. *)
Definition spent (hash : string) (st : shares) : Prop := forall k g, grants st !! k = Some g -> token_hash g = hash -> is_Some (revoked_at g).

Lemma spent_step hash op st : grants_token hash op = false -> spent hash st -> spent hash (apply_op pepper float_repr op st).
Proof.
  intros Hop Hst. destruct op as [seen now id c es owner run|now id ent owner x rec p ex|now owner id|run]; cbn [apply_op].
  - destruct (create_export_cases float_repr seen now id c es owner run st) as [->|(y & _ & _ & _ & ->)]; [done|exact Hst].
  - destruct (create_grant_cases pepper now id ent owner x rec p ex st) as [->|(_ & _ & _ & ->)]; [done|]. cbn in Hop.
    intros k g Hk Hh. cbn [grants fst] in Hk. apply lookup_insert_Some in Hk as [[<- <-]|[_ Hk]]; [|by eapply Hst]. apply string_eqb_neq in Hop. done.
  - destruct (revoke_cases now owner id st) as [->|(g & Hg & _ & _ & _ & ->)]; [done|].
    intros k h Hk Hh. cbn [grants fst] in Hk. apply lookup_insert_Some in Hk as [[<- <-]|[_ Hk]]; [done|by eapply Hst].
  - intros k g Hk. cbn [drop_run grants] in Hk. apply map_lookup_filter_Some in Hk as [Hk _]. by apply (Hst k).
Qed.

Lemma spent_history hash ops st : forallb (fun op => negb (grants_token hash op)) ops = true -> spent hash st -> spent hash (history pepper float_repr ops st).
Proof.
  revert st. induction ops as [|op ops IH]; intros st Hops Hst; [done|]. cbn in Hops. apply andb_true_iff in Hops as [Ho%negb_true_iff Hops].
  by apply (IH (apply_op pepper float_repr op st)), spent_step.
Qed.

(** C38. A revocation that answers [true] is final: whatever happens later, short of drawing
    the same token again, redeeming the token of the grant yields nothing, for any recipient,
    purpose and time. *)
Theorem revocation_is_final (ops later : list share_op) (now : Z) (owner id : string) (g : RunShareGrantRow)
    (token recipient p : string) (authorized_at at_end : Z) :
  (revoke now owner id (reached ops)).2 = Ok true -> grants (reached ops) !! id = Some g -> token_hash g = _token_hash pepper token ->
  forallb (fun op => negb (grants_token (token_hash g) op)) later = true ->
  redeem pepper authorized_at at_end recipient token p (history pepper float_repr later (revoke now owner id (reached ops)).1) = Ok None.
Proof.
  intros Hr Hg Ht Hl. assert (shares_ok (reached ops)) as Hok by apply shares_ok_history, no_shares_ok.
  assert (spent (token_hash g) (revoke now owner id (reached ops)).1) as Hs.
  { destruct (revoke_answers _ _ _ _ Hr) as (g' & Hg' & ->). assert (g' = g) as -> by congruence.
    intros k h Hk Hh. cbn [grants fst] in Hk. apply lookup_insert_Some in Hk as [[<- <-]|[Hne Hk]]; [done|]. by destruct Hne; apply (tokens_unique _ Hok _ _ _ _ Hg Hk). }
  apply redeem_inactive. intros k h Hk Hh. right. right. left.
  destruct (spent_history _ _ _ Hl Hs k h Hk) as [t Ht']; congruence.
Qed.
End grants.

(** C40. While nobody writes to the run, the loop over pages collects its events in order, up
    to the limit of 10,000, and says exactly when there are more. *)
Theorem export_reads_every_event (st : ledger) (owner run : string) (items : list RunEventRecord) :
  is_Some (scalar (owned_run run owner) (runs st)) ->
  each (fun ke => _event_record ke.1 ke.2) (later st owner run 0) = Ok items ->
  exists n, _all_events (fun _ => st) owner run 1 =
    Ok (Some (take (Z.to_nat _MAX_EVENTS) items, bool_decide (_MAX_EVENTS < Z.of_nat (length items)), n)).
Proof. intros Ho Hd. exact (read_pages st owner run items Ho Hd PAGES 0 1 eq_refl (Nat.le_0_l _)). Qed.

(** A bundle whose text was changed in place is refused, or SHA-256 has a collision: two texts
    that verify under the same two digests have the same sections and the same manifest. *)
Theorem altered_bundle_is_refused (id : string) (x x' : RunExportRow) (v v' : json) :
  _verify_bundle id x = Ok v -> _verify_bundle id x' = Ok v' ->
  content_checksum x' = content_checksum x -> manifest_checksum x' = manifest_checksum x ->
  exists bundle bundle' manifest manifest', v = JObj bundle /\ v' = JObj bundle'
    /\ get_item "manifest" bundle = Some (JObj manifest) /\ get_item "manifest" bundle' = Some (JObj manifest')
    /\ let sections := dumps (JObj (without_key "manifest" bundle)) in
       let sections' := dumps (JObj (without_key "manifest" bundle')) in
       let core := dumps (JObj (without_key "manifest_checksum" manifest)) in
       let core' := dumps (JObj (without_key "manifest_checksum" manifest')) in
       (sections = sections' \/ collides sha256_hex sections sections') /\ (core = core' \/ collides sha256_hex core core').
Proof.
  intros (b & m & -> & Hb)%verify_bundle_Ok (b' & m' & -> & Hb')%verify_bundle_Ok Hc Hm.
  exists b, b', m, m'. split_and!; [done|done|by destruct Hb|by destruct Hb'|]. destruct Hb, Hb'. cbn zeta. unfold collides.
  split; match goal with |- ?a = ?b \/ _ => destruct (decide (a = b)); [by left|right; split; [done|congruence]] end.
Qed.

(** ** Examples *)

Definition demo_pepper : string := hmac_sha256 "application-secret" _TOKEN_KEY_DOMAIN.
Definition demo_repr (_ : Q) : string := "0.5".
Definition demo_gathered (l : ledger) : json * nat :=
  match gathered demo_repr (fun _ => l) None [] "alice" "r1" with Ok (Some x) => x | _ => (JNull, 0%nat) end.
Definition demo_scan (l : ledger) : DisclosureResult :=
  match Disclosure.scan None (demo_gathered l).1 with Some s => s | None => mkDisclosure JNull 0 [] end.
Definition demo_create (l : ledger) : shares * result export_error (option ExportMetadata) :=
  create_export demo_repr (fun _ => l) 1700000000000000 "x1" None [] "alice" "r1" no_shares.
Definition demo_row (l : ledger) : RunExportRow :=
  match export_row "x1" "alice" "r1" 1700000000000000 (demo_scan l) with Ok row => row | Err _ => mkExport "" "" 0 "" "" "" 0 end.

(** A run whose export can be made: the evidence is read, scanned and plain. *)
Definition exportable (l : ledger) : bool :=
  match gathered demo_repr (fun _ => l) None [] "alice" "r1" with
  | Ok (Some (v, _)) =>
      match Disclosure.scan None v with
      | Some s => plain (disclosed s) && forallb is_ascii (redaction_types s) && int_printable (redaction_count s)
      | None => false
      end
  | _ => false
  end && bool_decide (is_Some (runs l !! "r1"%string)).

Lemma demo_facts l : exportable l = true ->
  gathered demo_repr (fun _ => l) None [] "alice" "r1" = Ok (Some ((demo_gathered l).1, (demo_gathered l).2)) /\ Disclosure.scan None (demo_gathered l).1 = Some (demo_scan l)
  /\ plain (disclosed (demo_scan l)) && is_ascii "x1" && is_ascii "r1" && forallb is_ascii (redaction_types (demo_scan l))
     && int_printable (redaction_count (demo_scan l)) = true
  /\ export_row "x1" "alice" "r1" 1700000000000000 (demo_scan l) = Ok (demo_row l) /\ x_owner_id (demo_row l) = "alice"%string
  /\ demo_create l = (mkShares {[ "x1" := demo_row l ]} ∅, Ok (Some (_export_metadata "x1" (demo_row l)))).
Proof.
  unfold exportable, demo_scan, demo_gathered. intros [He Hr%bool_decide_eq_true]%andb_true_iff.
  destruct (gathered _ _ _ _ _ _) as [[[v n]|]|] eqn:Hg; try done. cbn [fst]. destruct (Disclosure.scan None v) as [s|] eqn:Hs; [|done].
  bool_to_prop. assert (plain (disclosed s) && is_ascii "x1" && is_ascii "r1" && forallb is_ascii (redaction_types s) && int_printable (redaction_count s) = true) as Hok.
  { by rewrite (H : plain (disclosed s) = true), (H1 : forallb is_ascii (redaction_types s) = true), (H0 : int_printable (redaction_count s) = true). }
  destruct (first_export demo_repr (fun _ => l) 1700000000000000 "x1" None [] "alice" "r1" v n s Hg Hs Hok Hr) as (row & Hrow & Ho & Hc).
  assert (demo_row l = row) as Hd. { unfold demo_row, demo_scan, demo_gathered. rewrite Hg. cbn [fst]. by rewrite Hs, Hrow. }
  rewrite Hd. exact (conj eq_refl (conj eq_refl (conj Hok (conj Hrow (conj Ho Hc))))).
Qed.

Lemma created_export_reads_back_witness :
  exists manifest sections, disclosed (demo_scan (demo_ledger 5)) = JObj sections
    /\ download "alice" "x1" (mkShares {[ "x1"%string := demo_row (demo_ledger 5) ]} ∅)
       = if rescan_clean (demo_scan (demo_ledger 5)) then Ok (Some (canon (JObj (("manifest"%string, manifest) :: sections)))) else Err ExportIntegrityError.
Proof.
  destruct (demo_facts (demo_ledger 5) ltac:(vm_compute; reflexivity)) as (Hg & Hs & Hok & _ & _ & Hc).
  exact (created_export_reads_back demo_repr (fun _ => demo_ledger 5) 1700000000000000 "x1" None [] "alice" "r1" no_shares _ _
    (demo_gathered (demo_ledger 5)).1 (demo_gathered (demo_ledger 5)).2 _ Hg Hs Hok Hc eq_refl eq_refl).
Defined.

Example demo_downloads : rescan_clean (demo_scan (demo_ledger 5)) = true.
Proof. vm_compute. reflexivity. Qed.

(** A summary whose redaction completes another pattern: the export is created, and can
    never be downloaded. *)
Definition demo_summary : ledger :=
  (finalize_metadata plain_environment "alice" "r1" "token: token: token: token: abcdefgh" None None (demo_ledger 5)).1.

Example created_but_unreadable :
  is_ok (demo_create demo_summary).2 = true /\ download "alice" "x1" (demo_create demo_summary).1 = Err ExportIntegrityError.
Proof.
  destruct (demo_facts demo_summary ltac:(vm_compute; reflexivity)) as (Hg & Hs & Hok & Hrow & _ & ->). split; [reflexivity|].
  destruct (stored_export_download _ _ _ _ _ _ _ _ no_shares _ _ _ _ Hg Hs Hok Hrow) as (m & l & _ & Hd).
  assert (rescan_clean (demo_scan demo_summary) = false) as Hr by (vm_compute; reflexivity). rewrite Hr in Hd. exact Hd.
Qed.

Definition demo_history : list share_op :=
  [CreateExport (fun _ => demo_ledger 5) 1700000000000000 "x1" None [] "alice" "r1";
   CreateGrant 1700000001000000 "g1" "thirty-two bytes of randomness.." "alice" "x1" "bob" "audit" 3600].
Definition demo_token : string := token_of "thirty-two bytes of randomness..".
Definition demo_grant : RunShareGrantRow :=
  new_grant demo_pepper 1700000001000000 "thirty-two bytes of randomness.." "alice" "x1" "bob" "audit" 3600.
Definition demo_state : shares := mkShares {[ "x1"%string := demo_row (demo_ledger 5) ]} {[ "g1"%string := demo_grant ]}.

Lemma demo_reached : history demo_pepper demo_repr demo_history no_shares = demo_state.
Proof.
  unfold history, demo_history, demo_state. cbn [foldl apply_op].
  destruct (demo_facts (demo_ledger 5) ltac:(vm_compute; reflexivity)) as (_ & _ & _ & _ & Ho & Hc). unfold demo_create in Hc. rewrite Hc. clear Hc.
  generalize dependent (demo_row (demo_ledger 5)). intros row Ho. unfold create_grant. cbn [fst exports grants].
  match goal with |- context [match ?m with Ok _ => _ | Err _ => _ end] => replace m with (Ok tt : result export_error unit) by reflexivity end.
  rewrite (scalar_pinned _ _ "x1"%string row (owned_export_pins "alice" "x1")); [|apply lookup_singleton_eq|unfold owned_export; by rewrite Ho].
  rewrite rowcount_none by by intros k r; rewrite lookup_empty. done.
Qed.

(** The recipient of the grant redeems it, and others do not. *)
Lemma demo_redeems :
  (exists v, redeem demo_pepper 1700000002000000 1700000002000001 "bob" demo_token "audit" demo_state = Ok (Some v))
  /\ redeem demo_pepper 1700000002000000 1700000002000001 "carol" demo_token "audit" demo_state = Ok None.
Proof.
  assert (shares_ok demo_state) as Hok by (rewrite <- demo_reached; apply shares_ok_history, no_shares_ok).
  destruct (demo_facts (demo_ledger 5) ltac:(vm_compute; reflexivity)) as (Hg & Hs & Hp & Hrow & _ & _).
  destruct (stored_export_download _ _ _ _ _ _ _ _ no_shares _ _ _ _ Hg Hs Hp Hrow) as (m & l & _ & Hd). rewrite demo_downloads in Hd.
  split.
  - unfold download in Hd. destruct (scalar _ _) as [[k x]|] eqn:Hx; [|discriminate Hd]. apply scalar_Some in Hx as [Hx Ho].
    cbn [exports no_shares] in Hx. rewrite insert_empty in Hx. apply lookup_singleton_Some in Hx as [<- <-].
    destruct (_verify_bundle "x1" (demo_row (demo_ledger 5))) as [v|] eqn:Hv; [|discriminate Hd].
    exists v. apply redeem_Some; [done|]. split; [by vm_compute|]. exists "g1"%string, demo_grant, (demo_row (demo_ledger 5)).
    exact (conj (lookup_singleton_eq _ _) (conj eq_refl (conj eq_refl (conj eq_refl (conj eq_refl (conj eq_refl (conj eq_refl
      (conj (lookup_singleton_eq _ _) Hv)))))))).
  - apply redeem_inactive. intros k g Hk _. cbn [grants demo_state] in Hk. apply lookup_singleton_Some in Hk as [<- <-]. by left.
Qed.

Lemma revocation_is_final_witness :
  redeem demo_pepper 1700000002000000 1700000002000001 "bob" demo_token "audit"
    (history demo_pepper demo_repr [Revoke 1700000001600000 "alice" "g1"] (revoke 1700000001500000 "alice" "g1"
      (history demo_pepper demo_repr demo_history no_shares)).1) = Ok None.
Proof.
  apply (revocation_is_final demo_pepper demo_repr demo_history [Revoke 1700000001600000 "alice" "g1"] 1700000001500000 "alice" "g1" demo_grant
    demo_token "bob" "audit"); [rewrite demo_reached; reflexivity|rewrite demo_reached; exact (lookup_singleton_eq _ _)|reflexivity|reflexivity].
Defined.

Definition demo_items : list RunEventRecord :=
  match each (fun ke => _event_record ke.1 ke.2) (later (demo_ledger 5) "alice" "r1" 0) with Ok l => l | Err _ => [] end.

Lemma export_reads_every_event_witness : exists n, _all_events (fun _ => demo_ledger 5) "alice" "r1" 1 =
  Ok (Some (take (Z.to_nat _MAX_EVENTS) demo_items, bool_decide (_MAX_EVENTS < Z.of_nat (length demo_items)), n)).
Proof. apply (export_reads_every_event (demo_ledger 5) "alice" "r1" demo_items); [by vm_compute; eexists|vm_compute; reflexivity]. Defined.

Example demo_items_length : length demo_items = 2%nat.
Proof. vm_compute. reflexivity. Qed.
